(** * xemu memory-patch engine: a shallow embedding and its properties

    The development follows the C sources of the patch engine:
    - [ui/xui/virtual-memory-access.c]: guarded access to guest virtual memory;
    - [ui/xemu-patches.c]: the patch database, the saved-value store, patch
      application and restore, the certificate reader with its spam
      prevention, the auto-apply main loop and the post-reset processor,
      and the textual database format;
    - [ui/xui/main-menu.cc]: the Add Game dialog's confirm handler.

    C integers are modelled as [Z] with the wrap-around written out where the
    code relies on unsigned arithmetic; [bool] stays [bool]; C strings are
    [string], a possibly-NULL [char *] is [option string]; arrays with their
    element count are lists.  Global variables are threaded explicitly. *)

From Stdlib Require Import ZArith String Ascii List Lia Bool.
From stdpp Require Import base option list gmap strings pretty.

Open Scope Z_scope.

(** ** Formatting helpers ([printf] conversions used by the sources) *)

Definition hex_digit (n : Z) : ascii :=
  nth (Z.to_nat n)
      ["0"; "1"; "2"; "3"; "4"; "5"; "6"; "7"; "8"; "9";
       "A"; "B"; "C"; "D"; "E"; "F"]%char "0"%char.

(** [%0<n>X] for a value below [16^n]. *)
Fixpoint hex_fixed (n : nat) (v : Z) : string :=
  match n with
  | O => EmptyString
  | S k => hex_fixed k (v / 16) +:+ String (hex_digit (v mod 16)) EmptyString
  end.

(** [snprintf(buf, size, ...)]: at most [size - 1] characters are stored. *)
Definition snprintf (size : Z) (s : string) : string :=
  substring 0 (Z.to_nat (size - 1)) s.

(** [%d] / [%zu] *)
Definition dec (v : Z) : string := pretty v.

Global Arguments snprintf : simpl never.
Global Arguments dec : simpl never.

(** ** Guest memory (QEMU side) *)

Module Guest.

(** One request handed to QEMU's CPU debug accessor. *)
Record mem_access := MemAccess {
  acc_addr : Z;
  acc_size : Z;
  acc_write : bool
}.

(** Modelled from the spec: the Memory Access collaborator
    ([qemu_get_cpu], [cpu_memory_rw_debug], [get_system_memory] and
    [address_space_read] live in QEMU, outside the patch engine).  The guest
    is a flat byte-addressed virtual memory over 64-bit [vaddr]; an access
    succeeds iff every byte of the requested span is mapped, and a failing
    access changes nothing.  [accesses] records, oldest first, every request
    that reached the CPU debug accessor. *)
Record guest := MkGuest {
  cpu_present : bool;        (* qemu_get_cpu(0) != NULL *)
  has_system_memory : bool;  (* get_system_memory() != NULL *)
  phys_readable : bool;      (* address_space_read(0x00010000, 4) == MEMTX_OK *)
  ram : gmap Z Z;            (* mapped virtual bytes *)
  accesses : list mem_access
}.

Definition with_ram (g : guest) (r : gmap Z Z) : guest :=
  MkGuest (cpu_present g) (has_system_memory g) (phys_readable g) r (accesses g).

Definition log_access (g : guest) (a : mem_access) : guest :=
  MkGuest (cpu_present g) (has_system_memory g) (phys_readable g) (ram g)
          (accesses g ++ [a]).

(** Addresses [addr, addr + n). *)
Fixpoint span (addr : Z) (n : nat) : list Z :=
  match n with
  | O => []
  | S k => addr :: span (addr + 1) k
  end.

Fixpoint read_span (r : gmap Z Z) (addr : Z) (n : nat) : option (list Z) :=
  match n with
  | O => Some []
  | S k =>
      match r !! addr, read_span r (addr + 1) k with
      | Some b, Some bs => Some (b :: bs)
      | _, _ => None
      end
  end.

Fixpoint store_span (r : gmap Z Z) (addr : Z) (data : list Z) : gmap Z Z :=
  match data with
  | [] => r
  | b :: bs => store_span (<[addr := b]> r) (addr + 1) bs
  end.

Definition mapped (r : gmap Z Z) (addr : Z) (n : nat) : bool :=
  forallb (fun a => bool_decide (is_Some (r !! a))) (span addr n).

(** Modelled from the spec: [cpu_memory_rw_debug(cpu, addr, buf, size, is_write)];
    returns 0 on success and -1 on failure, the bytes read, and the guest. *)
Definition cpu_memory_rw_debug (g : guest) (addr : Z) (data : list Z) (size : Z)
    (is_write : bool) : Z * list Z * guest :=
  let g1 := log_access g (MemAccess addr size is_write) in
  if is_write then
    let bytes := take (Z.to_nat size) data in
    if mapped (ram g) addr (Z.to_nat size)
    then (0, [], with_ram g1 (store_span (ram g) addr bytes))
    else (-1, [], g1)
  else
    match read_span (ram g) addr (Z.to_nat size) with
    | Some bs => (0, bs, g1)
    | None => (-1, [], g1)
    end.

(** [is_game_currently_running]'s probe: [safe_memory_read(0x00010000, ..., 4)]. *)
Definition safe_memory_read_probe (g : guest) : bool := phys_readable g.

End Guest.
Export Guest.

(** ** ui/xui/virtual-memory-access.c *)

Module VirtualMemory.

Definition XBOX_VIRTUAL_HIGH_MEMORY_END : Z := 0xFFFFFFFF.

Definition xemu_virtual_memory_is_valid_address (addr : Z) : bool :=
  addr <=? XBOX_VIRTUAL_HIGH_MEMORY_END.

(** The caller's error buffer: [None] is a NULL [error_msg]. *)
Definition put_error (error_msg : option string) (error_msg_size : Z)
    (text : string) : option string :=
  match error_msg with
  | Some old => if 0 <? error_msg_size then Some (snprintf error_msg_size text)
                else Some old
  | None => None
  end.

(** [error_msg[0] = '\0'] on success. *)
Definition clear_error (error_msg : option string) (error_msg_size : Z)
    : option string :=
  match error_msg with
  | Some old => if 0 <? error_msg_size then Some EmptyString else Some old
  | None => None
  end.

Definition msg_invalid (virtual_addr : Z) : string :=
  "Invalid virtual address: 0x" +:+ hex_fixed 16 virtual_addr.

Definition msg_failed (what : string) (virtual_addr size : Z) : string :=
  "Failed to " +:+ what +:+ " virtual memory at 0x" +:+ hex_fixed 16 virtual_addr
  +:+ " (size: " +:+ dec size +:+ ")".

Record vm_result := VmResult {
  vm_ret : Z;                  (* 1 on success, 0 on failure *)
  vm_data : list Z;            (* bytes stored in [buffer] by a read *)
  vm_error : option string;    (* the caller's error buffer afterwards *)
  vm_guest : guest
}.

Definition xemu_virtual_memory_read (g : guest) (virtual_addr size : Z)
    (error_msg : option string) (error_msg_size : Z) : vm_result :=
  if negb (xemu_virtual_memory_is_valid_address virtual_addr) then
    VmResult 0 [] (put_error error_msg error_msg_size (msg_invalid virtual_addr)) g
  else if negb (cpu_present g) then
    VmResult 0 [] (put_error error_msg error_msg_size
                     "No CPU available for virtual memory read") g
  else
    let '(result, bytes, g') := cpu_memory_rw_debug g virtual_addr [] size false in
    if negb (result =? 0) then
      VmResult 0 [] (put_error error_msg error_msg_size
                       (msg_failed "read" virtual_addr size)) g'
    else
      VmResult 1 bytes (clear_error error_msg error_msg_size) g'.

Definition xemu_virtual_memory_write (g : guest) (virtual_addr : Z)
    (data : list Z) (size : Z)
    (error_msg : option string) (error_msg_size : Z) : vm_result :=
  if negb (xemu_virtual_memory_is_valid_address virtual_addr) then
    VmResult 0 [] (put_error error_msg error_msg_size (msg_invalid virtual_addr)) g
  else if negb (cpu_present g) then
    VmResult 0 [] (put_error error_msg error_msg_size
                     "No CPU available for virtual memory write") g
  else
    let '(result, _, g') := cpu_memory_rw_debug g virtual_addr data size true in
    if negb (result =? 0) then
      VmResult 0 [] (put_error error_msg error_msg_size
                       (msg_failed "write" virtual_addr size)) g'
    else
      VmResult 1 [] (clear_error error_msg error_msg_size) g'.

Global Arguments xemu_virtual_memory_read : simpl never.
Global Arguments xemu_virtual_memory_write : simpl never.

End VirtualMemory.
Export VirtualMemory.

(** ** Machine integers *)

Definition u32 (x : Z) : Z := x mod 2 ^ 32.
Definition u64 (x : Z) : Z := x mod 2 ^ 64.

(** [int] arithmetic as compiled: two's complement wrap-around. *)
Definition s32 (x : Z) : Z := (x + 2 ^ 31) mod 2 ^ 32 - 2 ^ 31.

(** ** C and GLib string routines used by the parsers *)

Module CString.

Definition code (c : ascii) : Z := Z.of_nat (nat_of_ascii c).

(** [isspace] in the C locale, which is also [g_ascii_isspace]. *)
Definition isspace (c : ascii) : bool :=
  (code c =? 32) || ((9 <=? code c) && (code c <=? 13)).

Definition isdigit (c : ascii) : bool := (48 <=? code c) && (code c <=? 57).

Fixpoint g_strchug (s : string) : string :=
  match s with
  | EmptyString => EmptyString
  | String c r => if isspace c then g_strchug r else s
  end.

Fixpoint g_strchomp (s : string) : string :=
  match s with
  | EmptyString => EmptyString
  | String c r =>
      match g_strchomp r with
      | EmptyString => if isspace c then EmptyString else String c EmptyString
      | r' => String c r'
      end
  end.

Definition g_strstrip (s : string) : string := g_strchomp (g_strchug s).

Definition g_str_has_prefix (s p : string) : bool := String.prefix p s.

Definition strlen (s : string) : Z := Z.of_nat (String.length s).

(** [p = strchr(s, c); *p = '\0']: the text before [c] and the text after it. *)
Fixpoint split_at (s : string) (c : ascii) : option (string * string) :=
  match s with
  | EmptyString => None
  | String d r =>
      if Ascii.eqb d c then Some (EmptyString, r)
      else match split_at r c with
           | Some (a, b) => Some (String d a, b)
           | None => None
           end
  end.

(** [strchr(s, c) != NULL] *)
Definition has_char (s : string) (c : ascii) : bool :=
  match split_at s c with Some _ => true | None => false end.

(** Offset of the first [c] in [s]. *)
Definition strchr (s : string) (c : ascii) : option nat :=
  match split_at s c with
  | Some (a, _) => Some (String.length a)
  | None => None
  end.

(** Offset of the first occurrence of [pat] in [s]. *)
Definition strstr (s pat : string) : option nat := String.index 0 pat s.

Definition drop_chars (n : nat) (s : string) : string :=
  substring n (String.length s - n) s.

Definition take_chars (n : nat) (s : string) : string := substring 0 n s.

Definition hex_value_of (c : ascii) : option Z :=
  if isdigit c then Some (code c - 48)
  else if (65 <=? code c) && (code c <=? 70) then Some (code c - 55)
  else if (97 <=? code c) && (code c <=? 102) then Some (code c - 87)
  else None.

Definition digit_value_of (base : Z) (c : ascii) : option Z :=
  match hex_value_of c with
  | Some v => if v <? base then Some v else None
  | None => None
  end.

(** The digits of a number in [base]: accumulated value, whether a digit was
    seen, and the rest. *)
Fixpoint digits (base : Z) (s : string) (acc : Z) (seen : bool)
    : Z * bool * string :=
  match s with
  | EmptyString => (acc, seen, s)
  | String c r =>
      match digit_value_of base c with
      | Some v => digits base r (acc * base + v) true
      | None => (acc, seen, s)
      end
  end.

Definition take_sign (s : string) : bool * string :=
  match s with
  | String "-"%char r => (true, r)
  | String "+"%char r => (false, r)
  | _ => (false, s)
  end.

(** A ["0x"] / ["0X"] prefix counts only when a hex digit follows. *)
Definition skip_0x (s : string) : string :=
  match s with
  | String "0"%char (String x ((String h _) as r)) =>
      if (Ascii.eqb x "x" || Ascii.eqb x "X")
         && match hex_value_of h with Some _ => true | None => false end
      then r else s
  | _ => s
  end.

(** [strtoul(s, &endptr, 16)]: the [unsigned long] value and the text at
    [endptr]; without a conversion the value is 0 and [endptr] is [s]. *)
Definition strtoul16 (s : string) : Z * string :=
  let '(neg, body) := take_sign (g_strchug s) in
  let '(v, seen, rest) := digits 16 (skip_0x body) 0 false in
  if seen then
    let v' := if v >=? 2 ^ 64 then 2 ^ 64 - 1 else v in
    (if neg then u64 (- v') else v', rest)
  else (0, s).

(** [strtol(s, &endptr, 16)] *)
Definition strtol16 (s : string) : Z * string :=
  let '(neg, body) := take_sign (g_strchug s) in
  let '(v, seen, rest) := digits 16 (skip_0x body) 0 false in
  if seen then
    (if neg then (if v >? 2 ^ 63 then - 2 ^ 63 else - v)
     else (if v >=? 2 ^ 63 then 2 ^ 63 - 1 else v), rest)
  else (0, s).

(** [atoi(s)] for values that fit an [int]. *)
Definition atoi (s : string) : Z :=
  let '(neg, body) := take_sign (g_strchug s) in
  let '(v, _, _) := digits 10 body 0 false in
  if neg then - v else v.

(** [sscanf(s, "%x", &v) == 1] and the [unsigned int] stored. *)
Definition sscanf_x (s : string) : option Z :=
  let '(neg, body) := take_sign (g_strchug s) in
  let '(v, seen, _) := digits 16 (skip_0x body) 0 false in
  if seen then
    let v' := if v >=? 2 ^ 64 then 2 ^ 64 - 1 else v in
    Some (u32 (if neg then - v' else v'))
  else None.

(** [sscanf(s, "%u", &v) == 1] and the [unsigned int] stored. *)
Definition sscanf_u (s : string) : option Z :=
  let '(neg, body) := take_sign (g_strchug s) in
  let '(v, seen, _) := digits 10 body 0 false in
  if seen then
    let v' := if v >=? 2 ^ 64 then 2 ^ 64 - 1 else v in
    Some (u32 (if neg then - v' else v'))
  else None.

(** [strtok] over the whole string: the non-empty runs between delimiters. *)
Fixpoint tokens_aux (delim : ascii -> bool) (s : string) (cur : string)
    : list string :=
  match s with
  | EmptyString => match cur with EmptyString => [] | _ => [cur] end
  | String c r =>
      if delim c
      then match cur with
           | EmptyString => tokens_aux delim r EmptyString
           | _ => cur :: tokens_aux delim r EmptyString
           end
      else tokens_aux delim r (cur +:+ String c EmptyString)
  end.

Definition strtok_all (s : string) (delim : ascii -> bool) : list string :=
  tokens_aux delim s EmptyString.

(** One [strtok_r(rest, ":", &rest)] step: the next token and what follows
    the delimiter that ended it. *)
Fixpoint skip_delims (delim : ascii -> bool) (s : string) : string :=
  match s with
  | String c r => if delim c then skip_delims delim r else s
  | EmptyString => EmptyString
  end.

Fixpoint token_end (delim : ascii -> bool) (s : string) : string * string :=
  match s with
  | EmptyString => (EmptyString, EmptyString)
  | String c r =>
      if delim c then (EmptyString, r)
      else let '(t, rest) := token_end delim r in (String c t, rest)
  end.

Definition strtok_r (s : string) (delim : ascii -> bool)
    : option string * string :=
  match skip_delims delim s with
  | EmptyString => (None, EmptyString)
  | s' => let '(t, rest) := token_end delim s' in (Some t, rest)
  end.

(** Cutting a line at its first ['#'] or ["//"], whichever comes first. *)
Definition strip_comment (s : string) : string :=
  match strchr s "#", strstr s "//" with
  | Some h, Some sl => if (h <? sl)%nat then take_chars h s else take_chars sl s
  | Some h, None => take_chars h s
  | None, Some sl => take_chars sl s
  | None, None => s
  end.

End CString.
Export CString.

(** ** ui/xemu-patches.h: the patch database *)

Module Database.

(** [XemuPatchAddressValue]; [value_length] is the length of [value_data]. *)
Record XemuPatchAddressValue := MkAddressValue {
  address : Z;
  value_data : list Z
}.

Definition value_length (av : XemuPatchAddressValue) : Z :=
  Z.of_nat (length (value_data av)).

(** [XemuMemoryPatch]; [address_values] with [address_value_count] and
    [address_value_lines] with [address_value_lines_count] are lists (a NULL
    array is the empty list). *)
Record XemuMemoryPatch := MkPatch {
  address_values : list XemuPatchAddressValue;
  enabled : bool;
  name : option string;
  category : option string;
  author : option string;
  notes : option string;
  address_value_lines : list string;
  save_replaced_values : bool
}.

(** [XemuGamePatches] *)
Record XemuGamePatches := MkGame {
  game_title : option string;
  region : option string;
  title_id : option string;
  version : option string;
  alternate_title_id : option string;
  time_date : option string;
  disc_number : option string;
  patches : list XemuMemoryPatch;
  game_enabled : bool
}.

(** [XemuPatchesDatabase]; [games = None] is the NULL array. *)
Record XemuPatchesDatabase := MkDb {
  games : option (list XemuGamePatches);
  file_path : option string;
  dirty : bool
}.

Definition game_list (db : XemuPatchesDatabase) : list XemuGamePatches :=
  default [] (games db).

Definition game_count (db : XemuPatchesDatabase) : Z :=
  Z.of_nat (length (game_list db)).

Definition patch_count (g : XemuGamePatches) : Z :=
  Z.of_nat (length (patches g)).

Definition set_patches (g : XemuGamePatches) (ps : list XemuMemoryPatch)
    : XemuGamePatches :=
  MkGame (game_title g) (region g) (title_id g) (version g)
         (alternate_title_id g) (time_date g) (disc_number g) ps (game_enabled g).

Definition set_enabled (p : XemuMemoryPatch) (e : bool) : XemuMemoryPatch :=
  MkPatch (address_values p) e (name p) (category p) (author p) (notes p)
          (address_value_lines p) (save_replaced_values p).

Definition set_games (db : XemuPatchesDatabase)
    (gs : option (list XemuGamePatches)) : XemuPatchesDatabase :=
  MkDb gs (file_path db) (dirty db).

Definition set_dirty (db : XemuPatchesDatabase) (d : bool) : XemuPatchesDatabase :=
  MkDb (games db) (file_path db) d.

Definition set_file_path (db : XemuPatchesDatabase) (p : option string)
    : XemuPatchesDatabase :=
  MkDb (games db) p (dirty db).

(** C array indexing by an [int] already checked to be in range. *)
Definition at_index {A} (l : list A) (i : Z) : option A := l !! Z.to_nat i.

Definition in_range (i n : Z) : bool := negb ((i <? 0) || (i >=? n)).

(** [memmove] of the tail over the element at [i]. *)
Definition remove_at {A} (l : list A) (i : Z) : list A :=
  take (Z.to_nat i) l ++ drop (S (Z.to_nat i)) l.

End Database.
Export Database.

(** ** The textual database written by [xemu_patches_save_database] *)

Module Serialize.

Definition nl : string := String (ascii_of_nat 10) EmptyString.

(** The double-quote character. *)
Definition dquote : string := String (ascii_of_nat 34) EmptyString.

Definition or_default (s : option string) (d : string) : string := default d s.

(** [field && strlen(field) > 0] *)
Definition nonempty (s : option string) : bool :=
  match s with
  | Some (String _ _) => true
  | _ => false
  end.

Definition optional_line (label : string) (s : option string) : string :=
  if nonempty s then label +:+ or_default s "" +:+ nl else "".

Definition bit (b : bool) : string := if b then "1" else "0".

(** The fallback for patches without preserved lines: ["0x%08X: 0x%s"] with
    the bytes printed by ["%02X"] into [hex_value].  The C buffer
    [hex_value] holds 256 characters and is filled by [strcat] without a
    length check, so the C code is defined for values of at most 127 bytes
    only; the model prints the digits of a value of any length. *)
Definition hex_value (bytes : list Z) : string :=
  foldr (fun b acc => hex_fixed 2 b +:+ acc) "" bytes.

Definition canonical_line (av : XemuPatchAddressValue) : string :=
  "      0x" +:+ hex_fixed 8 (address av) +:+ ": 0x" +:+ hex_value (value_data av) +:+ nl.

Definition preserved_line (l : string) : string := "      " +:+ l +:+ nl.

Definition concat_strings (l : list string) : string :=
  foldr String.append "" l.

Definition addresses_text (p : XemuMemoryPatch) : string :=
  match address_value_lines p with
  | _ :: _ =>
      "    Memory Addresses:" +:+ nl
      +:+ concat_strings (map preserved_line (address_value_lines p))
  | [] =>
      match address_values p with
      | _ :: _ =>
          "    Memory Addresses:" +:+ nl
          +:+ concat_strings (map canonical_line (address_values p))
      | [] => ""
      end
  end.

Definition patch_text (p : XemuMemoryPatch) : string :=
  "  Patch: " +:+ or_default (name p) "Unnamed Patch" +:+ nl
  +:+ "    Author: " +:+ or_default (author p) "Unknown" +:+ nl
  +:+ "    Category: " +:+ or_default (category p) "Other" +:+ nl
  +:+ optional_line "    Notes: " (notes p)
  +:+ "    Enabled: " +:+ bit (enabled p) +:+ nl
  +:+ "    Save Replaced Values: " +:+ bit (save_replaced_values p) +:+ nl
  +:+ addresses_text p
  +:+ nl.

Definition game_text (g : XemuGamePatches) : string :=
  "Game Entry" +:+ nl
  +:+ "==========" +:+ nl
  +:+ "title: " +:+ or_default (game_title g) "Unknown Game" +:+ nl
  +:+ "title-id: " +:+ or_default (title_id g) "Unknown" +:+ nl
  +:+ "region: " +:+ or_default (region g) "NTSC" +:+ nl
  +:+ "version: " +:+ or_default (version g) "Unknown" +:+ nl
  +:+ optional_line "alternate-title-id: " (alternate_title_id g)
  +:+ optional_line "time-date: " (time_date g)
  +:+ optional_line "disc-number: " (disc_number g)
  +:+ nl
  +:+ "Patches" +:+ nl
  +:+ "=======" +:+ nl
  +:+ concat_strings (map patch_text (patches g))
  +:+ nl.

Definition database_text (gs : list XemuGamePatches) : string :=
  concat_strings (map game_text gs).

Global Arguments database_text : simpl never.

End Serialize.
Export Serialize.

(** ** Global state of ui/xemu-patches.c *)

Module Engine.

(** The [bool] globals and function-local statics. *)
Inductive bvar :=
| g_patches_initialized | g_patches_loaded | g_save_in_progress
| g_cert_data_valid | g_xbe_cache_valid | g_force_fresh_xbe_read
| g_load_disc_in_progress | g_post_reset_crash_protection_active
| g_disc_present | g_patch_system_enabled
| g_notification_generation_active
| g_manual_reset_detected | g_post_reset_system_active
| g_reset_detected_in_progress
| g_post_reset_patch_application_active | g_vm_reset_triggered
| g_startup_retry_enabled | g_auto_boot_processing_active
| g_patches_applied_for_current_cert | g_load_disc_retry_pending
| g_post_reset_patch_scheduled | g_certificate_tracking_enabled
| g_suppress_patch_notification
| g_reset_monitoring_active | g_vm_reset_completed
| g_certificate_was_available_prev      (* static in detect_manual_reset *)
| unsafe_immediate_trigger_checked.     (* static in xemu_patches_process_post_reset_unsafe *)

(** The integer globals and function-local statics. *)
Inductive ivar :=
| g_save_timer
| g_last_cert_title_id | g_last_cert_region | g_last_cert_version
| g_last_cert_read_time
| g_xbe_cache_frame_last_read | g_xbe_cache_last_read_time
| g_xbe_cache_title_id | g_xbe_cache_region | g_xbe_cache_version
| g_last_patch_application_title_id
| g_reset_detection_count
| g_post_reset_current_title_id | g_post_reset_start_time
| g_post_reset_call_count
| g_startup_retry_count | g_last_startup_retry_time
| g_last_invalid_title_id | g_last_invalid_read_time | g_invalid_read_count
| last_notified_title_id | last_notification_time
| g_last_applied_title_id | g_last_applied_region | g_last_applied_version
| g_last_reset_detection_time | g_last_seen_for_reset_detection
| g_last_auto_applied_title_id | g_last_auto_applied_region
| g_last_auto_applied_version | g_last_auto_applied_patch_count
| g_post_reset_retry_count
| g_last_reset_detection_time_prevent_loop
| g_vm_reset_completion_time
| g_reset_monitored_count
| g_last_processed_title_id            (* static in set_load_disc_completed *)
| load_disc_stuck_counter              (* statics in get_cached_xbe_info *)
| cache_last_invalid_time
| load_disc_cooldown_frames
| loop_call_count | loop_last_log_time (* statics in xemu_patches_main_loop_update *)
| frame_counter | last_logged_title_id
| loop_notification_counter | loop_last_notification_time
| loop_last_notified_title_id | loop_last_notification_time_ms
| last_simple_apply_time
| g_certificate_unavailable_start_time (* statics in detect_manual_reset *)
| g_prev_title_id_during_unavailable
| g_last_certificate_check_time
| completion_last_log_time | completion_call_count (* statics in detect_vm_reset_completion *)
| unsafe_call_count | unsafe_immediate_trigger_time  (* statics in ..._post_reset_unsafe *)
| g_last_post_reset_notification_hash | g_last_post_reset_notification_time
| duplicate_log_count.                 (* static in apply_patches_for_auto_boot *)

(** The character-array globals. *)
Inductive svar :=
| g_last_seen_title_id | g_last_seen_region | g_last_seen_version
| last_simple_apply_text.

Scheme Equality for bvar.
Scheme Equality for ivar.
Scheme Equality for svar.

(** [SavedValueEntry]; [data_length] is the length of [original_data]. *)
Record SavedValueEntry := MkSaved {
  sv_game_index : Z;
  sv_patch_index : Z;
  sv_address : Z;
  original_data : list Z
}.

Definition data_length (e : SavedValueEntry) : Z :=
  Z.of_nat (length (original_data e)).

(** [reset_monitored_address_t] *)
Record reset_monitored_address_t := MkResetMon {
  rm_address : Z;
  value_before : Z;
  value_after : Z;
  value_1sec : Z;
  value_2sec : Z;
  value_3sec : Z;
  monitoring_active : bool;
  start_time : Z;
  rm_patch_name : string
}.

Inductive notification :=
| Notify (text : string)        (* xemu_queue_notification *)
| ErrorMessage (text : string). (* xemu_queue_error_message *)

Record engine := MkEngine {
  bools : bvar -> bool;
  ints : ivar -> Z;
  strs : svar -> string;
  g_patches_db : XemuPatchesDatabase;
  g_saved_values : list SavedValueEntry;       (* the first g_saved_values_count slots *)
  g_reset_monitored_addresses : list reset_monitored_address_t; (* all 32 slots *)
  the_guest : guest;
  notifications : list notification;           (* oldest first *)
  files : gmap string string                   (* path to file contents *)
}.

Definition B (st : engine) (x : bvar) : bool := bools st x.
Definition I (st : engine) (x : ivar) : Z := ints st x.
Definition S_ (st : engine) (x : svar) : string := strs st x.

Definition setB (x : bvar) (v : bool) (st : engine) : engine :=
  MkEngine (fun y => if bvar_beq x y then v else bools st y) (ints st) (strs st)
           (g_patches_db st) (g_saved_values st) (g_reset_monitored_addresses st)
           (the_guest st) (notifications st) (files st).

Definition setI (x : ivar) (v : Z) (st : engine) : engine :=
  MkEngine (bools st) (fun y => if ivar_beq x y then v else ints st y) (strs st)
           (g_patches_db st) (g_saved_values st) (g_reset_monitored_addresses st)
           (the_guest st) (notifications st) (files st).

Definition setS (x : svar) (v : string) (st : engine) : engine :=
  MkEngine (bools st) (ints st) (fun y => if svar_beq x y then v else strs st y)
           (g_patches_db st) (g_saved_values st) (g_reset_monitored_addresses st)
           (the_guest st) (notifications st) (files st).

Definition set_db (db : XemuPatchesDatabase) (st : engine) : engine :=
  MkEngine (bools st) (ints st) (strs st) db (g_saved_values st)
           (g_reset_monitored_addresses st) (the_guest st) (notifications st)
           (files st).

Definition set_saved (sv : list SavedValueEntry) (st : engine) : engine :=
  MkEngine (bools st) (ints st) (strs st) (g_patches_db st) sv
           (g_reset_monitored_addresses st) (the_guest st) (notifications st)
           (files st).

Definition set_reset_monitored (rm : list reset_monitored_address_t)
    (st : engine) : engine :=
  MkEngine (bools st) (ints st) (strs st) (g_patches_db st) (g_saved_values st)
           rm (the_guest st) (notifications st) (files st).

Definition set_guest (g : guest) (st : engine) : engine :=
  MkEngine (bools st) (ints st) (strs st) (g_patches_db st) (g_saved_values st)
           (g_reset_monitored_addresses st) g (notifications st) (files st).

Definition set_files (f : gmap string string) (st : engine) : engine :=
  MkEngine (bools st) (ints st) (strs st) (g_patches_db st) (g_saved_values st)
           (g_reset_monitored_addresses st) (the_guest st) (notifications st) f.

(** Modelled from the spec: the Notification Sink collaborator
    ([xemu_queue_notification] and [xemu_queue_error_message] belong to the
    user interface): a message joins the end of the queue. *)
Definition xemu_queue_notification (text : string) (st : engine) : engine :=
  MkEngine (bools st) (ints st) (strs st) (g_patches_db st) (g_saved_values st)
           (g_reset_monitored_addresses st) (the_guest st)
           (notifications st ++ [Notify text]) (files st).

Definition xemu_queue_error_message (text : string) (st : engine) : engine :=
  MkEngine (bools st) (ints st) (strs st) (g_patches_db st) (g_saved_values st)
           (g_reset_monitored_addresses st) (the_guest st)
           (notifications st ++ [ErrorMessage text]) (files st).

Definition mark_dirty (d : bool) (st : engine) : engine :=
  set_db (set_dirty (g_patches_db st) d) st.

(** The running executable's certificate as [xemu_get_xbe_info] exposes it. *)
Record xbe_cert := MkCert {
  m_titleid : Z;
  m_game_region : Z;
  m_version : Z
}.

(** What the host provides during one call into the engine: the clocks, the
    certificate accessor and the file system's willingness.  The clocks are
    read several times within one call in the C code; one call is short, so
    they are taken as constant during it. *)
Record env := MkEnv {
  SDL_GetTicks : Z;                       (* milliseconds, Uint32 *)
  time_NULL : Z;                          (* seconds, time_t *)
  xemu_get_xbe_info : option xbe_cert;    (* None: no xbe or no certificate *)
  fopen_w_ok : bool;                      (* qemu_fopen(path, "w") succeeds *)
  fclose_ok : bool;                       (* fclose(file) == 0 *)
  SDL_GetBasePath : string
}.

(** Static initialisers of the globals. *)
Definition initial_bools (x : bvar) : bool :=
  match x with
  | g_startup_retry_enabled => true
  | _ => false
  end.

Definition initial_ints (x : ivar) : Z :=
  match x with
  | g_xbe_cache_frame_last_read => -1
  | g_last_auto_applied_patch_count => -1
  | _ => 0
  end.

Definition blank_reset_monitor : reset_monitored_address_t :=
  MkResetMon 0 0 0 0 0 0 false 0 "".

Definition MAX_RESET_MONITORED_ADDRESSES : Z := 32.

Definition initial_engine (g : guest) (f : gmap string string) : engine :=
  MkEngine initial_bools initial_ints (fun _ => "")
           (MkDb None None false) []
           (replicate (Z.to_nat MAX_RESET_MONITORED_ADDRESSES) blank_reset_monitor)
           g [] f.

End Engine.
Export Engine.

(** ** Direct guest access and reset monitoring (ui/xemu-patches.c) *)

Module Access.

Definition MIN (a b : Z) : Z := if a <? b then a else b.

(** [write_direct_virtual_memory]: [error_msg] is a local 256-byte buffer. *)
Definition write_direct_virtual_memory (st : engine) (vaddr : Z)
    (buf : list Z) (len : Z) : bool * engine :=
  let r := xemu_virtual_memory_write (the_guest st) vaddr buf len (Some "") 256 in
  (negb (vm_ret r =? 0), set_guest (vm_guest r) st).

(** [read_direct_virtual_memory] *)
Definition read_direct_virtual_memory (st : engine) (vaddr : Z) (len : Z)
    : bool * list Z * engine :=
  let r := xemu_virtual_memory_read (the_guest st) vaddr len (Some "") 256 in
  (negb (vm_ret r =? 0), vm_data r, set_guest (vm_guest r) st).

(** [buffer[0] | buffer[1] << 8 | buffer[2] << 16 | buffer[3] << 24] as
    [uint32_t]; bytes the buffer was never given read as 0 here (they are
    indeterminate in C and only feed the diagnostic monitor). *)
Definition le32 (buffer : list Z) : Z :=
  u32 (Z.lor (Z.lor (Z.lor (nth 0 buffer 0) (Z.shiftl (nth 1 buffer 0) 8))
                    (Z.shiftl (nth 2 buffer 0) 16))
             (Z.shiftl (nth 3 buffer 0) 24)).

(** [read_32bit_value]: the value and [*success]. *)
Definition read_32bit_value (st : engine) (address : Z) : Z * bool * engine :=
  let r := xemu_virtual_memory_read (the_guest st) address 4 (Some "") 256 in
  if negb (vm_ret r =? 0)
  then (le32 (vm_data r), true, set_guest (vm_guest r) st)
  else (0, false, set_guest (vm_guest r) st).

Definition start_reset_memory_monitoring (st : engine) : engine :=
  setI g_reset_monitored_count 0 (setB g_reset_monitoring_active true st).

Definition stop_reset_memory_monitoring (st : engine) : engine :=
  setB g_reset_monitoring_active false st.

Definition monitored (st : engine) : list reset_monitored_address_t :=
  take (Z.to_nat (I st g_reset_monitored_count)) (g_reset_monitored_addresses st).

Definition set_value_before (v : Z) (m : reset_monitored_address_t)
    : reset_monitored_address_t :=
  MkResetMon (rm_address m) v (value_after m) (value_1sec m) (value_2sec m)
             (value_3sec m) (monitoring_active m) (start_time m) (rm_patch_name m).

(** [monitor_reset_patch_address] *)
Definition monitor_reset_patch_address (e : env) (st : engine) (address : Z)
    (patch_name : string) : engine :=
  if negb (B st g_reset_monitoring_active)
     || (I st g_reset_monitored_count >=? MAX_RESET_MONITORED_ADDRESSES)
  then st
  else if existsb (fun m => rm_address m =? address) (monitored st) then st
  else
    let index := Z.to_nat (I st g_reset_monitored_count) in
    let old := nth index (g_reset_monitored_addresses st) blank_reset_monitor in
    let slot :=
      MkResetMon address (value_before old) (value_after old) (value_1sec old)
                 (value_2sec old) (value_3sec old) true (time_NULL e)
                 (substring 0 127 patch_name) in
    let st1 := setI g_reset_monitored_count (I st g_reset_monitored_count + 1)
                 (set_reset_monitored
                    (<[index := slot]> (g_reset_monitored_addresses st)) st) in
    let '(initial_value, read_success, st2) := read_32bit_value st1 address in
    let before :=
      if read_success then
        if (initial_value =? 0x00000062) || (initial_value =? 0x62000000)
           || (initial_value =? 0x00000000)
        then 0xDEADBEEF else initial_value
      else 0xFFFFFFFF in
    set_reset_monitored
      (<[index := set_value_before before slot]> (g_reset_monitored_addresses st2))
      st2.

Definition record_context (context : string) (v : Z)
    (m : reset_monitored_address_t) : reset_monitored_address_t :=
  if String.eqb context "after_application" then
    MkResetMon (rm_address m) (value_before m) v (value_1sec m) (value_2sec m)
               (value_3sec m) (monitoring_active m) (start_time m) (rm_patch_name m)
  else if String.eqb context "1sec_after" then
    MkResetMon (rm_address m) (value_before m) (value_after m) v (value_2sec m)
               (value_3sec m) (monitoring_active m) (start_time m) (rm_patch_name m)
  else if String.eqb context "2sec_after" then
    MkResetMon (rm_address m) (value_before m) (value_after m) (value_1sec m) v
               (value_3sec m) (monitoring_active m) (start_time m) (rm_patch_name m)
  else if String.eqb context "3sec_after" then
    MkResetMon (rm_address m) (value_before m) (value_after m) (value_1sec m)
               (value_2sec m) v (monitoring_active m) (start_time m) (rm_patch_name m)
  else m.

(** The loop of [log_reset_memory_values] from slot [i] on. *)
Fixpoint log_reset_loop (n : nat) (i : nat) (st : engine) (address : Z)
    (context : string) : engine :=
  match n with
  | O => st
  | S k =>
      match g_reset_monitored_addresses st !! i with
      | None => st
      | Some m =>
          if negb (monitoring_active m) || negb (rm_address m =? address)
          then log_reset_loop k (i + 1)%nat st address context
          else
            let '(current_value, read_success, st1) := read_32bit_value st address in
            let st2 :=
              if read_success
              then set_reset_monitored
                     (<[i := record_context context current_value m]>
                        (g_reset_monitored_addresses st1)) st1
              else st1 in
            log_reset_loop k (i + 1)%nat st2 address context
      end
  end.

(** [log_reset_memory_values] *)
Definition log_reset_memory_values (st : engine) (address : Z)
    (context : string) : engine :=
  if negb (B st g_reset_monitoring_active) then st
  else log_reset_loop (Z.to_nat (I st g_reset_monitored_count)) 0 st address context.

(** The placeholder fix-up inside [apply_single_patch_bytes]: the first
    monitored slot for [address] whose [value_before] is 0xDEADBEEF. *)
Fixpoint fix_placeholder (n : nat) (i : nat)
    (slots : list reset_monitored_address_t) (address : Z) (test_buffer : list Z)
    : list reset_monitored_address_t :=
  match n with
  | O => slots
  | S k =>
      match slots !! i with
      | None => slots
      | Some m =>
          if (rm_address m =? address) && (value_before m =? 0xDEADBEEF)
          then <[i := set_value_before (le32 test_buffer) m]> slots
          else fix_placeholder k (i + 1)%nat slots address test_buffer
      end
  end.

(** [apply_single_patch_bytes].  Every caller passes NULL for
    [original_value_buffer], so that capture is not modelled; the formatted
    log string has no effect. *)
Definition apply_single_patch_bytes (e : env) (st : engine) (address : Z)
    (value_data : list Z) : bool * engine :=
  let value_length := Z.of_nat (length value_data) in
  if value_length <=? 0 then (false, st)
  else
    let st1 := if B st g_reset_monitoring_active
               then monitor_reset_patch_address e st address "reset_reapplication"
               else st in
    let test := xemu_virtual_memory_read (the_guest st1) address
                  (MIN value_length 16) (Some "") 256 in
    let st2 := set_guest (vm_guest test) st1 in
    if vm_ret test =? 0 then (false, st2)
    else
      let st3 :=
        if B st2 g_reset_monitoring_active
        then set_reset_monitored
               (fix_placeholder (Z.to_nat (I st2 g_reset_monitored_count)) 0
                  (g_reset_monitored_addresses st2) address (vm_data test)) st2
        else st2 in
      let '(write_success, st4) :=
        write_direct_virtual_memory st3 address value_data value_length in
      let st5 := if B st4 g_reset_monitoring_active && write_success
                 then log_reset_memory_values st4 address "after_application"
                 else st4 in
      (write_success, st5).

(** [is_game_currently_running] *)
Definition is_game_currently_running (st : engine) : bool :=
  if negb (has_system_memory (the_guest st)) then false
  else if negb (safe_memory_read_probe (the_guest st)) then false
  else true.

Global Arguments write_direct_virtual_memory : simpl never.
Global Arguments read_direct_virtual_memory : simpl never.
Global Arguments read_32bit_value : simpl never.
Global Arguments monitor_reset_patch_address : simpl never.
Global Arguments log_reset_memory_values : simpl never.
Global Arguments fix_placeholder : simpl never.
Global Arguments apply_single_patch_bytes : simpl never.
Global Arguments is_game_currently_running : simpl never.

End Access.
Export Access.

(** ** The saved-value store (ui/xemu-patches.c, "SAVE REPLACED VALUES SYSTEM") *)

Module SavedValues.

Definition MAX_SAVED_VALUES : Z := 1024.

Definition g_saved_values_count (st : engine) : Z :=
  Z.of_nat (length (g_saved_values st)).

Definition key_matches (game_index patch_index address : Z)
    (e : SavedValueEntry) : bool :=
  (sv_game_index e =? game_index) && (sv_patch_index e =? patch_index)
  && (sv_address e =? address).

(** The scan of [find_saved_value]: the index of the first matching slot. *)
Fixpoint find_index (l : list SavedValueEntry) (game_index patch_index address : Z)
    : option nat :=
  match l with
  | [] => None
  | e :: rest =>
      if key_matches game_index patch_index address e then Some O
      else option_map S (find_index rest game_index patch_index address)
  end.

(** [find_saved_value]: a pointer into the array is the slot's index. *)
Definition find_saved_value (st : engine) (game_index patch_index address : Z)
    : option nat :=
  find_index (g_saved_values st) game_index patch_index address.

(** [add_saved_value]; the result is the slot of the entry, [None] for NULL. *)
Definition add_saved_value (st : engine) (game_index patch_index address : Z)
    (original : list Z) : option nat * engine :=
  if g_saved_values_count st >=? MAX_SAVED_VALUES then (None, st)
  else
    match find_saved_value st game_index patch_index address with
    | Some i =>
        (Some i,
         set_saved (<[i := MkSaved game_index patch_index address original]>
                      (g_saved_values st)) st)
    | None =>
        (Some (length (g_saved_values st)),
         set_saved (g_saved_values st
                    ++ [MkSaved game_index patch_index address original]) st)
    end.

(** Removing slot [i]: the last entry is moved into it, the count drops. *)
Definition swap_remove (l : list SavedValueEntry) (i : nat)
    : list SavedValueEntry :=
  match last l with
  | None => l
  | Some e =>
      if (i <? length l - 1)%nat
      then take (length l - 1) (<[i := e]> l)
      else take (length l - 1) l
  end.

(** The loop [for (i = 0; i < count; i++) if (match) { remove slot i; i--; }];
    every round either passes a slot or shortens the array, so [length l]
    rounds from [i = 0] finish it. *)
Fixpoint clear_loop (rounds : nat) (sel : SavedValueEntry -> bool) (i : nat)
    (l : list SavedValueEntry) : list SavedValueEntry :=
  match rounds with
  | O => l
  | S k =>
      match l !! i with
      | None => l
      | Some e =>
          if sel e then clear_loop k sel i (swap_remove l i)
          else clear_loop k sel (i + 1)%nat l
      end
  end.

(** [xemu_patches_clear_saved_values_for_game] *)
Definition xemu_patches_clear_saved_values_for_game (st : engine)
    (game_index : Z) : engine :=
  set_saved (clear_loop (length (g_saved_values st))
               (fun e => sv_game_index e =? game_index) 0 (g_saved_values st)) st.

(** [xemu_patches_clear_all_saved_values] *)
Definition xemu_patches_clear_all_saved_values (st : engine) : engine :=
  set_saved [] st.

Global Arguments find_saved_value : simpl never.
Global Arguments add_saved_value : simpl never.
Global Arguments swap_remove : simpl never.
Global Arguments xemu_patches_clear_saved_values_for_game : simpl never.

End SavedValues.
Export SavedValues.

(** ** The patch editor's address:value parser *)

Module PairParser.

Definition is_newline (c : ascii) : bool := (code c =? 10) || (code c =? 13).
Definition is_blank (c : ascii) : bool := (code c =? 32) || (code c =? 9).

Fixpoint skip_while (f : ascii -> bool) (s : string) : string :=
  match s with
  | String c r => if f c then skip_while f r else s
  | EmptyString => EmptyString
  end.

Fixpoint take_until (f : ascii -> bool) (s : string) : string * string :=
  match s with
  | EmptyString => (EmptyString, EmptyString)
  | String c r =>
      if f c then (EmptyString, s)
      else let '(a, b) := take_until f r in (String c a, b)
  end.

Definition ahead (ptr line_start : string) : bool :=
  (String.length ptr <? String.length line_start)%nat.

(** The first pass of [xemu_patches_parse_address_value_pairs]: [line_count]. *)
Fixpoint count_lines (fuel : nat) (ptr line_start : string) (line_count : Z) : Z :=
  match fuel with
  | O => line_count
  | S k =>
      match ptr with
      | EmptyString => if ahead ptr line_start then line_count + 1 else line_count
      | String c r =>
          if is_newline c then
            match skip_while is_newline ptr with
            | EmptyString =>
                if ahead EmptyString line_start then line_count + 2
                else line_count + 1
            | ptr' => count_lines k ptr' ptr' (line_count + 1)
            end
          else count_lines k r line_start line_count
      end
  end.

Definition parse_address (addr_str : string) : option Z :=
  match sscanf_x addr_str with
  | Some v => Some v
  | None => sscanf_u addr_str
  end.

Definition parse_bytes (value_str : string) : list Z :=
  omap (fun token =>
          match sscanf_x token with
          | Some byte_val => if byte_val <=? 0xFF then Some byte_val else None
          | None => None
          end)
       (strtok_all value_str (fun c => is_blank c || Ascii.eqb c ",")).

Definition parse_pair_line (line : string) : option XemuPatchAddressValue :=
  match split_at line ":" with
  | None => None
  | Some (a, b) =>
      let addr_str := g_strstrip a in
      let value_str := g_strstrip b in
      if (0 <? strlen addr_str) && (0 <? strlen value_str) then
        match parse_address addr_str with
        | Some address =>
            match parse_bytes value_str with
            | [] => None
            | bytes => Some (MkAddressValue address bytes)
            end
        | None => None
        end
      else None
  end.

(** The second pass: one round per loop iteration. *)
Fixpoint parse_pairs_loop (fuel : nat) (ptr : string)
    (pairs : list XemuPatchAddressValue) (line_count : Z)
    : list XemuPatchAddressValue :=
  match fuel with
  | O => pairs
  | S k =>
      match ptr with
      | EmptyString => pairs
      | _ =>
          if negb (Z.of_nat (length pairs) <? line_count) then pairs
          else
            let p := skip_while is_blank ptr in
            match p with
            | String c _ =>
                if Ascii.eqb c "#" || Ascii.eqb c ";" then
                  let '(_, rest) := take_until is_newline p in
                  parse_pairs_loop k (skip_while is_newline rest) pairs line_count
                else
                  let '(line, line_end) := take_until is_newline p in
                  let pairs' :=
                    match line with
                    | EmptyString => pairs
                    | _ => match parse_pair_line line with
                           | Some av => pairs ++ [av]
                           | None => pairs
                           end
                    end in
                  parse_pairs_loop k (skip_while is_newline line_end) pairs' line_count
            | EmptyString => pairs
            end
      end
  end.

(** [xemu_patches_parse_address_value_pairs]: [None] is the [false] result. *)
Definition xemu_patches_parse_address_value_pairs (address_value_text : option string)
    : option (list XemuPatchAddressValue) :=
  match address_value_text with
  | None => None
  | Some text =>
      let line_count := count_lines (S (String.length text)) text text 0 in
      if line_count =? 0 then Some []
      else Some (parse_pairs_loop (S (String.length text)) text [] line_count)
  end.

(** The [strtok(text, "\n")] loop of the editor: the non-empty lines. *)
Definition editor_lines (text : string) : list string :=
  strtok_all text (fun c => code c =? 10).

End PairParser.
Export PairParser.

(** ** PatchStore and PatchApplier operations (ui/xemu-patches.c) *)

Module PatchStore.

Definition default_db_path (e : env) : string := SDL_GetBasePath e +:+ "/xemu.db".

(** [xemu_patches_save_database] *)
Definition xemu_patches_save_database (e : env) (st : engine) : bool * engine :=
  if negb (B st g_patches_loaded) then (false, st)
  else if B st g_save_in_progress then (false, st)
  else
    let st1 := setB g_save_in_progress true st in
    let st2 :=
      match file_path (g_patches_db st1) with
      | Some _ => st1
      | None => set_db (set_file_path (g_patches_db st1) (Some (default_db_path e))) st1
      end in
    match games (g_patches_db st2) with
    | None => (false, setB g_save_in_progress false st2)
    | Some gs =>
        if negb (fopen_w_ok e) then (false, setB g_save_in_progress false st2)
        else
          let path := default "" (file_path (g_patches_db st2)) in
          let st3 := set_files (<[path := database_text gs]> (files st2)) st2 in
          if negb (fclose_ok e) then (false, setB g_save_in_progress false st3)
          else (true, setB g_save_in_progress false (mark_dirty false st3))
    end.

(** The body of the loop in [xemu_patches_apply_patch_with_save_restore] for
    one address:value pair; the result is [patch_success].  The C buffer
    [captured_original_value] holds 16 bytes, so the C code is defined for
    [value_length <= 16] only. *)
Definition apply_pair (e : env) (st : engine) (save : bool)
    (game_index patch_index : Z) (addr_val : XemuPatchAddressValue)
    : bool * engine :=
  let st1 :=
    if save then
      let '(read_success, captured_original_value, st') :=
        read_direct_virtual_memory st (address addr_val) (value_length addr_val) in
      if read_success
      then snd (add_saved_value st' game_index patch_index (address addr_val)
                  captured_original_value)
      else st'
    else st in
  apply_single_patch_bytes e st1 (address addr_val) (value_data addr_val).

Fixpoint apply_pairs (e : env) (st : engine) (save : bool)
    (game_index patch_index : Z) (pairs : list XemuPatchAddressValue)
    (all_success : bool) : bool * engine :=
  match pairs with
  | [] => (all_success, st)
  | addr_val :: rest =>
      let '(patch_success, st') := apply_pair e st save game_index patch_index addr_val in
      apply_pairs e st' save game_index patch_index rest
                  (if patch_success then all_success else false)
  end.

(** [xemu_patches_apply_patch_with_save_restore] *)
Definition xemu_patches_apply_patch_with_save_restore (e : env) (st : engine)
    (patch : XemuMemoryPatch) (game_index patch_index : Z) : bool * engine :=
  if negb (has_system_memory (the_guest st)) then (false, st)
  else apply_pairs e st (save_replaced_values patch) game_index patch_index
                   (address_values patch) true.

(** The body of the loop in [xemu_patches_remove_patch_with_restore] for one
    pair of a patch with [save_replaced_values]; the result is whether
    [all_success] survives. *)
Definition restore_pair (e : env) (st : engine) (game_index patch_index : Z)
    (addr_val : XemuPatchAddressValue) : bool * engine :=
  match find_saved_value st game_index patch_index (address addr_val) with
  | None => (true, st)
  | Some entry_index =>
      match g_saved_values st !! entry_index with
      | None => (true, st)
      | Some saved_entry =>
          let '(restore_success, st1) :=
            apply_single_patch_bytes e st (address addr_val)
                                     (original_data saved_entry) in
          let st2 :=
            if restore_success
            then let '(_, _, st') :=
                   read_direct_virtual_memory st1 (address addr_val)
                                              (data_length saved_entry) in st'
            else st1 in
          (restore_success,
           set_saved (swap_remove (g_saved_values st2) entry_index) st2)
      end
  end.

Fixpoint restore_pairs (e : env) (st : engine) (game_index patch_index : Z)
    (pairs : list XemuPatchAddressValue) (all_success : bool) : bool * engine :=
  match pairs with
  | [] => (all_success, st)
  | addr_val :: rest =>
      let '(ok, st') := restore_pair e st game_index patch_index addr_val in
      restore_pairs e st' game_index patch_index rest
                    (if ok then all_success else false)
  end.

(** [xemu_patches_remove_patch_with_restore] *)
Definition xemu_patches_remove_patch_with_restore (e : env) (st : engine)
    (game_index patch_index : Z) : bool * engine :=
  let db := g_patches_db st in
  if negb (in_range game_index (game_count db)) then (false, st)
  else
    match at_index (game_list db) game_index with
    | None => (false, st)
    | Some game =>
        if negb (in_range patch_index (patch_count game)) then (false, st)
        else
          match at_index (patches game) patch_index with
          | None => (false, st)
          | Some patch =>
              if save_replaced_values patch
              then restore_pairs e st game_index patch_index (address_values patch) true
              else (true, st)
          end
    end.

(** [xemu_patches_find_game_by_title_id]: the index, or -1. *)
Fixpoint find_title_from (gs : list XemuGamePatches) (i : Z) (title : string) : Z :=
  match gs with
  | [] => -1
  | game :: rest =>
      if bool_decide (title_id game = Some title) then i
      else find_title_from rest (i + 1) title
  end.

Definition xemu_patches_find_game_by_title_id (st : engine)
    (title : option string) : Z :=
  match title with
  | None => -1
  | Some t =>
      if negb (B st g_patches_loaded) then -1
      else find_title_from (game_list (g_patches_db st)) 0 t
  end.

(** The loop of [xemu_patches_find_duplicate_game] from index [i] on;
    [strcmp(a, b) == 0] on a non-NULL field is equality with [Some b]. *)
Fixpoint find_duplicate_from (gs : list XemuGamePatches) (i : Z)
    (title ver : string) : Z :=
  match gs with
  | [] => -1
  | game :: rest =>
      let title_matches := bool_decide (title_id game = Some title) in
      let version_matches := bool_decide (version game = Some ver) in
      if title_matches && version_matches then i
      else find_duplicate_from rest (i + 1) title ver
  end.

(** [xemu_patches_find_duplicate_game] *)
Definition xemu_patches_find_duplicate_game (st : engine)
    (title ver : option string) : Z :=
  match title, ver with
  | Some t, Some v =>
      if negb (B st g_patches_loaded) then -1
      else find_duplicate_from (game_list (g_patches_db st)) 0 t v
  | _, _ => -1
  end.

(** [xemu_patches_add_game]; [g_renew] aborts rather than returning NULL. *)
Definition xemu_patches_add_game (e : env) (st : engine)
    (title reg tid ver alt_tid tdate disc : option string) : bool * engine :=
  let new_game := MkGame title reg tid ver alt_tid tdate disc [] true in
  let db := g_patches_db st in
  let st1 := set_db (MkDb (Some (game_list db ++ [new_game])) (file_path db) true) st in
  let '(_, st2) := xemu_patches_save_database e st1 in
  (true, st2).

(** [xemu_patches_remove_game] *)
Definition xemu_patches_remove_game (st : engine) (game_index : Z)
    : bool * engine :=
  let db := g_patches_db st in
  if negb (in_range game_index (game_count db)) then (false, st)
  else
    (true,
     set_db (MkDb (Some (remove_at (game_list db) game_index)) (file_path db) true) st).

(** [xemu_patches_update_game]; the patches and the enabled flag stay. *)
Definition xemu_patches_update_game (st : engine) (game_index : Z)
    (title reg tid ver alt_tid tdate disc : option string) : bool * engine :=
  let db := g_patches_db st in
  if negb (in_range game_index (game_count db)) then (false, st)
  else
    match at_index (game_list db) game_index with
    | None => (false, st)
    | Some game =>
        let game' := MkGame title reg tid ver alt_tid tdate disc
                            (patches game) (game_enabled game) in
        (true,
         set_db (MkDb (Some (<[Z.to_nat game_index := game']> (game_list db)))
                      (file_path db) true) st)
    end.

(** [xemu_patches_add_patch].  The C function fills the slot
    [patches[patch_count]] of the reallocated array but never increments
    [patch_count], so the game's visible patch list does not change. *)
Definition xemu_patches_add_patch (st : engine) (game_index : Z)
    (pname pcategory pauthor pnotes address_value_pairs : option string)
    (save_replaced : bool) : bool * engine :=
  let db := g_patches_db st in
  if negb (in_range game_index (game_count db)) then (false, st)
  else
    match pname, pcategory, pauthor, address_value_pairs with
    | Some _, Some _, Some _, Some _ =>
        match xemu_patches_parse_address_value_pairs address_value_pairs with
        | None => (false, st)
        | Some _ => (true, mark_dirty true st)
        end
    | _, _, _, _ => (false, st)
    end.

Definition replace_patch (db : XemuPatchesDatabase) (game_index patch_index : Z)
    (game : XemuGamePatches) (patch : XemuMemoryPatch) : XemuPatchesDatabase :=
  set_games db
    (Some (<[Z.to_nat game_index :=
               set_patches game (<[Z.to_nat patch_index := patch]> (patches game))]>
             (game_list db))).

(** [xemu_patches_remove_patch] *)
Definition xemu_patches_remove_patch (st : engine) (game_index patch_index : Z)
    : bool * engine :=
  let db := g_patches_db st in
  if negb (in_range game_index (game_count db)) then (false, st)
  else
    match at_index (game_list db) game_index with
    | None => (false, st)
    | Some game =>
        if negb (in_range patch_index (patch_count game)) then (false, st)
        else
          let game' := set_patches game (remove_at (patches game) patch_index) in
          let st1 :=
            set_db (MkDb (Some (<[Z.to_nat game_index := game']> (game_list db)))
                         (file_path db) true) st in
          (true,
           set_saved
             (clear_loop (length (g_saved_values st1))
                (fun s => (sv_game_index s =? game_index)
                          && (sv_patch_index s =? patch_index))
                0 (g_saved_values st1)) st1)
    end.

(** [xemu_patches_update_patch].  A failing parse returns [false] after the
    old name, category, author, notes, pairs and lines have been freed. *)
Definition xemu_patches_update_patch (st : engine) (game_index patch_index : Z)
    (pname pcategory pauthor pnotes address_value_pairs : option string)
    (save_replaced : bool) : bool * engine :=
  let db := g_patches_db st in
  if negb (in_range game_index (game_count db)) then (false, st)
  else
    match at_index (game_list db) game_index with
    | None => (false, st)
    | Some game =>
        if negb (in_range patch_index (patch_count game)) then (false, st)
        else
          match at_index (patches game) patch_index,
                pname, pcategory, pauthor, address_value_pairs with
          | Some patch, Some _, Some _, Some _, Some text =>
              match xemu_patches_parse_address_value_pairs address_value_pairs with
              | None =>
                  (false,
                   set_db (replace_patch db game_index patch_index game
                             (MkPatch [] (enabled patch) None None None None []
                                      (save_replaced_values patch))) st)
              | Some parsed_pairs =>
                  let patch' :=
                    MkPatch parsed_pairs (enabled patch) pname pcategory pauthor
                            (Some (default "" pnotes)) (editor_lines text)
                            save_replaced in
                  (true,
                   mark_dirty true
                     (set_db (replace_patch db game_index patch_index game patch') st))
              end
          | _, _, _, _, _ => (false, st)
          end
    end.

(** [xemu_patches_set_patch_enabled] *)
Definition xemu_patches_set_patch_enabled (e : env) (st : engine)
    (game_index patch_index : Z) (enable : bool) : bool * engine :=
  let db := g_patches_db st in
  if negb (in_range game_index (game_count db)) then (false, st)
  else
    match at_index (game_list db) game_index with
    | None => (false, st)
    | Some game =>
        if negb (in_range patch_index (patch_count game)) then (false, st)
        else
          match at_index (patches game) patch_index with
          | None => (false, st)
          | Some old_patch =>
              let old_enabled := enabled old_patch in
              let patch_name := default "Unnamed Patch" (name old_patch) in
              let patch := set_enabled old_patch enable in
              let st1 := set_db (replace_patch db game_index patch_index game patch) st in
              let finish (st' : engine) : bool * engine :=
                let st2 := mark_dirty true st' in
                let '(saved, st3) := xemu_patches_save_database e st2 in
                (true,
                 if saved
                 then xemu_queue_notification
                        (snprintf 256 ("Patch '" +:+ patch_name +:+ "' "
                                       +:+ (if enable then "enabled" else "disabled")))
                        st3
                 else st3) in
              if enable && negb old_enabled then
                if negb (is_game_currently_running st1) then
                  (true,
                   xemu_queue_notification
                     (snprintf 256 ("No game running - patch '" +:+ patch_name
                                    +:+ "' will apply on game load")) st1)
                else
                  match address_values patch with
                  | _ :: _ =>
                      let '(apply_result, st2) :=
                        xemu_patches_apply_patch_with_save_restore
                          e st1 patch game_index patch_index in
                      finish
                        (if apply_result
                         then xemu_queue_notification
                                (snprintf 512 ("Applied patch " +:+ dquote +:+ patch_name +:+ dquote))
                                st2
                         else xemu_queue_error_message
                                (snprintf 256 ("Failed to apply patch '" +:+ patch_name
                                               +:+ "' - Check memory access")) st2)
                  | [] => finish st1
                  end
              else if negb enable && old_enabled then
                let '(remove_result, st2) :=
                  xemu_patches_remove_patch_with_restore e st1 game_index patch_index in
                finish
                  (if remove_result
                   then xemu_queue_notification
                          (snprintf 256 ("Removed patch " +:+ dquote +:+ patch_name +:+ dquote)) st2
                   else xemu_queue_error_message
                          (snprintf 256 ("Failed to properly remove patch '"
                                         +:+ patch_name +:+ "'")) st2)
              else finish st1
          end
    end.

(** [xemu_patches_on_ui_database_changed] *)
Definition xemu_patches_on_ui_database_changed (e : env) (st : engine) : engine :=
  let st1 := mark_dirty true st in
  if negb (B st1 g_save_in_progress) then
    let '(saved, st2) := xemu_patches_save_database e st1 in
    if saved then st2 else mark_dirty true st2
  else st1.

Global Arguments xemu_patches_save_database : simpl never.
Global Arguments apply_pair : simpl never.
Global Arguments restore_pair : simpl never.
Global Arguments xemu_patches_apply_patch_with_save_restore : simpl never.
Global Arguments xemu_patches_remove_patch_with_restore : simpl never.
Global Arguments xemu_patches_find_duplicate_game : simpl never.
Global Arguments xemu_patches_add_game : simpl never.
Global Arguments xemu_patches_remove_game : simpl never.
Global Arguments xemu_patches_update_game : simpl never.
Global Arguments xemu_patches_add_patch : simpl never.
Global Arguments xemu_patches_remove_patch : simpl never.
Global Arguments xemu_patches_update_patch : simpl never.
Global Arguments xemu_patches_set_patch_enabled : simpl never.
Global Arguments xemu_patches_on_ui_database_changed : simpl never.

End PatchStore.
Export PatchStore.

(** ** ui/xui/main-menu.cc: the "Add Game" button of the Add Game dialog *)

Module AddGameDialog.

(** The dialog's text fields are character arrays, never NULL. *)
Record add_game_fields := MkFields {
  m_add_game_title : string;
  m_add_game_region : string;
  m_add_game_title_id : string;
  m_add_game_version : string;
  m_add_game_alternate_title_id : string;
  m_add_game_time_date : string;
  m_add_game_disc_number : string
}.

Definition duplicate_message (duplicate : XemuGamePatches) : string :=
  snprintf 256
    ("Exact duplicate found: '" +:+ default "Unknown" (game_title duplicate)
     +:+ "' (Title ID: " +:+ default "NULL" (title_id duplicate)
     +:+ ", Version: " +:+ default "NULL" (version duplicate) +:+ ")" +:+ nl
     +:+ "Same Title ID AND Version already exist in database").

(** The handler run when the button is pressed: [true] when a game was added. *)
Definition add_game_pressed (e : env) (st : engine) (f : add_game_fields)
    : bool * engine :=
  if (0 <? strlen (m_add_game_title f)) && (0 <? strlen (m_add_game_title_id f)) then
    let existing_game :=
      xemu_patches_find_duplicate_game st (Some (m_add_game_title_id f))
                                       (Some (m_add_game_version f)) in
    if existing_game >=? 0 then
      match at_index (game_list (g_patches_db st)) existing_game with
      | Some duplicate =>
          (false, xemu_queue_error_message (duplicate_message duplicate) st)
      | None => (false, st)
      end
    else
      let '(added, st1) :=
        xemu_patches_add_game e st (Some (m_add_game_title f))
          (Some (m_add_game_region f)) (Some (m_add_game_title_id f))
          (Some (m_add_game_version f)) (Some (m_add_game_alternate_title_id f))
          (Some (m_add_game_time_date f)) (Some (m_add_game_disc_number f)) in
      if added then
        (true,
         xemu_queue_notification "Added game to patches database"
           (xemu_patches_on_ui_database_changed e st1))
      else (false, xemu_queue_error_message "Failed to add game" st1)
  else (false, xemu_queue_error_message "Game Title and Title ID are required" st).

Global Arguments duplicate_message : simpl never.
Global Arguments add_game_pressed : simpl never.

End AddGameDialog.
Export AddGameDialog.

(** ** Reading the database file *)

Module Loader.

(** One [fgets(line, 1024, file)]: up to 1023 characters, ending after the
    first newline; the chunk and the rest of the file. *)
Fixpoint fgets_chunk (room : nat) (s : string) : string * string :=
  match room, s with
  | O, _ => (EmptyString, s)
  | _, EmptyString => (EmptyString, EmptyString)
  | S k, String c r =>
      if Ascii.eqb c (ascii_of_nat 10) then (String c EmptyString, r)
      else let '(chunk, rest) := fgets_chunk k r in (String c chunk, rest)
  end.

(** The chunk without its final newline. *)
Definition chop_newline (s : string) : string :=
  if String.eqb (drop_chars (String.length s - 1) s) nl
  then take_chars (String.length s - 1) s else s.

(** The read loop of [xemu_patches_load_database]: chunks longer than 1000
    characters are dropped.  Every round consumes at least one character. *)
Fixpoint read_lines (fuel : nat) (s : string) : list string :=
  match fuel with
  | O => []
  | S k =>
      match s with
      | EmptyString => []
      | _ =>
          let '(chunk, rest) := fgets_chunk 1023 s in
          if (1000 <? String.length chunk)%nat then read_lines k rest
          else chop_newline chunk :: read_lines k rest
      end
  end.

Definition file_lines (content : string) : list string :=
  read_lines (String.length content) content.

Definition first_char_is (s : string) (c : ascii) : bool :=
  match s with
  | String x _ => Ascii.eqb x c
  | EmptyString => false
  end.

Definition is_empty (s : string) : bool :=
  match s with EmptyString => true | _ => false end.

(** [colon = strchr(trimmed, ':')] followed by the test
    [colon && *(colon + 1) != 0] and [g_strstrip(g_strdup(colon + 1))];
    [None] when the test fails or the value is empty. *)
Definition value_after (s : string) (c : ascii) : option string :=
  match split_at s c with
  | Some (_, after) =>
      if is_empty after then None
      else let value := g_strstrip after in
           if is_empty value then None else Some value
  | None => None
  end.

(** The loop that cuts trailing quotes off a title. *)
Fixpoint chop_quotes (rev_chars : list ascii) : list ascii :=
  match rev_chars with
  | c :: r =>
      if Ascii.eqb c (ascii_of_nat 34) || Ascii.eqb c (ascii_of_nat 39)
      then chop_quotes r else rev_chars
  | [] => []
  end.

Definition strip_trailing_quotes (s : string) : string :=
  string_of_list_ascii (rev (chop_quotes (rev (list_ascii_of_string s)))).

Definition blank_game : XemuGamePatches :=
  MkGame None None None None None None None [] false.

Definition with_title (g : XemuGamePatches) (v : string) : XemuGamePatches :=
  MkGame (Some v) (region g) (title_id g) (version g) (alternate_title_id g)
         (time_date g) (disc_number g) (patches g) (game_enabled g).

Definition with_title_id (g : XemuGamePatches) (v : string) : XemuGamePatches :=
  MkGame (game_title g) (region g) (Some v) (version g) (alternate_title_id g)
         (time_date g) (disc_number g) (patches g) (game_enabled g).

Definition with_region (g : XemuGamePatches) (v : string) : XemuGamePatches :=
  MkGame (game_title g) (Some v) (title_id g) (version g) (alternate_title_id g)
         (time_date g) (disc_number g) (patches g) (game_enabled g).

Definition with_version (g : XemuGamePatches) (v : string) : XemuGamePatches :=
  MkGame (game_title g) (region g) (title_id g) (Some v) (alternate_title_id g)
         (time_date g) (disc_number g) (patches g) (game_enabled g).

Definition with_alternate (g : XemuGamePatches) (v : string) : XemuGamePatches :=
  MkGame (game_title g) (region g) (title_id g) (version g) (Some v)
         (time_date g) (disc_number g) (patches g) (game_enabled g).

Definition with_time_date (g : XemuGamePatches) (v : string) : XemuGamePatches :=
  MkGame (game_title g) (region g) (title_id g) (version g)
         (alternate_title_id g) (Some v) (disc_number g) (patches g)
         (game_enabled g).

Definition with_disc_number (g : XemuGamePatches) (v : string) : XemuGamePatches :=
  MkGame (game_title g) (region g) (title_id g) (version g)
         (alternate_title_id g) (time_date g) (Some v) (patches g)
         (game_enabled g).

Definition set_field (g : XemuGamePatches)
    (f : XemuGamePatches -> string -> XemuGamePatches) (v : option string)
    : XemuGamePatches :=
  match v with Some x => f g x | None => g end.

(** One line of the game-info block; [None] ends the loop (the "Patches"
    marker). *)
Definition game_info_line (g : XemuGamePatches) (line : string)
    : option XemuGamePatches :=
  let trimmed := g_strstrip line in
  if is_empty trimmed || first_char_is trimmed "#" then Some g
  else if g_str_has_prefix trimmed "Patches" then None
  else if g_str_has_prefix trimmed "title:" then
    Some (match value_after trimmed ":" with
          | Some value => with_title g (g_strstrip (strip_trailing_quotes value))
          | None => g
          end)
  else if g_str_has_prefix trimmed "title-id:"
  then Some (set_field g with_title_id (value_after trimmed ":"))
  else if g_str_has_prefix trimmed "region:"
  then Some (set_field g with_region (value_after trimmed ":"))
  else if g_str_has_prefix trimmed "version:"
  then Some (set_field g with_version (value_after trimmed ":"))
  else if g_str_has_prefix trimmed "alternate-title-id:"
  then Some (set_field g with_alternate (value_after trimmed ":"))
  else if g_str_has_prefix trimmed "time-date:"
  then Some (set_field g with_time_date (value_after trimmed ":"))
  else if g_str_has_prefix trimmed "disc-number:"
  then Some (set_field g with_disc_number (value_after trimmed ":"))
  else if g_str_has_prefix trimmed "game-title="
  then Some (set_field g with_title (value_after trimmed "="))
  else Some g.

Fixpoint game_info_loop (g : XemuGamePatches) (lines : list string)
    : XemuGamePatches :=
  match lines with
  | [] => g
  | line :: rest =>
      match game_info_line g line with
      | Some g' => game_info_loop g' rest
      | None => g
      end
  end.

(** [parse_game_info]; it always returns [true].  An ["enabled:"] line is
    read and then overridden by the final [game->enabled = true]. *)
Definition parse_game_info (lines : list string) (g : XemuGamePatches)
    : XemuGamePatches :=
  let g1 := game_info_loop g lines in
  MkGame (Some (default "Unknown Game" (game_title g1)))
         (Some (default "NTSC" (region g1)))
         (Some (default "Unknown" (title_id g1)))
         (Some (default "Unknown" (version g1)))
         (alternate_title_id g1) (time_date g1) (disc_number g1)
         (patches g1) true.

(** The hex pairs of a value in a "Memory Addresses" line: the bytes, or
    [None] when a pair does not convert up to its end.  A final single
    digit is converted but not counted. *)
Fixpoint hex_pairs (fuel : nat) (s : string) : option (list Z) :=
  match fuel with
  | O => Some []
  | S k =>
      match s with
      | EmptyString => Some []
      | String a EmptyString =>
          let '(_, endptr) :=
            strtol16 (String a (String "0" EmptyString)) in
          if is_empty endptr then Some [] else None
      | String a (String b rest) =>
          let '(v, endptr) := strtol16 (String a (String b EmptyString)) in
          if is_empty endptr
          then match hex_pairs k rest with
               | Some bytes => Some (v mod 256 :: bytes)
               | None => None
               end
          else None
      end
  end.

(** One address line: the pair it yields, if any. *)
Definition parse_address_line (line : string) : option XemuPatchAddressValue :=
  let parse_line := strip_comment line in
  match split_at parse_line ":" with
  | Some (before, after) =>
      let addr_str := g_strstrip before in
      let val_str := g_strstrip after in
      let '(addr, endptr) := strtoul16 addr_str in
      if negb (is_empty endptr) then None
      else
        let val_clean :=
          if g_str_has_prefix val_str "0x" then drop_chars 2 val_str else val_str in
        match hex_pairs (String.length val_clean) val_clean with
        | Some bytes => Some (MkAddressValue (u32 addr) bytes)
        | None => None
        end
  | None => None
  end.

(** The loop below "Memory Addresses:": the pairs, the preserved lines and
    the lines left (from the next ["Patch:"] line on). *)
Fixpoint address_loop (lines : list string)
    (pairs : list XemuPatchAddressValue) (kept : list string)
    : list XemuPatchAddressValue * list string * list string :=
  match lines with
  | [] => (pairs, kept, [])
  | line :: rest =>
      if is_empty line || first_char_is line (ascii_of_nat 10)
      then address_loop rest pairs kept
      else
        let trimmed_line := g_strstrip line in
        if is_empty trimmed_line
           || (first_char_is trimmed_line " "
               && negb (has_char (drop_chars 1 trimmed_line) ":"))
        then address_loop rest pairs kept
        else if g_str_has_prefix trimmed_line "Patch:" then (pairs, kept, lines)
        else if g_str_has_prefix trimmed_line "Author:"
                || g_str_has_prefix trimmed_line "Category:"
                || g_str_has_prefix trimmed_line "Notes:"
        then address_loop rest pairs kept
        else
          let kept' := kept ++ [g_strstrip line] in
          match parse_address_line line with
          | Some av => address_loop rest (pairs ++ [av]) kept'
          | None => address_loop rest pairs kept'
          end
  end.

(** [colon && *(colon + 1) != 0], then [g_strstrip(g_strdup(colon + 1))]. *)
Definition text_after_colon (s : string) : option string :=
  match split_at s ":" with
  | Some (_, after) => if is_empty after then None else Some (g_strstrip after)
  | None => None
  end.

Definition with_author (p : XemuMemoryPatch) (v : string) : XemuMemoryPatch :=
  MkPatch (address_values p) (enabled p) (name p) (category p) (Some v)
          (notes p) (address_value_lines p) (save_replaced_values p).

Definition with_category (p : XemuMemoryPatch) (v : string) : XemuMemoryPatch :=
  MkPatch (address_values p) (enabled p) (name p) (Some v) (author p)
          (notes p) (address_value_lines p) (save_replaced_values p).

Definition with_notes (p : XemuMemoryPatch) (v : string) : XemuMemoryPatch :=
  MkPatch (address_values p) (enabled p) (name p) (category p) (author p)
          (Some v) (address_value_lines p) (save_replaced_values p).

Definition with_save_replaced (p : XemuMemoryPatch) (b : bool) : XemuMemoryPatch :=
  MkPatch (address_values p) (enabled p) (name p) (category p) (author p)
          (notes p) (address_value_lines p) b.

Definition with_addresses (p : XemuMemoryPatch)
    (pairs : list XemuPatchAddressValue) (kept : list string) : XemuMemoryPatch :=
  MkPatch pairs (enabled p) (name p) (category p) (author p) (notes p) kept
          (save_replaced_values p).

Definition set_text (p : XemuMemoryPatch)
    (f : XemuMemoryPatch -> string -> XemuMemoryPatch) (v : option string)
    : XemuMemoryPatch :=
  match v with Some x => f p x | None => p end.

(** The metadata loop of one patch: the patch and the lines left, the
    first of which is the line the loop stopped at. *)
Fixpoint meta_loop (lines : list string) (p : XemuMemoryPatch)
    : XemuMemoryPatch * list string :=
  match lines with
  | [] => (p, [])
  | line :: rest =>
      let meta_line := g_strstrip line in
      if 1000 <? strlen meta_line then (p, lines)
      else if has_char meta_line (ascii_of_nat 10) then (p, lines)
      else if is_empty meta_line || g_str_has_prefix meta_line "Patches"
              || g_str_has_prefix meta_line "Game Entry"
              || (first_char_is meta_line " "
                  && negb (has_char (drop_chars 1 meta_line) ":"))
      then (p, lines)
      else if g_str_has_prefix meta_line "Author:"
      then meta_loop rest (set_text p with_author (text_after_colon meta_line))
      else if g_str_has_prefix meta_line "Category:"
      then meta_loop rest (set_text p with_category (text_after_colon meta_line))
      else if g_str_has_prefix meta_line "Notes:"
      then meta_loop rest (set_text p with_notes (text_after_colon meta_line))
      else if g_str_has_prefix meta_line "Enabled:" then
        meta_loop rest
          (match value_after meta_line ":" with
           | Some value => set_enabled p (negb (atoi value =? 0))
           | None => p
           end)
      else if g_str_has_prefix meta_line "Save Replaced Values:" then
        meta_loop rest
          (match value_after meta_line ":" with
           | Some value => with_save_replaced p (negb (atoi value =? 0))
           | None => p
           end)
      else if g_str_has_prefix meta_line "Memory Addresses:" then
        let '(pairs, kept, remaining) := address_loop rest [] [] in
        (with_addresses p pairs kept, remaining)
      else meta_loop rest p
  end.

(** The byte conversion of the legacy parser: pairs of characters, the
    last one completed with ['0'], each through [strtoul(.., NULL, 16)]. *)
Fixpoint legacy_bytes (fuel : nat) (s : string) : list Z :=
  match fuel with
  | O => []
  | S k =>
      match s with
      | EmptyString => []
      | String a EmptyString =>
          [fst (strtoul16 (String a (String "0" EmptyString))) mod 256]
      | String a (String b rest) =>
          fst (strtoul16 (String a (String b EmptyString))) mod 256
          :: legacy_bytes k rest
      end
  end.

Definition legacy_pair (before after : string) : XemuPatchAddressValue :=
  let hex_str := g_strstrip after in
  MkAddressValue (u32 (fst (strtoul16 (g_strstrip before))))
                 (legacy_bytes (String.length hex_str) hex_str).

Definition is_colon (c : ascii) : bool := Ascii.eqb c ":".
Definition is_comma (c : ascii) : bool := Ascii.eqb c ",".

(** The tokens of the address part that hold a colon, parsed. *)
Fixpoint legacy_pairs (tokens : list string) : list XemuPatchAddressValue :=
  match tokens with
  | [] => []
  | token :: rest =>
      match split_at token ":" with
      | Some (before, after) => legacy_pair before after :: legacy_pairs rest
      | None => legacy_pairs rest
      end
  end.

(** What [parse_patch_line] hands back when it returns [true]. *)
Record legacy_patch := MkLegacy {
  legacy_pairs_of : list XemuPatchAddressValue;
  legacy_name : string;
  legacy_category : string;
  legacy_author : string;
  legacy_notes : string
}.

(** [parse_patch_line].  Its array has one slot per comma-separated token;
    the slots after the parsed pairs are never written by the C code, the
    model shows them as address 0 with no bytes.  The recursive call of the
    C function needs a token with a colon in it, which [strtok_r(.., ":")]
    never returns. *)
Definition parse_patch_line (line : string) : option legacy_patch :=
  match split_at line "=" with
  | None =>
      match split_at (strip_comment line) ":" with
      | None => None
      | Some (before, after) =>
          let av := legacy_pair before after in
          Some (MkLegacy [av] ("Patch at 0x" +:+ hex_fixed 8 (address av))
                         "General" "Unknown" "")
      end
  | Some (before, after) =>
      let left_side := g_strstrip before in
      let '(category_part, r1) := strtok_r (g_strstrip after) is_colon in
      let '(author_part, r2) := strtok_r r1 is_colon in
      let '(notes_part, r3) := strtok_r r2 is_colon in
      let '(addresses_part, _) := strtok_r r3 is_colon in
      let '(addresses, cat, auth, note) :=
        match addresses_part with
        | Some a => (Some a, category_part, author_part, notes_part)
        | None => (category_part, Some "General", Some "Unknown", Some "")
        end in
      match addresses with
      | None => None
      | Some a =>
          if is_empty a then None
          else
            let tokens := strtok_all a is_comma in
            if (length tokens =? 0)%nat then None
            else
              let parsed := legacy_pairs tokens in
              Some (MkLegacy
                      (parsed ++ replicate (length tokens - length parsed)
                                           (MkAddressValue 0 []))
                      left_side (default "General" cat)
                      (default "Unknown" auth) (default "" note))
      end
  end.

Definition all_equals (s : string) : bool :=
  forallb (fun c => Ascii.eqb c "=") (list_ascii_of_string s).

Definition fresh_patch (patch_name : string) : XemuMemoryPatch :=
  MkPatch [] true (Some patch_name) (Some "Other") (Some "Unknown") (Some "")
          [] false.

(** The outer loop of [parse_game_patches]; every round consumes at least
    one line, so [fuel] beyond the number of lines is never used up. *)
Fixpoint patches_loop (fuel : nat) (lines : list string)
    (acc : list XemuMemoryPatch) : list XemuMemoryPatch :=
  match fuel with
  | O => acc
  | S k =>
      match lines with
      | [] => acc
      | line :: rest =>
          let trimmed := g_strstrip line in
          if is_empty trimmed || first_char_is trimmed "#"
             || (negb (first_char_is trimmed (ascii_of_nat 9))
                 && has_char trimmed "=" && negb (has_char trimmed ":"))
          then if all_equals trimmed then patches_loop k rest acc else acc
          else if g_str_has_prefix trimmed "Patch:" then
            let '(patch, remaining) :=
              meta_loop rest (fresh_patch (g_strstrip (drop_chars 6 trimmed))) in
            patches_loop k remaining (acc ++ [patch])
          else if has_char trimmed ":" && has_char trimmed "=" then
            match parse_patch_line trimmed with
            | Some l =>
                patches_loop k rest
                  (acc ++ [MkPatch (legacy_pairs_of l) true (Some (legacy_name l))
                                   (Some (legacy_category l))
                                   (Some (legacy_author l))
                                   (Some (legacy_notes l)) [] false])
            | None => patches_loop k rest acc
            end
          else patches_loop k rest acc
      end
  end.

(** [parse_game_patches]; it always returns [true]. *)
Definition parse_game_patches (lines : list string) (g : XemuGamePatches)
    : XemuGamePatches :=
  set_patches g (patches_loop (S (length lines)) lines []).

(** The inner loop of [xemu_patches_load_database] that gathers the lines
    of one game: the info lines, the patch lines and how many lines were
    taken. *)
Fixpoint collect_game (lines : list string) (first in_patch_section : bool)
    (game_lines patch_lines : list string) (taken : nat)
    : list string * list string * nat :=
  match lines with
  | [] => (game_lines, patch_lines, taken)
  | game_line :: rest =>
      let game_trimmed := g_strstrip game_line in
      if negb first
         && (g_str_has_prefix game_trimmed "Game Entry"
             || (has_char game_trimmed "="
                 && g_str_has_prefix game_trimmed "game-title="))
      then (game_lines, patch_lines, taken)
      else
        let in_patch := in_patch_section || g_str_has_prefix game_trimmed "Patches" in
        if in_patch
        then collect_game rest false in_patch game_lines
                          (patch_lines ++ [game_line]) (S taken)
        else collect_game rest false in_patch (game_lines ++ [game_line])
                          patch_lines (S taken)
  end.

(** The game built from the gathered lines. *)
Definition parse_game (game_lines patch_lines : list string) : XemuGamePatches :=
  match game_lines with
  | [] => blank_game
  | _ =>
      let g := parse_game_info game_lines blank_game in
      match patch_lines with
      | [] => g
      | _ => parse_game_patches patch_lines g
      end
  end.

(** The game loop of [xemu_patches_load_database] from line [current_line]
    on.  After a game, [current_line] is set one line before the line the
    gathering stopped at; when that is the line the game started at, the C
    loop never ends, and the model runs out of [fuel] ([None]). *)
Fixpoint games_loop (fuel : nat) (lines : list string) (current_line : nat)
    (games_array : list XemuGamePatches) : option (list XemuGamePatches) :=
  match fuel with
  | O => None
  | S k =>
      match lines !! current_line with
      | None => Some games_array
      | Some line =>
          let trimmed := g_strstrip line in
          if is_empty trimmed || first_char_is trimmed "#"
          then games_loop k lines (S current_line) games_array
          else if g_str_has_prefix trimmed "Game Entry" || has_char trimmed "="
                  || g_str_has_prefix trimmed "title:"
          then
            let '(game_lines, patch_lines, taken) :=
              collect_game (drop current_line lines) true false [] [] 0 in
            games_loop k lines (current_line + taken - 1)
                       (games_array ++ [parse_game game_lines patch_lines])
          else games_loop k lines (S current_line) games_array
      end
  end.

End Loader.
Export Loader.

(** ** Loading and freeing the database *)

Module DatabaseFile.

(** [xemu_patches_free_database]: a dirty database is saved first. *)
Definition xemu_patches_free_database (e : env) (st : engine) : engine :=
  let st1 :=
    if dirty (g_patches_db st) then snd (xemu_patches_save_database e st)
    else st in
  xemu_patches_clear_all_saved_values (set_db (MkDb None None false) st1).

(** [xemu_patches_load_database].  A file that exists is taken to open for
    reading; the file is read after [xemu_patches_free_database] has run,
    which may have rewritten it.  [None]: the game loop does not end. *)
Definition xemu_patches_load_database (e : env) (st : engine)
    (filepath : option string) : option (bool * engine) :=
  let path := default (default_db_path e) filepath in
  match files st !! path with
  | None =>
      Some (false,
            setB g_patches_loaded true (set_db (MkDb None (Some path) false) st))
  | Some content =>
      if strlen content >? 10 * 1024 * 1024 then Some (false, st)
      else
        let st1 := xemu_patches_free_database e st in
        let lines := file_lines (default "" (files st1 !! path)) in
        match games_loop (S (length lines)) lines 0 [] with
        | None => None
        | Some games_array =>
            Some (true,
                  setB g_patches_loaded true
                    (set_db (MkDb (match games_array with
                                   | [] => None
                                   | _ => Some games_array
                                   end) (Some path) false) st1))
        end
  end.

Global Arguments xemu_patches_free_database : simpl never.
Global Arguments xemu_patches_load_database : simpl never.

End DatabaseFile.
Export DatabaseFile.

(** ** Certificate reading *)

Module Certificate.

(** The caller's three [uint32_t] variables behind the out-pointers; every
    caller in the sources passes non-NULL pointers. *)
Definition outs : Type := (Z * Z * Z)%type.

Definition out_title (o : outs) : Z := o.1.1.
Definition out_region (o : outs) : Z := o.1.2.
Definition out_version (o : outs) : Z := o.2.

Definition is_valid_xbox_title_id (title : Z) : bool :=
  negb (title =? 0xFFFF0002) && negb (title =? 0xFFFE0000)
  && negb (title =? 0) && negb (title =? 0xFFFFFFFF).

(** [clear_certificate_cache_internal] *)
Definition clear_certificate_cache_internal (st : engine) : engine :=
  setI g_last_cert_read_time 0
    (setI g_last_cert_version 0xFFFFFFFF
      (setI g_last_cert_region 0xFFFFFFFF
        (setI g_last_cert_title_id 0xFFFFFFFF
          (setB g_cert_data_valid false
            (setB g_force_fresh_xbe_read true
              (setI g_xbe_cache_last_read_time 0
                (setI g_xbe_cache_frame_last_read (-1)
                  (setB g_xbe_cache_valid false st)))))))).

(** [reset_notification_tracking_for_new_game] *)
Definition reset_notification_tracking_for_new_game (st : engine) : engine :=
  setB g_notification_generation_active false
    (setI last_notification_time 0 (setI last_notified_title_id 0 st)).

(** [invalidate_certificate_cache] *)
Definition invalidate_certificate_cache (st : engine) : engine :=
  reset_notification_tracking_for_new_game (clear_certificate_cache_internal st).

(** [xemu_clear_cert_cache] *)
Definition xemu_clear_cert_cache (st : engine) : engine :=
  clear_certificate_cache_internal st.

(** [reset_last_applied_tracking] *)
Definition reset_last_applied_tracking (st : engine) : engine :=
  setB g_cert_data_valid false
    (setI g_last_cert_read_time 0
      (setI g_last_cert_version 0
        (setI g_last_cert_region 0
          (setI g_last_cert_title_id 0
            (setI g_last_applied_version 0
              (setI g_last_applied_region 0
                (setI g_last_applied_title_id 0 st))))))).

(** The tail of [get_cached_xbe_info]: hand out the cache when it is valid. *)
Definition cached_result (st : engine) (out : outs) : bool * outs * engine :=
  if B st g_xbe_cache_valid
  then (true,
        (I st g_xbe_cache_title_id, I st g_xbe_cache_region,
         I st g_xbe_cache_version), st)
  else (false, out, st).

(** [get_cached_xbe_info]; [out] is what the caller's variables hold before
    the call, the result carries what they hold after it. *)
Definition get_cached_xbe_info (e : env) (st : engine) (out : outs)
    : bool * outs * engine :=
  let current_time := SDL_GetTicks e in
  let current_frame := current_time / 16 in
  let need_fresh_data :=
    (u64 (current_time - I st g_xbe_cache_last_read_time) >=? 5000)
    || negb (B st g_xbe_cache_valid) || B st g_force_fresh_xbe_read in
  if need_fresh_data then
    let st1 :=
      if B st g_load_disc_in_progress then
        let st' := setI load_disc_stuck_counter
                        (u32 (I st load_disc_stuck_counter + 1)) st in
        if I st' load_disc_stuck_counter >? 60
        then setI load_disc_stuck_counter 0
               (setB g_load_disc_retry_pending false
                 (setB g_load_disc_in_progress false st'))
        else st'
      else setI load_disc_stuck_counter 0 st in
    if B st1 g_load_disc_in_progress then (false, out, st1)
    else
      match xemu_get_xbe_info e with
      | Some cert =>
          let new_title_id := u32 (m_titleid cert) in
          let new_region := u32 (m_game_region cert) in
          let new_version := u32 (m_version cert) in
          let is_valid_title_id :=
            negb (new_title_id =? 0) && negb (new_title_id =? 0xFFFF0002)
            && negb (new_title_id =? 0xFFFE0000)
            && negb (new_title_id =? 0xFFFFFFFF) in
          if negb is_valid_title_id then
            (false, out,
             if u64 (current_time - I st1 cache_last_invalid_time) >? 2000
             then setI cache_last_invalid_time current_time
                    (setB g_force_fresh_xbe_read true st1)
             else st1)
          else
            let st2 :=
              setI g_xbe_cache_frame_last_read current_frame
                (setI g_xbe_cache_last_read_time current_time
                  (setB g_xbe_cache_valid true
                    (setI g_xbe_cache_version new_version
                      (setI g_xbe_cache_region new_region
                        (setI g_xbe_cache_title_id new_title_id st1))))) in
            let st3 :=
              if B st2 g_force_fresh_xbe_read
              then setB g_force_fresh_xbe_read false st2 else st2 in
            if B st3 g_force_fresh_xbe_read
               && negb (B st3 g_post_reset_patch_scheduled)
            then cached_result (setI load_disc_cooldown_frames 10 st3) out
            else if I st3 load_disc_cooldown_frames >? 0
            then (false, out,
                  setI load_disc_cooldown_frames
                       (I st3 load_disc_cooldown_frames - 1) st3)
            else cached_result st3 out
      | None => (false, out, setB g_xbe_cache_valid false st1)
      end
  else cached_result st out.

(** The bookkeeping at the end of the invalid branch of the wrapper. *)
Definition note_invalid_read (e : env) (title : Z) (st : engine) : engine :=
  setI g_last_invalid_read_time (time_NULL e)
    (setI g_last_invalid_title_id title st).

(** [get_cached_xbe_info_with_spam_prevention] *)
Definition get_cached_xbe_info_with_spam_prevention (e : env) (st : engine)
    (out : outs) : bool * outs * engine :=
  let '(result, out', st1) := get_cached_xbe_info e st out in
  let title_id := out_title out' in
  if result && negb (title_id =? 0) then
    let st2 := setI g_last_invalid_title_id 0 (setI g_invalid_read_count 0 st1) in
    let is_valid_title_id :=
      negb (title_id =? 0) && negb (title_id =? 0xFFFF0002)
      && negb (title_id =? 0xFFFE0000) && negb (title_id =? 0)
      && negb (title_id =? 0xFFFFFFFF) in
    if is_valid_title_id then
      let was_valid := B st2 g_cert_data_valid in
      let old_title_id := I st2 g_last_cert_title_id in
      let st3 :=
        setB g_disc_present true
          (setB g_cert_data_valid true
            (setI g_last_cert_version (out_version out')
              (setI g_last_cert_region (out_region out')
                (setI g_last_cert_title_id title_id st2)))) in
      (result, out',
       if was_valid && negb (old_title_id =? title_id)
       then reset_notification_tracking_for_new_game st3 else st3)
    else (result, out', st2)
  else if negb (title_id =? 0) then
    let st2 := setI g_invalid_read_count (s32 (I st1 g_invalid_read_count + 1)) st1 in
    let st3 :=
      if ((title_id =? 0xFFFE0000) || (title_id =? 0xFFFF0002))
         && (I st2 g_invalid_read_count >? 5) && B st2 g_cert_data_valid
      then setB g_disc_present false
             (setB g_cert_data_valid false
               (setI g_last_cert_version 0
                 (setI g_last_cert_region 0
                   (setI g_last_cert_title_id 0 st2))))
      else st2 in
    if title_id =? I st3 g_last_invalid_title_id then
      if (I st3 g_invalid_read_count >? 5)
         && (u64 (time_NULL e - I st3 g_last_invalid_read_time) <? 10000)
      then (false, out', st3)
      else if (title_id =? 0xFFFE0000) && (I st3 g_invalid_read_count >? 5)
      then (false, out', st3)
      else (result, out', note_invalid_read e title_id st3)
    else
      (result, out', note_invalid_read e title_id (setI g_invalid_read_count 1 st3))
  else (result, out', st1).

Global Arguments get_cached_xbe_info : simpl never.
Global Arguments get_cached_xbe_info_with_spam_prevention : simpl never.

End Certificate.
Export Certificate.

(** ** Disc presence, auto-boot and game lookup *)

Module Lifecycle.

Definition tolower (c : ascii) : ascii :=
  let n := nat_of_ascii c in
  if ((65 <=? n) && (n <=? 90))%nat then ascii_of_nat (n + 32) else c.

(** [strcasecmp(a, b) == 0] *)
Fixpoint strcasecmp_eq (a b : string) : bool :=
  match a, b with
  | EmptyString, EmptyString => true
  | String x a', String y b' =>
      bool_decide (tolower x = tolower y) && strcasecmp_eq a' b'
  | _, _ => false
  end.

(** Leading zeros dropped, one digit at least. *)
Fixpoint strip_zeros (s : string) : string :=
  match s with
  | EmptyString => s
  | String c rest =>
      match rest with
      | EmptyString => s
      | String _ _ => if bool_decide (c = "0"%char) then strip_zeros rest else s
      end
  end.

(** [%X] of a 32-bit value *)
Definition hex_upper (v : Z) : string := strip_zeros (hex_fixed 8 v).

Definition enabled_count (game : XemuGamePatches) : Z :=
  Z.of_nat (length (filter (fun p => enabled p = true) (patches game))).

(** The search loop of [apply_patches_for_auto_boot]. *)
Definition find_title_nocase (gs : list XemuGamePatches) (title : string)
    : option XemuGamePatches :=
  List.find (fun game =>
               match title_id game with
               | Some t => strcasecmp_eq t title
               | None => false
               end) gs.

(** [apply_patches_for_auto_boot].  It marks and counts; it writes no guest
    memory.  The two returns after [g_auto_boot_processing_active] is set
    leave that flag set. *)
Definition apply_patches_for_auto_boot (st : engine) : engine :=
  if B st g_auto_boot_processing_active then st
  else if B st g_patches_applied_for_current_cert
          && negb (I st g_last_cert_title_id =? 0)
  then setI duplicate_log_count (u32 (I st duplicate_log_count + 1)) st
  else
    let st1 := setB g_auto_boot_processing_active true st in
    if negb (B st1 g_patch_system_enabled) || negb (B st1 g_cert_data_valid)
       || (I st1 g_last_cert_title_id =? 0)
    then st1
    else
      let title_id_str := snprintf 17 (hex_fixed 8 (I st1 g_last_cert_title_id)) in
      match find_title_nocase (game_list (g_patches_db st1)) title_id_str with
      | None => st1
      | Some game =>
          setB g_auto_boot_processing_active false
            (setB g_patches_applied_for_current_cert true st1)
      end.

(** [auto_enable_patches_when_ready] *)
Definition auto_enable_patches_when_ready (st : engine) : engine :=
  if B st g_load_disc_in_progress then st
  else
    let st1 :=
      if B st g_cert_data_valid && negb (I st g_last_cert_title_id =? 0)
         && negb (B st g_patch_system_enabled)
      then
        let st' := setB g_patch_system_enabled true (setB g_disc_present true st) in
        if negb (B st' g_patches_applied_for_current_cert)
        then apply_patches_for_auto_boot
               (setB g_patches_applied_for_current_cert true st')
        else st'
      else st in
    if B st1 g_cert_data_valid && negb (I st1 g_last_cert_title_id =? 0)
       && B st1 g_patch_system_enabled
       && negb (B st1 g_patches_applied_for_current_cert)
    then apply_patches_for_auto_boot
           (setB g_patches_applied_for_current_cert true st1)
    else st1.

(** Forgetting the accepted certificate, as several functions do. *)
Definition forget_certificate (st : engine) : engine :=
  setI g_last_cert_version 0
    (setI g_last_cert_region 0 (setI g_last_cert_title_id 0 st)).

(** [update_disc_presence_state] *)
Definition update_disc_presence_state (disc_present : bool) (st : engine)
    : engine :=
  if disc_present && negb (B st g_disc_present) then
    let st1 :=
      setB g_force_fresh_xbe_read true
        (setB g_patch_system_enabled true (setB g_disc_present true st)) in
    let st2 :=
      if B st1 g_cert_data_valid && negb (I st1 g_last_cert_title_id =? 0)
      then setB g_patches_applied_for_current_cert false
             (forget_certificate (setB g_cert_data_valid false st1))
      else st1 in
    auto_enable_patches_when_ready st2
  else if negb disc_present && B st g_disc_present then
    setB g_patches_applied_for_current_cert false
      (forget_certificate
        (setB g_cert_data_valid false
          (setB g_patch_system_enabled false (setB g_disc_present false st))))
  else st.

(** [set_load_disc_completed] *)
Definition set_load_disc_completed (st : engine) : engine :=
  let st1 :=
    if B st g_cert_data_valid && negb (I st g_last_cert_title_id =? 0)
    then setB g_patches_applied_for_current_cert false
           (setB g_cert_data_valid false (forget_certificate st))
    else st in
  let st2 :=
    setB g_force_fresh_xbe_read true
      (setB g_load_disc_retry_pending true
        (setB g_load_disc_in_progress false
          (setB g_force_fresh_xbe_read true
            (setI g_xbe_cache_last_read_time 0
              (setI g_xbe_cache_frame_last_read (-1)
                (setB g_xbe_cache_valid false st1)))))) in
  let st3 := update_disc_presence_state true st2 in
  if B st3 g_cert_data_valid && negb (I st3 g_last_cert_title_id =? 0) then
    let is_new_game :=
      negb (I st3 g_last_processed_title_id =? I st3 g_last_cert_title_id)
      || negb (B st3 g_patches_applied_for_current_cert) in
    if negb is_new_game then st3
    else
      auto_enable_patches_when_ready
        (setB g_disc_present true
          (setI g_last_processed_title_id (I st3 g_last_cert_title_id)
            (setB g_patches_applied_for_current_cert false st3)))
  else setI g_last_processed_title_id 0 st3.

(** Accepting a certificate the way the startup paths do. *)
Definition accept_certificate (o : outs) (st : engine) : engine :=
  setB g_patch_system_enabled true
    (setB g_disc_present true
      (setB g_cert_data_valid true
        (setI g_last_cert_version (out_version o)
          (setI g_last_cert_region (out_region o)
            (setI g_last_cert_title_id (out_title o) st))))).

(** [check_startup_retry_detection] *)
Definition check_startup_retry_detection (e : env) (st : engine) : engine :=
  if negb (B st g_startup_retry_enabled) then st
  else
    let current_time := SDL_GetTicks e in
    if u64 (current_time - I st g_last_startup_retry_time) <? 2000 then st
    else
      let st1 :=
        setI g_startup_retry_count (u32 (I st g_startup_retry_count + 1))
          (setI g_last_startup_retry_time current_time st) in
      let '(cert_found, o, st2) :=
        get_cached_xbe_info_with_spam_prevention e st1 (0, 0, 0) in
      if cert_found && is_valid_xbox_title_id (out_title o) then
        apply_patches_for_auto_boot
          (setB g_startup_retry_enabled false (accept_certificate o st2))
      else if I st2 g_startup_retry_count >=? 5
      then setB g_startup_retry_enabled false st2
      else st2.

(** The region text [xemu_patches_find_game_by_certificate] compares with. *)
Definition region_text (game_region : Z) : string :=
  if game_region =? 1 then "NTSC-U"
  else if game_region =? 2 then "NTSC-J"
  else if game_region =? 4 then "NTSC-K"
  else if game_region =? 8 then "PAL"
  else "0x" +:+ hex_fixed 8 game_region.

Definition version_byte (ver : Z) (shift : Z) : Z :=
  Z.land (Z.shiftr ver shift) 0xFF.

(** [%d.%d.%d.%d] of the four bytes of the version. *)
Definition version_text (ver : Z) : string :=
  snprintf 32
    (dec (version_byte ver 24) +:+ "." +:+ dec (version_byte ver 16) +:+ "."
     +:+ dec (version_byte ver 8) +:+ "." +:+ dec (version_byte ver 0)).

Definition version_hex_text (ver : Z) : string :=
  snprintf 32
    (hex_upper (version_byte ver 24) +:+ "." +:+ hex_upper (version_byte ver 16)
     +:+ "." +:+ hex_upper (version_byte ver 8) +:+ "."
     +:+ hex_upper (version_byte ver 0)).

(** The first enabled game whose three fields are present and equal the
    three texts; its index. *)
Fixpoint find_certificate_from (gs : list XemuGamePatches) (i : nat)
    (title_str region_str version_str : string) : option nat :=
  match gs with
  | [] => None
  | game :: rest =>
      if game_enabled game
         && bool_decide (title_id game = Some title_str)
         && bool_decide (region game = Some region_str)
         && bool_decide (version game = Some version_str)
      then Some i
      else find_certificate_from rest (S i) title_str region_str version_str
  end.

(** [strncpy(dst, src, size - 1); dst[size - 1] = 0] *)
Definition strncpy_terminated (size : Z) (s : string) : string :=
  substring 0 (Z.to_nat (size - 1)) s.

Definition remember_seen (t r v : string) (st : engine) : engine :=
  setS g_last_seen_version (strncpy_terminated 32 v)
    (setS g_last_seen_region (strncpy_terminated 8 r)
      (setS g_last_seen_title_id (strncpy_terminated 17 t) st)).

(** [enable_certificate_tracking] *)
Definition enable_certificate_tracking (st : engine) : engine :=
  if negb (B st g_certificate_tracking_enabled)
  then setB g_suppress_patch_notification false
         (setB g_certificate_tracking_enabled true st)
  else st.

(** [xemu_patches_find_game_by_certificate]: the index of the game found.
    The three locals are read only after a successful
    [get_cached_xbe_info], which overwrites them. *)
Definition xemu_patches_find_game_by_certificate (e : env) (st : engine)
    : option nat * engine :=
  if B st g_load_disc_in_progress then (None, st)
  else
    let '(found, o, st1) := get_cached_xbe_info e st (0, 0, 0) in
    if negb found then (None, st1)
    else
      match games (g_patches_db st1) with
      | None => (None, st1)
      | Some gs =>
          let differs :=
            negb (out_title o =? I st1 g_last_cert_title_id)
            || negb (out_region o =? I st1 g_last_cert_region)
            || negb (out_version o =? I st1 g_last_cert_version) in
          let '(o1, st2) :=
            if B st1 g_cert_data_valid && differs then
              let st' :=
                reset_last_applied_tracking
                  (invalidate_certificate_cache (xemu_clear_cert_cache st1)) in
              match xemu_get_xbe_info e with
              | Some cert =>
                  ((u32 (m_titleid cert), u32 (m_game_region cert),
                    u32 (m_version cert)), st')
              | None => (o, st')
              end
            else (o, st1) in
          let title_id := out_title o1 in
          let game_region := out_region o1 in
          let ver := out_version o1 in
          let st3 :=
            if negb (title_id =? I st2 g_last_cert_title_id)
            then setB g_disc_present true
                   (setB g_patches_applied_for_current_cert false st2)
            else st2 in
          let st4 :=
            auto_enable_patches_when_ready
              (setB g_cert_data_valid true
                (setI g_last_cert_version ver
                  (setI g_last_cert_region game_region
                    (setI g_last_cert_title_id title_id st3)))) in
          let title_id_str := snprintf 16 (hex_fixed 8 title_id) in
          match find_certificate_from gs 0 title_id_str (region_text game_region)
                  (version_text ver) with
          | None => (None, st4)
          | Some i =>
              let current_title_id_str := snprintf 17 (hex_fixed 8 title_id) in
              let current_region_str := snprintf 8 (hex_upper game_region) in
              let current_version_str := version_hex_text ver in
              let st5 := enable_certificate_tracking st4 in
              let cert_changed :=
                negb (bool_decide (S_ st5 g_last_seen_title_id = current_title_id_str))
                || negb (bool_decide (S_ st5 g_last_seen_region = current_region_str))
                || negb (bool_decide (S_ st5 g_last_seen_version = current_version_str)) in
              let remember :=
                remember_seen current_title_id_str current_region_str
                              current_version_str in
              if negb cert_changed then
                if B st5 g_manual_reset_detected then
                  (Some i,
                   setB g_suppress_patch_notification false
                     (setB g_manual_reset_detected false st5))
                else if B st5 g_patches_applied_for_current_cert
                        && B st5 g_post_reset_patch_application_active
                then
                  (Some i,
                   remember
                     (setB g_suppress_patch_notification false
                       (setB g_patches_applied_for_current_cert false st5)))
                else
                  (Some i, remember (setB g_suppress_patch_notification true st5))
              else
                (Some i, remember (setB g_suppress_patch_notification false st5))
          end
      end.

Global Arguments apply_patches_for_auto_boot : simpl never.
Global Arguments auto_enable_patches_when_ready : simpl never.
Global Arguments update_disc_presence_state : simpl never.
Global Arguments set_load_disc_completed : simpl never.
Global Arguments check_startup_retry_detection : simpl never.
Global Arguments xemu_patches_find_game_by_certificate : simpl never.

End Lifecycle.
Export Lifecycle.

(** ** Reset detection, the post-reset processor and the main loop *)

Module PostReset.

Definition MAX_POST_RESET_RETRIES : Z := 3.

(** The updates at the end of the certificate-available branch of
    [detect_manual_reset] and of the function. *)
Definition note_certificate_seen (e : env) (title : Z) (st : engine) : engine :=
  setI g_prev_title_id_during_unavailable title
    (setB g_certificate_was_available_prev true
      (setI g_last_certificate_check_time (time_NULL e)
        (setI g_last_reset_detection_time (time_NULL e)
          (setI g_last_seen_for_reset_detection title st)))).

(** [detect_manual_reset].  The return inside the repeated-detection guard
    leaves the function before the tracking variables are updated. *)
Definition detect_manual_reset (e : env) (st : engine) : engine :=
  let current_time := time_NULL e in
  let '(certificate_available_now, o, st1) :=
    get_cached_xbe_info_with_spam_prevention e st (0, 0, 0) in
  let current_title_id := out_title o in
  let current_region := out_region o in
  let current_version := out_version o in
  if certificate_available_now then
    let manual_reset_detected :=
      if negb (B st1 g_certificate_was_available_prev)
         && (current_title_id =? I st1 g_prev_title_id_during_unavailable)
         && negb (current_title_id =? 0)
         && negb (I st1 g_prev_title_id_during_unavailable =? 0)
      then true
      else
        let is_same_title := current_title_id =? I st1 g_last_applied_title_id in
        let region_changed := negb (current_region =? I st1 g_last_applied_region) in
        let version_changed := negb (current_version =? I st1 g_last_applied_version) in
        if is_same_title && (region_changed || version_changed) then true
        else if is_same_title then
          let time_since_last_check :=
            if I st1 g_last_certificate_check_time >? 0
            then current_time - I st1 g_last_certificate_check_time else 0 in
          (time_since_last_check >=? 1) && (time_since_last_check <=? 3)
        else false in
    if manual_reset_detected then
      let st2 := setI g_reset_detection_count
                      (s32 (I st1 g_reset_detection_count + 1)) st1 in
      let time_since_last_detection :=
        if I st2 g_last_reset_detection_time_prevent_loop >? 0
        then current_time - I st2 g_last_reset_detection_time_prevent_loop
        else 999 in
      if B st2 g_reset_detected_in_progress
         || ((time_since_last_detection <? 10)
             && (I st2 g_reset_detection_count >? 1))
      then st2
      else
        let st3 :=
          if B st2 g_suppress_patch_notification
          then setB g_suppress_patch_notification false st2 else st2 in
        note_certificate_seen e current_title_id
          (setI g_last_applied_version current_version
            (setI g_last_applied_region current_region
              (setB g_manual_reset_detected true
                (setI g_last_reset_detection_time_prevent_loop current_time
                  (setB g_reset_detected_in_progress true st3)))))
    else note_certificate_seen e current_title_id st1
  else
    setB g_certificate_was_available_prev false
      (if negb (B st1 g_certificate_was_available_prev)
       then setI g_certificate_unavailable_start_time (u32 current_time) st1
       else st1).

(** [schedule_post_reset_patch_application] *)
Definition schedule_post_reset_patch_application (st : engine) : engine :=
  let st1 := setB g_post_reset_system_active true st in
  let st2 :=
    if B st1 g_post_reset_patch_scheduled
    then setI g_post_reset_retry_count 0
           (setB g_post_reset_patch_scheduled false
             (stop_reset_memory_monitoring st1))
    else st1 in
  start_reset_memory_monitoring
    (setI g_vm_reset_completion_time 0
      (setB g_vm_reset_completed false
        (setI g_post_reset_retry_count 0
          (setB g_post_reset_patch_scheduled true
            (setI g_last_auto_applied_patch_count (-1)
              (setI g_last_auto_applied_version 0
                (setI g_last_auto_applied_region 0
                  (setI g_last_auto_applied_title_id 0 st2)))))))).

(** [is_system_ready_for_patches] *)
Definition is_system_ready_for_patches (e : env) (st : engine) : bool * engine :=
  let '(game_patches, st1) := xemu_patches_find_game_by_certificate e st in
  match game_patches with
  | None => (false, st1)
  | Some _ => (is_game_currently_running st1, st1)
  end.

(** [detect_vm_reset_completion] *)
Definition detect_vm_reset_completion (e : env) (st : engine) : bool * engine :=
  let current_time := SDL_GetTicks e in
  let st1 := setI completion_call_count (u32 (I st completion_call_count + 1)) st in
  let should_log :=
    (u64 (current_time - I st1 completion_last_log_time) >? 10000)
    || (I st1 completion_call_count <=? 1)
    || (I st1 completion_call_count mod 1000 =? 0) in
  if negb should_log then (false, st1)
  else
    let st2 := setI completion_last_log_time current_time st1 in
    if negb (B st2 g_vm_reset_triggered) then (false, st2)
    else if B st2 g_vm_reset_completed then
      (u64 (current_time - I st2 g_vm_reset_completion_time) >=? 2000, st2)
    else
      let '(ready, st3) := is_system_ready_for_patches e st2 in
      if negb ready then (false, st3)
      else if negb (is_game_currently_running st3) then (false, st3)
      else if B st3 g_load_disc_in_progress then (false, st3)
      else
        match xemu_get_xbe_info e with
        | None => (false, st3)
        | Some cert =>
            let current_title_id := u32 (m_titleid cert) in
            if (current_title_id =? 0) || (current_title_id =? 0xFFFFFFFF)
            then (false, st3)
            else
              let '(readable, _, st4) :=
                read_direct_virtual_memory st3 0x34D8E0 4 in
              if negb readable then (false, st4)
              else
                (true,
                 setB g_vm_reset_triggered false
                   (setI g_vm_reset_completion_time (SDL_GetTicks e)
                     (setB g_vm_reset_completed true st4)))
        end.

(** The pre-check of the post-reset processor: one 4-byte read per pair of
    every enabled patch, up to the first failing read. *)
Fixpoint precheck_pairs (st : engine) (pairs : list XemuPatchAddressValue)
    : bool * engine :=
  match pairs with
  | [] => (true, st)
  | addr_val :: rest =>
      let '(_, read_success, st1) := read_32bit_value st (address addr_val) in
      if read_success then precheck_pairs st1 rest else (false, st1)
  end.

Fixpoint precheck_patches (st : engine) (ps : list XemuMemoryPatch)
    : bool * engine :=
  match ps with
  | [] => (true, st)
  | patch :: rest =>
      if negb (enabled patch) || (length (address_values patch) =? 0)%nat
      then precheck_patches st rest
      else
        let '(accessible, st1) := precheck_pairs st (address_values patch) in
        if accessible then precheck_patches st1 rest else (false, st1)
  end.

(** The inner loop of the post-reset reapplication: every pair is written,
    whatever the outcome of the others; the result is [patch_applied]. *)
Fixpoint reapply_pairs (e : env) (st : engine)
    (pairs : list XemuPatchAddressValue) (patch_applied : bool) : bool * engine :=
  match pairs with
  | [] => (patch_applied, st)
  | addr_val :: rest =>
      let st1 :=
        if B st g_reset_monitoring_active
        then monitor_reset_patch_address e st (address addr_val)
                                         "reset_reapplication"
        else st in
      let '(write_success, st2) :=
        write_direct_virtual_memory st1 (address addr_val) (value_data addr_val)
                                    (value_length addr_val) in
      let st3 :=
        if B st2 g_reset_monitoring_active && write_success
        then log_reset_memory_values st2 (address addr_val) "after_application"
        else st2 in
      reapply_pairs e st3 rest (if write_success then true else patch_applied)
  end.

Fixpoint reapply_patches (e : env) (st : engine) (ps : list XemuMemoryPatch)
    (applied_patch_count : Z) : Z * engine :=
  match ps with
  | [] => (applied_patch_count, st)
  | patch :: rest =>
      if negb (enabled patch) then reapply_patches e st rest applied_patch_count
      else
        let '(patch_applied, st1) :=
          reapply_pairs e st (address_values patch) false in
        reapply_patches e st1 rest
          (if patch_applied then applied_patch_count + 1 else applied_patch_count)
  end.

(** [notification_hash = notification_hash * 31 + c] over [uint32_t]. *)
Definition notification_hash (s : string) : Z :=
  fold_left (fun h c => u32 (h * 31 + Z.of_nat (nat_of_ascii c)))
            (list_ascii_of_string s) 0.

(** What the post-reset processor does when a cycle ends by timeout. *)
Definition end_cycle_on_timeout (st : engine) : engine :=
  setB unsafe_immediate_trigger_checked false
    (setI g_post_reset_start_time 0
      (setB g_post_reset_system_active false
        (setB g_post_reset_patch_scheduled false
          (stop_reset_memory_monitoring st)))).

(** What it does when the retry ceiling is passed. *)
Definition end_cycle_on_retries (st : engine) : engine :=
  let st1 :=
    setI g_reset_detection_count 0
      (setB g_reset_detected_in_progress false
        (setB g_post_reset_patch_scheduled false
          (stop_reset_memory_monitoring st))) in
  setB g_post_reset_system_active false
    (if B st1 g_force_fresh_xbe_read
     then setB g_force_fresh_xbe_read false st1 else st1).

(** The end of the processor once it has reapplied the patches. *)
Definition end_cycle_applied (st : engine) : engine :=
  let st1 :=
    setI g_reset_detection_count 0
      (setB g_reset_detected_in_progress false
        (setB g_post_reset_patch_scheduled false
          (stop_reset_memory_monitoring st))) in
  let st2 :=
    if B st1 g_force_fresh_xbe_read
    then setB g_force_fresh_xbe_read false st1 else st1 in
  setB unsafe_immediate_trigger_checked false
    (setI g_post_reset_call_count 0
      (setI g_post_reset_start_time 0
        (set_load_disc_completed
          (setB g_notification_generation_active false
            (setB g_post_reset_system_active false st2))))).

(** The part of [xemu_patches_process_post_reset_unsafe] after the
    certificate check: look the game up, pre-check, reapply, notify.
    [None] stands for the dereference of the NULL [game_patches]. *)
Definition reapply_after_reset (e : env) (st : engine) : option engine :=
  let st1 := setI g_post_reset_retry_count
                  (s32 (I st g_post_reset_retry_count + 1)) st in
  let '(game_patches, st2) := xemu_patches_find_game_by_certificate e st1 in
  match game_patches with
  | None => None
  | Some i =>
      match game_list (g_patches_db st2) !! i with
      | None => None
      | Some game =>
          let '(_, st3) := precheck_patches st2 (patches game) in
          if B st3 g_load_disc_in_progress
          then Some (setB g_load_disc_in_progress false st3)
          else
            let '(applied_patch_count, st4) :=
              reapply_patches e st3 (patches game) 0 in
            if applied_patch_count >? 0 then
              let st5 :=
                if B st4 g_manual_reset_detected
                then setB g_manual_reset_detected false st4 else st4 in
              if B st5 g_load_disc_in_progress then Some (end_cycle_applied st5)
              else if B st5 g_suppress_patch_notification
              then Some (end_cycle_applied st5)
              else
                let notification :=
                  snprintf 256
                    ("Applied " +:+ dec applied_patch_count +:+ " patch"
                     +:+ (if applied_patch_count =? 1 then "" else "es")
                     +:+ " for " +:+ default "(null)" (game_title game)) in
                if B st5 g_notification_generation_active then Some st5
                else
                  let hash := notification_hash notification in
                  let current_time := SDL_GetTicks e in
                  if (I st5 g_last_post_reset_notification_hash =? hash)
                     && (u64 (current_time
                              - I st5 g_last_post_reset_notification_time) <? 3000)
                  then Some st5
                  else
                    Some (end_cycle_applied
                            (setB g_notification_generation_active false
                              (xemu_queue_notification notification
                                (setB g_notification_generation_active true
                                  (setI g_last_post_reset_notification_time
                                        current_time
                                    (setI g_last_post_reset_notification_hash
                                          hash st5))))))
            else Some (end_cycle_applied st4)
      end
  end.

(** The end of the processor when [detect_vm_reset_completion] answers yes. *)
Definition end_cycle_completed (st : engine) : engine :=
  let st1 :=
    set_load_disc_completed
      (setB unsafe_immediate_trigger_checked false
        (setI g_post_reset_start_time 0
          (setB g_post_reset_system_active false
            (setB g_post_reset_patch_scheduled false
              (stop_reset_memory_monitoring st))))) in
  let st2 :=
    if B st1 g_load_disc_in_progress
    then setB g_load_disc_in_progress false st1 else st1 in
  setI g_vm_reset_completion_time 0 (setB g_vm_reset_completed false st2).

(** [xemu_patches_process_post_reset_unsafe] from the scheduled check on. *)
Definition process_scheduled (e : env) (st : engine) : option engine :=
  if negb (B st g_post_reset_patch_scheduled) then Some st
  else
    let st1 :=
      if I st g_post_reset_start_time =? 0
      then setB unsafe_immediate_trigger_checked false
             (setI g_post_reset_call_count 0
               (setI g_post_reset_start_time (u32 (SDL_GetTicks e)) st))
      else st in
    let st2 := setI g_post_reset_call_count
                    (s32 (I st1 g_post_reset_call_count + 1)) st1 in
    let now_time := SDL_GetTicks e in
    let elapsed_ms := u64 (now_time - I st2 g_post_reset_start_time) in
    if (elapsed_ms >? 3000) || (I st2 g_post_reset_call_count >? 1000) then
      let '(_, st3) := detect_vm_reset_completion e st2 in
      Some (end_cycle_on_timeout st3)
    else
      let st3 := setI g_post_reset_retry_count
                      (s32 (I st2 g_post_reset_retry_count + 1)) st2 in
      if I st3 g_post_reset_retry_count >? MAX_POST_RESET_RETRIES
      then Some (end_cycle_on_retries st3)
      else if B st3 g_load_disc_in_progress then
        Some (setB g_post_reset_system_active false
                (setI g_post_reset_retry_count
                      (s32 (I st3 g_post_reset_retry_count + 1)) st3))
      else
        match xemu_get_xbe_info e with
        | None => reapply_after_reset e st3
        | Some cert =>
            let current_title_id := u32 (m_titleid cert) in
            if (current_title_id =? 0) || (current_title_id =? 0xFFFFFFFF)
            then reapply_after_reset e st3
            else
              let st4 := setI g_post_reset_current_title_id current_title_id st3 in
              if B st4 g_load_disc_in_progress then reapply_after_reset e st4
              else
                let '(completed, st5) := detect_vm_reset_completion e st4 in
                if completed then Some (end_cycle_completed st5)
                else reapply_after_reset e st5
        end.

(** [xemu_patches_process_post_reset_unsafe] *)
Definition xemu_patches_process_post_reset_unsafe (e : env) (st : engine)
    : option engine :=
  let current_time := SDL_GetTicks e in
  let st1 := setI unsafe_call_count (u32 (I st unsafe_call_count + 1)) st in
  if negb (B st1 unsafe_immediate_trigger_checked) then
    let st2 :=
      setI unsafe_immediate_trigger_time current_time
        (setB unsafe_immediate_trigger_checked true st1) in
    let '(completed, st3) := detect_vm_reset_completion e st2 in
    if completed && B st3 g_cert_data_valid
       && negb (I st3 g_post_reset_current_title_id =? 0)
    then Some (setB g_patches_applied_for_current_cert true st3)
    else process_scheduled e (check_startup_retry_detection e st3)
  else process_scheduled e (check_startup_retry_detection e st1).

Global Arguments detect_manual_reset : simpl never.
Global Arguments schedule_post_reset_patch_application : simpl never.
Global Arguments is_system_ready_for_patches : simpl never.
Global Arguments detect_vm_reset_completion : simpl never.
Global Arguments reapply_after_reset : simpl never.
Global Arguments process_scheduled : simpl never.
Global Arguments xemu_patches_process_post_reset_unsafe : simpl never.

End PostReset.
Export PostReset.

(** ** The auto-apply main loop *)

Module MainLoop.

Definition UINT64_MAX : Z := 2 ^ 64 - 1.

(** The pairs of one patch, up to the first failing one. *)
Fixpoint apply_until_failure (e : env) (st : engine)
    (pairs : list XemuPatchAddressValue) : bool * engine :=
  match pairs with
  | [] => (true, st)
  | addr_val :: rest =>
      let '(ok, st1) :=
        apply_single_patch_bytes e st (address addr_val) (value_data addr_val) in
      if ok then apply_until_failure e st1 rest else (false, st1)
  end.

(** The loop over the patches of the game: [applied_count]. *)
Fixpoint apply_enabled_patches (e : env) (st : engine)
    (ps : list XemuMemoryPatch) (applied_count : Z) : Z * engine :=
  match ps with
  | [] => (applied_count, st)
  | patch :: rest =>
      if enabled patch then
        let '(apply_success, st1) :=
          apply_until_failure e st (address_values patch) in
        apply_enabled_patches e st1 rest
          (if apply_success then applied_count + 1 else applied_count)
      else apply_enabled_patches e st rest applied_count
  end.

Definition set_last_applied (o : outs) (st : engine) : engine :=
  setI g_last_applied_version (out_version o)
    (setI g_last_applied_region (out_region o)
      (setI g_last_applied_title_id (out_title o) st)).

Definition applied_text (was_manual_reset : bool) (applied_count : Z)
    (game : XemuGamePatches) : string :=
  snprintf 256
    ((if was_manual_reset then "Reset: Applied " else "Applied ")
     +:+ dec applied_count +:+ " "
     +:+ (if applied_count =? 1 then "patch" else "patches")
     +:+ " for " +:+ default "(null)" (game_title game)).

(** The notification step after a pass that applied something.  The two
    duplicate returns leave [g_notification_generation_active] set. *)
Definition notify_applied (e : env) (st : engine) (notification_text : string)
    : engine :=
  let st1 := setI loop_notification_counter
                  (s32 (I st loop_notification_counter + 1)) st in
  let current_time := time_NULL e in
  if B st1 g_notification_generation_active then st1
  else
    let st2 := setB g_notification_generation_active true st1 in
    let current_title_id := I st2 g_last_cert_title_id in
    let time_since_last_notification :=
      if I st2 loop_last_notification_time_ms >? 0
      then u64 (current_time - I st2 loop_last_notification_time_ms)
      else UINT64_MAX in
    if negb (current_title_id =? 0)
       && (I st2 loop_last_notified_title_id =? current_title_id)
       && (time_since_last_notification <? 3000)
    then st2
    else if (current_time - I st2 last_simple_apply_time <? 2000)
            && bool_decide (notification_text = S_ st2 last_simple_apply_text)
    then st2
    else
      setI loop_last_notification_time current_time
        (setB g_notification_generation_active false
          (xemu_queue_notification notification_text
            (setI loop_last_notification_time_ms current_time
              (setI loop_last_notified_title_id current_title_id
                (setI last_simple_apply_time current_time
                  (setS last_simple_apply_text notification_text st2)))))).

(** The apply pass of the main loop for the game at slot [i]. *)
Definition apply_pass (e : env) (st : engine) (o : outs) (game : XemuGamePatches)
    : engine :=
  if enabled_count game >? 0 then
    let '(applied_count, st1) := apply_enabled_patches e st (patches game) 0 in
    if applied_count >? 0 then
      let was_manual_reset := B st1 g_manual_reset_detected in
      let st2 :=
        if B st1 g_manual_reset_detected
        then setB g_manual_reset_detected false st1 else st1 in
      notify_applied e (set_last_applied o st2)
                     (applied_text was_manual_reset applied_count game)
    else st1
  else set_last_applied o st.

(** The body run every 30th call.  [stack] is what the three uninitialised
    locals hold when the certificate is read. *)
Definition certificate_tick (e : env) (st : engine) (stack : outs) : engine :=
  let '(cert_success, o, st1) :=
    get_cached_xbe_info_with_spam_prevention e st stack in
  let st2 :=
    if cert_success && negb (out_title o =? I st1 last_logged_title_id)
    then setI last_logged_title_id (out_title o) st1 else st1 in
  let st3 := detect_manual_reset e st2 in
  if cert_success then
    let is_new_game :=
      negb (out_title o =? 0)
      && (negb (out_title o =? I st3 g_last_applied_title_id)
          || negb (out_region o =? I st3 g_last_applied_region)
          || negb (out_version o =? I st3 g_last_applied_version)) in
    let st4 :=
      if is_new_game then
        forget_certificate
          (setB g_cert_data_valid false
            (setB g_force_fresh_xbe_read true
              (setI g_xbe_cache_frame_last_read (-1)
                (setI g_xbe_cache_last_read_time 0
                  (setB g_xbe_cache_valid false st3)))))
      else st3 in
    if B st4 g_manual_reset_detected then
      setB g_manual_reset_detected false
        (schedule_post_reset_patch_application
          (if B st4 g_suppress_patch_notification
           then setB g_suppress_patch_notification false st4 else st4))
    else if B st4 g_post_reset_patch_application_active then st4
    else if B st4 g_load_disc_in_progress then st4
    else if is_new_game && B st4 g_patches_loaded && B st4 g_patches_initialized
    then
      let '(found, st5) := xemu_patches_find_game_by_certificate e st4 in
      match found with
      | Some i =>
          match game_list (g_patches_db st5) !! i with
          | Some game => apply_pass e st5 o game
          | None => set_last_applied o st5
          end
      | None => set_last_applied o st5
      end
    else st4
  else st3.

(** The throttle at the head of [xemu_patches_main_loop_update]: the call
    counters, and whether this call is one that looks at the certificate
    (patch system enabled, 30th frame). *)
Definition loop_throttle (e : env) (st : engine) : bool * engine :=
  let current_time := SDL_GetTicks e in
  let st1 := setI loop_call_count (u32 (I st loop_call_count + 1)) st in
  let should_log :=
    (u64 (current_time - I st1 loop_last_log_time) >? 10000)
    || (I st1 loop_call_count <=? 1) || (I st1 loop_call_count mod 500 =? 0) in
  if negb (B st1 g_patch_system_enabled) then (false, st1)
  else
    let st2 := if should_log then setI loop_last_log_time current_time st1 else st1 in
    let st3 := setI frame_counter (s32 (I st2 frame_counter + 1)) st2 in
    if I st3 frame_counter >=? 30
    then (true, setI frame_counter 0 st3)
    else (false, st3).

(** [xemu_patches_main_loop_update] *)
Definition xemu_patches_main_loop_update (e : env) (st : engine) (stack : outs)
    : engine :=
  let '(due, st1) := loop_throttle e st in
  if due then certificate_tick e st1 stack else st1.

Global Arguments notify_applied : simpl never.
Global Arguments apply_pass : simpl never.
Global Arguments certificate_tick : simpl never.
Global Arguments loop_throttle : simpl never.
Global Arguments xemu_patches_main_loop_update : simpl never.

End MainLoop.
Export MainLoop.

(** ** Start-up, saving on request and the manual apply paths *)

Module Startup.

(** [xemu_patches_init].  [None]: the game loop of the loader does not end. *)
Definition xemu_patches_init (e : env) (st : engine) : option engine :=
  if B st g_patches_initialized then Some st
  else
    let default_path := default_db_path e in
    match xemu_patches_load_database e st (Some default_path) with
    | None => None
    | Some (loaded, st1) =>
        let st2 :=
          if negb loaded then
            snd (xemu_patches_save_database e
                   (setB g_patches_loaded true
                      (set_db (MkDb None (Some default_path) false) st1)))
          else st1 in
        Some (setB g_cert_data_valid false
                (setI g_last_cert_read_time 0
                  (setI g_last_cert_version 0
                    (setI g_last_cert_region 0
                      (setI g_last_cert_title_id 0
                        (setB g_patches_initialized true st2))))))
    end.

(** [xemu_patches_get_database_path] *)
Definition xemu_patches_get_database_path (st : engine) : option string :=
  file_path (g_patches_db st).

(** [xemu_patches_get_games] *)
Definition xemu_patches_get_games (st : engine) : option (list XemuGamePatches) :=
  games (g_patches_db st).

(** [xemu_patches_get_game_count] *)
Definition xemu_patches_get_game_count (st : engine) : Z :=
  game_count (g_patches_db st).

(** [xemu_patches_on_ui_request_save]; [notify_message] is
    [xemu_queue_notification]. *)
Definition xemu_patches_on_ui_request_save (e : env) (st : engine) : engine :=
  if dirty (g_patches_db st)
  then xemu_queue_notification "Patches database saved"
         (snd (xemu_patches_save_database e st))
  else st.

(** [reset_certificate_tracking] *)
Definition reset_certificate_tracking (st : engine) : engine :=
  setB g_manual_reset_detected false
    (setS g_last_seen_version ""
      (setS g_last_seen_region "" (setS g_last_seen_title_id "" st))).

(** [force_fresh_certificate_read] *)
Definition force_fresh_certificate_read (st : engine) : engine :=
  setB g_force_fresh_xbe_read true st.

Global Arguments xemu_patches_init : simpl never.
Global Arguments xemu_patches_on_ui_request_save : simpl never.

End Startup.
Export Startup.

Module ManualApply.

(** The loop of [xemu_patches_apply_current_running_xbe]: the first pair of
    every enabled patch; the counts [applied_count] and [failed_count].
    [None]: [address_values[0]] of an enabled patch that has no pairs. *)
Fixpoint apply_first_pairs (e : env) (st : engine) (ps : list XemuMemoryPatch)
    (applied_count failed_count : Z) : option (Z * Z * engine) :=
  match ps with
  | [] => Some (applied_count, failed_count, st)
  | patch :: rest =>
      if negb (enabled patch)
      then apply_first_pairs e st rest applied_count failed_count
      else
        match address_values patch with
        | [] => None
        | first_pair :: _ =>
            let '(ok, st1) :=
              apply_single_patch_bytes e st (address first_pair)
                                       (value_data first_pair) in
            if ok
            then apply_first_pairs e st1 rest (applied_count + 1) failed_count
            else apply_first_pairs e st1 rest applied_count (failed_count + 1)
        end
  end.

(** [xemu_patches_apply_current_running_xbe] *)
Definition xemu_patches_apply_current_running_xbe (e : env) (st : engine)
    : option engine :=
  if negb (B st g_patch_system_enabled) then Some st
  else if negb (B st g_patches_loaded) || negb (B st g_patches_initialized)
  then Some st
  else
    let '(game_patches, st1) := xemu_patches_find_game_by_certificate e st in
    match game_patches with
    | None => Some st1
    | Some i =>
        match game_list (g_patches_db st1) !! i with
        | None => Some st1
        | Some game =>
            if negb (game_enabled game) then Some st1
            else
              match apply_first_pairs e st1 (patches game) 0 0 with
              | None => None
              | Some (applied_count, failed_count, st2) =>
                  let st3 :=
                    if applied_count >? 0 then
                      xemu_queue_notification
                        (snprintf 256
                           ("Applied " +:+ dec applied_count +:+ " patch"
                            +:+ (if applied_count =? 1 then "" else "es")
                            +:+ " for " +:+ default "(null)" (game_title game)))
                        st2
                    else st2 in
                  Some (if failed_count >? 0 then
                          xemu_queue_error_message
                            (snprintf 256
                               ("Failed to apply " +:+ dec failed_count
                                +:+ " memory patch(es)")) st3
                        else st3)
              end
        end
    end.

(** The inner loop of [xemu_patches_reapply_current_game_patches]: every
    pair is written, whatever happened to the ones before. *)
Fixpoint apply_every_pair (e : env) (st : engine)
    (pairs : list XemuPatchAddressValue) (patch_applied : bool) : bool * engine :=
  match pairs with
  | [] => (patch_applied, st)
  | addr_val :: rest =>
      let '(ok, st1) :=
        apply_single_patch_bytes e st (address addr_val) (value_data addr_val) in
      apply_every_pair e st1 rest (if ok then true else patch_applied)
  end.

Fixpoint reapply_enabled_patches (e : env) (st : engine)
    (ps : list XemuMemoryPatch) (applied_patch_count : Z) : Z * engine :=
  match ps with
  | [] => (applied_patch_count, st)
  | patch :: rest =>
      if negb (enabled patch)
      then reapply_enabled_patches e st rest applied_patch_count
      else
        let '(patch_applied, st1) :=
          apply_every_pair e st (address_values patch) false in
        reapply_enabled_patches e st1 rest
          (if patch_applied then applied_patch_count + 1 else applied_patch_count)
  end.

(** [xemu_patches_reapply_current_game_patches] *)
Definition xemu_patches_reapply_current_game_patches (e : env) (st : engine)
    : engine :=
  if negb (B st g_patch_system_enabled) then st
  else
    let '(game_patches, st1) := xemu_patches_find_game_by_certificate e st in
    match game_patches with
    | None => st1
    | Some i =>
        match game_list (g_patches_db st1) !! i with
        | None => st1
        | Some game =>
            if enabled_count game =? 0 then st1
            else if negb (is_game_currently_running st1) then st1
            else
              let '(applied_patch_count, st2) :=
                reapply_enabled_patches e st1 (patches game) 0 in
              if applied_patch_count >? 0 then
                xemu_queue_notification
                  (snprintf 256
                     ("Manual: Reapplied " +:+ dec applied_patch_count
                      +:+ " patch"
                      +:+ (if applied_patch_count =? 1 then "" else "es")))
                  st2
              else st2
        end
    end.

Global Arguments xemu_patches_apply_current_running_xbe : simpl never.
Global Arguments xemu_patches_reapply_current_game_patches : simpl never.

End ManualApply.
Export ManualApply.

(** ** ui/xui/main-menu.cc: the texts the Add Game dialog fills in *)

Module DialogFields.

(** The [switch (region_code)] of the auto-population; the Region field of
    the dialog is read-only. *)
Definition dialog_region_text (region_code : Z) : string :=
  if region_code =? 1 then "NTSC-U"
  else if region_code =? 2 then "NTSC-J"
  else if region_code =? 4 then "PAL"
  else if region_code =? 5 then "NTSC-K"
  else "NTSC".

(** The locals [title_id[32]], [region[64]] and [version[32]] of the
    auto-population from the running executable's certificate. *)
Definition certificate_texts (cert : xbe_cert) : string * string * string :=
  (snprintf 32 (hex_fixed 8 (u32 (m_titleid cert))),
   strncpy_terminated 64 (dialog_region_text (u32 (m_game_region cert))),
   snprintf 32
     (dec (version_byte (u32 (m_version cert)) 24) +:+ "."
      +:+ dec (version_byte (u32 (m_version cert)) 16) +:+ "."
      +:+ dec (version_byte (u32 (m_version cert)) 8) +:+ "."
      +:+ dec (version_byte (u32 (m_version cert)) 0))).

(** The line the Edit button builds for a pair of a patch without preserved
    lines (["0x%08X:%s\n"], at most 64 bytes of the value), without its
    newline. *)
Definition edit_fallback_line (av : XemuPatchAddressValue) : string :=
  "0x" +:+ hex_fixed 8 (address av) +:+ ":"
  +:+ hex_value (take 64 (value_data av)).

End DialogFields.
Export DialogFields.

(** ** ui/xui/popup-menu.cc: the patches popup *)

Module PatchesPopup.

(** A [XemuMemoryPatch *] held by the popup: the game and the slot it
    points into. *)
Definition patch_ref : Type := (nat * nat)%type.

Definition deref (st : engine) (p : patch_ref) : option XemuMemoryPatch :=
  match game_list (g_patches_db st) !! p.1 with
  | Some game => patches game !! p.2
  | None => None
  end.

(** [patch->name && other.name && strcmp(patch->name, other.name) == 0] *)
Definition same_name (patch other : XemuMemoryPatch) : bool :=
  match name patch, name other with
  | Some a, Some b => String.eqb a b
  | _, _ => false
  end.

(** The inner loop of [GetPatchIndices] over the patches of one game. *)
Fixpoint scan_patches (ps : list XemuMemoryPatch) (patch_idx : nat)
    (hit : nat -> XemuMemoryPatch -> bool) : option nat :=
  match ps with
  | [] => None
  | other :: rest =>
      if hit patch_idx other then Some patch_idx
      else scan_patches rest (S patch_idx) hit
  end.

Fixpoint scan_games (gs : list XemuGamePatches) (game_idx : nat)
    (hit : nat -> nat -> XemuMemoryPatch -> bool) : option (nat * nat) :=
  match gs with
  | [] => None
  | game :: rest =>
      match scan_patches (patches game) 0 (hit game_idx) with
      | Some patch_idx => Some (game_idx, patch_idx)
      | None => scan_games rest (S game_idx) hit
      end
  end.

(** [GetPatchIndices]: the first slot, games in order and patches in order,
    that is the slot pointed to or holds a patch of the same name.  A
    reference to no slot stands for the NULL pointer. *)
Definition GetPatchIndices (st : engine) (p : patch_ref) : option (nat * nat) :=
  match deref st p with
  | None => None
  | Some patch =>
      scan_games (game_list (g_patches_db st)) 0
        (fun game_idx patch_idx other =>
           ((game_idx =? p.1)%nat && (patch_idx =? p.2)%nat)
           || same_name patch other)
  end.

(** The toggle of [HandleControllerNavigation] (button A on the state
    column): [xemu_patches_set_patch_enabled] and then, when it succeeded,
    apply or restore once more. *)
Definition toggle_pressed (e : env) (st : engine) (p : patch_ref) : engine :=
  match deref st p with
  | None => st
  | Some patch =>
      let new_enabled := negb (enabled patch) in
      match GetPatchIndices st p with
      | None => st
      | Some (game_index, patch_index) =>
          let '(ok, st1) :=
            xemu_patches_set_patch_enabled e st (Z.of_nat game_index)
              (Z.of_nat patch_index) new_enabled in
          if ok then
            if new_enabled then
              match deref st1 p with
              | Some patch1 =>
                  snd (xemu_patches_apply_patch_with_save_restore e st1 patch1
                         (Z.of_nat game_index) (Z.of_nat patch_index))
              | None => st1
              end
            else
              snd (xemu_patches_remove_patch_with_restore e st1
                     (Z.of_nat game_index) (Z.of_nat patch_index))
          else st1
      end
  end.

(** [patch->enabled = new_enabled] through the pointer. *)
Definition store_enabled (st : engine) (p : patch_ref) (new_enabled : bool)
    : engine :=
  match game_list (g_patches_db st) !! p.1 with
  | Some game =>
      match patches game !! p.2 with
      | Some patch =>
          set_db (replace_patch (g_patches_db st) (Z.of_nat p.1) (Z.of_nat p.2)
                    game (set_enabled patch new_enabled)) st
      | None => st
      end
  | None => st
  end.

(** The checkbox of the table: the flag is stored through the pointer
    first, then the same calls follow. *)
Definition checkbox_clicked (e : env) (st : engine) (p : patch_ref) : engine :=
  match deref st p with
  | None => st
  | Some patch =>
      let new_enabled := negb (enabled patch) in
      let st0 := store_enabled st p new_enabled in
      match GetPatchIndices st0 p with
      | None => st0
      | Some (game_index, patch_index) =>
          let '(ok, st1) :=
            xemu_patches_set_patch_enabled e st0 (Z.of_nat game_index)
              (Z.of_nat patch_index) new_enabled in
          if ok then
            if new_enabled then
              match deref st1 p with
              | Some patch1 =>
                  snd (xemu_patches_apply_patch_with_save_restore e st1 patch1
                         (Z.of_nat game_index) (Z.of_nat patch_index))
              | None => st1
              end
            else
              snd (xemu_patches_remove_patch_with_restore e st1
                     (Z.of_nat game_index) (Z.of_nat patch_index))
          else st1
      end
  end.

Global Arguments GetPatchIndices : simpl never.
Global Arguments toggle_pressed : simpl never.
Global Arguments checkbox_clicked : simpl never.

End PatchesPopup.
Export PatchesPopup.

(** ** Sample hosts, guests and databases *)

Module Samples.

(** A host without a running executable. *)
Definition sample_env : env := MkEnv 1000 1 None true true "/xemu".

(** A host at [ticks] milliseconds and [secs] seconds showing certificate [c]. *)
Definition env_at (ticks secs : Z) (c : option xbe_cert) : env :=
  MkEnv ticks secs c true true "/xemu".

(** One pair, four bytes, replaced values saved. *)
Definition sample_patch : XemuMemoryPatch :=
  MkPatch [MkAddressValue 0x00123456 [0xDE; 0xAD; 0xBE; 0xEF]] true
          (Some "Infinite Health") (Some "Cheat") (Some "me") (Some "")
          ["0x00123456: DE AD BE EF"] true.

(** A patch that writes the same address twice. *)
Definition twice_patch : XemuMemoryPatch :=
  MkPatch [MkAddressValue 0x1000 [0xAA]; MkAddressValue 0x1000 [0xBB]] false
          (Some "Twice") (Some "Cheat") (Some "me") (Some "") [] true.

(** A guest holding four bytes at the patch address. *)
Definition mapped_guest : guest :=
  MkGuest true true true (store_span ∅ 0x00123456 [0x11; 0x22; 0x33; 0x44]) [].

(** A running guest in which nothing is mapped at the patch address. *)
Definition unmapped_guest : guest := MkGuest true true true ∅ [].

(** A guest whose four bytes from 0xFFFFFFFF on are mapped. *)
Definition edge_guest : guest :=
  MkGuest true true true
          (store_span ∅ 0xFFFFFFFF [0; 0; 0; 0]) [].

(** A machine without guest memory: no game is running. *)
Definition stopped_guest : guest := MkGuest true false false ∅ [].

(** A guest holding one byte at 0x1000. *)
Definition byte_guest : guest :=
  MkGuest true true true (store_span ∅ 0x1000 [0x11]) [].

(** A database with one game holding one disabled patch. *)
Definition one_patch_db (patch : XemuMemoryPatch) : XemuPatchesDatabase :=
  MkDb (Some [MkGame (Some "Halo") (Some "NTSC") (Some "4D530004")
                (Some "1.0.0.0") None None None [patch] true])
       (Some "/xemu/xemu.db") false.

(** The engine at start-up with that database. *)
Definition toggle_start (patch : XemuMemoryPatch) (g : guest) : engine :=
  set_db (one_patch_db patch) (initial_engine g ∅).

(** Enable, then disable. *)
Definition on_off : list (env * bool) := [(sample_env, true); (sample_env, false)].

(** The fields of the Add Game dialog for Halo 1.0.0.0. *)
Definition halo_fields : add_game_fields :=
  MkFields "Halo" "NTSC" "4D530004" "1.0.0.0" "" "" "".

(** A loaded database holding Halo 1.0.0.0. *)
Definition loaded_engine : engine :=
  setB g_patches_loaded true
    (toggle_start (set_enabled sample_patch false) mapped_guest).

(** The state after enabling the sample patch on a running guest: the
    store holds the bytes the patch replaced. *)
Definition patched_engine : engine :=
  snd (xemu_patches_set_patch_enabled sample_env
         (toggle_start (set_enabled sample_patch false) mapped_guest) 0 0 true).

(** The certificate of Halo, NTSC-U, version 1.0.0.0. *)
Definition halo_cert : xbe_cert := MkCert 0x4D530004 1 0x01000000.

(** Halo, NTSC-U, version 1.0.0.0, with the sample patch enabled. *)
Definition halo_game : XemuGamePatches :=
  MkGame (Some "Halo") (Some "NTSC-U") (Some "4D530004") (Some "1.0.0.0")
         None None None [sample_patch] true.

(** The engine once the database is loaded and a disc is present. *)
Definition running_engine : engine :=
  setB g_patch_system_enabled true
    (setB g_patches_initialized true
      (setB g_patches_loaded true
        (set_db (MkDb (Some [halo_game]) (Some "/xemu/xemu.db") false)
                (initial_engine mapped_guest ∅)))).

(** [n] calls of the wrapper in a row from a caller whose variables hold [out]. *)
Fixpoint reads (n : nat) (e : env) (st : engine) (out : outs) : engine :=
  match n with
  | O => st
  | S k => reads k e (snd (get_cached_xbe_info_with_spam_prevention e st out)) out
  end.

(** [n] calls of the main loop in a row under one host state; the
    uninitialised locals hold zeros. *)
Fixpoint ticks (n : nat) (e : env) (st : engine) : engine :=
  match n with
  | O => st
  | S k => ticks k e (xemu_patches_main_loop_update e st (0, 0, 0))
  end.

(** The database loaded and initialised, no disc seen yet. *)
Definition idle_engine : engine :=
  setB g_patches_initialized true
    (setB g_patches_loaded true
      (set_db (MkDb (Some [halo_game]) (Some "/xemu/xemu.db") false)
              (initial_engine mapped_guest ∅))).

(** The certificate of another title. *)
Definition other_cert : xbe_cert := MkCert 0x4D530005 1 0x01000000.

End Samples.
Export Samples.

(** ** The Edit Patch dialog (main-menu.cc) *)

Module PatchEditor.

(** [isxdigit] in the C locale. *)
Definition isxdigit (c : ascii) : bool :=
  isdigit c || ((65 <=? code c) && (code c <=? 70))
  || ((97 <=? code c) && (code c <=? 102)).

Fixpoint every_char (f : ascii -> bool) (s : string) : bool :=
  match s with
  | EmptyString => true
  | String c r => f c && every_char f r
  end.

(** [p && p < q] for a pointer [p] that [strchr] or [strstr] returned. *)
Definition found_before (p : option nat) (q : nat) : bool :=
  match p with
  | Some i => (i <? q)%nat
  | None => false
  end.

(** The check of the address, the text before the colon: blanks trimmed
    at both ends, then [0x] or [0X], then hexadecimal digits only. *)
Definition address_text_valid (a : string) : bool :=
  match g_strstrip a with
  | String c0 (String c1 digits) =>
      Ascii.eqb c0 "0" && (Ascii.eqb c1 "x" || Ascii.eqb c1 "X")
      && every_char isxdigit digits
  | _ => false
  end.

(** The check of the value, the text between the colon and the comment:
    blanks trimmed at both ends, something left, hexadecimal digits only. *)
Definition value_text_valid (v : string) : bool :=
  match g_strstrip v with
  | EmptyString => false
  | t => every_char isxdigit t
  end.

(** The loop of [ValidatePatchData] over the lines of the text: [None] is
    a [return false] from inside the loop, [Some n] the [line_count] at its
    end.  [strchr] and [strstr] search from the start of the line to the
    end of the whole text, as in the C code. *)
Fixpoint validate_lines (fuel : nat) (text : string) (line_count : Z)
    : option Z :=
  match fuel with
  | O => Some line_count
  | S k =>
      let text := skip_while isspace text in
      match text with
      | EmptyString => Some line_count
      | _ =>
          let line_end := String.length (fst (take_until is_newline text)) in
          let colon := strchr text ":" in
          let hash := strchr text "#" in
          let slash_slash := strstr text "//" in
          let comment_start :=
            let c1 := match hash with
                      | Some h => if (h <? line_end)%nat then h else line_end
                      | None => line_end
                      end in
            match slash_slash with
            | Some s => if (s <? c1)%nat then s else c1
            | None => c1
            end in
          let content_end := comment_start in
          let next :=
            match drop_chars line_end text with
            | String _ r => r
            | EmptyString => EmptyString
            end in
          if every_char isspace (take_chars content_end text)
          then validate_lines k next line_count
          else
            match colon with
            | None => None
            | Some c =>
                if (content_end <=? c)%nat then None
                else if found_before hash c || found_before slash_slash c
                then None
                else if negb (address_text_valid (take_chars c text)) then None
                else if negb (value_text_valid
                                (substring (S c) (content_end - S c) text))
                then None
                else validate_lines k next (line_count + 1)
            end
      end
  end.

(** The duplicate test: another patch of the game has the name. *)
Definition name_taken (game : XemuGamePatches) (patch_name : string)
    (is_edit : bool) (edit_index : Z) : bool :=
  existsb
    (fun ip : nat * XemuMemoryPatch =>
       negb (is_edit && (Z.of_nat (fst ip) =? edit_index))
       && bool_decide (name (snd ip) = Some patch_name))
    (imap (fun i p => (i, p)) (patches game)).

(** [MainMenuPatchesView::ValidatePatchData]; the error message it writes
    is left out.  Its callers have checked [selected_game_index] against
    the game count. *)
Definition ValidatePatchData (patch_name patch_category address_value_pairs : string)
    (is_edit : bool) (edit_index : Z) (games : option (list XemuGamePatches))
    (selected_game_index : Z) : bool :=
  if strlen patch_name =? 0 then false
  else if strlen patch_category =? 0 then false
  else if strlen address_value_pairs =? 0 then false
  else
    let duplicate :=
      match games with
      | Some gs =>
          if selected_game_index >=? 0 then
            match at_index gs selected_game_index with
            | Some current_game =>
                name_taken current_game patch_name is_edit edit_index
            | None => false
            end
          else false
      | None => false
      end in
    if duplicate then false
    else
      match validate_lines (S (String.length address_value_pairs))
              address_value_pairs 0 with
      | None => false
      | Some line_count => negb (line_count =? 0)
      end.

(** The fields of the Edit Patch dialog. *)
Record patch_form : Type := MkPatchForm {
  m_selected_game_index : Z;
  m_editing_patch_index : Z;
  m_patch_name : string;
  m_patch_category : string;
  m_patch_author : string;
  m_patch_notes : string;
  m_patch_address_value_pairs : string;
  m_save_replaced_values : bool
}.

(** The Update Patch button of the Edit Patch dialog, the one caller of
    [xemu_patches_update_patch]: the dialog is drawn for a valid game
    index only, and the text goes through [ValidatePatchData] first. *)
Definition update_patch_pressed (e : env) (st : engine) (f : patch_form)
    : engine :=
  let game_count := game_count (g_patches_db st) in
  if (game_count <=? 0) || (m_selected_game_index f <? 0)
     || (m_selected_game_index f >=? game_count)
  then st
  else
    match games (g_patches_db st) with
    | None => st
    | Some gs =>
        if m_editing_patch_index f >=? 0 then
          if ValidatePatchData (m_patch_name f) (m_patch_category f)
               (m_patch_address_value_pairs f) true (m_editing_patch_index f)
               (Some gs) (m_selected_game_index f)
          then
            let '(update_result, st1) :=
              xemu_patches_update_patch st (m_selected_game_index f)
                (m_editing_patch_index f) (Some (m_patch_name f))
                (Some (m_patch_category f)) (Some (m_patch_author f))
                (Some (m_patch_notes f))
                (Some (m_patch_address_value_pairs f))
                (m_save_replaced_values f) in
            if update_result
            then xemu_queue_notification "Patch updated successfully"
                   (xemu_patches_on_ui_database_changed e st1)
            else xemu_queue_notification
                   "Failed to update patch - check logs for details" st1
          else st
        else st
    end.

(** The form holding [text] for patch 0 of game 0. *)
Definition sample_form (text : string) : patch_form :=
  MkPatchForm 0 0 "Infinite Health" "Cheat" "me" "" text true.

(** The loaded database after the Update Patch button stored
    [0x00123456: DEADBEEF] for the patch of Halo. *)
Definition edited_engine : engine :=
  update_patch_pressed sample_env
    (setB g_patches_loaded true
       (set_db (MkDb (Some [halo_game]) (Some "/xemu/xemu.db") false)
               (initial_engine mapped_guest ∅)))
    (sample_form "0x00123456: DEADBEEF").

Global Arguments ValidatePatchData : simpl never.
Global Arguments update_patch_pressed : simpl never.

End PatchEditor.
Export PatchEditor.

(** * Properties *)

(** ** Guest-memory address guard (virtual-memory-access.c) *)

Section AddressGuard.

Lemma read_rejected g addr size em ems :
  XBOX_VIRTUAL_HIGH_MEMORY_END < addr \/ cpu_present g = false ->
  let r := xemu_virtual_memory_read g addr size em ems in
  vm_ret r = 0 /\ vm_guest r = g /\
  vm_error r =
    put_error em ems
      (if XBOX_VIRTUAL_HIGH_MEMORY_END <? addr then msg_invalid addr
       else "No CPU available for virtual memory read").
Proof.
  intros H. unfold xemu_virtual_memory_read, xemu_virtual_memory_is_valid_address.
  destruct (Z.leb_spec addr XBOX_VIRTUAL_HIGH_MEMORY_END) as [Hle|Hgt]; simpl.
  - destruct H as [H|H]; [lia|]. rewrite H. simpl.
    destruct (Z.ltb_spec XBOX_VIRTUAL_HIGH_MEMORY_END addr); [lia|]. auto.
  - destruct (Z.ltb_spec XBOX_VIRTUAL_HIGH_MEMORY_END addr); [|lia]. auto.
Qed.

Lemma write_rejected g addr data size em ems :
  XBOX_VIRTUAL_HIGH_MEMORY_END < addr \/ cpu_present g = false ->
  let w := xemu_virtual_memory_write g addr data size em ems in
  vm_ret w = 0 /\ vm_guest w = g /\
  vm_error w =
    put_error em ems
      (if XBOX_VIRTUAL_HIGH_MEMORY_END <? addr then msg_invalid addr
       else "No CPU available for virtual memory write").
Proof.
  intros H. unfold xemu_virtual_memory_write, xemu_virtual_memory_is_valid_address.
  destruct (Z.leb_spec addr XBOX_VIRTUAL_HIGH_MEMORY_END) as [Hle|Hgt]; simpl.
  - destruct H as [H|H]; [lia|]. rewrite H. simpl.
    destruct (Z.ltb_spec XBOX_VIRTUAL_HIGH_MEMORY_END addr); [lia|]. auto.
  - destruct (Z.ltb_spec XBOX_VIRTUAL_HIGH_MEMORY_END addr); [|lia]. auto.
Qed.

Lemma read_accepted g addr size em ems :
  let r := xemu_virtual_memory_read g addr size em ems in
  vm_ret r = 1 ->
  addr <= XBOX_VIRTUAL_HIGH_MEMORY_END /\ cpu_present g = true /\
  read_span (ram g) addr (Z.to_nat size) = Some (vm_data r) /\
  vm_guest r = log_access g (MemAccess addr size false).
Proof.
  unfold xemu_virtual_memory_read, xemu_virtual_memory_is_valid_address.
  destruct (Z.leb_spec addr XBOX_VIRTUAL_HIGH_MEMORY_END) as [Hle|Hgt]; simpl;
    [|discriminate].
  destruct (cpu_present g); simpl; [|discriminate].
  unfold cpu_memory_rw_debug.
  destruct (read_span (ram g) addr (Z.to_nat size)); simpl; [|discriminate].
  auto.
Qed.

Lemma write_accepted g addr data size em ems :
  let w := xemu_virtual_memory_write g addr data size em ems in
  vm_ret w = 1 ->
  addr <= XBOX_VIRTUAL_HIGH_MEMORY_END /\ cpu_present g = true /\
  mapped (ram g) addr (Z.to_nat size) = true /\
  vm_guest w =
    with_ram (log_access g (MemAccess addr size true))
             (store_span (ram g) addr (take (Z.to_nat size) data)).
Proof.
  unfold xemu_virtual_memory_write, xemu_virtual_memory_is_valid_address.
  destruct (Z.leb_spec addr XBOX_VIRTUAL_HIGH_MEMORY_END) as [Hle|Hgt]; simpl;
    [|discriminate].
  destruct (cpu_present g); simpl; [|discriminate].
  unfold cpu_memory_rw_debug.
  destruct (mapped (ram g) addr (Z.to_nat size)); simpl; [|discriminate].
  auto.
Qed.

(** Every request that reaches the CPU debug accessor starts in range. *)
Definition starts_in_range (a : mem_access) : Prop :=
  acc_addr a <= XBOX_VIRTUAL_HIGH_MEMORY_END.

Lemma read_accesses g addr size em ems :
  let r := xemu_virtual_memory_read g addr size em ems in
  ram (vm_guest r) = ram g /\
  (accesses (vm_guest r) = accesses g \/
   accesses (vm_guest r) = accesses g ++ [MemAccess addr size false] /\
   addr <= XBOX_VIRTUAL_HIGH_MEMORY_END).
Proof.
  unfold xemu_virtual_memory_read, xemu_virtual_memory_is_valid_address.
  destruct (Z.leb_spec addr XBOX_VIRTUAL_HIGH_MEMORY_END) as [Hle|Hgt]; simpl; auto.
  destruct (cpu_present g); simpl; auto.
  unfold cpu_memory_rw_debug.
  destruct (read_span (ram g) addr (Z.to_nat size)); simpl; auto.
Qed.

Lemma write_accesses g addr data size em ems :
  let w := xemu_virtual_memory_write g addr data size em ems in
  accesses (vm_guest w) = accesses g \/
  accesses (vm_guest w) = accesses g ++ [MemAccess addr size true] /\
  addr <= XBOX_VIRTUAL_HIGH_MEMORY_END.
Proof.
  unfold xemu_virtual_memory_write, xemu_virtual_memory_is_valid_address.
  destruct (Z.leb_spec addr XBOX_VIRTUAL_HIGH_MEMORY_END) as [Hle|Hgt]; simpl; auto.
  destruct (cpu_present g); simpl; auto.
  unfold cpu_memory_rw_debug.
  destruct (mapped (ram g) addr (Z.to_nat size)); simpl; auto.
Qed.

End AddressGuard.

(** C10 (as amended).  A call to [xemu_virtual_memory_read] or
    [xemu_virtual_memory_write] whose address exceeds 0xFFFFFFFF, or made when
    no CPU is available, returns 0 and leaves the guest untouched (no request
    reaches the CPU debug accessor); the error text is stored in the caller's
    buffer whenever that buffer is non-NULL and its size is positive.  A
    result of 1 means the CPU debug access of exactly [size] bytes at the
    given address succeeded.  Every request the two functions forward starts at
    an address of at most 0xFFFFFFFF; the guard does not look at the end of
    the span. *)
Theorem C10_address_guard :
  forall (g : guest) (addr size : Z) (data : list Z)
         (em : option string) (ems : Z),
    let r := xemu_virtual_memory_read g addr size em ems in
    let w := xemu_virtual_memory_write g addr data size em ems in
    (XBOX_VIRTUAL_HIGH_MEMORY_END < addr \/ cpu_present g = false ->
       vm_ret r = 0 /\ vm_guest r = g /\ vm_ret w = 0 /\ vm_guest w = g /\
       forall old, em = Some old -> 0 < ems ->
         vm_error r =
           Some (snprintf ems
                   (if XBOX_VIRTUAL_HIGH_MEMORY_END <? addr then msg_invalid addr
                    else "No CPU available for virtual memory read")) /\
         vm_error w =
           Some (snprintf ems
                   (if XBOX_VIRTUAL_HIGH_MEMORY_END <? addr then msg_invalid addr
                    else "No CPU available for virtual memory write")))
    /\ (vm_ret r = 1 ->
          read_span (ram g) addr (Z.to_nat size) = Some (vm_data r) /\
          vm_guest r = log_access g (MemAccess addr size false))
    /\ (vm_ret w = 1 ->
          mapped (ram g) addr (Z.to_nat size) = true /\
          vm_guest w =
            with_ram (log_access g (MemAccess addr size true))
                     (store_span (ram g) addr (take (Z.to_nat size) data)))
    /\ (forall a, In a (accesses (vm_guest r)) ->
          In a (accesses g) \/ starts_in_range a)
    /\ (forall a, In a (accesses (vm_guest w)) ->
          In a (accesses g) \/ starts_in_range a).
Proof.
  intros g addr size data em ems r w. repeat split.
  - apply (read_rejected g addr size em ems H).
  - apply (read_rejected g addr size em ems H).
  - apply (write_rejected g addr data size em ems H).
  - apply (write_rejected g addr data size em ems H).
  - destruct (read_rejected g addr size em ems H) as (_ & _ & He).
    subst r. rewrite He. subst em. simpl.
    destruct (Z.ltb_spec 0 ems); [reflexivity|lia].
  - destruct (write_rejected g addr data size em ems H) as (_ & _ & He).
    subst w. rewrite He. subst em. simpl.
    destruct (Z.ltb_spec 0 ems); [reflexivity|lia].
  - apply (read_accepted g addr size em ems H).
  - apply (read_accepted g addr size em ems H).
  - apply (write_accepted g addr data size em ems H).
  - apply (write_accepted g addr data size em ems H).
  - intros a Ha.
    destruct (read_accesses g addr size em ems) as (_ & [E|[E Hle]]);
      fold r in E; rewrite E in Ha; auto.
    apply in_app_or in Ha. destruct Ha as [Ha|[<-|[]]]; auto.
  - intros a Ha.
    destruct (write_accesses g addr data size em ems) as [E|[E Hle]];
      fold w in E; rewrite E in Ha; auto.
    apply in_app_or in Ha. destruct Ha as [Ha|[<-|[]]]; auto.
Qed.

(** C10 fails as stated: a 4-byte write at 0xFFFFFFFF passes the guard and
    is handed to the CPU debug accessor whole; it returns 1, and of the span
    requested the bytes from 0x100000000 on lie beyond
    XBOX_VIRTUAL_HIGH_MEMORY_END (in the flat guest the byte there changes).
    And a rejected read given a buffer of size 0 stores no message. *)
Lemma C10_counterexample :
  let w := xemu_virtual_memory_write edge_guest 0xFFFFFFFF [1; 2; 3; 4] 4
             (Some EmptyString) 256 in
  vm_ret w = 1 /\
  accesses (vm_guest w) = [MemAccess 0xFFFFFFFF 4 true] /\
  XBOX_VIRTUAL_HIGH_MEMORY_END < 0xFFFFFFFF + 4 - 1 /\
  ram edge_guest !! 0x100000000 = Some 0 /\
  ram (vm_guest w) !! 0x100000000 = Some 2 /\
  let r := xemu_virtual_memory_read edge_guest 0x100000000 4 (Some "stale") 0 in
  vm_ret r = 0 /\ vm_error r = Some "stale".
Proof. vm_compute. repeat split; reflexivity. Qed.

(** ** The saved-value store *)

Section SavedValueStore.

Definition entry_key (e : SavedValueEntry) : Z * Z * Z :=
  (sv_game_index e, sv_patch_index e, sv_address e).

(** At most one entry per (game, patch, address), at most 1024 entries. *)
Definition store_ok (l : list SavedValueEntry) : Prop :=
  NoDup (entry_key <$> l) /\ Z.of_nat (length l) <= MAX_SAVED_VALUES.

Lemma key_matches_iff g p a e :
  key_matches g p a e = true <-> entry_key e = (g, p, a).
Proof.
  unfold key_matches, entry_key. rewrite !andb_true_iff, !Z.eqb_eq.
  split; [intros [[-> ->] ->]; reflexivity | intros [= -> -> ->]; auto].
Qed.

Lemma find_index_None l g p a :
  find_index l g p a = None <-> (g, p, a) ∉ entry_key <$> l.
Proof.
  induction l as [|e l IH]; simpl.
  - split; [intros _ H; inversion H | reflexivity].
  - destruct (key_matches g p a e) eqn:K.
    + apply key_matches_iff in K. split; [discriminate|].
      intros H. exfalso. apply H. rewrite K. constructor.
    + rewrite not_elem_of_cons, <- IH.
      assert (entry_key e <> (g, p, a)) as Hne.
      { intros E. apply key_matches_iff in E. congruence. }
      destruct (find_index l g p a); simpl.
      * split; [discriminate|]. intros [_ H]. discriminate.
      * split; [|reflexivity]. intros _. split; [congruence|reflexivity].
Qed.

Lemma find_index_Some l g p a i :
  find_index l g p a = Some i ->
  exists e, l !! i = Some e /\ entry_key e = (g, p, a).
Proof.
  revert i. induction l as [|e l IH]; simpl; [discriminate|]. intros i.
  destruct (key_matches g p a e) eqn:K.
  - intros [= <-]. exists e. split; [reflexivity|]. by apply key_matches_iff.
  - destruct (find_index l g p a) as [j|]; simpl; [|discriminate].
    intros [= <-]. apply (IH j eq_refl).
Qed.

Lemma swap_remove_perm l i x :
  l !! i = Some x -> l ≡ₚ x :: swap_remove l i.
Proof.
  intros Hi. unfold swap_remove.
  destruct (last l) as [e|] eqn:Hl.
  2:{ apply last_None in Hl. subst l. discriminate. }
  apply last_Some in Hl as [l' ->].
  rewrite length_app. simpl.
  replace (length l' + 1 - 1)%nat with (length l') by lia.
  destruct (Nat.ltb_spec i (length l')) as [Hlt|Hge].
  - rewrite lookup_app_l in Hi by done.
    rewrite insert_app_l by done.
    rewrite take_app_length' by (by rewrite length_insert).
    rewrite <- (take_drop_middle l' i x Hi) at 1.
    rewrite insert_take_drop by done.
    rewrite <- app_assoc. simpl.
    rewrite <- !Permutation_middle.
    apply Permutation_cons; [done|].
    by rewrite app_nil_r.
  - rewrite take_app_length.
    assert (i = length l') as ->.
    { apply lookup_lt_Some in Hi. rewrite length_app in Hi. simpl in Hi. lia. }
    rewrite list_lookup_middle in Hi by done. injection Hi as <-.
    symmetry. apply Permutation_cons_append.
Qed.

Lemma swap_remove_ok l i x :
  l !! i = Some x -> store_ok l -> store_ok (swap_remove l i).
Proof.
  intros Hi [Hnd Hlen]. pose proof (swap_remove_perm l i x Hi) as Hp. split.
  - rewrite Hp in Hnd. rewrite fmap_cons in Hnd.
    by apply NoDup_cons in Hnd as [_ ?].
  - apply Permutation_length in Hp. simpl in Hp. lia.
Qed.

Lemma swap_remove_gone l i x :
  l !! i = Some x -> NoDup (entry_key <$> l) ->
  entry_key x ∉ entry_key <$> swap_remove l i.
Proof.
  intros Hi Hnd. rewrite (swap_remove_perm l i x Hi) in Hnd.
  rewrite fmap_cons in Hnd. by apply NoDup_cons in Hnd as [? _].
Qed.

Lemma swap_remove_elem l i x y :
  l !! i = Some x -> y ∈ swap_remove l i -> y ∈ l.
Proof.
  intros Hi Hy. rewrite (swap_remove_perm l i x Hi). by right.
Qed.

Lemma swap_remove_keeps l i x y :
  l !! i = Some x -> y ∈ l -> entry_key y <> entry_key x ->
  y ∈ swap_remove l i.
Proof.
  intros Hi Hy Hne. rewrite (swap_remove_perm l i x Hi) in Hy.
  apply elem_of_cons in Hy as [->|?]; [done|done].
Qed.

Lemma clear_loop_ok rounds sel i l :
  store_ok l -> store_ok (clear_loop rounds sel i l).
Proof.
  revert i l. induction rounds as [|k IH]; intros i l Hok; simpl; [done|].
  destruct (l !! i) as [e|] eqn:Hi; [|done].
  destruct (sel e); [|by apply IH].
  apply IH. by apply (swap_remove_ok l i e).
Qed.

Lemma clear_loop_subset rounds sel i l y :
  y ∈ clear_loop rounds sel i l -> y ∈ l.
Proof.
  revert i l. induction rounds as [|k IH]; intros i l; simpl; [done|].
  destruct (l !! i) as [e|] eqn:Hi; [|done].
  destruct (sel e); [|by apply IH].
  intros Hy. apply IH in Hy. by apply (swap_remove_elem l i e).
Qed.

(** With enough rounds the loop leaves no selected entry behind. *)
Lemma clear_loop_complete rounds sel i l :
  (length l - i <= rounds)%nat ->
  (forall j e, (j < i)%nat -> l !! j = Some e -> sel e = false) ->
  forall y, y ∈ clear_loop rounds sel i l -> sel y = false.
Proof.
  revert i l. induction rounds as [|k IH]; intros i l Hr Hpre y; simpl.
  - intros Hy. apply list_elem_of_lookup in Hy as [j Hj].
    apply (Hpre j y); [|done]. apply lookup_lt_Some in Hj. lia.
  - destruct (l !! i) as [e|] eqn:Hi.
    2:{ intros Hy. apply list_elem_of_lookup in Hy as [j Hj].
        apply (Hpre j y); [|done].
        apply lookup_lt_Some in Hj. apply lookup_ge_None in Hi. lia. }
    pose proof (lookup_lt_Some _ _ _ Hi) as Hlt.
    destruct (sel e) eqn:Hs.
    + apply IH.
      * pose proof (swap_remove_perm l i e Hi) as Hp.
        apply Permutation_length in Hp. simpl in Hp. lia.
      * intros j e' Hj Hje'. apply (Hpre j e' Hj).
        unfold swap_remove in Hje'.
        destruct (last l) as [z|]; [|done].
        destruct (Nat.ltb_spec i (length l - 1)).
        -- apply lookup_take_Some in Hje' as [Hje' _].
           rewrite list_lookup_insert_ne in Hje' by lia. done.
        -- by apply lookup_take_Some in Hje' as [Hje' _].
    + apply IH; [lia|].
      intros j e' Hj Hje'. destruct (decide (j = i)) as [->|Hne].
      * congruence.
      * apply (Hpre j e'); [lia|done].
Qed.

Lemma add_saved_value_ok st g p a data r st' :
  add_saved_value st g p a data = (r, st') ->
  store_ok (g_saved_values st) -> store_ok (g_saved_values st').
Proof.
  unfold add_saved_value, g_saved_values_count, find_saved_value.
  destruct (Z.geb_spec (Z.of_nat (length (g_saved_values st))) MAX_SAVED_VALUES)
    as [Hfull|Hroom].
  { intros [= <- <-]. done. }
  destruct (find_index (g_saved_values st) g p a) as [i|] eqn:Hf;
    intros [= <- <-] [Hnd Hlen]; simpl.
  - apply find_index_Some in Hf as (e & Hi & Hk). split.
    + rewrite list_fmap_insert. simpl.
      rewrite list_insert_id; [done|].
      rewrite list_lookup_fmap, Hi. simpl. by rewrite Hk.
    + by rewrite length_insert.
  - apply find_index_None in Hf. split.
    + rewrite fmap_app. simpl. apply NoDup_app. repeat split; [done| |].
      * intros x Hx Hx'. apply list_elem_of_singleton in Hx'. by subst x.
      * apply NoDup_singleton.
    + rewrite length_app. simpl. lia.
Qed.

End SavedValueStore.

(** ** What the memory helpers leave alone *)

Section Frames.

Definition guest_static (g g' : guest) : Prop :=
  cpu_present g' = cpu_present g /\
  has_system_memory g' = has_system_memory g /\
  phys_readable g' = phys_readable g.

(** Everything but guest memory, the access log, the reset monitor and
    the integer globals is unchanged. *)
Definition frame (st st' : engine) : Prop :=
  bools st' = bools st /\ strs st' = strs st /\
  g_patches_db st' = g_patches_db st /\
  g_saved_values st' = g_saved_values st /\
  notifications st' = notifications st /\ files st' = files st /\
  guest_static (the_guest st) (the_guest st').

(** A [frame] step that also leaves guest memory as it was. *)
Definition quiet (st st' : engine) : Prop :=
  frame st st' /\ ram (the_guest st') = ram (the_guest st).

Lemma frame_refl st : frame st st.
Proof. unfold frame, guest_static. tauto. Qed.

Lemma frame_trans a b c : frame a b -> frame b c -> frame a c.
Proof.
  unfold frame, guest_static. intros H1 H2.
  destruct H1 as (?&?&?&?&?&?&?&?&?), H2 as (?&?&?&?&?&?&?&?&?).
  repeat split; congruence.
Qed.

Lemma quiet_refl st : quiet st st.
Proof. split; [apply frame_refl|reflexivity]. Qed.

Lemma quiet_trans a b c : quiet a b -> quiet b c -> quiet a c.
Proof.
  intros [F1 R1] [F2 R2]. split; [by eapply frame_trans|congruence].
Qed.

Lemma read_span_mapped r a n :
  is_Some (read_span r a n) <-> mapped r a n = true.
Proof.
  unfold mapped. revert a. induction n as [|n IH]; intros a; simpl.
  - split; [reflexivity|by eexists].
  - rewrite andb_true_iff, bool_decide_eq_true, <- IH.
    destruct (r !! a) as [b|]; simpl.
    + destruct (read_span r (a + 1) n); simpl.
      * split; [intros _; split; by eexists|by eexists].
      * split; [by intros [? ?]|by intros [_ [? ?]]].
    + split; [by intros [? ?]|by intros [[? ?] _]].
Qed.

Lemma read_span_length r a n bs :
  read_span r a n = Some bs -> length bs = n.
Proof.
  revert a bs. induction n as [|n IH]; intros a bs; simpl.
  - by intros [= <-].
  - destruct (r !! a); [|discriminate].
    destruct (read_span r (a + 1) n) eqn:E; [|discriminate].
    intros [= <-]. simpl. f_equal. by eapply IH.
Qed.

Lemma read_span_lookup r a n bs :
  read_span r a n = Some bs ->
  forall k, (k < n)%nat -> r !! (a + Z.of_nat k) = bs !! k.
Proof.
  revert a bs. induction n as [|n IH]; intros a bs; simpl.
  - intros _ k Hk. lia.
  - destruct (r !! a) as [b|] eqn:Ha; [|discriminate].
    destruct (read_span r (a + 1) n) as [bs'|] eqn:E; [|discriminate].
    intros [= <-] k Hk. destruct k as [|k]; simpl.
    + by rewrite Z.add_0_r.
    + rewrite <- (IH (a + 1) bs' E k) by lia. f_equal. lia.
Qed.

Lemma mapped_shorter r a n m :
  (m <= n)%nat -> mapped r a n = true -> mapped r a m = true.
Proof.
  unfold mapped. revert a m. induction n as [|n IH]; intros a m Hm; simpl.
  - assert (m = O) as -> by lia. done.
  - destruct m as [|m]; [done|]. simpl.
    rewrite !andb_true_iff. intros [? ?]. split; [done|]. apply IH; [lia|done].
Qed.

(** The bytes of a stored span, and the bytes around it. *)
Lemma store_span_lookup r a d k :
  store_span r a d !! k =
    if bool_decide (a <= k < a + Z.of_nat (length d))
    then d !! Z.to_nat (k - a) else r !! k.
Proof.
  revert r a. induction d as [|b d IH]; intros r a; simpl.
  - rewrite bool_decide_eq_false_2 by lia. done.
  - rewrite IH. case_bool_decide as H1; case_bool_decide as H2; try lia.
    + replace (Z.to_nat (k - a)) with (S (Z.to_nat (k - (a + 1)))) by lia. done.
    + assert (k = a) as -> by lia.
      rewrite lookup_insert_eq. by rewrite Z.sub_diag.
    + rewrite lookup_insert_ne by lia. done.
Qed.

Lemma mapped_lookup r a n :
  mapped r a n = true <->
  forall k, a <= k < a + Z.of_nat n -> is_Some (r !! k).
Proof.
  unfold mapped. revert a. induction n as [|n IH]; intros a; simpl.
  - split; [intros _ k Hk; lia|done].
  - rewrite andb_true_iff, bool_decide_eq_true, IH. split.
    + intros [Ha Hr] k Hk. destruct (decide (k = a)) as [->|]; [done|].
      apply Hr. lia.
    + intros H. split; [apply H; lia|]. intros k Hk. apply H. lia.
Qed.

Lemma vm_read_spec g a n em ems :
  let r := xemu_virtual_memory_read g a n em ems in
  guest_static g (vm_guest r) /\ ram (vm_guest r) = ram g /\
  (vm_ret r = 1 /\ a <= XBOX_VIRTUAL_HIGH_MEMORY_END /\ cpu_present g = true /\
     read_span (ram g) a (Z.to_nat n) = Some (vm_data r)
   \/ vm_ret r = 0 /\
      (XBOX_VIRTUAL_HIGH_MEMORY_END < a \/ cpu_present g = false \/
       read_span (ram g) a (Z.to_nat n) = None)).
Proof.
  unfold xemu_virtual_memory_read, xemu_virtual_memory_is_valid_address,
    guest_static.
  destruct (Z.leb_spec a XBOX_VIRTUAL_HIGH_MEMORY_END); simpl.
  2:{ intuition auto. }
  destruct (cpu_present g) eqn:Hc; simpl.
  2:{ intuition auto. }
  unfold cpu_memory_rw_debug.
  destruct (read_span (ram g) a (Z.to_nat n)) eqn:E; simpl; intuition auto.
Qed.

Lemma vm_write_spec g a d n em ems :
  let w := xemu_virtual_memory_write g a d n em ems in
  guest_static g (vm_guest w) /\
  (vm_ret w = 1 /\ a <= XBOX_VIRTUAL_HIGH_MEMORY_END /\ cpu_present g = true /\
     mapped (ram g) a (Z.to_nat n) = true /\
     ram (vm_guest w) = store_span (ram g) a (take (Z.to_nat n) d)
   \/ vm_ret w = 0 /\ ram (vm_guest w) = ram g /\
      (XBOX_VIRTUAL_HIGH_MEMORY_END < a \/ cpu_present g = false \/
       mapped (ram g) a (Z.to_nat n) = false)).
Proof.
  unfold xemu_virtual_memory_write, xemu_virtual_memory_is_valid_address,
    guest_static.
  destruct (Z.leb_spec a XBOX_VIRTUAL_HIGH_MEMORY_END); simpl.
  2:{ intuition auto. }
  destruct (cpu_present g) eqn:Hc; simpl.
  2:{ intuition auto. }
  unfold cpu_memory_rw_debug.
  destruct (mapped (ram g) a (Z.to_nat n)) eqn:E; simpl; intuition auto.
Qed.

Lemma set_guest_quiet st g' :
  guest_static (the_guest st) g' -> ram g' = ram (the_guest st) ->
  quiet st (set_guest g' st).
Proof. intros Hs Hr. unfold quiet, frame. simpl. tauto. Qed.

Lemma read_32bit_value_quiet st a v ok st' :
  read_32bit_value st a = (v, ok, st') -> quiet st st'.
Proof.
  unfold read_32bit_value.
  destruct (vm_read_spec (the_guest st) a 4 (Some "") 256) as (Hs & Hr & _).
  destruct (negb _); intros [= <- <- <-]; by apply set_guest_quiet.
Qed.

Lemma read_direct_quiet st a n ok bs st' :
  read_direct_virtual_memory st a n = (ok, bs, st') -> quiet st st'.
Proof.
  unfold read_direct_virtual_memory.
  destruct (vm_read_spec (the_guest st) a n (Some "") 256) as (Hs & Hr & _).
  intros [= <- <- <-]. by apply set_guest_quiet.
Qed.

Lemma set_reset_monitored_quiet st rm : quiet st (set_reset_monitored rm st).
Proof. unfold quiet, frame, guest_static. simpl. tauto. Qed.

Lemma setI_quiet st x v : quiet st (setI x v st).
Proof. unfold quiet, frame, guest_static. simpl. tauto. Qed.

Lemma monitor_reset_patch_address_quiet e st a nm :
  quiet st (monitor_reset_patch_address e st a nm).
Proof.
  unfold monitor_reset_patch_address.
  destruct (_ || _); [apply quiet_refl|].
  destruct (existsb _ _); [apply quiet_refl|].
  match goal with
  | |- context [read_32bit_value ?s a] =>
      destruct (read_32bit_value s a) as [[v ok] st2] eqn:E
  end.
  apply read_32bit_value_quiet in E.
  eapply quiet_trans; [|apply set_reset_monitored_quiet].
  eapply quiet_trans; [|exact E].
  eapply quiet_trans; [apply set_reset_monitored_quiet|apply setI_quiet].
Qed.

Lemma log_reset_loop_quiet n i st a ctx :
  quiet st (log_reset_loop n i st a ctx).
Proof.
  revert i st. induction n as [|n IH]; intros i st; simpl; [apply quiet_refl|].
  destruct (g_reset_monitored_addresses st !! i); [|apply quiet_refl].
  destruct (_ || _); [apply IH|].
  destruct (read_32bit_value st a) as [[v ok] st1] eqn:E.
  apply read_32bit_value_quiet in E.
  eapply quiet_trans; [|apply IH].
  destruct ok; [|done].
  eapply quiet_trans; [exact E|apply set_reset_monitored_quiet].
Qed.

Lemma log_reset_memory_values_quiet st a ctx :
  quiet st (log_reset_memory_values st a ctx).
Proof.
  unfold log_reset_memory_values.
  destruct (negb _); [apply quiet_refl|apply log_reset_loop_quiet].
Qed.

(** [apply_single_patch_bytes]: success means the bytes are now in guest
    memory; failure leaves guest memory as it was. *)
Lemma apply_single_patch_bytes_spec e st a d ok st' :
  apply_single_patch_bytes e st a d = (ok, st') ->
  frame st st' /\
  (ok = true /\ d <> [] /\ a <= XBOX_VIRTUAL_HIGH_MEMORY_END /\
     cpu_present (the_guest st) = true /\
     mapped (ram (the_guest st)) a (length d) = true /\
     ram (the_guest st') = store_span (ram (the_guest st)) a d
   \/ ok = false /\ ram (the_guest st') = ram (the_guest st) /\
      (d = [] \/ XBOX_VIRTUAL_HIGH_MEMORY_END < a \/
       cpu_present (the_guest st) = false \/
       mapped (ram (the_guest st)) a (length d) = false)).
Proof.
  unfold apply_single_patch_bytes.
  destruct (Z.leb_spec (Z.of_nat (length d)) 0) as [Hz|Hpos].
  { intros [= <- <-]. split; [apply frame_refl|]. right.
    repeat split; auto. left. destruct d; [done|simpl in Hz; lia]. }
  set (st1 := if B st g_reset_monitoring_active
              then monitor_reset_patch_address e st a "reset_reapplication"
              else st).
  assert (quiet st st1) as Q1.
  { subst st1. destruct (B st g_reset_monitoring_active);
      [apply monitor_reset_patch_address_quiet|apply quiet_refl]. }
  set (n16 := MIN (Z.of_nat (length d)) 16).
  destruct (vm_read_spec (the_guest st1) a n16 (Some "") 256) as (Hs & Hr & Hres).
  set (test := xemu_virtual_memory_read (the_guest st1) a n16 (Some "") 256) in *.
  assert (quiet st (set_guest (vm_guest test) st1)) as Q2.
  { eapply quiet_trans; [exact Q1|]. by apply set_guest_quiet. }
  assert (d <> []) as Hd by (destruct d; [simpl in Hpos; lia|done]).
  assert (Z.to_nat n16 <= length d)%nat as Hn16.
  { subst n16. unfold MIN. destruct (Z.ltb_spec (Z.of_nat (length d)) 16); lia. }
  destruct Q1 as [F1 R1]. pose proof F1 as (_&_&_&_&_&_&Hc1&_&_).
  destruct Hres as [(Hret & Hle & Hcpu & Hread)|(Hret & Hfail)]; rewrite Hret;
    [change (1 =? 0) with false|change (0 =? 0) with true]; cbv iota.
  2:{ intros [= <- <-]. split; [apply Q2|]. right.
      split; [done|]. split; [apply Q2|].
      destruct Hfail as [?|[?|Hn]]; [auto|right; right; left; congruence|].
      right. right. right.
      destruct (mapped (ram (the_guest st)) a (length d)) eqn:Hm; [|done].
      apply (mapped_shorter _ _ _ _ Hn16) in Hm.
      apply read_span_mapped in Hm as [bs Hbs]. congruence. }
  match goal with
  | |- context [write_direct_virtual_memory ?s _ _ _] => set (st3 := s)
  end.
  assert (quiet st st3) as Q3.
  { subst st3.
    destruct (B (set_guest (vm_guest test) st1) g_reset_monitoring_active);
      [|exact Q2].
    eapply quiet_trans; [exact Q2|apply set_reset_monitored_quiet]. }
  unfold write_direct_virtual_memory.
  destruct (vm_write_spec (the_guest st3) a d (Z.of_nat (length d)) (Some "") 256)
    as (Hws & Hw).
  set (w := xemu_virtual_memory_write (the_guest st3) a d (Z.of_nat (length d))
              (Some "") 256) in *.
  destruct Q3 as [F3 R3]. pose proof F3 as (_&_&_&_&_&_&Hc3&_&_).
  assert (frame st (set_guest (vm_guest w) st3)) as F4.
  { eapply frame_trans; [exact F3|].
    unfold frame. simpl. tauto. }
  rewrite Nat2Z.id, firstn_all in Hw.
  destruct Hw as [(Hwr & _ & _ & Hm & Hram)|(Hwr & Hram & Hwhy)]; rewrite Hwr;
    [change (negb (1 =? 0)) with true|change (negb (0 =? 0)) with false].
  - rewrite andb_true_r.
    match goal with
    | |- (_, ?s5) = _ -> _ => assert (quiet (set_guest (vm_guest w) st3) s5) as Q5
    end.
    { destruct (B (set_guest (vm_guest w) st3) g_reset_monitoring_active);
        [apply log_reset_memory_values_quiet|apply quiet_refl]. }
    intros [= <- <-]. split; [eapply frame_trans; [exact F4|apply Q5]|].
    left. repeat split; auto; try congruence.
    destruct Q5 as [_ R5]. etransitivity; [exact R5|]. simpl. congruence.
  - rewrite andb_false_r. intros [= <- <-]. split; [exact F4|].
    right. split; [done|]. split; [simpl; congruence|].
    destruct Hwhy as [?|[?|?]]; [auto|right; right; left; congruence|].
    right. right. right. congruence.
Qed.

End Frames.

(** ** Patch application with save (PatchApplier) *)

Section ApplyWithSave.

(** A pair's span can be accessed: the address passes the guard, a CPU is
    there and every byte of the span is mapped. *)
Definition readable (st : engine) (av : XemuPatchAddressValue) : bool :=
  (address av <=? XBOX_VIRTUAL_HIGH_MEMORY_END)
  && cpu_present (the_guest st)
  && mapped (ram (the_guest st)) (address av) (length (value_data av)).

Definition same_mapping (r r' : gmap Z Z) : Prop :=
  forall k, is_Some (r' !! k) <-> is_Some (r !! k).

Lemma same_mapping_refl r : same_mapping r r.
Proof. intros k. reflexivity. Qed.

Lemma same_mapping_trans a b c :
  same_mapping a b -> same_mapping b c -> same_mapping a c.
Proof. intros H1 H2 k. etransitivity; [apply H2|apply H1]. Qed.

Lemma same_mapping_mapped r r' a n :
  same_mapping r r' -> mapped r' a n = mapped r a n.
Proof.
  intros H. apply eq_true_iff_eq.
  split; intros Hm; apply mapped_lookup; intros k Hk; apply H;
    by apply (proj1 (mapped_lookup _ a n) Hm).
Qed.

Lemma store_span_same_mapping r a d :
  mapped r a (length d) = true -> same_mapping r (store_span r a d).
Proof.
  intros Hm k. rewrite store_span_lookup.
  case_bool_decide as Hk; [|reflexivity].
  rewrite mapped_lookup in Hm. specialize (Hm k Hk).
  split; [intros _; exact Hm|intros _].
  apply lookup_lt_is_Some. lia.
Qed.

Lemma read_direct_spec st a n ok bs st' :
  read_direct_virtual_memory st a n = (ok, bs, st') ->
  quiet st st' /\
  (ok = true /\ a <= XBOX_VIRTUAL_HIGH_MEMORY_END /\
     cpu_present (the_guest st) = true /\
     read_span (ram (the_guest st)) a (Z.to_nat n) = Some bs
   \/ ok = false /\
      (XBOX_VIRTUAL_HIGH_MEMORY_END < a \/ cpu_present (the_guest st) = false \/
       read_span (ram (the_guest st)) a (Z.to_nat n) = None)).
Proof.
  intros H. split; [by eapply read_direct_quiet|].
  unfold read_direct_virtual_memory in H.
  destruct (vm_read_spec (the_guest st) a n (Some "") 256) as (_ & _ & Hres).
  injection H as <- <- <-.
  destruct Hres as [(-> & ? & ? & ?)|(-> & ?)]; [left|right]; auto.
Qed.

Lemma readable_true st av :
  readable st av = true <->
  address av <= XBOX_VIRTUAL_HIGH_MEMORY_END /\
  cpu_present (the_guest st) = true /\
  mapped (ram (the_guest st)) (address av) (length (value_data av)) = true.
Proof.
  unfold readable. rewrite !andb_true_iff, Z.leb_le. tauto.
Qed.

Lemma readable_false st av :
  readable st av = false <->
  XBOX_VIRTUAL_HIGH_MEMORY_END < address av \/
  cpu_present (the_guest st) = false \/
  mapped (ram (the_guest st)) (address av) (length (value_data av)) = false.
Proof.
  unfold readable. rewrite !andb_false_iff, Z.leb_gt. tauto.
Qed.

Lemma add_saved_value_frame st g p a data r st' :
  add_saved_value st g p a data = (r, st') ->
  bools st' = bools st /\ ints st' = ints st /\ strs st' = strs st /\
  g_patches_db st' = g_patches_db st /\ the_guest st' = the_guest st /\
  notifications st' = notifications st /\ files st' = files st /\
  g_reset_monitored_addresses st' = g_reset_monitored_addresses st.
Proof.
  unfold add_saved_value.
  destruct (_ >=? _); [by intros [= <- <-]|].
  destruct (find_saved_value st g p a); intros [= <- <-]; simpl; tauto.
Qed.

Lemma add_saved_value_values st s g p a data :
  g_saved_values s = g_saved_values st ->
  g_saved_values (snd (add_saved_value s g p a data)) =
  g_saved_values (snd (add_saved_value st g p a data)).
Proof.
  intros H. unfold add_saved_value, g_saved_values_count, find_saved_value.
  rewrite H. destruct (_ >=? _); [done|].
  destruct (find_index (g_saved_values st) g p a); simpl; done.
Qed.

(** After a successful add the store holds the bytes under the key. *)
Lemma add_saved_value_recorded st g p a data :
  g_saved_values_count st < MAX_SAVED_VALUES ->
  let st' := snd (add_saved_value st g p a data) in
  exists k, find_saved_value st' g p a = Some k /\
            g_saved_values st' !! k = Some (MkSaved g p a data).
Proof.
  intros Hroom. unfold add_saved_value.
  destruct (Z.geb_spec (g_saved_values_count st) MAX_SAVED_VALUES); [lia|].
  unfold find_saved_value.
  destruct (find_index (g_saved_values st) g p a) as [i|] eqn:Hf; simpl.
  - exists i. pose proof Hf as Hf'.
    apply find_index_Some in Hf' as (x & Hi & Hk).
    split; [|apply list_lookup_insert_eq; by eapply lookup_lt_Some].
    clear Hi Hk x. revert i Hf.
    induction (g_saved_values st) as [|x l IH]; simpl; [discriminate|].
    intros i. destruct (key_matches g p a x) eqn:K.
    + intros [= <-]. simpl. unfold key_matches. simpl. by rewrite !Z.eqb_refl.
    + destruct (find_index l g p a) as [j|]; simpl; [|discriminate].
      intros [= <-]. simpl. rewrite K. by rewrite (IH j eq_refl).
  - exists (length (g_saved_values st)).
    split; [|by apply list_lookup_middle].
    revert Hf. induction (g_saved_values st) as [|x l IH]; simpl.
    + intros _. unfold key_matches. simpl. by rewrite !Z.eqb_refl.
    + destruct (key_matches g p a x); [discriminate|].
      destruct (find_index l g p a); [discriminate|]. intros _.
      by rewrite (IH eq_refl).
Qed.

(** One pair of a patch with [save_replaced_values]. *)
Lemma apply_pair_save e st g p av ok st' :
  apply_pair e st true g p av = (ok, st') ->
  bools st' = bools st /\ g_patches_db st' = g_patches_db st /\
  notifications st' = notifications st /\ files st' = files st /\
  guest_static (the_guest st) (the_guest st') /\
  (readable st av = true ->
     exists orig,
       read_span (ram (the_guest st)) (address av) (length (value_data av))
         = Some orig /\
       g_saved_values st' =
         g_saved_values (snd (add_saved_value st g p (address av) orig))) /\
  (readable st av = false -> g_saved_values st' = g_saved_values st) /\
  (ok = true <-> readable st av = true /\ value_data av <> []) /\
  ram (the_guest st') =
    (if ok then store_span (ram (the_guest st)) (address av) (value_data av)
     else ram (the_guest st)).
Proof.
  unfold apply_pair, value_length.
  destruct (read_direct_virtual_memory st (address av)
              (Z.of_nat (length (value_data av)))) as [[rok bs] st1] eqn:Er.
  apply read_direct_spec in Er as [[F1 R1] Hr]. rewrite Nat2Z.id in Hr.
  destruct F1 as (Fb & Fs & Fd & Fv & Fn & Ff & Fg).
  set (st2 := if rok then snd (add_saved_value st1 g p (address av) bs) else st1).
  assert (bools st2 = bools st /\ g_patches_db st2 = g_patches_db st /\
          notifications st2 = notifications st /\ files st2 = files st /\
          the_guest st2 = the_guest st1) as (Gb & Gd & Gn & Gf & Gg).
  { subst st2. destruct rok; [|tauto].
    destruct (add_saved_value st1 g p (address av) bs) as [r s] eqn:Ea.
    apply add_saved_value_frame in Ea as (?&?&?&?&?&?&?&?). simpl.
    repeat split; congruence. }
  intros Ha. apply apply_single_patch_bytes_spec in Ha as [F2 Hres].
  destruct F2 as (Hb & Hs & Hd & Hv & Hn & Hf & Hg).
  rewrite Gg in Hres, Hg. rewrite R1 in Hres.
  assert (cpu_present (the_guest st1) = cpu_present (the_guest st)) as Hcpu
    by apply Fg.
  rewrite Hcpu in Hres.
  split; [congruence|]. split; [congruence|]. split; [congruence|].
  split; [congruence|].
  split. { destruct Fg as (?&?&?), Hg as (?&?&?). repeat split; congruence. }
  split; [|split; [|split]].
  - intros Hrd. apply readable_true in Hrd as (Hle & Hc & Hm).
    destruct Hr as [(-> & _ & _ & Hread)|(-> & Hwhy)].
    + exists bs. split; [done|]. rewrite Hv. subst st2.
      by apply add_saved_value_values.
    + exfalso. destruct Hwhy as [?|[?|Hn']]; [lia|congruence|].
      apply read_span_mapped in Hm as [? ?]. congruence.
  - intros Hrd. apply readable_false in Hrd. rewrite Hv. subst st2.
    destruct Hr as [(-> & Hle & Hc & Hread)|(-> & _)]; [|done].
    exfalso. assert (is_Some (read_span (ram (the_guest st)) (address av)
                                (length (value_data av)))) as Hm by eauto.
    apply read_span_mapped in Hm.
    destruct Hrd as [?|[?|?]]; [lia|congruence|congruence].
  - rewrite readable_true.
    destruct Hres as [(-> & ? & ? & ? & ? & _)|(-> & _ & Hwhy)].
    + tauto.
    + split; [discriminate|]. intros [(Hle & Hc & Hm) Hne].
      destruct Hwhy as [?|[?|[?|?]]]; [done|lia|congruence|congruence].
  - destruct Hres as [(-> & _ & _ & _ & _ & ->)|(-> & -> & _)]; done.
Qed.

Lemma apply_pair_mapping e st save g p av ok st' :
  apply_pair e st save g p av = (ok, st') ->
  same_mapping (ram (the_guest st)) (ram (the_guest st')) /\
  cpu_present (the_guest st') = cpu_present (the_guest st).
Proof.
  unfold apply_pair.
  set (st1 := if save then _ else st).
  assert (ram (the_guest st1) = ram (the_guest st) /\
          cpu_present (the_guest st1) = cpu_present (the_guest st)) as [R1 C1].
  { subst st1. destruct save; [|done].
    destruct (read_direct_virtual_memory st (address av) (value_length av))
      as [[rok bs] s1] eqn:Er.
    apply read_direct_spec in Er as [[F1 R1] _].
    assert (cpu_present (the_guest s1) = cpu_present (the_guest st)) by apply F1.
    destruct rok; [|done].
    destruct (add_saved_value s1 g p (address av) bs) as [r s] eqn:Ea.
    apply add_saved_value_frame in Ea as (?&?&?&?&Hg&?&?&?). simpl.
    rewrite Hg. done. }
  intros Ha. apply apply_single_patch_bytes_spec in Ha as [F2 Hres].
  split; [|destruct F2 as (_&_&_&_&_&_&Hc&_&_); congruence].
  rewrite <- R1.
  destruct Hres as [(_ & _ & _ & _ & Hm & ->)|(_ & -> & _)];
    [by apply store_span_same_mapping|apply same_mapping_refl].
Qed.

Lemma readable_mapping st st' av :
  same_mapping (ram (the_guest st)) (ram (the_guest st')) ->
  cpu_present (the_guest st') = cpu_present (the_guest st) ->
  readable st' av = readable st av.
Proof.
  intros Hm Hc. unfold readable. rewrite Hc.
  by rewrite (same_mapping_mapped _ _ _ _ Hm).
Qed.

Lemma apply_pairs_result e st g p pairs acc :
  fst (apply_pairs e st true g p pairs acc) = true <->
  acc = true /\
  forall av, av ∈ pairs -> readable st av = true /\ value_data av <> [].
Proof.
  revert st acc. induction pairs as [|av rest IH]; intros st acc; simpl.
  - split; [intros ->; split; [done|]; intros av H; inversion H|tauto].
  - destruct (apply_pair e st true g p av) as [ok st1] eqn:Ep.
    pose proof (apply_pair_mapping _ _ _ _ _ _ _ _ Ep) as [Hm Hc].
    apply apply_pair_save in Ep as (_&_&_&_&_&_&_&Hok&_).
    rewrite IH. split.
    + intros [Hacc Hall]. destruct ok; [|discriminate]. split; [done|].
      intros x Hx. apply elem_of_cons in Hx as [->|Hx]; [by apply Hok|].
      rewrite <- (readable_mapping st st1 x Hm Hc). by apply Hall.
    + intros [-> Hall].
      assert (ok = true) as ->.
      { apply Hok. apply Hall. by left. }
      split; [done|]. intros x Hx.
      rewrite (readable_mapping st st1 x Hm Hc). apply Hall. by right.
Qed.

End ApplyWithSave.

Section ApplyLoop.

(** The state in which the loop of
    [xemu_patches_apply_patch_with_save_restore] is after its first [n]
    rounds, started in [st]. *)
Definition loop_state (e : env) (st : engine) (patch : XemuMemoryPatch)
    (g p : Z) (n : nat) : engine :=
  snd (apply_pairs e st (save_replaced_values patch) g p
         (take n (address_values patch)) true).

Lemma apply_pairs_snoc e sv g p av : forall l st acc,
  apply_pairs e st sv g p (l ++ [av]) acc =
  (let '(b, s) := apply_pairs e st sv g p l acc in
   let '(ok, s') := apply_pair e s sv g p av in
   ((if ok then b else false), s')).
Proof.
  induction l as [|x l IH]; intros st acc; simpl.
  - by destruct (apply_pair e st sv g p av) as [ok s'].
  - destruct (apply_pair e st sv g p x) as [okx sx]. apply IH.
Qed.

(** Round [n] of the loop is [apply_pair] on pair [n]. *)
Lemma loop_state_step e st patch g p n av :
  address_values patch !! n = Some av ->
  loop_state e st patch g p (S n) =
  snd (apply_pair e (loop_state e st patch g p n)
         (save_replaced_values patch) g p av).
Proof.
  intros Hn. unfold loop_state. rewrite (take_S_r _ _ _ Hn).
  rewrite apply_pairs_snoc.
  destruct (apply_pairs _ _ _ _ _ (take n _) _) as [b s]. simpl.
  by destruct (apply_pair e s _ g p av).
Qed.

Lemma loop_state_end e st patch g p :
  has_system_memory (the_guest st) = true ->
  snd (xemu_patches_apply_patch_with_save_restore e st patch g p) =
  loop_state e st patch g p (length (address_values patch)).
Proof.
  intros Hm. unfold xemu_patches_apply_patch_with_save_restore, loop_state.
  rewrite Hm. simpl. by rewrite firstn_all.
Qed.

End ApplyLoop.

(** C3 (as amended).  [xemu_patches_apply_patch_with_save_restore] on a
    patch with [save_replaced_values], every pair of at most 16 bytes (the
    size of the capture buffer), guest memory present.  The call ends in
    the state its loop reaches after the last pair, and round [n] of the
    loop takes the state [s] left by the pairs before pair [n] to a state
    [s'] such that: when the span of the pair is readable in [s] and the
    store has room, the store of [s'] holds under the pair's key the bytes
    that memory held in [s], and memory in [s'] holds the new bytes on the
    span (for a pair with bytes); when the span is not readable, nothing
    is recorded and nothing is written.  The call returns [true] iff
    every pair has bytes and an accessible span. *)
Theorem C3_save_before_write :
  forall (e : env) (st : engine) (patch : XemuMemoryPatch) (g p : Z),
    save_replaced_values patch = true ->
    has_system_memory (the_guest st) = true ->
    Forall (fun av => (length (value_data av) <= 16)%nat) (address_values patch) ->
    let run := xemu_patches_apply_patch_with_save_restore e st patch g p in
    snd run = loop_state e st patch g p (length (address_values patch)) /\
    loop_state e st patch g p 0 = st /\
    (forall (n : nat) av,
        address_values patch !! n = Some av ->
        let s := loop_state e st patch g p n in
        let s' := loop_state e st patch g p (S n) in
        (readable s av = true ->
         g_saved_values_count s < MAX_SAVED_VALUES ->
         exists orig k,
           read_span (ram (the_guest s)) (address av) (length (value_data av))
             = Some orig /\
           find_saved_value s' g p (address av) = Some k /\
           g_saved_values s' !! k = Some (MkSaved g p (address av) orig)) /\
        (readable s av = true -> value_data av <> [] ->
         ram (the_guest s') =
           store_span (ram (the_guest s)) (address av) (value_data av)) /\
        (readable s av = false \/ value_data av = [] ->
         ram (the_guest s') = ram (the_guest s)) /\
        (readable s av = false -> g_saved_values s' = g_saved_values s)) /\
    (fst run = true <->
     forall av, av ∈ address_values patch ->
                readable st av = true /\ value_data av <> []).
Proof.
  intros e st patch g p Hsave Hmem _ run. subst run.
  split; [by apply loop_state_end|]. split; [done|]. split.
  - intros n av Hn s s'. subst s s'.
    rewrite (loop_state_step _ _ _ _ _ _ _ Hn), Hsave.
    set (s := loop_state e st patch g p n).
    destruct (apply_pair e s true g p av) as [ok s'] eqn:Ep. simpl.
    apply apply_pair_save in Ep as (_&_&_&_&_&Hrec&Hskip&Hok&Hram).
    split; [|split; [|split]].
    + intros Hr Hroom. destruct (Hrec Hr) as (orig & Hread & Hs).
      destruct (add_saved_value_recorded s g p (address av) orig Hroom)
        as (k & Hk1 & Hk2).
      exists orig, k. split; [done|]. unfold find_saved_value in *.
      rewrite Hs. done.
    + intros Hr Hne. rewrite Hram.
      assert (ok = true) as -> by (apply Hok; done). done.
    + intros Hno. rewrite Hram. destruct ok; [|done].
      destruct (proj1 Hok eq_refl) as [Hr Hne].
      destruct Hno as [Hno|Hno]; congruence.
    + exact Hskip.
  - unfold xemu_patches_apply_patch_with_save_restore. rewrite Hmem, Hsave.
    simpl. rewrite apply_pairs_result. tauto.
Qed.

Lemma C3_save_before_write_witness :
  let st := initial_engine mapped_guest ∅ in
  let run := xemu_patches_apply_patch_with_save_restore sample_env st
               sample_patch 0 0 in
  snd run = loop_state sample_env st sample_patch 0 0 1 /\
  (fst run = true <->
   forall av, av ∈ address_values sample_patch ->
              readable st av = true /\ value_data av <> []).
Proof.
  destruct (C3_save_before_write sample_env (initial_engine mapped_guest ∅)
              sample_patch 0 0) as (H1 & _ & _ & H4).
  - reflexivity.
  - reflexivity.
  - repeat constructor; simpl; lia.
  - split; [exact H1|exact H4].
Defined.

(** C3 fails as stated: with the patch address unreadable the read fails,
    the recording is skipped, and no write follows: the only requests that
    reach the guest are the two reads, and the function returns false. *)
Lemma C3_counterexample :
  let '(ok, st') :=
    xemu_patches_apply_patch_with_save_restore sample_env
      (initial_engine unmapped_guest ∅) sample_patch 0 0 in
  ok = false /\ g_saved_values st' = [] /\
  accesses (the_guest st') =
    [MemAccess 0x00123456 4 false; MemAccess 0x00123456 4 false].
Proof. vm_compute. repeat split; reflexivity. Qed.

(** ** The saved-values store under the operations that change it *)

Section StoreOperations.

Lemma apply_pair_store_ok e st save g p av ok st' :
  apply_pair e st save g p av = (ok, st') ->
  store_ok (g_saved_values st) -> store_ok (g_saved_values st').
Proof.
  unfold apply_pair. intros H Hok.
  apply apply_single_patch_bytes_spec in H as [(_ & _ & _ & Hv & _) _].
  rewrite Hv. clear Hv. destruct save; [|done].
  destruct (read_direct_virtual_memory st (address av) (value_length av))
    as [[rok bs] st1] eqn:Er.
  apply read_direct_quiet in Er as [(_ & _ & _ & Hv1 & _) _].
  rewrite <- Hv1 in Hok. destruct rok; [|done].
  destruct (add_saved_value st1 g p (address av) bs) as [r s] eqn:Ea.
  simpl. by eapply add_saved_value_ok.
Qed.

Lemma apply_pairs_store_ok e save g p l : forall st acc ok st',
  apply_pairs e st save g p l acc = (ok, st') ->
  store_ok (g_saved_values st) -> store_ok (g_saved_values st').
Proof.
  induction l as [|av l IH]; intros st acc ok st'; simpl.
  - by intros [= _ <-].
  - destruct (apply_pair e st save g p av) as [ok1 st1] eqn:Ep.
    intros H Hok. eapply IH; [exact H|]. by eapply apply_pair_store_ok.
Qed.

Lemma restore_pair_store_ok e st g p av ok st' :
  restore_pair e st g p av = (ok, st') ->
  store_ok (g_saved_values st) -> store_ok (g_saved_values st').
Proof.
  unfold restore_pair.
  destruct (find_saved_value st g p (address av)) as [i|];
    [|by intros [= _ <-]].
  destruct (g_saved_values st !! i) as [x|] eqn:Hi; [|by intros [= _ <-]].
  destruct (apply_single_patch_bytes e st (address av) (original_data x))
    as [rs st1] eqn:Ea.
  apply apply_single_patch_bytes_spec in Ea as [(_ & _ & _ & Hv1 & _) _].
  destruct rs.
  - destruct (read_direct_virtual_memory st1 (address av) (data_length x))
      as [[rok bs] s] eqn:Er.
    apply read_direct_quiet in Er as [(_ & _ & _ & Hv2 & _) _].
    intros [= _ <-] Hok. cbn [g_saved_values set_saved].
    rewrite Hv2, Hv1. by apply (swap_remove_ok _ i x).
  - intros [= _ <-] Hok. cbn [g_saved_values set_saved].
    rewrite Hv1. by apply (swap_remove_ok _ i x).
Qed.

Lemma restore_pairs_store_ok e g p l : forall st acc ok st',
  restore_pairs e st g p l acc = (ok, st') ->
  store_ok (g_saved_values st) -> store_ok (g_saved_values st').
Proof.
  induction l as [|av l IH]; intros st acc ok st'; simpl.
  - by intros [= _ <-].
  - destruct (restore_pair e st g p av) as [ok1 st1] eqn:Ep.
    intros H Hok. eapply IH; [exact H|]. by eapply restore_pair_store_ok.
Qed.

(** The operations of the engine that reach the saved-values store, and
    [SetDatabase] for any change of the database in between. *)
Inductive store_op : Type :=
| AddSavedValue (game_index patch_index address : Z) (original : list Z)
| ApplyPatch (e : env) (patch : XemuMemoryPatch) (game_index patch_index : Z)
| RemoveWithRestore (e : env) (game_index patch_index : Z)
| RemovePatch (game_index patch_index : Z)
| ClearForGame (game_index : Z)
| ClearAll
| SetDatabase (db : XemuPatchesDatabase).

Definition run_store_op (st : engine) (op : store_op) : engine :=
  match op with
  | AddSavedValue g p a d => snd (add_saved_value st g p a d)
  | ApplyPatch e patch g p =>
      snd (xemu_patches_apply_patch_with_save_restore e st patch g p)
  | RemoveWithRestore e g p => snd (xemu_patches_remove_patch_with_restore e st g p)
  | RemovePatch g p => snd (xemu_patches_remove_patch st g p)
  | ClearForGame g => xemu_patches_clear_saved_values_for_game st g
  | ClearAll => xemu_patches_clear_all_saved_values st
  | SetDatabase db => set_db db st
  end.

Lemma run_store_op_ok st op :
  store_ok (g_saved_values st) -> store_ok (g_saved_values (run_store_op st op)).
Proof.
  intros Hok. destruct op as [g p a d|e patch g p|e g p|g p|g| |db]; simpl.
  - destruct (add_saved_value st g p a d) as [r s] eqn:Ea.
    by eapply add_saved_value_ok.
  - unfold xemu_patches_apply_patch_with_save_restore.
    destruct (negb _); [done|].
    destruct (apply_pairs e st (save_replaced_values patch) g p
                (address_values patch) true) as [ok s] eqn:Ea.
    by eapply apply_pairs_store_ok.
  - unfold xemu_patches_remove_patch_with_restore.
    destruct (negb _); [done|].
    destruct (at_index _ g) as [game|]; [|done].
    destruct (negb _); [done|].
    destruct (at_index _ p) as [patch|]; [|done].
    destruct (save_replaced_values patch); [|done].
    destruct (restore_pairs e st g p (address_values patch) true)
      as [ok s] eqn:Ea.
    by eapply restore_pairs_store_ok.
  - unfold xemu_patches_remove_patch.
    destruct (negb _); [done|].
    destruct (at_index _ g) as [game|]; [|done].
    destruct (negb _); [done|].
    simpl. by apply clear_loop_ok.
  - unfold xemu_patches_clear_saved_values_for_game. simpl.
    by apply clear_loop_ok.
  - split; [constructor|]. simpl. unfold MAX_SAVED_VALUES. lia.
  - done.
Qed.

Lemma run_store_ops_ok ops : forall st,
  store_ok (g_saved_values st) ->
  store_ok (g_saved_values (foldl run_store_op st ops)).
Proof.
  induction ops as [|op ops IH]; intros st Hok; simpl; [done|].
  apply IH. by apply run_store_op_ok.
Qed.

End StoreOperations.

(** C9.  In every state reached from the initial one by the operations that
    change the saved-values store, the store has at most one entry per
    (game_index, patch_index, address) and at most [MAX_SAVED_VALUES] = 1024
    entries.  There [add_saved_value] returns NULL and changes nothing when
    the store is full; otherwise it overwrites the entry that has the key,
    in its slot, or appends a new entry when no entry has the key. *)
Theorem C9_saved_value_store_invariant :
  forall (g : guest) (f : gmap string string) (ops : list store_op),
    let st := foldl run_store_op (initial_engine g f) ops in
    store_ok (g_saved_values st) /\
    MAX_SAVED_VALUES = 1024 /\
    forall gi pi a d,
      (MAX_SAVED_VALUES <= g_saved_values_count st ->
       add_saved_value st gi pi a d = (None, st)) /\
      (g_saved_values_count st < MAX_SAVED_VALUES ->
       forall i, find_saved_value st gi pi a = Some i ->
         (exists old, g_saved_values st !! i = Some old /\
                      entry_key old = (gi, pi, a)) /\
         add_saved_value st gi pi a d =
           (Some i, set_saved (<[i := MkSaved gi pi a d]> (g_saved_values st)) st) /\
         length (<[i := MkSaved gi pi a d]> (g_saved_values st))
           = length (g_saved_values st)) /\
      (g_saved_values_count st < MAX_SAVED_VALUES ->
       find_saved_value st gi pi a = None ->
       ((gi, pi, a) ∉ entry_key <$> g_saved_values st) /\
       add_saved_value st gi pi a d =
         (Some (length (g_saved_values st)),
          set_saved (g_saved_values st ++ [MkSaved gi pi a d]) st)).
Proof.
  intros g f ops st. split.
  { apply run_store_ops_ok. split; [constructor|]. simpl.
    unfold MAX_SAVED_VALUES. lia. }
  split; [reflexivity|].
  intros gi pi a d. unfold add_saved_value.
  split; [|split].
  - intros Hfull.
    destruct (Z.geb_spec (g_saved_values_count st) MAX_SAVED_VALUES); [done|lia].
  - intros Hroom i Hf.
    destruct (Z.geb_spec (g_saved_values_count st) MAX_SAVED_VALUES); [lia|].
    rewrite Hf. split; [|split; [done|by rewrite length_insert]].
    by apply find_index_Some in Hf.
  - intros Hroom Hf.
    destruct (Z.geb_spec (g_saved_values_count st) MAX_SAVED_VALUES); [lia|].
    rewrite Hf. split; [|done]. by apply find_index_None.
Qed.

(** ** Enable / disable round trips (PatchApplier) *)

Section Overlay.

Definition in_span (k : Z) (av : XemuPatchAddressValue) : bool :=
  bool_decide (address av <= k < address av + Z.of_nat (length (value_data av))).

(** Two pairs whose byte spans do not meet. *)
Definition apart (a b : XemuPatchAddressValue) : Prop :=
  address a + Z.of_nat (length (value_data a)) <= address b \/
  address b + Z.of_nat (length (value_data b)) <= address a.

(** The pairs of a patch: non-empty values that fit the capture buffer, on
    pairwise disjoint spans. *)
Inductive separate : list XemuPatchAddressValue -> Prop :=
| separate_nil : separate []
| separate_cons av l :
    (0 < length (value_data av) <= 16)%nat ->
    Forall (apart av) l -> separate l -> separate (av :: l).

(** Memory [r] with the values of the pairs in [l] laid over it. *)
Fixpoint overlay (r : gmap Z Z) (l : list XemuPatchAddressValue) (k : Z)
    : option Z :=
  match l with
  | [] => r !! k
  | av :: rest =>
      if in_span k av then value_data av !! Z.to_nat (k - address av)
      else overlay r rest k
  end.

Lemma apart_sym a b : apart a b -> apart b a.
Proof. unfold apart. tauto. Qed.

Lemma apart_in_span a b k : apart a b -> in_span k a = true -> in_span k b = false.
Proof.
  unfold apart, in_span. intros H Ha. apply bool_decide_eq_true in Ha.
  apply bool_decide_eq_false. lia.
Qed.

Lemma overlay_out r l k :
  Forall (fun av => in_span k av = false) l -> overlay r l k = r !! k.
Proof.
  induction 1 as [|av l Hav _ IH]; simpl; [done|]. by rewrite Hav.
Qed.

Lemma overlay_snoc r l av k :
  Forall (fun x => apart x av) l ->
  overlay r (l ++ [av]) k =
    if in_span k av then value_data av !! Z.to_nat (k - address av)
    else overlay r l k.
Proof.
  induction 1 as [|x l Hx _ IH]; simpl; [done|].
  rewrite IH. destruct (in_span k x) eqn:Kx; [|done].
  by rewrite (apart_in_span x av k Hx Kx).
Qed.

Lemma separate_cons_inv av l :
  separate (av :: l) ->
  (0 < length (value_data av) <= 16)%nat /\ Forall (apart av) l /\ separate l.
Proof. intros H. inversion H. auto. Qed.

Lemma separate_app_inv l1 l2 :
  separate (l1 ++ l2) ->
  separate l1 /\ separate l2 /\
  (forall a b, a ∈ l1 -> b ∈ l2 -> apart a b).
Proof.
  induction l1 as [|x l1 IH]; simpl.
  - intros H. split; [constructor|]. split; [done|].
    intros a b Ha. inversion Ha.
  - intros H. inversion H as [|? ? Hlen Hall Hsep]; subst.
    apply IH in Hsep as (H1 & H2 & H12).
    apply Forall_app in Hall as [Hall1 Hall2].
    split; [by constructor|]. split; [done|].
    intros a b Ha Hb. apply elem_of_cons in Ha as [->|Ha]; [|by apply H12].
    rewrite Forall_forall in Hall2. by apply Hall2.
Qed.

Lemma separate_filter (f : XemuPatchAddressValue -> Prop)
    `{!forall x, Decision (f x)} l :
  separate l -> separate (filter f l).
Proof.
  induction 1 as [|av l Hlen Hall Hsep IH]; simpl; [constructor|].
  rewrite filter_cons. destruct (decide (f av)); [|done].
  constructor; [done| |done].
  rewrite Forall_forall in *. intros x Hx.
  apply list_elem_of_filter in Hx as [_ Hx]. by apply Hall.
Qed.

End Overlay.

Section Toggles.

Variables (gi pi : Z) (pairs : list XemuPatchAddressValue).
Variables (r0 : gmap Z Z) (S0 : list SavedValueEntry) (cpu : bool).

Hypothesis Hsep : separate pairs.
Hypothesis HS0nd : NoDup (entry_key <$> S0).
Hypothesis HS0free :
  forall x, x ∈ S0 -> ~ (sv_game_index x = gi /\ sv_patch_index x = pi).
Hypothesis Hroom : Z.of_nat (length S0 + length pairs) <= MAX_SAVED_VALUES.

(** Whether a pair can be written, judged on the original memory. *)
Definition writable0 (av : XemuPatchAddressValue) : bool :=
  (address av <=? XBOX_VIRTUAL_HIGH_MEMORY_END) && cpu
  && mapped r0 (address av) (length (value_data av)).

Definition W (l : list XemuPatchAddressValue) : list XemuPatchAddressValue :=
  filter (fun av => writable0 av = true) l.

Definition original (av : XemuPatchAddressValue) : list Z :=
  default [] (read_span r0 (address av) (length (value_data av))).

Definition entry_of (av : XemuPatchAddressValue) : SavedValueEntry :=
  MkSaved gi pi (address av) (original av).

(** Guest memory is the original with the pairs of [l] written over it. *)
Definition mem_is (st : engine) (l : list XemuPatchAddressValue) : Prop :=
  forall k, ram (the_guest st) !! k = overlay r0 l k.

(** The store is the original one plus the entries of the pairs of [l]. *)
Definition store_is (st : engine) (l : list XemuPatchAddressValue) : Prop :=
  g_saved_values st ≡ₚ S0 ++ (entry_of <$> l).

Lemma W_writable l : Forall (fun av => writable0 av = true) (W l).
Proof. apply Forall_forall. intros x Hx. by apply list_elem_of_filter in Hx as [? _]. Qed.

Lemma writable0_true av :
  writable0 av = true ->
  address av <= XBOX_VIRTUAL_HIGH_MEMORY_END /\ cpu = true /\
  mapped r0 (address av) (length (value_data av)) = true.
Proof. unfold writable0. rewrite !andb_true_iff, Z.leb_le. tauto. Qed.

Lemma mem_is_mapping st l :
  mem_is st l -> Forall (fun av => writable0 av = true) l ->
  same_mapping r0 (ram (the_guest st)).
Proof.
  intros Hm Hl k. rewrite Hm. clear Hm.
  induction Hl as [|av l Hav _ IH]; simpl; [done|].
  destruct (in_span k av) eqn:K; [|done].
  apply bool_decide_eq_true in K. apply writable0_true in Hav as (_ & _ & Hmp).
  rewrite mapped_lookup in Hmp. split; intros _; [by apply Hmp|].
  apply lookup_lt_is_Some. lia.
Qed.

Lemma readable_writable0 st l av :
  mem_is st l -> Forall (fun x => writable0 x = true) l ->
  cpu_present (the_guest st) = cpu ->
  readable st av = writable0 av.
Proof.
  intros Hm Hl Hc. unfold readable, writable0. rewrite Hc.
  by rewrite (same_mapping_mapped _ _ _ _ (mem_is_mapping st l Hm Hl)).
Qed.

Lemma read_span_ext r r' a n :
  (forall k, a <= k < a + Z.of_nat n -> r !! k = r' !! k) ->
  read_span r a n = read_span r' a n.
Proof.
  revert a. induction n as [|n IH]; intros a H; simpl; [done|].
  rewrite (H a) by lia. rewrite (IH (a + 1)); [done|].
  intros k Hk. apply H. lia.
Qed.

Lemma read_original st l av :
  mem_is st l -> Forall (fun x => apart x av) l ->
  read_span (ram (the_guest st)) (address av) (length (value_data av)) =
  read_span r0 (address av) (length (value_data av)).
Proof.
  intros Hm Hl. apply read_span_ext. intros k Hk. rewrite Hm.
  apply overlay_out. eapply Forall_impl; [exact Hl|].
  intros x Hx. simpl. apply (apart_in_span av x k (apart_sym _ _ Hx)).
  by apply bool_decide_eq_true.
Qed.

Lemma entry_free l x :
  x ∈ S0 ++ (entry_of <$> l) -> entry_key x = (gi, pi, sv_address x) ->
  exists av, av ∈ l /\ x = entry_of av.
Proof.
  intros Hx Hk. apply elem_of_app in Hx as [Hx|Hx].
  - exfalso. apply (HS0free x Hx). unfold entry_key in Hk.
    injection Hk as -> ->. done.
  - apply list_elem_of_fmap in Hx as (av & -> & Hav). eauto.
Qed.

Lemma separate_addresses a b : apart a b ->
  (0 < length (value_data a))%nat -> (0 < length (value_data b))%nat ->
  address a <> address b.
Proof. unfold apart. lia. Qed.

Lemma separate_lengths l av : separate l -> av ∈ l ->
  (0 < length (value_data av) <= 16)%nat.
Proof.
  induction 1 as [|x l Hlen _ _ IH]; intros Hav; [inversion Hav|].
  apply elem_of_cons in Hav as [->|?]; auto.
Qed.

(** The keys of the original store and of the entries of [l] never clash. *)
Lemma store_keys_nodup l :
  separate l -> NoDup (entry_key <$> S0 ++ (entry_of <$> l)).
Proof.
  intros Hl. rewrite fmap_app. apply NoDup_app. split; [done|]. split.
  - intros k Hk Hk'. apply list_elem_of_fmap in Hk as (x & -> & Hx).
    apply list_elem_of_fmap in Hk' as (y & Hy & Hy').
    apply list_elem_of_fmap in Hy' as (av & -> & _).
    apply (HS0free x Hx). unfold entry_key in Hy. simpl in Hy.
    by injection Hy as -> ->.
  - induction Hl as [|av l Hlen Hall Hs IH]; simpl; [constructor|].
    apply NoDup_cons. split; [|done].
    intros Hin. apply list_elem_of_fmap in Hin as (y & Hy & Hy').
    apply list_elem_of_fmap in Hy' as (b & -> & Hb).
    rewrite Forall_forall in Hall. specialize (Hall b Hb).
    pose proof (separate_lengths l b Hs Hb).
    apply (separate_addresses av b Hall); [lia|lia|].
    unfold entry_key in Hy. simpl in Hy. congruence.
Qed.

Lemma original_length av :
  writable0 av = true -> length (original av) = length (value_data av).
Proof.
  intros Hw. apply writable0_true in Hw as (_ & _ & Hm). unfold original.
  apply read_span_mapped in Hm as [bs Hbs]. rewrite Hbs. simpl.
  by eapply read_span_length.
Qed.

Lemma original_read av :
  writable0 av = true ->
  read_span r0 (address av) (length (value_data av)) = Some (original av).
Proof.
  intros Hw. apply writable0_true in Hw as (_ & _ & Hm). unfold original.
  apply read_span_mapped in Hm as [bs Hbs]. by rewrite Hbs.
Qed.

Variable e : env.

(** The apply loop, started after the pairs of [done]. *)
Lemma apply_pairs_inv rest : forall done st acc ok st',
  pairs = done ++ rest ->
  mem_is st (W done) -> store_is st (W done) ->
  cpu_present (the_guest st) = cpu ->
  apply_pairs e st true gi pi rest acc = (ok, st') ->
  mem_is st' (W pairs) /\ store_is st' (W pairs) /\
  g_patches_db st' = g_patches_db st /\ guest_static (the_guest st) (the_guest st').
Proof.
  induction rest as [|av rest IH]; intros done st acc ok st' Hp Hm Hs Hc; simpl.
  - intros [= <- <-]. rewrite app_nil_r in Hp. subst done.
    unfold guest_static. tauto.
  - destruct (apply_pair e st true gi pi av) as [ok1 st1] eqn:Ep.
    intros Hrest.
    pose proof (apply_pair_save _ _ _ _ _ _ _ Ep)
      as (_ & Hdb & _ & _ & Hgs & Hrec & Hskip & Hok & Hram).
    assert (pairs = (done ++ [av]) ++ rest) as Hp'
      by (by rewrite <- app_assoc).
    pose proof Hsep as Hsep'. rewrite Hp' in Hsep'.
    apply separate_app_inv in Hsep' as (Hsd & _ & _).
    apply separate_app_inv in Hsd as (Hsd & Hsav & Hda).
    assert (Forall (fun x => apart x av) (W done)) as Hapart.
    { apply Forall_forall. intros x Hx.
      apply list_elem_of_filter in Hx as [_ Hx]. apply Hda; [done|by left]. }
    assert (0 < length (value_data av) <= 16)%nat as Hlen
      by (by apply separate_cons_inv in Hsav as (? & _)).
    rewrite (readable_writable0 st (W done) av Hm (W_writable done) Hc)
      in Hrec, Hskip, Hok.
    assert (cpu_present (the_guest st1) = cpu) as Hc1.
    { destruct Hgs as (-> & _). done. }
    assert (mem_is st1 (W (done ++ [av])) /\ store_is st1 (W (done ++ [av])))
      as [Hm1 Hs1].
    { unfold W. rewrite filter_app, filter_cons, filter_nil.
      destruct (decide (writable0 av = true)) as [Hw|Hw].
      - assert (ok1 = true) as ->.
        { apply Hok. split; [done|]. destruct (value_data av); [simpl in Hlen; lia|done]. }
        split.
        + intros k. rewrite Hram, store_span_lookup, overlay_snoc by done.
          fold (in_span k av). destruct (in_span k av); [done|apply Hm].
        + destruct (Hrec Hw) as (orig & Hread & Hsv).
          rewrite (read_original st (W done) av Hm Hapart) in Hread.
          rewrite (original_read av Hw) in Hread. injection Hread as <-.
          unfold store_is. rewrite Hsv.
          unfold add_saved_value, g_saved_values_count.
          pose proof (Permutation_length Hs) as Hlen_s.
          rewrite length_app, length_fmap in Hlen_s.
          assert (length (W done) <= length done)%nat as Hwd
            by apply length_filter.
          assert (length pairs = length done + S (length rest))%nat as Hpl.
          { rewrite Hp, length_app. simpl. lia. }
          destruct (Z.geb_spec (Z.of_nat (length (g_saved_values st)))
                      MAX_SAVED_VALUES) as [Hfull|_]; [lia|].
          unfold find_saved_value.
          destruct (find_index (g_saved_values st) gi pi (address av))
            as [i|] eqn:Hf.
          * exfalso. apply find_index_Some in Hf as (x & Hi & Hk).
            assert (x ∈ S0 ++ (entry_of <$> W done)) as Hx.
            { rewrite <- Hs. by eapply list_elem_of_lookup_2. }
            destruct (entry_free (W done) x Hx) as (b & Hb & ->).
            { rewrite Hk. unfold entry_key in Hk. by injection Hk as _ _ ->. }
            unfold entry_key in Hk. simpl in Hk. injection Hk as Hk.
            rewrite Forall_forall in Hapart. specialize (Hapart b Hb).
            apply list_elem_of_filter in Hb as [_ Hb].
            pose proof (separate_lengths done b Hsd Hb).
            by apply (separate_addresses b av Hapart); [lia|lia|].
          * simpl. rewrite Hs, fmap_app. simpl. by rewrite app_assoc.
      - rewrite app_nil_r. apply not_true_is_false in Hw.
        assert (ok1 = false) as ->.
        { destruct ok1; [|done]. destruct Hok as [Hok _].
          destruct (Hok eq_refl). congruence. }
        split; [intros k; rewrite Hram; apply Hm|].
        unfold store_is. by rewrite (Hskip Hw). }
    destruct (IH (done ++ [av]) st1 _ ok st' Hp' Hm1 Hs1 Hc1 Hrest)
      as (? & ? & Hdb' & Hgs').
    split; [done|]. split; [done|]. split; [congruence|].
    destruct Hgs as (?&?&?), Hgs' as (?&?&?). repeat split; congruence.
Qed.

Lemma same_key_same_entry (l : list SavedValueEntry) x y :
  NoDup (entry_key <$> l) -> x ∈ l -> y ∈ l -> entry_key x = entry_key y -> x = y.
Proof.
  induction l as [|z l IH]; simpl; intros Hnd Hx Hy Hk; [inversion Hx|].
  apply NoDup_cons in Hnd as [Hz Hnd].
  apply elem_of_cons in Hx as [->|Hx]; apply elem_of_cons in Hy as [->|Hy]; auto.
  - exfalso. apply Hz. rewrite Hk. by apply list_elem_of_fmap_2.
  - exfalso. apply Hz. rewrite <- Hk. by apply list_elem_of_fmap_2.
Qed.

Lemma restore_pair_found st av k ent ok st' :
  find_saved_value st gi pi (address av) = Some k ->
  g_saved_values st !! k = Some ent ->
  restore_pair e st gi pi av = (ok, st') ->
  g_patches_db st' = g_patches_db st /\
  guest_static (the_guest st) (the_guest st') /\
  g_saved_values st' = swap_remove (g_saved_values st) k /\
  (ok = true /\
     ram (the_guest st') =
       store_span (ram (the_guest st)) (address av) (original_data ent)
   \/ ok = false /\ ram (the_guest st') = ram (the_guest st) /\
      (original_data ent = [] \/ XBOX_VIRTUAL_HIGH_MEMORY_END < address av \/
       cpu_present (the_guest st) = false \/
       mapped (ram (the_guest st)) (address av) (length (original_data ent))
         = false)).
Proof.
  intros Hf Hk. unfold restore_pair. rewrite Hf, Hk.
  destruct (apply_single_patch_bytes e st (address av) (original_data ent))
    as [rs st1] eqn:Ea.
  apply apply_single_patch_bytes_spec in Ea as [F1 Hres].
  set (st2 := if rs then _ else st1).
  assert (quiet st1 st2) as [F2 R2].
  { subst st2. destruct rs; [|apply quiet_refl].
    destruct (read_direct_virtual_memory st1 (address av) (data_length ent))
      as [[vok vbs] sv] eqn:Ev.
    by apply read_direct_quiet in Ev. }
  pose proof (frame_trans _ _ _ F1 F2) as (_ & _ & Hd & Hv & _ & _ & Hg).
  intros [= <- <-]. simpl. split; [done|]. split; [done|].
  split; [by rewrite Hv|]. rewrite R2.
  destruct Hres as [(-> & _ & _ & _ & _ & ->)|(-> & -> & Hwhy)]; auto.
Qed.

(** The restore loop, started after the pairs of [done] with the later
    pairs still applied. *)
Lemma restore_pairs_inv rest : forall done st acc ok st',
  pairs = done ++ rest ->
  mem_is st (W rest) -> store_is st (W rest) ->
  cpu_present (the_guest st) = cpu ->
  restore_pairs e st gi pi rest acc = (ok, st') ->
  mem_is st' [] /\ store_is st' [] /\
  g_patches_db st' = g_patches_db st /\ guest_static (the_guest st) (the_guest st').
Proof.
  induction rest as [|av rest IH]; intros done st acc ok st' Hp Hm Hs Hc; simpl.
  - intros [= <- <-]. unfold guest_static. tauto.
  - destruct (restore_pair e st gi pi av) as [ok1 st1] eqn:Er. intros Hrest.
    assert (pairs = (done ++ [av]) ++ rest) as Hp'
      by (by rewrite <- app_assoc).
    pose proof Hsep as Hsep'. rewrite Hp in Hsep'.
    apply separate_app_inv in Hsep' as (_ & Hsr & _).
    apply separate_cons_inv in Hsr as (Hlen & Hall & Hsrest).
    assert (Forall (apart av) (W rest)) as Hapart.
    { apply Forall_forall. intros x Hx.
      apply list_elem_of_filter in Hx as [_ Hx].
      rewrite Forall_forall in Hall. by apply Hall. }
    assert (mem_is st1 (W rest) /\ store_is st1 (W rest) /\
            g_patches_db st1 = g_patches_db st /\
            guest_static (the_guest st) (the_guest st1))
      as (Hm1 & Hs1 & Hd1 & Hg1).
    { revert Hm Hs. unfold W at 1 2. rewrite filter_cons.
      destruct (decide (writable0 av = true)) as [Hw|Hw]; fold (W rest);
        intros Hm Hs.
      - pose proof (store_keys_nodup (av :: W rest)) as Hnd.
        rewrite <- Hs in Hnd.
        assert (separate (av :: W rest)) as Hsw.
        { constructor; [done|done|by apply separate_filter]. }
        specialize (Hnd Hsw).
        destruct (find_saved_value st gi pi (address av)) as [k|] eqn:Hf.
        2:{ exfalso. apply find_index_None in Hf. apply Hf.
            apply list_elem_of_fmap. exists (entry_of av). split; [done|].
            rewrite Hs. apply elem_of_app. right. simpl. by left. }
        pose proof Hf as Hf'.
        apply find_index_Some in Hf' as (x & Hk & Hkey).
        assert (x = entry_of av) as ->.
        { apply (same_key_same_entry (g_saved_values st)); [done| | |done].
          - by eapply list_elem_of_lookup_2.
          - rewrite Hs. apply elem_of_app. right. simpl. by left. }
        destruct (restore_pair_found st av k (entry_of av) ok1 st1 Hf Hk Er)
          as (Hd & Hg & Hv & Hres).
        simpl in Hres. rewrite (original_length av Hw) in Hres.
        pose proof (writable0_true av Hw) as (Hle & Hcpu & Hmp).
        pose proof (mem_is_mapping st (av :: W rest) Hm) as Hsm.
        assert (Forall (fun x => writable0 x = true) (av :: W rest)) as HWall
          by (constructor; [done|apply W_writable]).
        specialize (Hsm HWall).
        destruct Hres as [(-> & Hram)|(_ & _ & Hwhy)].
        2:{ exfalso. rewrite (same_mapping_mapped _ _ _ _ Hsm) in Hwhy.
            destruct Hwhy as [Ho|[?|[?|?]]]; [|lia|congruence|congruence].
            pose proof (original_length av Hw) as Hol. rewrite Ho in Hol.
            simpl in Hol. lia. }
        split; [|split; [|done]].
        + intros k'. rewrite Hram, store_span_lookup.
          rewrite (original_length av Hw). fold (in_span k' av).
          destruct (in_span k' av) eqn:K.
          * rewrite overlay_out.
            2:{ eapply Forall_impl; [exact Hapart|]. intros y Hy. simpl.
                by apply (apart_in_span av y k' Hy). }
            apply bool_decide_eq_true in K.
            rewrite <- (read_span_lookup r0 (address av) _ _ (original_read av Hw)
                          (Z.to_nat (k' - address av))) by lia.
            f_equal. lia.
          * specialize (Hm k'). simpl in Hm. by rewrite K in Hm.
        + unfold store_is. rewrite Hv.
          pose proof (swap_remove_perm _ _ _ Hk) as Hperm.
          rewrite Hs in Hperm at 1. simpl in Hperm.
          rewrite <- Permutation_middle in Hperm.
          by apply Permutation_cons_inv in Hperm.
      - assert (find_saved_value st gi pi (address av) = None) as Hf.
        { apply find_index_None. intros Hin.
          apply list_elem_of_fmap in Hin as (x & Hkx & Hx).
          rewrite Hs in Hx. destruct (entry_free (W rest) x Hx) as (b & Hb & ->).
          { unfold entry_key in *. by injection Hkx as -> -> _. }
          unfold entry_key in Hkx. simpl in Hkx. injection Hkx as Hkx.
          rewrite Forall_forall in Hapart. specialize (Hapart b Hb).
          apply list_elem_of_filter in Hb as [_ Hb].
          pose proof (separate_lengths rest b Hsrest Hb).
          by apply (separate_addresses av b Hapart); [lia|lia|]. }
        unfold restore_pair in Er. rewrite Hf in Er. injection Er as <- <-.
        unfold guest_static. tauto. }
    assert (cpu_present (the_guest st1) = cpu) as Hc1.
    { destruct Hg1 as (-> & _). done. }
    destruct (IH (done ++ [av]) st1 _ ok st' Hp' Hm1 Hs1 Hc1 Hrest)
      as (? & ? & Hdb' & Hgs').
    split; [done|]. split; [done|]. split; [congruence|].
    destruct Hg1 as (?&?&?), Hgs' as (?&?&?). repeat split; congruence.
Qed.

(** With no entry of the patch in the store the restore loop does nothing. *)
Lemma restore_pairs_clean l : forall st acc,
  store_is st [] -> restore_pairs e st gi pi l acc = (acc, st).
Proof.
  induction l as [|av l IH]; intros st acc Hs; simpl; [done|].
  assert (find_saved_value st gi pi (address av) = None) as Hf.
  { apply find_index_None. intros Hin.
    apply list_elem_of_fmap in Hin as (x & Hkx & Hx).
    rewrite Hs in Hx. destruct (entry_free [] x Hx) as (b & Hb & _).
    { unfold entry_key in *. by injection Hkx as -> -> _. }
    inversion Hb. }
  unfold restore_pair. rewrite Hf. by rewrite IH.
Qed.

End Toggles.

Section ToggleRuns.

Variables (gi pi : Z) (pairs : list XemuPatchAddressValue).
Hypothesis Hgi : 0 <= gi.
Hypothesis Hpi : 0 <= pi.

(** The database holds, at ([gi], [pi]), a patch with [save_replaced_values]
    whose pairs are [pairs] and whose enabled flag is [en]. *)
Definition patch_at (st : engine) (en : bool) : Prop :=
  exists game patch,
    at_index (game_list (g_patches_db st)) gi = Some game /\
    at_index (patches game) pi = Some patch /\
    address_values patch = pairs /\
    save_replaced_values patch = true /\
    enabled patch = en.

(** Steps that touch neither the games, nor the guest, nor the store. *)
Definition bookkeeping (st st' : engine) : Prop :=
  game_list (g_patches_db st') = game_list (g_patches_db st) /\
  the_guest st' = the_guest st /\
  g_saved_values st' = g_saved_values st.

Lemma bookkeeping_refl st : bookkeeping st st.
Proof. unfold bookkeeping. tauto. Qed.

Lemma bookkeeping_trans a b c :
  bookkeeping a b -> bookkeeping b c -> bookkeeping a c.
Proof. unfold bookkeeping. intros (?&?&?) (?&?&?). repeat split; congruence. Qed.

Lemma save_database_bookkeeping e st ok st' :
  xemu_patches_save_database e st = (ok, st') -> bookkeeping st st'.
Proof.
  unfold xemu_patches_save_database, bookkeeping.
  destruct (negb (B st g_patches_loaded)); [by intros [= <- <-]|].
  destruct (B st g_save_in_progress); [by intros [= <- <-]|].
  destruct (file_path (g_patches_db (setB g_save_in_progress true st))) eqn:Ep;
    simpl in *.
  - destruct (games (g_patches_db st)) eqn:Eg; [|by intros [= <- <-]].
    destruct (negb (fopen_w_ok e)); [by intros [= <- <-]|].
    destruct (negb (fclose_ok e)); intros [= <- <-]; simpl;
      unfold game_list; simpl; by rewrite ?Eg.
  - destruct (games (g_patches_db st)) eqn:Eg; [|intros [= <- <-]; simpl;
      unfold game_list; simpl; by rewrite ?Eg].
    destruct (negb (fopen_w_ok e)); [intros [= <- <-]; simpl;
      unfold game_list; simpl; by rewrite ?Eg|].
    destruct (negb (fclose_ok e)); intros [= <- <-]; simpl;
      unfold game_list; simpl; by rewrite ?Eg.
Qed.

Lemma notification_bookkeeping st t : bookkeeping st (xemu_queue_notification t st).
Proof. unfold bookkeeping. simpl. tauto. Qed.

Lemma error_bookkeeping st t : bookkeeping st (xemu_queue_error_message t st).
Proof. unfold bookkeeping. simpl. tauto. Qed.

Lemma mark_dirty_bookkeeping st d : bookkeeping st (mark_dirty d st).
Proof. unfold bookkeeping. simpl. tauto. Qed.

(** The tail of [xemu_patches_set_patch_enabled]: mark dirty, save, notify. *)
Lemma finish_bookkeeping e st t :
  let '(saved, st3) := xemu_patches_save_database e (mark_dirty true st) in
  bookkeeping st (if saved then xemu_queue_notification t st3 else st3).
Proof.
  destruct (xemu_patches_save_database e (mark_dirty true st)) as [saved st3] eqn:Es.
  apply save_database_bookkeeping in Es.
  eapply bookkeeping_trans; [apply mark_dirty_bookkeeping|].
  eapply bookkeeping_trans; [exact Es|].
  destruct saved; [apply notification_bookkeeping|apply bookkeeping_refl].
Qed.

Lemma patch_at_bookkeeping st st' en :
  bookkeeping st st' -> patch_at st en -> patch_at st' en.
Proof. intros (Hg & _ & _). unfold patch_at. by rewrite Hg. Qed.

Variables (r0 : gmap Z Z) (S0 : list SavedValueEntry) (cpu sm ph : bool).

Hypothesis Hsep : separate pairs.
Hypothesis HS0nd : NoDup (entry_key <$> S0).
Hypothesis HS0free :
  forall x, x ∈ S0 -> ~ (sv_game_index x = gi /\ sv_patch_index x = pi).
Hypothesis Hroom : Z.of_nat (length S0 + length pairs) <= MAX_SAVED_VALUES.

Local Abbreviation memory := (mem_is r0).
Local Abbreviation store := (store_is gi pi r0 S0).
Local Abbreviation written := (W r0 cpu pairs).

(** The state after any number of toggles: the patch is there with flag
    [en]; when it is enabled on a running guest its writable pairs are
    applied and their originals stored, otherwise memory and store are the
    original ones. *)
Definition toggled (st : engine) (en : bool) : Prop :=
  patch_at st en /\
  cpu_present (the_guest st) = cpu /\
  has_system_memory (the_guest st) = sm /\
  phys_readable (the_guest st) = ph /\
  if en && (sm && ph)
  then memory st written /\ store st written
  else memory st [] /\ store st [].

Lemma toggled_bookkeeping st st' en :
  bookkeeping st st' -> toggled st en -> toggled st' en.
Proof.
  intros Hb (Hp & Hc & Hs & Hph & Hst).
  pose proof Hb as (_ & Hg & Hv).
  split; [by eapply patch_at_bookkeeping|].
  rewrite Hg. repeat split; try done.
  destruct (en && (sm && ph)); unfold mem_is, store_is in *;
    by rewrite Hg, Hv.
Qed.

Lemma in_range_lookup {A} (l : list A) (i : Z) (x : A) :
  0 <= i -> at_index l i = Some x -> in_range i (Z.of_nat (length l)) = true.
Proof.
  intros Hi Hl. apply lookup_lt_Some in Hl. unfold in_range.
  destruct (Z.ltb_spec i 0); [lia|].
  destruct (Z.geb_spec i (Z.of_nat (length l))); [lia|done].
Qed.

Lemma patch_at_replace st game patch patch' :
  at_index (game_list (g_patches_db st)) gi = Some game ->
  at_index (patches game) pi = Some patch ->
  address_values patch' = pairs -> save_replaced_values patch' = true ->
  patch_at (set_db (replace_patch (g_patches_db st) gi pi game patch') st)
           (enabled patch').
Proof.
  intros Hg Hp Hav Hsv.
  exists (set_patches game (<[Z.to_nat pi := patch']> (patches game))), patch'.
  unfold at_index, replace_patch, game_list in *. simpl.
  split; [apply list_lookup_insert_eq; by eapply lookup_lt_Some|].
  split; [apply list_lookup_insert_eq; by eapply lookup_lt_Some|].
  done.
Qed.

Lemma toggled_same st st1 en :
  toggled st en -> patch_at st1 en ->
  the_guest st1 = the_guest st -> g_saved_values st1 = g_saved_values st ->
  toggled st1 en.
Proof.
  intros (_ & Hc & Hs & Hph & Hst) Hp Hg Hv. split; [done|].
  rewrite Hg. split; [done|]. split; [done|]. split; [done|].
  unfold mem_is, store_is in *. rewrite Hg, Hv. exact Hst.
Qed.

Lemma toggle_step e st en enable :
  toggled st en ->
  toggled (snd (xemu_patches_set_patch_enabled e st gi pi enable)) enable.
Proof.
  intros Htog. pose proof Htog as (Hp & Hc & Hs & Hph & Hst).
  destruct Hp as (game & patch & Hg & Hpt & Hav & Hsv & Hen).
  unfold xemu_patches_set_patch_enabled.
  unfold game_count, patch_count.
  rewrite (in_range_lookup _ gi game Hgi Hg), Hg.
  rewrite (in_range_lookup _ pi patch Hpi Hpt), Hpt.
  cbv zeta. simpl negb. cbv iota.
  set (patch' := set_enabled patch enable).
  set (st1 := set_db (replace_patch (g_patches_db st) gi pi game patch') st).
  assert (patch_at st1 enable) as Hp1.
  { subst st1. by apply (patch_at_replace st game patch patch' Hg Hpt). }
  assert (the_guest st1 = the_guest st /\ g_saved_values st1 = g_saved_values st)
    as [Hg1 Hv1] by done.
  assert (forall l, memory st l -> memory st1 l) as Hmem1.
  { intros l Hm k. unfold st1. simpl. apply Hm. }
  assert (forall l, store st l -> store st1 l) as Hsto1.
  { intros l Hm. unfold store_is. by rewrite Hv1. }
  assert (is_game_currently_running st1 = sm && ph) as Hrun.
  { unfold is_game_currently_running, safe_memory_read_probe.
    rewrite Hg1, Hs, Hph. by destruct sm, ph. }
  assert (forall s t, toggled s enable ->
            toggled
              (let '(saved, st3) := xemu_patches_save_database e (mark_dirty true s)
               in (true, if saved then xemu_queue_notification t st3 else st3)).2
              enable) as Hfinish.
  { intros s t Ht. pose proof (finish_bookkeeping e s t) as Hb.
    destruct (xemu_patches_save_database e (mark_dirty true s)) as [saved st3].
    simpl. by eapply toggled_bookkeeping. }
  rewrite Hen.
  destruct enable, en; simpl andb; cbv iota.
  - (* enable while enabled *)
    apply Hfinish. by apply (toggled_same st).
  - (* enable *)
    rewrite Hrun. simpl in Hst. destruct Hst as [Hm Hsto].
    destruct (sm && ph) eqn:Erun; simpl negb; cbv iota.
    + assert (address_values patch' = pairs) as Hav' by done.
      assert (toggled
                (xemu_patches_apply_patch_with_save_restore e st1 patch' gi pi).2
                true) as Happlied.
      { unfold xemu_patches_apply_patch_with_save_restore.
        pose proof Erun as Erun'. apply andb_true_iff in Erun' as [Esm Eph].
        rewrite Hg1, Hs, Esm. simpl negb. cbv iota.
        assert (save_replaced_values patch' = true) as -> by done.
        rewrite Hav'.
        destruct (apply_pairs e st1 true gi pi pairs true) as [ok st2] eqn:Ea.
        apply (apply_pairs_inv gi pi pairs r0 S0 cpu Hsep HS0free Hroom e
                 pairs [] st1 true ok st2) in Ea;
          [|done|by apply Hmem1|by apply Hsto1|by rewrite Hg1].
        destruct Ea as (Hm2 & Hs2 & Hd2 & Hgs2). simpl.
        split; [unfold patch_at; by rewrite Hd2|].
        destruct Hgs2 as (Ha & Hb & Hc').
        split; [by rewrite Ha, Hg1|]. split; [by rewrite Hb, Hg1|].
        split; [by rewrite Hc', Hg1|].
        simpl. rewrite Erun. by split. }
      destruct (address_values patch') as [|av0 rest0] eqn:Epairs.
      * apply Hfinish. split; [done|]. rewrite Hg1.
        split; [done|]. split; [done|]. split; [done|].
        simpl. rewrite Erun.
        assert (written = []) as -> by (by rewrite <- Hav').
        split; [by apply Hmem1|by apply Hsto1].
      * destruct (xemu_patches_apply_patch_with_save_restore e st1 patch' gi pi)
          as [apply_result st2]. simpl in Happlied.
        apply Hfinish.
        destruct apply_result;
          [eapply toggled_bookkeeping; [apply notification_bookkeeping|done]
          |eapply toggled_bookkeeping; [apply error_bookkeeping|done]].
    + simpl. eapply toggled_bookkeeping; [apply notification_bookkeeping|].
      split; [done|]. rewrite Hg1.
      split; [done|]. split; [done|]. split; [done|].
      simpl. rewrite Erun. split; [by apply Hmem1|by apply Hsto1].
  - (* disable *)
    assert (toggled (xemu_patches_remove_patch_with_restore e st1 gi pi).2 false)
      as Hrestored.
    { destruct Hp1 as (game1 & patch1 & Hga & Hpa & Hava & Hsva & Hena).
      unfold xemu_patches_remove_patch_with_restore.
      unfold game_count, patch_count.
      rewrite (in_range_lookup _ gi game1 Hgi Hga), Hga.
      rewrite (in_range_lookup _ pi patch1 Hpi Hpa), Hpa.
      simpl negb. cbv iota. rewrite Hsva, Hava.
      simpl in Hst.
      destruct (sm && ph) eqn:Erun.
      - destruct Hst as [Hm Hsto].
        destruct (restore_pairs e st1 gi pi pairs true) as [ok st2] eqn:Ea.
        apply (restore_pairs_inv gi pi pairs r0 S0 cpu Hsep HS0nd HS0free Hroom e
                 pairs [] st1 true ok st2) in Ea;
          [|done|by apply Hmem1|by apply Hsto1|by rewrite Hg1].
        destruct Ea as (Hm2 & Hs2 & Hd2 & Hgs2). simpl.
        split; [exists game1, patch1; by rewrite Hd2|].
        destruct Hgs2 as (Ha & Hb & Hc').
        split; [by rewrite Ha, Hg1|]. split; [by rewrite Hb, Hg1|].
        split; [by rewrite Hc', Hg1|]. by split.
      - destruct Hst as [Hm Hsto].
        rewrite (restore_pairs_clean gi pi r0 S0 HS0free e pairs st1 true)
          by (by apply Hsto1).
        simpl. split; [by exists game1, patch1|]. rewrite Hg1.
        split; [done|]. split; [done|]. split; [done|].
        split; [by apply Hmem1|by apply Hsto1]. }
    destruct (xemu_patches_remove_patch_with_restore e st1 gi pi)
      as [remove_result st2]. simpl in Hrestored.
    apply Hfinish.
    destruct remove_result;
      [eapply toggled_bookkeeping; [apply notification_bookkeeping|done]
      |eapply toggled_bookkeeping; [apply error_bookkeeping|done]].
  - (* disable while disabled *)
    apply Hfinish. by apply (toggled_same st).
Qed.

(** A run of toggles, each with the environment it happens in. *)
Fixpoint run_toggles (toggles : list (env * bool)) (st : engine) : engine :=
  match toggles with
  | [] => st
  | (e, enable) :: rest =>
      run_toggles rest (snd (xemu_patches_set_patch_enabled e st gi pi enable))
  end.

Fixpoint final_enabled (toggles : list (env * bool)) (en : bool) : bool :=
  match toggles with
  | [] => en
  | (_, enable) :: rest => final_enabled rest enable
  end.

Lemma run_toggles_toggled toggles : forall st en,
  toggled st en -> toggled (run_toggles toggles st) (final_enabled toggles en).
Proof.
  induction toggles as [|[e enable] rest IH]; intros st en Ht; simpl; [done|].
  apply IH. by eapply toggle_step.
Qed.

End ToggleRuns.

(** C2 (as amended).  Take a patch with [save_replaced_values] that is
    disabled, whose address:value pairs have non-empty values of at most 16
    bytes over pairwise disjoint spans, in a state whose saved-values store
    has no entry of that patch and has room for one entry per pair.  After
    any sequence of [xemu_patches_set_patch_enabled] toggles of that patch
    that ends with the patch disabled (nothing else touching the guest in
    between), guest memory is what it was before the first toggle and the
    store holds its original entries again: every entry the patch recorded
    has been consumed by the restore. *)
Theorem C2_apply_restore_idempotent
    (gi pi : Z) (st0 : engine) (game : XemuGamePatches)
    (patch : XemuMemoryPatch) (toggles : list (env * bool)) :
  0 <= gi -> 0 <= pi ->
  at_index (game_list (g_patches_db st0)) gi = Some game ->
  at_index (patches game) pi = Some patch ->
  save_replaced_values patch = true ->
  enabled patch = false ->
  separate (address_values patch) ->
  NoDup (entry_key <$> g_saved_values st0) ->
  (forall x, x ∈ g_saved_values st0 ->
             ~ (sv_game_index x = gi /\ sv_patch_index x = pi)) ->
  Z.of_nat (length (g_saved_values st0) + length (address_values patch))
    <= MAX_SAVED_VALUES ->
  final_enabled toggles false = false ->
  let st := run_toggles gi pi toggles st0 in
  ram (the_guest st) = ram (the_guest st0) /\
  g_saved_values st ≡ₚ g_saved_values st0 /\
  (forall x, x ∈ g_saved_values st ->
             ~ (sv_game_index x = gi /\ sv_patch_index x = pi)).
Proof.
  intros Hgi Hpi Hg Hp Hsv Hen Hsep Hnd Hfree Hroom Hlast st.
  assert (toggled gi pi (address_values patch) (ram (the_guest st0))
            (g_saved_values st0) (cpu_present (the_guest st0))
            (has_system_memory (the_guest st0)) (phys_readable (the_guest st0))
            st0 false) as Hstart.
  { split; [by exists game, patch|].
    split; [done|]. split; [done|]. split; [done|]. simpl.
    split; [done|]. unfold store_is. simpl. by rewrite app_nil_r. }
  pose proof (run_toggles_toggled gi pi (address_values patch) Hgi Hpi
                (ram (the_guest st0)) (g_saved_values st0)
                (cpu_present (the_guest st0))
                (has_system_memory (the_guest st0))
                (phys_readable (the_guest st0))
                Hsep Hnd Hfree Hroom toggles st0 false Hstart) as Hend.
  rewrite Hlast in Hend. destruct Hend as (_ & _ & _ & _ & Hmem & Hsto).
  simpl in Hmem, Hsto. fold st in Hmem, Hsto.
  unfold store_is in Hsto. simpl in Hsto. rewrite app_nil_r in Hsto.
  split; [apply map_eq; intros k; apply Hmem|].
  split; [done|].
  intros x Hx. apply Hfree. by rewrite <- Hsto.
Qed.

Lemma C2_apply_restore_idempotent_witness :
  let st0 := toggle_start (set_enabled sample_patch false) mapped_guest in
  let st := run_toggles 0 0 on_off st0 in
  ram (the_guest st) = ram (the_guest st0) /\
  g_saved_values st ≡ₚ g_saved_values st0 /\
  (forall x, x ∈ g_saved_values st ->
             ~ (sv_game_index x = 0 /\ sv_patch_index x = 0)).
Proof.
  apply (C2_apply_restore_idempotent 0 0
           (toggle_start (set_enabled sample_patch false) mapped_guest)
           (MkGame (Some "Halo") (Some "NTSC") (Some "4D530004")
                   (Some "1.0.0.0") None None None
                   [set_enabled sample_patch false] true)
           (set_enabled sample_patch false) on_off);
    try reflexivity; try (simpl; lia).
  - apply separate_cons; [simpl; lia|constructor|constructor].
  - constructor.
  - intros x Hx. inversion Hx.
  - vm_compute. discriminate.
Defined.

(** C2 fails as stated: the second pair of [twice_patch] overwrites the entry
    the first pair recorded, so after enabling and disabling the byte at
    0x1000, which held 0x11, holds 0xAA. *)
Lemma C2_counterexample :
  let st0 := toggle_start twice_patch byte_guest in
  let st := run_toggles 0 0 on_off st0 in
  save_replaced_values twice_patch = true /\
  ram (the_guest st0) !! 0x1000 = Some 0x11 /\
  ram (the_guest st) !! 0x1000 = Some 0xAA /\
  g_saved_values st = [].
Proof. vm_compute. repeat split; reflexivity. Qed.

(** ** Duplicate games *)

Section Duplicates.

Definition same_pair (t v : string) (game : XemuGamePatches) : Prop :=
  title_id game = Some t /\ version game = Some v.

Lemma same_pair_test t v game :
  bool_decide (title_id game = Some t) && bool_decide (version game = Some v)
    = true <-> same_pair t v game.
Proof.
  unfold same_pair. rewrite andb_true_iff, !bool_decide_eq_true. tauto.
Qed.

(** The loop returns the first matching index, counted from [i], or -1. *)
Lemma find_duplicate_from_spec t v gs : forall i, 0 <= i ->
  (find_duplicate_from gs i t v = -1 /\ forall game, game ∈ gs -> ~ same_pair t v game)
  \/ exists (k : nat) game,
       find_duplicate_from gs i t v = i + Z.of_nat k /\
       gs !! k = Some game /\ same_pair t v game /\
       forall (j : nat) g', (j < k)%nat -> gs !! j = Some g' -> ~ same_pair t v g'.
Proof.
  induction gs as [|game gs IH]; intros i Hi; simpl.
  - left. split; [done|]. intros game Hg. inversion Hg.
  - destruct (bool_decide (title_id game = Some t)
              && bool_decide (version game = Some v)) eqn:Em.
    + right. exists 0%nat, game. apply same_pair_test in Em.
      split; [lia|]. split; [done|]. split; [done|]. intros j g' Hj. lia.
    + assert (~ same_pair t v game) as Hno.
      { intros Hs. apply same_pair_test in Hs. congruence. }
      destruct (IH (i + 1)) as [[Hr Hall]|(k & dup & Hr & Hk & Hs & Hfirst)];
        [lia| |].
      * left. split; [done|]. intros g' Hg'.
        apply elem_of_cons in Hg' as [->|Hg']; [done|by apply Hall].
      * right. exists (S k), dup. split; [lia|]. split; [done|].
        split; [done|]. intros [|j] g' Hj Hg'; simpl in Hg'.
        -- by injection Hg' as <-.
        -- apply (Hfirst j); [lia|done].
Qed.

Lemma on_ui_database_changed_bookkeeping e st :
  bookkeeping st (xemu_patches_on_ui_database_changed e st).
Proof.
  unfold xemu_patches_on_ui_database_changed.
  destruct (negb _); [|apply mark_dirty_bookkeeping].
  destruct (xemu_patches_save_database e (mark_dirty true st)) as [saved st2] eqn:Es.
  apply save_database_bookkeeping in Es.
  eapply bookkeeping_trans; [apply mark_dirty_bookkeeping|].
  eapply bookkeeping_trans; [exact Es|].
  destruct saved; [apply bookkeeping_refl|apply mark_dirty_bookkeeping].
Qed.

Lemma add_game_games e st title reg tid ver alt tdate disc :
  fst (xemu_patches_add_game e st title reg tid ver alt tdate disc) = true /\
  game_list (g_patches_db
               (snd (xemu_patches_add_game e st title reg tid ver alt tdate disc)))
  = game_list (g_patches_db st) ++ [MkGame title reg tid ver alt tdate disc [] true].
Proof.
  unfold xemu_patches_add_game.
  match goal with
  | |- context [xemu_patches_save_database e ?s] =>
      destruct (xemu_patches_save_database e s) as [saved st2] eqn:Es
  end.
  apply save_database_bookkeeping in Es as (Hg & _). simpl. by rewrite Hg.
Qed.

Lemma strlen_positive s : s <> "" -> (0 <? strlen s) = true.
Proof.
  intros Hs. apply Z.ltb_lt. unfold strlen. destruct s; [done|simpl; lia].
Qed.

End Duplicates.

(** The game the dialog's fields describe. *)
Definition game_of_fields (f : add_game_fields) : XemuGamePatches :=
  MkGame (Some (m_add_game_title f)) (Some (m_add_game_region f))
         (Some (m_add_game_title_id f)) (Some (m_add_game_version f))
         (Some (m_add_game_alternate_title_id f))
         (Some (m_add_game_time_date f)) (Some (m_add_game_disc_number f))
         [] true.

(** C6 (as amended).  Once the database is loaded ([g_patches_loaded]),
    [xemu_patches_find_duplicate_game] returns the index of the first game
    whose title_id and version both equal the arguments, and -1 when no game
    has both.  The Add Game dialog, given a non-empty title and title_id,
    rejects a game whose (title_id, version) pair an existing game has: it
    returns without changing the database and reports that game in the error
    message; when no game has both (for instance the same title_id with
    another version) the game is appended to the database. *)
Theorem C6_duplicate_rejection
    (e : env) (st : engine) (f : add_game_fields) :
  B st g_patches_loaded = true ->
  let gs := game_list (g_patches_db st) in
  let t := m_add_game_title_id f in
  let v := m_add_game_version f in
  let r := xemu_patches_find_duplicate_game st (Some t) (Some v) in
  (0 <= r <-> exists game, game ∈ gs /\ same_pair t v game) /\
  (0 <= r \/ r = -1) /\
  (0 <= r ->
   exists dup, at_index gs r = Some dup /\ same_pair t v dup /\
     forall j g', 0 <= j < r -> at_index gs j = Some g' -> ~ same_pair t v g') /\
  (m_add_game_title f <> "" -> t <> "" ->
   (forall dup, at_index gs r = Some dup -> 0 <= r ->
      add_game_pressed e st f
        = (false, xemu_queue_error_message (duplicate_message dup) st)) /\
   ((forall game, game ∈ gs -> ~ same_pair t v game) ->
      fst (add_game_pressed e st f) = true /\
      game_list (g_patches_db (snd (add_game_pressed e st f)))
        = gs ++ [game_of_fields f])).
Proof.
  intros Hloaded gs t v r.
  assert (r = find_duplicate_from gs 0 t v) as Hr.
  { unfold r, xemu_patches_find_duplicate_game. by rewrite Hloaded. }
  destruct (find_duplicate_from_spec t v gs 0 ltac:(lia))
    as [[Hm Hall]|(k & dup & Hk & Hdup & Hs & Hfirst)].
  - (* no duplicate *)
    rewrite Hm in Hr.
    split; [split; [lia|intros (game & Hg & Hsp); by destruct (Hall game)]|].
    split; [by right|]. split; [lia|].
    intros Htitle Htid. split; [intros; lia|]. intros _.
    unfold add_game_pressed. rewrite !strlen_positive by done.
    fold t v r. rewrite Hr. simpl andb. cbv iota.
    change (-1 >=? 0) with false. cbv iota.
    pose proof (add_game_games e st (Some (m_add_game_title f))
                  (Some (m_add_game_region f)) (Some t) (Some v)
                  (Some (m_add_game_alternate_title_id f))
                  (Some (m_add_game_time_date f))
                  (Some (m_add_game_disc_number f))) as [Hadd Hgames].
    destruct (xemu_patches_add_game e st _ _ _ _ _ _ _) as [added st1].
    simpl in Hadd, Hgames. subst added. simpl. split; [done|].
    destruct (on_ui_database_changed_bookkeeping e st1) as (Hb & _).
    by rewrite Hb, Hgames.
  - (* a duplicate at slot k *)
    rewrite Hk, Z.add_0_l in Hr.
    split; [split; [intros _; exists dup; split; [by eapply list_elem_of_lookup_2|done]
                   |lia]|].
    split; [left; lia|].
    assert (at_index gs r = Some dup) as Hat.
    { unfold at_index. rewrite Hr. by rewrite Nat2Z.id. }
    split.
    { intros _. exists dup. split; [done|]. split; [done|].
      intros j g' Hj Hg'. unfold at_index in Hg'.
      apply (Hfirst (Z.to_nat j)); [lia|done]. }
    intros Htitle Htid. split.
    + intros dup' Hat' _. rewrite Hat in Hat'. injection Hat' as <-.
      unfold add_game_pressed. rewrite !strlen_positive by done.
      fold t v r. simpl andb. cbv iota.
      destruct (Z.geb_spec r 0); [|lia]. fold gs. by rewrite Hat.
    + intros Hall. by destruct (Hall dup); [eapply list_elem_of_lookup_2|].
Qed.

Lemma C6_duplicate_rejection_witness :
  fst (add_game_pressed sample_env loaded_engine halo_fields) = false /\
  fst (add_game_pressed sample_env loaded_engine
         (MkFields "Halo" "NTSC" "4D530004" "1.0.0.1" "" "" "")) = true.
Proof.
  split.
  - destruct (C6_duplicate_rejection sample_env loaded_engine halo_fields
                ltac:(reflexivity)) as (_ & _ & _ & H).
    destruct (H ltac:(discriminate) ltac:(discriminate)) as [Hrej _].
    erewrite Hrej; [reflexivity|reflexivity|vm_compute; discriminate].
  - destruct (C6_duplicate_rejection sample_env loaded_engine
                (MkFields "Halo" "NTSC" "4D530004" "1.0.0.1" "" "" "")
                ltac:(reflexivity)) as (_ & _ & _ & H).
    destruct (H ltac:(discriminate) ltac:(discriminate)) as [_ Hacc].
    apply Hacc. intros game Hg [_ Hv].
    apply list_elem_of_singleton in Hg. subst game. discriminate.
Defined.

(** C6 fails as stated.  (1) [xemu_patches_add_game] itself checks
    nothing: on a loaded database that holds Halo 1.0.0.0 it appends a
    second game with the same (title_id, version).  (2) Before the database
    is loaded the duplicate search answers -1 whatever the games are, so
    pressing Add Game twice with the same fields stores the pair twice. *)
Lemma C6_counterexample :
  let added :=
    xemu_patches_add_game sample_env loaded_engine (Some "Halo") (Some "NTSC")
      (Some "4D530004") (Some "1.0.0.0") (Some "") (Some "") (Some "") in
  let st1 := snd (add_game_pressed sample_env (initial_engine mapped_guest ∅)
                    halo_fields) in
  (xemu_patches_find_duplicate_game loaded_engine (Some "4D530004")
     (Some "1.0.0.0") = 0 /\
   fst added = true /\
   map (fun g => (title_id g, version g)) (game_list (g_patches_db (snd added)))
     = [(Some "4D530004", Some "1.0.0.0"); (Some "4D530004", Some "1.0.0.0")]) /\
  (game_list (g_patches_db st1) = [game_of_fields halo_fields] /\
   xemu_patches_find_duplicate_game st1 (Some "4D530004") (Some "1.0.0.0") = -1 /\
   fst (add_game_pressed sample_env st1 halo_fields) = true /\
   game_list (g_patches_db (snd (add_game_pressed sample_env st1 halo_fields)))
     = [game_of_fields halo_fields; game_of_fields halo_fields]).
Proof. vm_compute. repeat split; reflexivity. Qed.

(** ** Mutators *)

(** C5 at a failing input.  With one saved entry of game 0 in the store,
    [xemu_patches_remove_game 0] succeeds and marks the database dirty, but
    the entry of the removed game stays in the store;
    [xemu_patches_remove_patch 0 0] in the same state empties it.  And
    enabling a patch while no game runs changes the patch, returns [true]
    and leaves the database neither marked dirty nor saved. *)
Lemma C5_remove_game_keeps_saved_values :
  g_saved_values patched_engine
    = [MkSaved 0 0 0x00123456 [0x11; 0x22; 0x33; 0x44]] /\
  (let '(ok, st') := xemu_patches_remove_game patched_engine 0 in
   ok = true /\ dirty (g_patches_db st') = true /\
   game_list (g_patches_db st') = [] /\
   g_saved_values st' = [MkSaved 0 0 0x00123456 [0x11; 0x22; 0x33; 0x44]]) /\
  (let '(ok, st') := xemu_patches_remove_patch patched_engine 0 0 in
   ok = true /\ dirty (g_patches_db st') = true /\ g_saved_values st' = []) /\
  (let st := setB g_patches_loaded true
               (toggle_start (set_enabled sample_patch false) stopped_guest) in
   let '(ok, st') := xemu_patches_set_patch_enabled sample_env st 0 0 true in
   ok = true /\
   map (fun g => map enabled (patches g)) (game_list (g_patches_db st))
     = [[false]] /\
   map (fun g => map enabled (patches g)) (game_list (g_patches_db st'))
     = [[true]] /\
   dirty (g_patches_db st') = false /\ files st' = ∅).
Proof. vm_compute. repeat split; reflexivity. Qed.

(** ** The certificate reader and its spam prevention *)

(** Reading a variable through the updates of a step. *)
Ltac state_simpl :=
  cbn [B I S_ bools ints strs setB setI setS set_db set_saved set_guest
       set_files set_reset_monitored xemu_queue_notification
       xemu_queue_error_message the_guest notifications g_patches_db
       g_saved_values g_reset_monitored_addresses files
       bvar_beq ivar_beq svar_beq fst snd] in *.

Section SpamPrevention.

(** [get_cached_xbe_info] leaves the caller's variables alone when it
    fails and hands out the cache when it succeeds; it touches none of the
    spam-prevention counters, nor the accepted certificate, nor anything
    outside the certificate cache. *)
Lemma get_cached_xbe_info_spec e st out found o st1 :
  get_cached_xbe_info e st out = (found, o, st1) ->
  (found = false -> o = out) /\
  (found = true ->
   o = (I st1 g_xbe_cache_title_id, I st1 g_xbe_cache_region,
        I st1 g_xbe_cache_version)) /\
  I st1 g_invalid_read_count = I st g_invalid_read_count /\
  I st1 g_last_invalid_title_id = I st g_last_invalid_title_id /\
  I st1 g_last_invalid_read_time = I st g_last_invalid_read_time /\
  B st1 g_cert_data_valid = B st g_cert_data_valid /\
  notifications st1 = notifications st /\
  the_guest st1 = the_guest st /\
  g_patches_db st1 = g_patches_db st /\
  g_saved_values st1 = g_saved_values st.
Proof.
  unfold get_cached_xbe_info, cached_result.
  repeat match goal with
         | |- context [if ?c then _ else _] => destruct c eqn:?
         | |- context [match xemu_get_xbe_info e with _ => _ end] =>
             destruct (xemu_get_xbe_info e) eqn:?
         end;
    intros [= <- <- <-]; state_simpl; intuition congruence.
Qed.

(** A call of the wrapper took one of the two [return false] exits of its
    invalid branch: the failure is answered and the record of the last
    invalid read is left as it was. *)
Definition blocked (e : env) (st : engine) (out : outs) : Prop :=
  let r := get_cached_xbe_info_with_spam_prevention e st out in
  fst (fst r) = false /\
  I (snd r) g_last_invalid_read_time = I st g_last_invalid_read_time /\
  I (snd r) g_last_invalid_title_id = I st g_last_invalid_title_id.

(** The call went through to the end of the invalid branch, which records
    the value and the time of this read. *)
Definition recorded (e : env) (st : engine) (out : outs) : Prop :=
  let r := get_cached_xbe_info_with_spam_prevention e st out in
  fst (fst r) = false /\
  I (snd r) g_last_invalid_read_time = time_NULL e /\
  I (snd r) g_last_invalid_title_id = out_title out.

(** The cooldown test of the wrapper. *)
Definition within_cooldown (e : env) (st : engine) : bool :=
  u64 (time_NULL e - I st g_last_invalid_read_time) <? 10000.

End SpamPrevention.

(** The invalid branch of the wrapper, entered when the underlying read
    fails and the caller's title variable holds a non-zero value [X]: the
    wrapper answers failure, queues no notification and counts the call.
    When [X] is the value recorded for the previous such call and this is
    at least the 6th in a row, the call is blocked while fewer than 10000
    units of [time(NULL)] have passed since the last recorded one, and for
    [X] = 0xFFFE0000 also after that; every other call with the recorded
    value is recorded with its time; a value other than the recorded one
    sets the counter to 1 and is recorded. *)
Lemma invalid_branch_backoff (e : env) (st : engine) (out : outs) :
  fst (fst (get_cached_xbe_info e st out)) = false ->
  out_title out <> 0 ->
  let X := out_title out in
  let n := s32 (I st g_invalid_read_count + 1) in
  let st' := snd (get_cached_xbe_info_with_spam_prevention e st out) in
  fst (get_cached_xbe_info_with_spam_prevention e st out) = (false, out) /\
  notifications st' = notifications st /\
  (X = I st g_last_invalid_title_id ->
   I st' g_invalid_read_count = n /\
   (5 < n -> within_cooldown e st = true \/ X = 0xFFFE0000 -> blocked e st out) /\
   (~ (5 < n /\ (within_cooldown e st = true \/ X = 0xFFFE0000)) ->
    recorded e st out)) /\
  (X <> I st g_last_invalid_title_id ->
   I st' g_invalid_read_count = 1 /\ recorded e st out).
Proof.
  intros Hfail HX X n st'. subst st'.
  unfold blocked, recorded, within_cooldown.
  unfold get_cached_xbe_info_with_spam_prevention.
  destruct (get_cached_xbe_info e st out) as [[found o] st1] eqn:Er.
  simpl in Hfail. subst found.
  apply get_cached_xbe_info_spec in Er
    as (Ho & _ & Hc & Hid & Ht & _ & Hn & _).
  rewrite (Ho eq_refl). fold X. simpl andb. cbv iota.
  destruct (Z.eqb_spec X 0) as [|_]; [done|]. simpl negb. cbv iota.
  set (st2 := setI g_invalid_read_count (s32 (I st1 g_invalid_read_count + 1)) st1).
  assert (I st2 g_invalid_read_count = n) as Hn2.
  { unfold st2, n. state_simpl. by rewrite Hc. }
  match goal with
  | |- context [if ?c then ?a else st2] => set (st3 := if c then a else st2)
  end.
  assert (I st3 g_invalid_read_count = n /\
          I st3 g_last_invalid_title_id = I st g_last_invalid_title_id /\
          I st3 g_last_invalid_read_time = I st g_last_invalid_read_time /\
          notifications st3 = notifications st) as (Hn3 & Hid3 & Ht3 & Hno3).
  { subst st3. destruct (_ && _); unfold st2 in *; state_simpl; auto. }
  rewrite Hid3, Hn3, Ht3.
  destruct (Z.eqb_spec X (I st g_last_invalid_title_id)) as [Hsame|Hdiff].
  - destruct (Z.gtb_spec n 5) as [Hgt|Hle]; simpl andb.
    + destruct (u64 (time_NULL e - I st g_last_invalid_read_time) <? 10000)
        eqn:Hw; cbv iota.
      * simpl. split; [done|]. split; [done|]. split; [|done].
        intros _. split; [done|]. split; [tauto|]. intros H. exfalso.
        apply H. split; [lia|by left].
      * destruct (Z.eqb_spec X 0xFFFE0000) as [Hx|Hx]; simpl andb; cbv iota.
        -- simpl. split; [done|]. split; [done|]. split; [|done].
           intros _. split; [done|]. split; [tauto|]. intros H. exfalso.
           apply H. split; [lia|by right].
        -- unfold note_invalid_read. state_simpl.
           split; [done|]. split; [done|]. split; [|done].
           intros _. split; [done|]. split; [|done].
           intros _ [?|?]; [done|done].
    + cbv iota.
      rewrite andb_false_r.
      unfold note_invalid_read. state_simpl.
      split; [done|]. split; [done|]. split; [|done].
      intros _. split; [done|]. split; [intros; lia|done].
  - unfold note_invalid_read. state_simpl.
    split; [done|]. split; [done|]. split; [done|]. intros _. done.
Qed.

(** A failing read hands the caller's variables back as they were: a
    title that [get_cached_xbe_info] rejects is not stored in them. *)
Lemma rejected_title_not_handed_out e st out cert :
  xemu_get_xbe_info e = Some cert ->
  is_valid_xbox_title_id (u32 (m_titleid cert)) = false ->
  B st g_xbe_cache_valid = false ->
  fst (get_cached_xbe_info e st out) = (false, out).
Proof.
  intros Hc Hv Hcache. unfold get_cached_xbe_info. rewrite Hcache, Hc.
  rewrite orb_true_r. simpl orb. cbv iota.
  match goal with
  | |- context [if B ?s g_load_disc_in_progress then (false, out, ?s) else _] =>
      destruct (B s g_load_disc_in_progress); [done|]
  end.
  assert (negb (u32 (m_titleid cert) =? 0)
          && negb (u32 (m_titleid cert) =? 0xFFFF0002)
          && negb (u32 (m_titleid cert) =? 0xFFFE0000)
          && negb (u32 (m_titleid cert) =? 0xFFFFFFFF) = false) as ->.
  { revert Hv. unfold is_valid_xbox_title_id.
    destruct (_ =? 0), (_ =? 0xFFFF0002), (_ =? 0xFFFE0000), (_ =? 0xFFFFFFFF);
      simpl; congruence. }
  done.
Qed.

(** C7 at a failing input.  The callers that initialise their variables
    hand the wrapper zeros, and a failing read leaves them zero, so the
    wrapper's invalid branch is not entered: the counter, the recorded
    value and the recorded time stay as they were, whatever title the
    certificate shows.  With a certificate showing 0xFFFE0000, seven reads
    in a row are answered alike; the counter is still 0, nothing is
    recorded, the cache is invalid, and the eighth read consults the
    certificate again. *)
Theorem C7_invalid_reads_not_counted :
  (forall (e : env) (st : engine),
      fst (fst (get_cached_xbe_info e st (0, 0, 0))) = false ->
      let r := get_cached_xbe_info_with_spam_prevention e st (0, 0, 0) in
      fst r = (false, (0, 0, 0)) /\
      I (snd r) g_invalid_read_count = I st g_invalid_read_count /\
      I (snd r) g_last_invalid_title_id = I st g_last_invalid_title_id /\
      I (snd r) g_last_invalid_read_time = I st g_last_invalid_read_time /\
      notifications (snd r) = notifications st) /\
  (forall (e : env) (st : engine) (out : outs) (cert : xbe_cert),
      xemu_get_xbe_info e = Some cert ->
      is_valid_xbox_title_id (u32 (m_titleid cert)) = false ->
      B st g_xbe_cache_valid = false ->
      fst (get_cached_xbe_info e st out) = (false, out)) /\
  (let e := env_at 9000 100 (Some (MkCert 0xFFFE0000 1 0)) in
   let late := env_at 10000 101 (Some (MkCert 0xFFFE0000 1 0)) in
   let s7 := reads 7 e (initial_engine mapped_guest ∅) (0, 0, 0) in
   I s7 g_invalid_read_count = 0 /\
   I s7 g_last_invalid_title_id = 0 /\
   I s7 g_last_invalid_read_time = 0 /\
   B s7 g_xbe_cache_valid = false /\
   B s7 g_force_fresh_xbe_read = true /\
   fst (get_cached_xbe_info_with_spam_prevention late s7 (0, 0, 0))
     = (false, (0, 0, 0)) /\
   I (snd (get_cached_xbe_info_with_spam_prevention late s7 (0, 0, 0)))
     g_invalid_read_count = 0).
Proof.
  split; [|split; [exact rejected_title_not_handed_out|]].
  - intros e st Hfail r. subst r.
    unfold get_cached_xbe_info_with_spam_prevention.
    destruct (get_cached_xbe_info e st (0, 0, 0)) as [[found o] st1] eqn:Er.
    simpl in Hfail. subst found.
    apply get_cached_xbe_info_spec in Er
      as (Ho & _ & Hc & Hid & Ht & _ & Hn & _).
    rewrite (Ho eq_refl). simpl. done.
  - vm_compute. repeat split; reflexivity.
Qed.

(** ** The post-reset processor *)

(** C8 at a failing input.  A post-reset cycle has just been scheduled;
    the guest-ready predicate [detect_vm_reset_completion] answers no (no
    reset was ever signalled through [g_vm_reset_triggered]); the first call
    of the processor, 0 ms into the cycle and at retry 1, nevertheless
    writes the patch into guest memory, queues the notification and ends
    the cycle.  With an empty database the same call dereferences the
    NULL game. *)
Lemma C8_post_reset_applies_before_ready :
  let e := env_at 1000 1 (Some halo_cert) in
  let st := schedule_post_reset_patch_application running_engine in
  B st g_post_reset_patch_scheduled = true /\
  read_span (ram (the_guest st)) 0x00123456 4 = Some [0x11; 0x22; 0x33; 0x44] /\
  fst (detect_vm_reset_completion e st) = false /\
  (exists st',
    xemu_patches_process_post_reset_unsafe e st = Some st' /\
    B st' g_vm_reset_completed = false /\
    I st' g_post_reset_retry_count = 2 /\
    read_span (ram (the_guest st')) 0x00123456 4 = Some [0xDE; 0xAD; 0xBE; 0xEF] /\
    notifications st' = [Notify "Applied 1 patch for Halo"] /\
    B st' g_post_reset_patch_scheduled = false) /\
  xemu_patches_process_post_reset_unsafe e
    (set_db (MkDb None (Some "/xemu/xemu.db") false) st) = None.
Proof.
  vm_compute. repeat split; try reflexivity.
  eexists. repeat split; reflexivity.
Qed.

(** ** The apply guard of the main loop *)

Section ApplyGuard.

(** The identity recorded by the last apply pass of the main loop. *)
Definition applied_tuple (st : engine) : outs :=
  (I st g_last_applied_title_id, I st g_last_applied_region,
   I st g_last_applied_version).

(** A step that neither reaches the guest nor queues a notification. *)
Definition silent (st st' : engine) : Prop :=
  the_guest st' = the_guest st /\ notifications st' = notifications st.

Lemma silent_refl st : silent st st.
Proof. by split. Qed.

Lemma silent_trans a b c : silent a b -> silent b c -> silent a c.
Proof. intros [H1 H2] [H3 H4]. split; congruence. Qed.

Lemma get_cached_xbe_info_applied e st out found o st1 :
  get_cached_xbe_info e st out = (found, o, st1) ->
  applied_tuple st1 = applied_tuple st /\
  B st1 g_manual_reset_detected = B st g_manual_reset_detected.
Proof.
  unfold get_cached_xbe_info, cached_result, applied_tuple.
  repeat match goal with
         | |- context [if ?c then _ else _] => destruct c eqn:?
         | |- context [match xemu_get_xbe_info e with _ => _ end] =>
             destruct (xemu_get_xbe_info e) eqn:?
         end;
    intros [= <- <- <-]; state_simpl; done.
Qed.

Lemma wrapper_silent e st out found o st' :
  get_cached_xbe_info_with_spam_prevention e st out = (found, o, st') ->
  silent st st' /\ applied_tuple st' = applied_tuple st /\
  B st' g_manual_reset_detected = B st g_manual_reset_detected.
Proof.
  unfold get_cached_xbe_info_with_spam_prevention.
  destruct (get_cached_xbe_info e st out) as [[r o1] st1] eqn:Er.
  pose proof (get_cached_xbe_info_applied _ _ _ _ _ _ Er) as [Ha Hm].
  apply get_cached_xbe_info_spec in Er as (_ & _ & _ & _ & _ & _ & Hn & Hg & _).
  unfold silent, applied_tuple, note_invalid_read,
    reset_notification_tracking_for_new_game in *.
  repeat match goal with
         | |- context [if ?c then _ else _] => destruct c eqn:?
         end;
    intros [= <- <- <-]; state_simpl; rewrite ?Hn, ?Hg, ?Hm; done.
Qed.

(** [detect_manual_reset] rewrites the recorded region and version only
    when it raises [g_manual_reset_detected]. *)
Lemma detect_manual_reset_silent e st :
  silent st (detect_manual_reset e st) /\
  (B (detect_manual_reset e st) g_manual_reset_detected = false ->
   applied_tuple (detect_manual_reset e st) = applied_tuple st).
Proof.
  unfold detect_manual_reset.
  destruct (get_cached_xbe_info_with_spam_prevention e st (0, 0, 0))
    as [[avail o] st1] eqn:Er.
  apply wrapper_silent in Er as ([Hg Hn] & Ha & Hm).
  unfold silent, applied_tuple, note_certificate_seen in *.
  repeat match goal with
         | |- context [if ?c then _ else _] => destruct c eqn:?
         end;
    state_simpl; rewrite ?Hn, ?Hg; split; try done; try (intros _; exact Ha).
Qed.

Lemma schedule_silent st :
  silent st (schedule_post_reset_patch_application st) .
Proof.
  unfold schedule_post_reset_patch_application, silent,
    start_reset_memory_monitoring, stop_reset_memory_monitoring.
  destruct (B _ g_post_reset_patch_scheduled); state_simpl; done.
Qed.

Lemma loop_throttle_silent e st due st1 :
  loop_throttle e st = (due, st1) ->
  silent st st1 /\ applied_tuple st1 = applied_tuple st.
Proof.
  unfold loop_throttle, silent, applied_tuple.
  repeat match goal with
         | |- context [if ?c then _ else _] => destruct c eqn:?
         end;
    intros [= <- <-]; state_simpl; done.
Qed.

(** A certificate tick that reads no certificate, a zero title, or the
    recorded tuple runs no apply pass. *)
Lemma certificate_tick_silent e st stack :
  (fst (fst (get_cached_xbe_info_with_spam_prevention e st stack)) = false \/
   out_title (snd (fst (get_cached_xbe_info_with_spam_prevention e st stack))) = 0 \/
   snd (fst (get_cached_xbe_info_with_spam_prevention e st stack))
     = applied_tuple st) ->
  silent st (certificate_tick e st stack).
Proof.
  unfold certificate_tick.
  destruct (get_cached_xbe_info_with_spam_prevention e st stack)
    as [[ok o] st1] eqn:Er.
  apply wrapper_silent in Er as (Hs1 & Ha1 & _). simpl fst. simpl snd.
  intros Hsame.
  match goal with
  | |- context [detect_manual_reset e ?s] => set (st2 := s)
  end.
  assert (silent st st2 /\ applied_tuple st2 = applied_tuple st) as [Hs2 Ha2].
  { subst st2. destruct (_ && _); [|done].
    destruct Hs1 as [? ?]. unfold silent, applied_tuple in *. state_simpl. done. }
  destruct (detect_manual_reset_silent e st2) as [Hs3 Ha3].
  set (st3 := detect_manual_reset e st2) in *.
  assert (silent st st3) as Hs by (by eapply silent_trans).
  destruct ok; [|done].
  set (is_new_game := negb (out_title o =? 0) && _).
  set (st4 := if is_new_game then _ else st3).
  assert (silent st st4 /\
          B st4 g_manual_reset_detected = B st3 g_manual_reset_detected)
    as [Hs4 Hm4].
  { subst st4. destruct is_new_game; [|done].
    destruct Hs as [? ?]. unfold silent, forget_certificate. state_simpl. done. }
  destruct (B st4 g_manual_reset_detected) eqn:Hm.
  { eapply silent_trans; [exact Hs4|].
    match goal with
    | |- silent _ (setB _ _ (schedule_post_reset_patch_application ?s)) =>
        pose proof (schedule_silent s) as [? ?];
        assert (silent st4 s) as [? ?]
          by (destruct (B st4 g_suppress_patch_notification); done)
    end.
    unfold silent in *. state_simpl. split; congruence. }
  assert (is_new_game = false) as Hnew.
  { symmetry in Hm4. specialize (Ha3 Hm4). subst is_new_game.
    destruct Hsame as [?|[Hz|Ho]]; [done| |].
    - by rewrite Hz.
    - rewrite Ho, <- Ha2, <- Ha3. unfold applied_tuple, out_title, out_region,
        out_version. simpl. rewrite !Z.eqb_refl. by rewrite andb_false_r. }
  rewrite Hnew. simpl andb. cbv iota.
  destruct (B st4 g_post_reset_patch_application_active); [done|].
  by destruct (B st4 g_load_disc_in_progress).
Qed.

Lemma notify_applied_tuple e st text :
  applied_tuple (notify_applied e st text) = applied_tuple st.
Proof.
  unfold notify_applied, applied_tuple.
  repeat match goal with
         | |- context [if ?c then _ else _] => destruct c eqn:?
         end; state_simpl; done.
Qed.

(** The integer globals other than the reset monitor's count. *)
Definition keeps_ints (st st' : engine) : Prop :=
  forall y, y <> g_reset_monitored_count -> I st' y = I st y.

Lemma keeps_ints_refl st : keeps_ints st st.
Proof. by intros y _. Qed.

Lemma keeps_ints_trans a b c : keeps_ints a b -> keeps_ints b c -> keeps_ints a c.
Proof. intros H1 H2 y Hy. rewrite H2, H1; done. Qed.

Lemma same_ints_keeps st st' : ints st' = ints st -> keeps_ints st st'.
Proof. intros H y _. unfold I. by rewrite H. Qed.

Lemma read_32bit_value_ints st a v ok st' :
  read_32bit_value st a = (v, ok, st') -> ints st' = ints st.
Proof.
  unfold read_32bit_value. destruct (negb _); by intros [= <- <- <-].
Qed.

Lemma monitor_reset_patch_address_ints e st a nm :
  keeps_ints st (monitor_reset_patch_address e st a nm).
Proof.
  unfold monitor_reset_patch_address.
  destruct (_ || _); [apply keeps_ints_refl|].
  destruct (existsb _ _); [apply keeps_ints_refl|].
  match goal with
  | |- context [read_32bit_value ?s a] =>
      destruct (read_32bit_value s a) as [[v ok] st2] eqn:Er
  end.
  apply read_32bit_value_ints in Er. intros y Hy. unfold I in *.
  cbn [ints set_reset_monitored]. rewrite Er. cbn [ints setI set_reset_monitored].
  destruct (ivar_beq g_reset_monitored_count y) eqn:Hb; [|done].
  apply internal_ivar_dec_bl in Hb. by subst y.
Qed.

Lemma log_reset_loop_ints n : forall i st a ctx,
  ints (log_reset_loop n i st a ctx) = ints st.
Proof.
  induction n as [|k IH]; intros i st a ctx; simpl; [done|].
  destruct (g_reset_monitored_addresses st !! i) as [m|]; [|done].
  destruct (_ || _); [apply IH|].
  destruct (read_32bit_value st a) as [[v ok] st1] eqn:Er.
  apply read_32bit_value_ints in Er. rewrite IH.
  destruct ok; simpl; done.
Qed.

Lemma apply_single_patch_bytes_ints e st a d :
  keeps_ints st (snd (apply_single_patch_bytes e st a d)).
Proof.
  unfold apply_single_patch_bytes.
  destruct (_ <=? 0); [apply keeps_ints_refl|].
  match goal with
  | |- context [xemu_virtual_memory_read (the_guest ?s) _ _ _ _] => set (st1 := s)
  end.
  assert (keeps_ints st st1) as H1.
  { subst st1. destruct (B st g_reset_monitoring_active);
      [apply monitor_reset_patch_address_ints|apply keeps_ints_refl]. }
  destruct (vm_ret _ =? 0); [exact H1|].
  match goal with
  | |- context [write_direct_virtual_memory ?s _ _ _] => set (st3 := s)
  end.
  assert (keeps_ints st st3) as H3.
  { subst st3. cbn [B bools set_guest].
    destruct (bools st1 g_reset_monitoring_active); exact H1. }
  unfold write_direct_virtual_memory. cbn [snd].
  match goal with
  | |- keeps_ints st (if ?c then log_reset_memory_values ?s _ _ else _) =>
      assert (keeps_ints st s) as H4 by exact H3; destruct c; [|exact H4]
  end.
  eapply keeps_ints_trans; [exact H4|]. apply same_ints_keeps.
  unfold log_reset_memory_values. destruct (negb _); [done|].
  apply log_reset_loop_ints.
Qed.

Lemma keeps_ints_tuple st st' :
  keeps_ints st st' -> applied_tuple st' = applied_tuple st.
Proof. intros H. unfold applied_tuple. rewrite !H; done. Qed.

Lemma apply_until_failure_ints e pairs : forall st,
  keeps_ints st (snd (apply_until_failure e st pairs)).
Proof.
  induction pairs as [|av rest IH]; intros st; simpl; [apply keeps_ints_refl|].
  pose proof (apply_single_patch_bytes_ints e st (address av) (value_data av)) as H.
  destruct (apply_single_patch_bytes e st (address av) (value_data av))
    as [ok st1]. simpl in H.
  destruct ok; [|exact H]. eapply keeps_ints_trans; [exact H|apply IH].
Qed.

Lemma apply_enabled_patches_ints e ps : forall st n,
  keeps_ints st (snd (apply_enabled_patches e st ps n)).
Proof.
  induction ps as [|p ps IH]; intros st n; simpl; [apply keeps_ints_refl|].
  destruct (enabled p); [|apply IH].
  pose proof (apply_until_failure_ints e (address_values p) st) as H.
  destruct (apply_until_failure e st (address_values p)) as [ok st1].
  simpl in H. eapply keeps_ints_trans; [exact H|apply IH].
Qed.

(** A pass that found no enabled patch, or applied at least one patch,
    records the tuple. *)
Lemma apply_pass_records e st o game :
  (enabled_count game <= 0 \/
   0 < fst (apply_enabled_patches e st (patches game) 0)) ->
  applied_tuple (apply_pass e st o game) = o.
Proof.
  unfold apply_pass. intros H.
  destruct (Z.gtb_spec (enabled_count game) 0) as [Hen|Hen].
  - destruct H as [?|H]; [lia|].
    destruct (apply_enabled_patches e st (patches game) 0) as [n st1].
    simpl in H. destruct (Z.gtb_spec n 0); [|lia].
    rewrite notify_applied_tuple. unfold applied_tuple, set_last_applied.
    state_simpl. by destruct o as [[? ?] ?].
  - unfold applied_tuple, set_last_applied. state_simpl. by destruct o as [[? ?] ?].
Qed.

(** [auto_enable_patches_when_ready] and [apply_patches_for_auto_boot]
    never clear the flag, never reach the guest, never notify. *)
Lemma apply_patches_for_auto_boot_flag st :
  silent st (apply_patches_for_auto_boot st) /\
  (B st g_patches_applied_for_current_cert = true ->
   B (apply_patches_for_auto_boot st) g_patches_applied_for_current_cert = true) /\
  B (apply_patches_for_auto_boot st) g_load_disc_in_progress
    = B st g_load_disc_in_progress /\
  B (apply_patches_for_auto_boot st) g_cert_data_valid = B st g_cert_data_valid /\
  B (apply_patches_for_auto_boot st) g_patch_system_enabled
    = B st g_patch_system_enabled /\
  I (apply_patches_for_auto_boot st) g_last_cert_title_id
    = I st g_last_cert_title_id.
Proof.
  unfold apply_patches_for_auto_boot, silent.
  repeat match goal with
         | |- context [if ?c then _ else _] => destruct c eqn:?
         | |- context [match find_title_nocase ?a ?b with _ => _ end] =>
             destruct (find_title_nocase a b) eqn:?
         end; state_simpl; done.
Qed.

Lemma auto_enable_flag st :
  silent st (auto_enable_patches_when_ready st) /\
  (B st g_patches_applied_for_current_cert = true ->
   B (auto_enable_patches_when_ready st) g_patches_applied_for_current_cert
     = true) /\
  (B st g_load_disc_in_progress = false -> B st g_cert_data_valid = true ->
   I st g_last_cert_title_id <> 0 ->
   B (auto_enable_patches_when_ready st) g_patches_applied_for_current_cert
     = true).
Proof.
  unfold auto_enable_patches_when_ready.
  destruct (B st g_load_disc_in_progress) eqn:Hl.
  { split; [apply silent_refl|]. split; [done|]. done. }
  match goal with
  | |- context [if B ?s g_cert_data_valid && _ && B ?s g_patch_system_enabled && _
                then _ else ?s] => set (st1 := s)
  end.
  assert (silent st st1 /\
          (B st g_patches_applied_for_current_cert = true ->
           B st1 g_patches_applied_for_current_cert = true) /\
          (B st g_cert_data_valid = true -> I st g_last_cert_title_id <> 0 ->
           B st1 g_cert_data_valid = true /\ I st1 g_last_cert_title_id <> 0 /\
           B st1 g_patch_system_enabled = true)) as (Hs1 & Hf1 & Hv1).
  { subst st1.
    destruct (B st g_cert_data_valid) eqn:Hv; simpl andb;
      [|split; [apply silent_refl|]; split; done].
    destruct (Z.eqb_spec (I st g_last_cert_title_id) 0) as [Hz|Hz]; simpl andb;
      [split; [apply silent_refl|]; split; done|].
    destruct (B st g_patch_system_enabled) eqn:Hp; simpl andb; cbv iota;
      [split; [apply silent_refl|]; split; done|].
    match goal with
    | |- context [apply_patches_for_auto_boot ?s] =>
        destruct (apply_patches_for_auto_boot_flag s)
          as (Hs & Hf & _ & Hcv & Hpe & Hti)
    end.
    state_simpl.
    destruct (bools st g_patches_applied_for_current_cert) eqn:Hfl; simpl negb;
      cbv iota.
    - state_simpl. split; [by split|]. split; [by rewrite Hfl|]. done.
    - split; [destruct Hs; split; etransitivity; eauto; reflexivity|].
      split; [intros _; by apply Hf|]. intros _ _.
      rewrite Hcv, Hpe, Hti. state_simpl. done. }
  destruct (B st1 g_cert_data_valid && negb (I st1 g_last_cert_title_id =? 0)
            && B st1 g_patch_system_enabled
            && negb (B st1 g_patches_applied_for_current_cert)) eqn:Hc.
  - match goal with
    | |- context [apply_patches_for_auto_boot ?s] =>
        destruct (apply_patches_for_auto_boot_flag s) as (Hs & Hf & _)
    end.
    split; [eapply silent_trans; [exact Hs1|]; destruct Hs; split;
            etransitivity; eauto; reflexivity|].
    split; intros; apply Hf; reflexivity.
  - split; [exact Hs1|]. split; [exact Hf1|].
    intros _ Hv Ht. destruct (Hv1 Hv Ht) as (Hv' & Ht' & Hp').
    rewrite Hv', Hp' in Hc. simpl in Hc.
    destruct (Z.eqb_spec (I st1 g_last_cert_title_id) 0); [done|].
    simpl in Hc. by destruct (B st1 g_patches_applied_for_current_cert).
Qed.

End ApplyGuard.

Section GuardedTicks.

(** The state of [certificate_tick] when its call of [detect_manual_reset]
    has returned. *)
Definition reset_check_state (e : env) (st : engine) (stack : outs) : engine :=
  let '(cert_success, o, st1) :=
    get_cached_xbe_info_with_spam_prevention e st stack in
  detect_manual_reset e
    (if cert_success && negb (out_title o =? I st1 last_logged_title_id)
     then setI last_logged_title_id (out_title o) st1 else st1).

(** A tick of the main loop raises no reset: it is throttled, or
    [g_manual_reset_detected] is clear when [detect_manual_reset] has
    returned. *)
Definition no_reset_flagged (e : env) (st : engine) (stack : outs) : Prop :=
  fst (loop_throttle e st) = true ->
  B (reset_check_state e (snd (loop_throttle e st)) stack)
    g_manual_reset_detected = false.

(** The guard of a tick against the tuple [o]: the tick is throttled, or
    its read fails, yields a zero title, or yields [o]. *)
Definition guarded_by (o : outs) (e : env) (st : engine) (stack : outs) : Prop :=
  let read :=
    fst (get_cached_xbe_info_with_spam_prevention e (snd (loop_throttle e st))
           stack) in
  fst (loop_throttle e st) = false \/ fst read = false \/
  out_title (snd read) = 0 \/ snd read = o.

(** The calls of [xemu_patches_main_loop_update] of a run, one host state
    and one content of the uninitialised locals per call. *)
Fixpoint run_ticks (l : list (env * outs)) (st : engine) : engine :=
  match l with
  | [] => st
  | (e, stack) :: rest => run_ticks rest (xemu_patches_main_loop_update e st stack)
  end.

(** Every tick of the run is guarded by [o] and raises no reset. *)
Fixpoint guarded_run (o : outs) (l : list (env * outs)) (st : engine) : Prop :=
  match l with
  | [] => True
  | (e, stack) :: rest =>
      guarded_by o e st stack /\ no_reset_flagged e st stack /\
      guarded_run o rest (xemu_patches_main_loop_update e st stack)
  end.

Lemma apply_patches_for_auto_boot_db st :
  g_patches_db (apply_patches_for_auto_boot st) = g_patches_db st.
Proof.
  unfold apply_patches_for_auto_boot.
  repeat match goal with
         | |- context [if ?c then _ else _] => destruct c eqn:?
         | |- context [match find_title_nocase ?a ?b with _ => _ end] =>
             destruct (find_title_nocase a b) eqn:?
         end; state_simpl; done.
Qed.

Lemma auto_enable_db st :
  g_patches_db (auto_enable_patches_when_ready st) = g_patches_db st.
Proof.
  unfold auto_enable_patches_when_ready.
  repeat match goal with
         | |- context [if ?c then _ else _] => destruct c eqn:?
         end; rewrite ?apply_patches_for_auto_boot_db; state_simpl;
    rewrite ?apply_patches_for_auto_boot_db; state_simpl; done.
Qed.

Lemma find_game_by_certificate_silent e st :
  silent st (snd (xemu_patches_find_game_by_certificate e st)) /\
  g_patches_db (snd (xemu_patches_find_game_by_certificate e st))
    = g_patches_db st.
Proof.
  unfold xemu_patches_find_game_by_certificate.
  destruct (B st g_load_disc_in_progress); [by split|].
  destruct (get_cached_xbe_info e st (0, 0, 0)) as [[found o] st1] eqn:Er.
  apply get_cached_xbe_info_spec in Er as (_&_&_&_&_&_&Hn1&Hg1&Hd1&_).
  assert (silent st st1 /\ g_patches_db st1 = g_patches_db st) as H1
    by (by repeat split).
  destruct (negb found); [exact H1|].
  destruct (games (g_patches_db st1)) as [gs|]; [|exact H1].
  match goal with
  | |- context [let '(o1, st2) := ?x in _] =>
      destruct x as [o1 st2] eqn:E2
  end.
  assert (silent st st2 /\ g_patches_db st2 = g_patches_db st) as H2.
  { destruct (_ && _).
    - destruct (xemu_get_xbe_info e); injection E2 as _ <-;
        unfold silent, reset_last_applied_tracking,
          invalidate_certificate_cache, xemu_clear_cert_cache,
          clear_certificate_cache_internal,
          reset_notification_tracking_for_new_game; state_simpl;
        rewrite Hn1, Hg1, Hd1; done.
    - by injection E2 as _ <-. }
  clear E2 H1 Hn1 Hg1 Hd1.
  match goal with
  | |- context [auto_enable_patches_when_ready ?s] => set (s3 := s)
  end.
  assert (silent st s3 /\ g_patches_db s3 = g_patches_db st) as H3.
  { subst s3. destruct H2 as [[? ?] ?].
    destruct (negb _); unfold silent; state_simpl; done. }
  clearbody s3.
  destruct (auto_enable_flag s3) as (H4 & _).
  pose proof (auto_enable_db s3) as H4d.
  set (st4 := auto_enable_patches_when_ready s3) in *. clearbody st4.
  assert (silent st st4 /\ g_patches_db st4 = g_patches_db st) as H.
  { destruct H3 as [H3 H3d]. split; [by eapply silent_trans|congruence]. }
  destruct (find_certificate_from _ _ _ _ _); [|exact H].
  cbv zeta.
  assert (silent st (enable_certificate_tracking st4) /\
          g_patches_db (enable_certificate_tracking st4) = g_patches_db st) as H5.
  { destruct H as [[? ?] ?]. unfold enable_certificate_tracking, silent.
    destruct (negb _); state_simpl; done. }
  set (st5 := enable_certificate_tracking st4) in *. clearbody st5.
  destruct H5 as [[? ?] ?].
  unfold remember_seen, silent.
  repeat match goal with
         | |- context [if ?c then _ else _] => destruct c
         end; state_simpl; done.
Qed.

(** A guarded certificate tick that raises no reset leaves the recorded
    tuple as it was. *)
Lemma certificate_tick_keeps e st stack :
  (fst (fst (get_cached_xbe_info_with_spam_prevention e st stack)) = false \/
   out_title (snd (fst (get_cached_xbe_info_with_spam_prevention e st stack))) = 0 \/
   snd (fst (get_cached_xbe_info_with_spam_prevention e st stack))
     = applied_tuple st) ->
  B (reset_check_state e st stack) g_manual_reset_detected = false ->
  applied_tuple (certificate_tick e st stack) = applied_tuple st.
Proof.
  unfold certificate_tick, reset_check_state.
  destruct (get_cached_xbe_info_with_spam_prevention e st stack)
    as [[ok o] st1] eqn:Er.
  apply wrapper_silent in Er as (_ & Ha1 & _). simpl fst. simpl snd.
  intros Hsame.
  match goal with
  | |- context [detect_manual_reset e ?s] => set (st2 := s)
  end.
  assert (applied_tuple st2 = applied_tuple st) as Ha2.
  { subst st2. destruct (_ && _); [|done].
    unfold applied_tuple in *. state_simpl. done. }
  destruct (detect_manual_reset_silent e st2) as [_ Ha3].
  set (st3 := detect_manual_reset e st2) in *.
  intros Hm. specialize (Ha3 Hm).
  destruct ok; [|congruence].
  set (is_new_game := negb (out_title o =? 0) && _).
  assert (is_new_game = false) as Hnew.
  { subst is_new_game.
    destruct Hsame as [?|[Hz|Ho]]; [done| |].
    - by rewrite Hz.
    - rewrite Ho, <- Ha2, <- Ha3. unfold applied_tuple, out_title, out_region,
        out_version. simpl. rewrite !Z.eqb_refl. by rewrite andb_false_r. }
  rewrite Hnew. cbv iota. rewrite Hm. simpl andb. cbv iota.
  destruct (B st3 g_post_reset_patch_application_active); [congruence|].
  destruct (B st3 g_load_disc_in_progress); congruence.
Qed.

(** A certificate tick either is silent or is an apply pass for the
    tuple it read, run on a game of the database from a state that no
    guest access and no notification separates from the tick's start. *)
Lemma certificate_tick_cases e st stack :
  let read := fst (get_cached_xbe_info_with_spam_prevention e st stack) in
  silent st (certificate_tick e st stack) \/
  exists s game,
    silent st s /\ game ∈ game_list (g_patches_db s) /\
    fst read = true /\ out_title (snd read) <> 0 /\
    certificate_tick e st stack = apply_pass e s (snd read) game.
Proof.
  unfold certificate_tick.
  destruct (get_cached_xbe_info_with_spam_prevention e st stack)
    as [[ok o] st1] eqn:Er.
  apply wrapper_silent in Er as (Hs1 & _ & _). simpl fst. simpl snd.
  match goal with
  | |- context [detect_manual_reset e ?s] => set (st2 := s)
  end.
  assert (silent st st2) as Hs2.
  { subst st2. destruct (_ && _); [|done].
    destruct Hs1 as [? ?]. unfold silent in *. state_simpl. done. }
  destruct (detect_manual_reset_silent e st2) as [Hs3 _].
  set (st3 := detect_manual_reset e st2) in *.
  assert (silent st st3) as Hs by (by eapply silent_trans).
  destruct ok; [|by left].
  set (is_new_game := negb (out_title o =? 0) && _).
  set (st4 := if is_new_game then _ else st3).
  assert (silent st st4) as Hs4.
  { subst st4. destruct is_new_game; [|done].
    destruct Hs as [? ?]. unfold silent, forget_certificate. state_simpl. done. }
  destruct (B st4 g_manual_reset_detected) eqn:Hm.
  { left. eapply silent_trans; [exact Hs4|].
    match goal with
    | |- silent _ (setB _ _ (schedule_post_reset_patch_application ?s)) =>
        pose proof (schedule_silent s) as [? ?];
        assert (silent st4 s) as [? ?]
          by (destruct (B st4 g_suppress_patch_notification); done)
    end.
    unfold silent in *. state_simpl. split; congruence. }
  destruct (B st4 g_post_reset_patch_application_active); [by left|].
  destruct (B st4 g_load_disc_in_progress); [by left|].
  destruct is_new_game eqn:Hnew; [|by left].
  destruct (B st4 g_patches_loaded); [|by left].
  destruct (B st4 g_patches_initialized); [|by left].
  simpl andb. cbv iota.
  destruct (find_game_by_certificate_silent e st4) as [Hs5 _].
  destruct (xemu_patches_find_game_by_certificate e st4) as [found st5].
  simpl in Hs5.
  assert (silent st st5) as Hs6 by (by eapply silent_trans).
  assert (silent st (set_last_applied o st5)) as Hnone.
  { destruct Hs6 as [? ?]. unfold silent, set_last_applied. state_simpl. done. }
  destruct found as [i|]; [|by left].
  destruct (game_list (g_patches_db st5) !! i) as [game|] eqn:Hi; [|by left].
  right. exists st5, game. split; [done|]. split; [by eapply list_elem_of_lookup_2|].
  split; [done|].
  subst is_new_game. apply andb_true_iff in Hnew as [Hz Hd].
  split; [|done]. by destruct (Z.eqb_spec (out_title o) 0).
Qed.

End GuardedTicks.

Section GuardedRuns.

Lemma main_loop_update_guarded e st stack :
  guarded_by (applied_tuple st) e st stack ->
  silent st (xemu_patches_main_loop_update e st stack) /\
  (no_reset_flagged e st stack ->
   applied_tuple (xemu_patches_main_loop_update e st stack) = applied_tuple st).
Proof.
  unfold guarded_by, no_reset_flagged, xemu_patches_main_loop_update.
  destruct (loop_throttle e st) as [due st1] eqn:Et.
  apply loop_throttle_silent in Et as [Hs Ha]. simpl fst. simpl snd.
  intros H. destruct due; [|by split].
  assert (fst (fst (get_cached_xbe_info_with_spam_prevention e st1 stack)) = false \/
          out_title (snd (fst (get_cached_xbe_info_with_spam_prevention e st1 stack))) = 0 \/
          snd (fst (get_cached_xbe_info_with_spam_prevention e st1 stack))
            = applied_tuple st1) as H1.
  { rewrite Ha. destruct H as [?|H]; [done|exact H]. }
  split.
  - eapply silent_trans; [exact Hs|]. by apply certificate_tick_silent.
  - intros Hm. rewrite <- Ha. apply certificate_tick_keeps; [exact H1|by apply Hm].
Qed.

(** A run of guarded ticks that raise no reset reaches no guest memory,
    queues no notification and keeps the recorded tuple. *)
Lemma guarded_run_silent o : forall l st,
  applied_tuple st = o -> guarded_run o l st ->
  silent st (run_ticks l st) /\ applied_tuple (run_ticks l st) = o.
Proof.
  induction l as [|[e stack] rest IH]; intros st Ho; simpl.
  - intros _. by split.
  - intros (Hg & Hr & Hrest). rewrite <- Ho in Hg.
    destruct (main_loop_update_guarded e st stack Hg) as [Hs Hk].
    specialize (Hk Hr).
    destruct (IH (xemu_patches_main_loop_update e st stack)) as [Hs' Ha'];
      [congruence|exact Hrest|].
    split; [by eapply silent_trans|exact Ha'].
Qed.

Lemma main_loop_update_cases e st stack :
  let read :=
    fst (get_cached_xbe_info_with_spam_prevention e (snd (loop_throttle e st))
           stack) in
  let st' := xemu_patches_main_loop_update e st stack in
  silent st st' \/
  exists s game,
    silent st s /\ game ∈ game_list (g_patches_db s) /\
    fst (loop_throttle e st) = true /\ fst read = true /\
    out_title (snd read) <> 0 /\
    st' = apply_pass e s (snd read) game.
Proof.
  unfold xemu_patches_main_loop_update.
  destruct (loop_throttle e st) as [due st1] eqn:Et.
  apply loop_throttle_silent in Et as [Hs _]. simpl fst. simpl snd.
  destruct due; [|by left].
  destruct (certificate_tick_cases e st1 stack)
    as [H|(s & game & H1 & H2 & H3 & H4 & H5)].
  - left. by eapply silent_trans.
  - right. exists s, game. split; [by eapply silent_trans|]. done.
Qed.

End GuardedRuns.

(** On the sample host the 60th call is a certificate tick that reads the
    recorded tuple of Halo and raises no reset. *)
Lemma guarded_run_sample :
  let host := env_at 1000 1 (Some halo_cert) in
  let s59 := ticks 59 host running_engine in
  fst (loop_throttle host s59) = true /\
  guarded_run (0x4D530004, 1, 0x01000000) [(host, (0, 0, 0))] s59.
Proof.
  split; [vm_compute; reflexivity|].
  split; [|split; [|exact Logic.I]].
  - right. right. right. vm_compute. reflexivity.
  - intros _. vm_compute. reflexivity.
Qed.

(** C1 (as amended).  The main loop guards its apply pass by the recorded
    tuple [g_last_applied_*], not by [g_patches_applied_for_current_cert].
    (1) A call of [xemu_patches_main_loop_update] that is throttled, or
    whose certificate read fails, yields a zero title or yields the recorded
    tuple, reaches no guest memory and queues no notification.  (2) Every
    call either is such a silent call or ends in an apply pass for the
    tuple it read, and when that pass found no enabled patch or applied at
    least one patch the state the call returns has that tuple recorded.
    (3) A guarded call that raises no reset leaves the recorded tuple as it
    was.  (4) Hence after any call, every run of further calls that are
    throttled or read nothing, a zero title or the tuple then recorded, and
    raise no reset, reaches no guest memory, queues no notification and
    ends with the same tuple recorded.  (5) On the sample host the 30th
    call applies the patch of Halo and records its tuple, and the sixty
    calls after it add no guest access and no notification.  (6) The flag
    is set by [auto_enable_patches_when_ready] whenever a certificate with
    a non-zero title is accepted and no Load Disc is in progress; that
    function never clears it, never reaches the guest and never notifies. *)
Theorem C1_apply_guard (e : env) (st : engine) (stack : outs) :
  let due := fst (loop_throttle e st) in
  let read :=
    fst (get_cached_xbe_info_with_spam_prevention e (snd (loop_throttle e st))
           stack) in
  let st' := xemu_patches_main_loop_update e st stack in
  ((due = false \/ fst read = false \/ out_title (snd read) = 0 \/
    snd read = applied_tuple st) ->
   silent st st') /\
  (silent st st' \/
   exists s game,
     silent st s /\ game ∈ game_list (g_patches_db s) /\
     due = true /\ fst read = true /\ out_title (snd read) <> 0 /\
     st' = apply_pass e s (snd read) game /\
     (enabled_count game <= 0 \/
      0 < fst (apply_enabled_patches e s (patches game) 0) ->
      applied_tuple st' = snd read)) /\
  (guarded_by (applied_tuple st) e st stack -> no_reset_flagged e st stack ->
   applied_tuple st' = applied_tuple st) /\
  (forall l : list (env * outs),
      guarded_run (applied_tuple st') l st' ->
      silent st' (run_ticks l st') /\
      applied_tuple (run_ticks l st') = applied_tuple st') /\
  (let host := env_at 1000 1 (Some halo_cert) in
   let s29 := ticks 29 host running_engine in
   let s30 := ticks 30 host running_engine in
   let s90 := ticks 90 host running_engine in
   applied_tuple s29 = (0, 0, 0) /\ accesses (the_guest s29) = [] /\
   applied_tuple s30 = (0x4D530004, 1, 0x01000000) /\
   accesses (the_guest s30)
     = [MemAccess 0x00123456 4 false; MemAccess 0x00123456 4 true] /\
   notifications s30 = [Notify "Applied 1 patch for Halo"] /\
   applied_tuple s90 = applied_tuple s30 /\
   accesses (the_guest s90) = accesses (the_guest s30) /\
   notifications s90 = notifications s30) /\
  silent st (auto_enable_patches_when_ready st) /\
  (B st g_patches_applied_for_current_cert = true ->
   B (auto_enable_patches_when_ready st) g_patches_applied_for_current_cert
     = true) /\
  (B st g_load_disc_in_progress = false -> B st g_cert_data_valid = true ->
   I st g_last_cert_title_id <> 0 ->
   B (auto_enable_patches_when_ready st) g_patches_applied_for_current_cert
     = true).
Proof.
  intros due read st'.
  split; [|split; [|split; [|split; [|split; [|apply auto_enable_flag]]]]].
  - intros H. by apply main_loop_update_guarded.
  - destruct (main_loop_update_cases e st stack)
      as [H|(s & game & H1 & H2 & H3 & H4 & H5 & H6)]; [by left|].
    right. exists s, game. repeat (split; [done|]).
    subst st'. rewrite H6. apply apply_pass_records.
  - intros Hg. by apply main_loop_update_guarded.
  - intros l. by apply guarded_run_silent.
  - vm_compute. repeat split; reflexivity.
Qed.

(** C1 fails as stated.  (1) With Halo's certificate accepted,
    [auto_enable_patches_when_ready] sets the flag and the pass it calls
    returns at its duplicate guard: the flag is set and no pass has run.
    When the wrapper then accepts another title the flag stays set, and the
    next [auto_enable_patches_when_ready] runs no pass for the new identity.
    (2) With the patch address unreadable, every 30th call of the main loop
    runs the pass again for the same certificate: the tuple is never
    recorded, and the guest sees one more read attempt per pass. *)
Lemma C1_counterexample :
  let s1 := snd (get_cached_xbe_info_with_spam_prevention
                   (env_at 1000 1 (Some halo_cert)) idle_engine (0, 0, 0)) in
  let s2 := auto_enable_patches_when_ready s1 in
  let s3 := snd (get_cached_xbe_info_with_spam_prevention
                   (env_at 7000 7 (Some other_cert)) s2 (0, 0, 0)) in
  let s4 := auto_enable_patches_when_ready s3 in
  let e := env_at 1000 1 (Some halo_cert) in
  let unmapped := set_guest unmapped_guest running_engine in
  (I s1 g_last_cert_title_id = 0x4D530004 /\
   B s1 g_patches_applied_for_current_cert = false /\
   B s2 g_patches_applied_for_current_cert = true /\
   B s2 g_auto_boot_processing_active = false /\
   I s2 duplicate_log_count = 1 /\
   I s3 g_last_cert_title_id = 0x4D530005 /\
   B s3 g_patches_applied_for_current_cert = true /\
   B s4 g_patches_applied_for_current_cert = true /\
   B s4 g_auto_boot_processing_active = false /\
   I s4 duplicate_log_count = 1) /\
  (accesses (the_guest (ticks 30 e unmapped))
     = [MemAccess 0x00123456 4 false] /\
   I (ticks 30 e unmapped) g_last_cert_title_id = 0x4D530004 /\
   applied_tuple (ticks 30 e unmapped) = (0, 0, 0) /\
   accesses (the_guest (ticks 60 e unmapped))
     = [MemAccess 0x00123456 4 false; MemAccess 0x00123456 4 false] /\
   I (ticks 60 e unmapped) g_last_cert_title_id = 0x4D530004 /\
   B (ticks 60 e unmapped) g_manual_reset_detected = false).
Proof. vm_compute. repeat split; reflexivity. Qed.

(** ** The database file *)

(** C4 at a failing input.  In the Edit Patch dialog the text
    [0x00123456: DEADBEEF] passes [ValidatePatchData], and the Update Patch
    button stores it: the editor's parser reads the run of digits as one
    number, rejects it as larger than a byte and returns no pair, so the
    patch in memory has the source line and no pair.  The save that the
    button triggers writes that line; loading the file back reads the same
    line as the four bytes DE AD BE EF.  The database after save and load
    is not the one in memory.  (A value with blanks between its bytes does
    not pass the validation.) *)
Lemma C4_round_trip_changes_pairs :
  let text := "0x00123456: DEADBEEF" in
  let start :=
    setB g_patches_loaded true
      (set_db (MkDb (Some [halo_game]) (Some "/xemu/xemu.db") false)
              (initial_engine mapped_guest ∅)) in
  let saved := xemu_patches_save_database sample_env edited_engine in
  ValidatePatchData "Infinite Health" "Cheat" text true 0
    (games (g_patches_db start)) 0 = true /\
  ValidatePatchData "Infinite Health" "Cheat" "0x00123456: DE AD BE EF" true 0
    (games (g_patches_db start)) 0 = false /\
  edited_engine = update_patch_pressed sample_env start (sample_form text) /\
  notifications edited_engine = [Notify "Patch updated successfully"] /\
  (exists game patch,
      game_list (g_patches_db edited_engine) = [game] /\
      patches game = [patch] /\
      address_values patch = [] /\
      address_value_lines patch = [text]) /\
  fst saved = true /\
  files (snd saved) = files edited_engine /\
  exists st' game' patch',
    xemu_patches_load_database sample_env (snd saved) None = Some (true, st') /\
    game_list (g_patches_db st') = [game'] /\
    patches game' = [patch'] /\
    address_values patch'
      = [MkAddressValue 0x00123456 [0xDE; 0xAD; 0xBE; 0xEF]] /\
    address_value_lines patch' = [text].
Proof.
  split; [vm_compute; reflexivity|]. split; [vm_compute; reflexivity|].
  split; [reflexivity|].
  split; [vm_compute; reflexivity|]. split; [|split; [|split]].
  - vm_compute. do 2 eexists. repeat split; reflexivity.
  - vm_compute. reflexivity.
  - vm_compute. reflexivity.
  - vm_compute. do 3 eexists. repeat split; reflexivity.
Qed.

(** ** More on the saved-value store *)

Section SavedValueLookup.

Lemma find_index_keys l l' g p a :
  entry_key <$> l = entry_key <$> l' ->
  find_index l g p a = find_index l' g p a.
Proof.
  revert l'. induction l as [|e l IH]; intros [|e' l']; simpl; try done.
  intros Hkl.
  pose proof (f_equal head Hkl) as Hk. pose proof (f_equal tail Hkl) as Hl.
  simpl in Hk, Hl.
  assert (entry_key e = entry_key e') as Hk' by congruence. clear Hk.
  rename Hk' into Hk.
  assert (key_matches g p a e = key_matches g p a e') as ->.
  { destruct (key_matches g p a e) eqn:K, (key_matches g p a e') eqn:K';
      try done.
    - apply key_matches_iff in K. rewrite Hk in K.
      apply key_matches_iff in K. congruence.
    - apply key_matches_iff in K'. rewrite <- Hk in K'.
      apply key_matches_iff in K'. congruence. }
  by rewrite (IH l' Hl).
Qed.

Lemma find_index_snoc l x g p a :
  find_index (l ++ [x]) g p a =
    match find_index l g p a with
    | Some i => Some i
    | None => if key_matches g p a x then Some (length l) else None
    end.
Proof.
  induction l as [|e l IH]; simpl.
  - by destruct (key_matches g p a x).
  - destruct (key_matches g p a e); [done|]. rewrite IH.
    destruct (find_index l g p a); simpl; [done|].
    by destruct (key_matches g p a x).
Qed.

Lemma key_matches_self g p a d :
  key_matches g p a (MkSaved g p a d) = true.
Proof. by apply key_matches_iff. Qed.

(** The whole loop keeps exactly the entries that are not selected. *)
Lemma clear_loop_perm rounds sel : forall i l,
  (length l - i <= rounds)%nat ->
  (forall j e, (j < i)%nat -> l !! j = Some e -> sel e = false) ->
  clear_loop rounds sel i l ≡ₚ filter (fun e => sel e = false) l.
Proof.
  assert (forall i l,
            (length l <= i)%nat ->
            (forall j e, (j < i)%nat -> l !! j = Some e -> sel e = false) ->
            filter (fun e => sel e = false) l = l) as Hall.
  { intros i l Hlen Hpre.
    assert (Forall (fun e => sel e = false) l) as Hf.
    { apply Forall_lookup. intros j e Hj. apply (Hpre j e); [|done].
      apply lookup_lt_Some in Hj. lia. }
    clear Hlen Hpre. induction Hf as [|x l' Hx _ IH]; [done|].
    rewrite filter_cons_True by done. by rewrite IH. }
  induction rounds as [|k IH]; intros i l Hr Hpre; simpl.
  - rewrite (Hall i l); [done|lia|done].
  - destruct (l !! i) as [e|] eqn:Hi.
    2:{ apply lookup_ge_None in Hi. rewrite (Hall i l); done. }
    pose proof (lookup_lt_Some _ _ _ Hi) as Hlt.
    pose proof (swap_remove_perm l i e Hi) as Hp.
    destruct (sel e) eqn:Hs.
    + rewrite IH.
      * rewrite Hp at 2. rewrite filter_cons_False; [done|]. by rewrite Hs.
      * apply Permutation_length in Hp. simpl in Hp. lia.
      * intros j e' Hj Hje'. apply (Hpre j e' Hj).
        unfold swap_remove in Hje'.
        destruct (last l) as [z|]; [|done].
        destruct (Nat.ltb_spec i (length l - 1)).
        -- apply lookup_take_Some in Hje' as [Hje' _].
           rewrite list_lookup_insert_ne in Hje' by lia. done.
        -- by apply lookup_take_Some in Hje' as [Hje' _].
    + apply IH; [lia|].
      intros j e' Hj Hje'. destruct (decide (j = i)) as [->|Hne].
      * congruence.
      * apply (Hpre j e'); [lia|done].
Qed.

End SavedValueLookup.

(** X1.  While the store has a free slot, [add_saved_value] returns the
    slot of the entry, [find_saved_value] finds that very slot again, the
    slot holds the bytes given, and looking up any other key gives what it
    gave before. *)
Theorem add_saved_value_then_find (st : engine) (g p a : Z) (data : list Z) :
  g_saved_values_count st < MAX_SAVED_VALUES ->
  exists i,
    let st' := snd (add_saved_value st g p a data) in
    fst (add_saved_value st g p a data) = Some i /\
    find_saved_value st' g p a = Some i /\
    g_saved_values st' !! i = Some (MkSaved g p a data) /\
    forall g' p' a', (g', p', a') <> (g, p, a) ->
      find_saved_value st' g' p' a' = find_saved_value st g' p' a'.
Proof.
  intros Hroom. unfold add_saved_value.
  destruct (Z.geb_spec (g_saved_values_count st) MAX_SAVED_VALUES); [lia|].
  unfold find_saved_value.
  destruct (find_index (g_saved_values st) g p a) as [i|] eqn:Hf.
  - exists i. cbn [fst snd g_saved_values set_saved].
    apply find_index_Some in Hf as Hi. destruct Hi as (e & Hi & Hk).
    assert (entry_key <$> <[i:=MkSaved g p a data]> (g_saved_values st)
            = entry_key <$> g_saved_values st) as Hkeys.
    { rewrite list_fmap_insert. apply list_insert_id.
      rewrite list_lookup_fmap, Hi. simpl. by rewrite Hk. }
    split; [done|]. split; [by rewrite (find_index_keys _ _ _ _ _ Hkeys)|].
    split.
    + apply list_lookup_insert_eq. by apply lookup_lt_Some in Hi.
    + intros g' p' a' _. by apply find_index_keys.
  - exists (length (g_saved_values st)). cbn [fst snd g_saved_values set_saved].
    split; [done|]. split.
    { by rewrite find_index_snoc, Hf, key_matches_self. }
    split.
    { by rewrite lookup_app_r, Nat.sub_diag. }
    intros g' p' a' Hne. rewrite find_index_snoc.
    destruct (find_index (g_saved_values st) g' p' a'); [done|].
    destruct (key_matches g' p' a' (MkSaved g p a data)) eqn:K; [|done].
    apply key_matches_iff in K. unfold entry_key in K. simpl in K. congruence.
Qed.

Lemma add_saved_value_then_find_witness :
  exists i,
    fst (add_saved_value (initial_engine mapped_guest ∅) 0 0 0x1000 [1; 2])
      = Some i /\
    find_saved_value
      (snd (add_saved_value (initial_engine mapped_guest ∅) 0 0 0x1000 [1; 2]))
      0 0 0x1000 = Some i.
Proof.
  destruct (add_saved_value_then_find (initial_engine mapped_guest ∅) 0 0 0x1000
              [1; 2]) as (i & H1 & H2 & _); [reflexivity|].
  exists i. split; [exact H1|exact H2].
Defined.

(** X2.  [xemu_patches_clear_saved_values_for_game] leaves exactly the
    entries of the other games in the store (in some order), and touches
    nothing else of the engine. *)
Theorem clear_saved_values_for_game_exact (st : engine) (game_index : Z) :
  let st' := xemu_patches_clear_saved_values_for_game st game_index in
  g_saved_values st'
    ≡ₚ filter (fun e => (sv_game_index e =? game_index) = false)
              (g_saved_values st) /\
  st' = set_saved (g_saved_values st') st.
Proof.
  unfold xemu_patches_clear_saved_values_for_game. simpl. split; [|done].
  apply clear_loop_perm; [lia|]. intros j e Hj. lia.
Qed.

(** ** More on the patch store *)

Section GameList.

Lemma remove_at_last {A} (l : list A) (x : A) :
  remove_at (l ++ [x]) (Z.of_nat (length l)) = l.
Proof.
  unfold remove_at. rewrite Nat2Z.id.
  rewrite take_app_length.
  rewrite drop_ge by (rewrite length_app; simpl; lia).
  by rewrite app_nil_r.
Qed.

Lemma in_range_false i n : ~ (0 <= i < n) -> in_range i n = false.
Proof.
  intros H. unfold in_range.
  destruct (Z.ltb_spec i 0); [done|]. destruct (Z.geb_spec i n); [done|lia].
Qed.

Lemma in_range_true i n : 0 <= i < n -> in_range i n = true.
Proof.
  intros H. unfold in_range.
  destruct (Z.ltb_spec i 0); [lia|]. destruct (Z.geb_spec i n); [lia|done].
Qed.

End GameList.

(** X3.  [xemu_patches_add_game] appends: the count grows by one and the
    last slot holds the new game, enabled and without patches.  Removing
    that slot again with [xemu_patches_remove_game] gives back the list of
    games there was before. *)
Theorem add_game_then_remove_game (e : env) (st : engine)
    (title reg tid ver alt tdate disc : option string) :
  let n := game_count (g_patches_db st) in
  let st1 := snd (xemu_patches_add_game e st title reg tid ver alt tdate disc) in
  let r := xemu_patches_remove_game st1 n in
  fst (xemu_patches_add_game e st title reg tid ver alt tdate disc) = true /\
  game_count (g_patches_db st1) = n + 1 /\
  at_index (game_list (g_patches_db st1)) n
    = Some (MkGame title reg tid ver alt tdate disc [] true) /\
  fst r = true /\
  game_list (g_patches_db (snd r)) = game_list (g_patches_db st).
Proof.
  intros n st1 r.
  destruct (add_game_games e st title reg tid ver alt tdate disc) as [Hok Hgs].
  fold st1 in Hgs. split; [done|].
  assert (game_count (g_patches_db st1) = n + 1) as Hn.
  { unfold n, game_count. rewrite Hgs, length_app. simpl. lia. }
  split; [done|]. split.
  { unfold at_index, n, game_count. rewrite Hgs, Nat2Z.id.
    by rewrite lookup_app_r, Nat.sub_diag. }
  subst r. unfold xemu_patches_remove_game.
  rewrite Hn, in_range_true by (unfold n, game_count; lia).
  simpl. split; [done|]. unfold game_list at 1. simpl.
  rewrite Hgs. apply remove_at_last.
Qed.

(** X4.  An index outside the array is refused: with a game index that is
    negative or not below the number of games, or a patch index that is
    negative or not below the number of patches of the game, the seven
    operations that take indices return [false] and leave the engine as it
    was. *)
Theorem index_out_of_range_refused (e : env) (st : engine) (gi pi : Z)
    (title reg tid ver alt tdate disc : option string)
    (pname pcat pauthor pnotes text : option string) (flag : bool) :
  (~ (0 <= gi < game_count (g_patches_db st)) \/
   exists game, at_index (game_list (g_patches_db st)) gi = Some game /\
                ~ (0 <= pi < patch_count game)) ->
  (~ (0 <= gi < game_count (g_patches_db st)) ->
   xemu_patches_remove_game st gi = (false, st) /\
   xemu_patches_update_game st gi title reg tid ver alt tdate disc = (false, st) /\
   xemu_patches_add_patch st gi pname pcat pauthor pnotes text flag = (false, st)) /\
  xemu_patches_remove_patch st gi pi = (false, st) /\
  xemu_patches_update_patch st gi pi pname pcat pauthor pnotes text flag
    = (false, st) /\
  xemu_patches_set_patch_enabled e st gi pi flag = (false, st) /\
  xemu_patches_remove_patch_with_restore e st gi pi = (false, st).
Proof.
  intros H. split.
  { intros Hg. apply in_range_false in Hg.
    unfold xemu_patches_remove_game, xemu_patches_update_game,
      xemu_patches_add_patch. by rewrite Hg. }
  unfold xemu_patches_remove_patch, xemu_patches_update_patch,
    xemu_patches_set_patch_enabled, xemu_patches_remove_patch_with_restore.
  destruct H as [Hg|(game & Hgame & Hp)].
  - apply in_range_false in Hg. by rewrite Hg.
  - destruct (in_range gi (game_count (g_patches_db st))); [|done].
    simpl. rewrite Hgame. apply in_range_false in Hp. by rewrite Hp.
Qed.

Lemma index_out_of_range_refused_witness :
  xemu_patches_remove_game loaded_engine 1 = (false, loaded_engine) /\
  xemu_patches_set_patch_enabled sample_env loaded_engine 0 (-1) true
    = (false, loaded_engine).
Proof.
  split.
  - refine (proj1 (proj1 (index_out_of_range_refused sample_env loaded_engine 1 0
             None None None None None None None None None None None None false
             _) _)).
    + left. vm_compute. intros [_ H]. discriminate H.
    + vm_compute. intros [_ H]. discriminate H.
  - refine (proj1 (proj2 (proj2 (proj2 (index_out_of_range_refused sample_env
             loaded_engine 0 (-1) None None None None None None None None None
             None None None true _))))).
    right. eexists. split; [reflexivity|]. vm_compute. intros [H _]. by apply H.
Defined.

Section DatabaseUntouched.

(** Applying and restoring pairs leaves the database alone. *)
Lemma apply_pair_db e st save g p av ok st' :
  apply_pair e st save g p av = (ok, st') -> g_patches_db st' = g_patches_db st.
Proof.
  unfold apply_pair. intros H.
  apply apply_single_patch_bytes_spec in H as [(_ & _ & Hd & _) _].
  rewrite Hd. clear Hd. destruct save; [|done].
  destruct (read_direct_virtual_memory st (address av) (value_length av))
    as [[rok bs] st1] eqn:Er.
  apply read_direct_quiet in Er as [(_ & _ & Hd1 & _) _].
  rewrite <- Hd1. destruct rok; [|done].
  destruct (add_saved_value st1 g p (address av) bs) as [r s] eqn:Ea.
  simpl. by apply add_saved_value_frame in Ea as (_ & _ & _ & ? & _).
Qed.

Lemma apply_pairs_db e save g p l : forall st acc ok st',
  apply_pairs e st save g p l acc = (ok, st') ->
  g_patches_db st' = g_patches_db st.
Proof.
  induction l as [|av l IH]; intros st acc ok st'; simpl.
  - by intros [= _ <-].
  - destruct (apply_pair e st save g p av) as [ok1 st1] eqn:Ep.
    intros H. apply IH in H. rewrite H. by eapply apply_pair_db.
Qed.

Lemma restore_pair_db e st g p av ok st' :
  restore_pair e st g p av = (ok, st') -> g_patches_db st' = g_patches_db st.
Proof.
  unfold restore_pair.
  destruct (find_saved_value st g p (address av)) as [i|];
    [|by intros [= _ <-]].
  destruct (g_saved_values st !! i) as [x|] eqn:Hi; [|by intros [= _ <-]].
  destruct (apply_single_patch_bytes e st (address av) (original_data x))
    as [rs st1] eqn:Ea.
  apply apply_single_patch_bytes_spec in Ea as [(_ & _ & Hd1 & _) _].
  destruct rs.
  - destruct (read_direct_virtual_memory st1 (address av) (data_length x))
      as [[rok bs] s] eqn:Er.
    apply read_direct_quiet in Er as [(_ & _ & Hd2 & _) _].
    intros [= _ <-]. cbn [g_patches_db set_saved]. congruence.
  - intros [= _ <-]. cbn [g_patches_db set_saved]. congruence.
Qed.

Lemma restore_pairs_db e g p l : forall st acc ok st',
  restore_pairs e st g p l acc = (ok, st') ->
  g_patches_db st' = g_patches_db st.
Proof.
  induction l as [|av l IH]; intros st acc ok st'; simpl.
  - by intros [= _ <-].
  - destruct (restore_pair e st g p av) as [ok1 st1] eqn:Ep.
    intros H. apply IH in H. rewrite H. by eapply restore_pair_db.
Qed.

Lemma apply_patch_db e st patch g p ok st' :
  xemu_patches_apply_patch_with_save_restore e st patch g p = (ok, st') ->
  g_patches_db st' = g_patches_db st.
Proof.
  unfold xemu_patches_apply_patch_with_save_restore.
  destruct (negb _); [by intros [= _ <-]|]. apply apply_pairs_db.
Qed.

Lemma remove_patch_with_restore_db e st g p ok st' :
  xemu_patches_remove_patch_with_restore e st g p = (ok, st') ->
  g_patches_db st' = g_patches_db st.
Proof.
  unfold xemu_patches_remove_patch_with_restore.
  repeat match goal with
         | |- context [if ?c then _ else _] => destruct c
         | |- context [match ?o with Some _ => _ | None => _ end] => destruct o
         end; try (by intros [= _ <-]).
  apply restore_pairs_db.
Qed.

Lemma save_database_games e st ok st' :
  xemu_patches_save_database e st = (ok, st') ->
  games (g_patches_db st') = games (g_patches_db st).
Proof.
  unfold xemu_patches_save_database.
  repeat match goal with
         | |- context [if ?c then _ else _] => destruct c
         | |- context [match ?o with Some _ => _ | None => _ end] =>
             destruct o eqn:?
         end; intros [= _ <-]; simpl in *; congruence.
Qed.

End DatabaseUntouched.

(** X5.  [xemu_patches_add_patch] adds no patch.  With a valid game index
    and non-NULL name, category, author and text it returns [true] and sets
    the dirty flag, and nothing else: the games and their patches are the
    ones before, and the text that the save following it writes is the
    text of the database without the new patch. *)
Theorem add_patch_adds_nothing (e : env) (st : engine) (gi : Z)
    (pname pcat pauthor pnotes text : option string) (flag : bool) :
  0 <= gi < game_count (g_patches_db st) ->
  is_Some pname -> is_Some pcat -> is_Some pauthor -> is_Some text ->
  let r := xemu_patches_add_patch st gi pname pcat pauthor pnotes text flag in
  r = (true, mark_dirty true st) /\
  games (g_patches_db (snd r)) = games (g_patches_db st) /\
  forall gs path,
    fst (xemu_patches_save_database e (snd r)) = true ->
    games (g_patches_db st) = Some gs ->
    file_path (g_patches_db st) = Some path ->
    files (snd (xemu_patches_save_database e (snd r))) !! path
      = Some (database_text gs).
Proof.
  intros Hgi [n ->] [c ->] [a ->] [t ->] r. subst r.
  unfold xemu_patches_add_patch.
  rewrite in_range_true by done. simpl.
  unfold xemu_patches_parse_address_value_pairs.
  destruct (_ =? 0); simpl; (split; [done|]); (split; [done|]).
    all: intros gs path Hok Hgs Hp; revert Hok.
    all: unfold xemu_patches_save_database; cbn [B bools mark_dirty set_db
           g_patches_db setB file_path games set_dirty].
    all: rewrite Hp; cbn [B bools mark_dirty set_db g_patches_db setB file_path
           games set_dirty]; rewrite Hgs.
    all: destruct (bools st g_patches_loaded), (bools st g_save_in_progress),
           (fopen_w_ok e), (fclose_ok e); simpl; try discriminate.
    all: intros _; cbn [files snd setB set_files mark_dirty set_db g_patches_db
           file_path set_dirty default]; rewrite ?Hp; simpl.
    all: by rewrite lookup_insert_eq.
Qed.

Lemma add_patch_adds_nothing_witness :
  let r := xemu_patches_add_patch loaded_engine 0 (Some "Ammo") (Some "Cheat")
             (Some "me") (Some "") (Some "0x00001000: 90") false in
  r = (true, mark_dirty true loaded_engine) /\
  map (fun g => length (patches g)) (game_list (g_patches_db (snd r))) = [1%nat].
Proof.
  destruct (add_patch_adds_nothing sample_env loaded_engine 0 (Some "Ammo")
              (Some "Cheat") (Some "me") (Some "") (Some "0x00001000: 90") false)
    as (H1 & H2 & _); [by vm_compute|by eexists..|].
  split; [exact H1|]. unfold game_list. rewrite H2. reflexivity.
Defined.

(** X6.  [xemu_patches_find_game_by_title_id] on a loaded database returns
    the first slot whose title id is the text given, and -1 exactly when no
    game has it; before the database is loaded, or for a NULL text, it
    returns -1. *)
Theorem find_game_by_title_id_first (st : engine) (t : string) :
  let r := xemu_patches_find_game_by_title_id st (Some t) in
  let gs := game_list (g_patches_db st) in
  xemu_patches_find_game_by_title_id st None = -1 /\
  (B st g_patches_loaded = false -> r = -1) /\
  (B st g_patches_loaded = true ->
   (r = -1 /\ forall game, game ∈ gs -> title_id game <> Some t)
   \/ exists (k : nat) game,
        r = Z.of_nat k /\ gs !! k = Some game /\ title_id game = Some t /\
        forall (j : nat) g', (j < k)%nat -> gs !! j = Some g' ->
                             title_id g' <> Some t).
Proof.
  intros r gs. subst r. unfold xemu_patches_find_game_by_title_id.
  split; [done|]. split; [by intros ->|]. intros ->. simpl. fold gs.
  assert (forall i,
    (find_title_from gs i t = -1 /\
     forall game, game ∈ gs -> title_id game <> Some t)
    \/ exists (k : nat) game,
         find_title_from gs i t = i + Z.of_nat k /\ gs !! k = Some game /\
         title_id game = Some t /\
         forall (j : nat) g', (j < k)%nat -> gs !! j = Some g' ->
                              title_id g' <> Some t) as H.
  { clear. induction gs as [|game gs IH]; intros i; simpl.
    - left. split; [done|]. intros game Hg. inversion Hg.
    - case_bool_decide as Hm.
      + right. exists 0%nat, game. split; [lia|]. split; [done|].
        split; [done|]. intros j g' Hj. lia.
      + destruct (IH (i + 1)) as [[Hr Hall]|(k & g & Hr & Hk & Hs & Hfirst)].
        * left. split; [done|]. intros g' Hg'.
          apply elem_of_cons in Hg' as [->|Hg']; [done|by apply Hall].
        * right. exists (S k), g. split; [lia|]. split; [done|].
          split; [done|]. intros [|j] g' Hj Hg'; simpl in Hg'.
          -- by injection Hg' as <-.
          -- apply (Hfirst j); [lia|done]. }
  destruct (H 0) as [?|(k & g & Hr & ?)]; [by left|].
  right. exists k, g. split; [lia|done].
Qed.

(** X7.  [xemu_patches_remove_patch] with valid indices takes the patch
    out of its game, keeps the other games, marks the database dirty and
    drops from the saved-value store exactly the entries recorded under
    that game and patch index; the entries of the other patches stay, with
    the indices they were recorded under. *)
Theorem remove_patch_exact (st : engine) (gi pi : Z) (game : XemuGamePatches) :
  0 <= gi -> at_index (game_list (g_patches_db st)) gi = Some game ->
  0 <= pi < patch_count game ->
  let r := xemu_patches_remove_patch st gi pi in
  fst r = true /\
  game_list (g_patches_db (snd r))
    = <[Z.to_nat gi := set_patches game (remove_at (patches game) pi)]>
        (game_list (g_patches_db st)) /\
  dirty (g_patches_db (snd r)) = true /\
  g_saved_values (snd r)
    ≡ₚ filter (fun s => (sv_game_index s =? gi) && (sv_patch_index s =? pi)
                        = false) (g_saved_values st) /\
  the_guest (snd r) = the_guest st /\ files (snd r) = files st.
Proof.
  intros Hgi Hgame Hpi r. subst r. unfold xemu_patches_remove_patch.
  assert (gi < game_count (g_patches_db st)) as Hlt.
  { apply lookup_lt_Some in Hgame. unfold game_count. lia. }
  rewrite in_range_true by lia. simpl. rewrite Hgame.
  rewrite in_range_true by done. simpl.
  repeat split.
  apply clear_loop_perm; [lia|]. intros j s Hj. lia.
Qed.

Lemma remove_patch_exact_witness :
  fst (xemu_patches_remove_patch patched_engine 0 0) = true /\
  g_saved_values (snd (xemu_patches_remove_patch patched_engine 0 0)) = [].
Proof.
  destruct (remove_patch_exact patched_engine 0 0
              (MkGame (Some "Halo") (Some "NTSC") (Some "4D530004")
                 (Some "1.0.0.0") None None None [sample_patch] true))
    as (H1 & _ & _ & H4 & _); [lia|reflexivity|by vm_compute|].
  split; [exact H1|]. apply Permutation_nil_r. rewrite H4. reflexivity.
Defined.

(** The flag is stored whatever happens to guest memory. *)
Lemma set_patch_enabled_result (e : env) (st : engine) (gi pi : Z)
    (enable : bool) (game : XemuGamePatches) (patch : XemuMemoryPatch) :
  0 <= gi -> at_index (game_list (g_patches_db st)) gi = Some game ->
  0 <= pi -> at_index (patches game) pi = Some patch ->
  let r := xemu_patches_set_patch_enabled e st gi pi enable in
  fst r = true /\
  game_list (g_patches_db (snd r))
    = <[Z.to_nat gi :=
          set_patches game
            (<[Z.to_nat pi := set_enabled patch enable]> (patches game))]>
        (game_list (g_patches_db st)).
Proof.
  intros Hgi Hgame Hpi Hpatch r. subst r.
  unfold xemu_patches_set_patch_enabled.
  assert (gi < game_count (g_patches_db st)) as Hlt.
  { apply lookup_lt_Some in Hgame. unfold game_count. lia. }
  assert (pi < patch_count game) as Hlt'.
  { apply lookup_lt_Some in Hpatch. unfold patch_count. lia. }
  rewrite in_range_true by lia. simpl. rewrite Hgame.
  rewrite in_range_true by lia. simpl. rewrite Hpatch.
  set (st1 := set_db _ st).
  assert (game_list (g_patches_db st1)
          = <[Z.to_nat gi :=
                set_patches game
                  (<[Z.to_nat pi := set_enabled patch enable]> (patches game))]>
              (game_list (g_patches_db st))) as Hdb by done.
  assert (forall s,
            game_list (g_patches_db s) = game_list (g_patches_db st1) ->
            forall t,
            let f :=
              let st2 := mark_dirty true s in
              let '(saved, st3) := xemu_patches_save_database e st2 in
              (true, if saved then xemu_queue_notification t st3 else st3) in
            fst f = true /\
            game_list (g_patches_db (snd f)) = game_list (g_patches_db st1))
    as Hfinish.
  { intros s Hs t f. subst f. cbv zeta.
    destruct (xemu_patches_save_database e (mark_dirty true s)) as [saved st3] eqn:Es.
    apply save_database_games in Es. simpl. split; [done|].
    unfold game_list in *. destruct saved; simpl; rewrite Es; simpl; exact Hs. }
  rewrite <- Hdb.
  destruct (enable && negb (enabled patch)) eqn:E1.
  - destruct (negb (is_game_currently_running st1)); [done|].
    cbn [address_values set_enabled].
    destruct (address_values patch) eqn:Ea.
    + apply (Hfinish st1 eq_refl).
    + destruct (xemu_patches_apply_patch_with_save_restore e st1
                  (set_enabled patch enable) gi pi) as [ok st2] eqn:Eap.
      apply apply_patch_db in Eap. apply Hfinish.
      destruct ok; simpl; by rewrite Eap.
  - destruct (negb enable && enabled patch) eqn:E2.
    + destruct (xemu_patches_remove_patch_with_restore e st1 gi pi)
        as [ok st2] eqn:Erm.
      apply remove_patch_with_restore_db in Erm. apply Hfinish.
      destruct ok; simpl; by rewrite Erm.
    + apply Hfinish. done.
Qed.

(** X8.  [xemu_patches_set_patch_enabled] with valid indices returns
    [true] and stores the flag: afterwards the database differs from the one
    before in the enabled flag of that one patch only, whether or not the
    patch could be written to or restored in guest memory. *)
Theorem set_patch_enabled_stores_flag (e : env) (st : engine) (gi pi : Z)
    (enable : bool) (game : XemuGamePatches) (patch : XemuMemoryPatch) :
  0 <= gi -> at_index (game_list (g_patches_db st)) gi = Some game ->
  0 <= pi -> at_index (patches game) pi = Some patch ->
  let r := xemu_patches_set_patch_enabled e st gi pi enable in
  fst r = true /\
  game_list (g_patches_db (snd r))
    = <[Z.to_nat gi :=
          set_patches game
            (<[Z.to_nat pi := set_enabled patch enable]> (patches game))]>
        (game_list (g_patches_db st)).
Proof. by apply set_patch_enabled_result. Qed.

Lemma set_patch_enabled_stores_flag_witness :
  map (fun g => map enabled (patches g))
      (game_list (g_patches_db
         (snd (xemu_patches_set_patch_enabled sample_env loaded_engine 0 0 true))))
    = [[true]].
Proof.
  destruct (set_patch_enabled_stores_flag sample_env loaded_engine 0 0 true
              (MkGame (Some "Halo") (Some "NTSC") (Some "4D530004")
                 (Some "1.0.0.0") None None None
                 [set_enabled sample_patch false] true)
              (set_enabled sample_patch false))
    as (_ & H); [lia|reflexivity|lia|reflexivity|].
  rewrite H. reflexivity.
Defined.

(** ** Text of the database file *)

(** [String.append] on a string whose head is known. *)
Ltac app_simpl :=
  repeat first
    [ progress change (String ?c ?a +:+ ?b) with (String c (a +:+ b))
    | progress change (EmptyString +:+ ?b) with b ].

Section HexText.

(** Every character of a string passes a test. *)
Fixpoint all_chars (f : ascii -> bool) (s : string) : bool :=
  match s with
  | EmptyString => true
  | String c r => f c && all_chars f r
  end.

Definition is_hex (c : ascii) : bool :=
  match hex_value_of c with Some _ => true | None => false end.

(** What the parsers need of a character of the hexadecimal notation. *)
Definition plain_hex (c : ascii) : bool :=
  is_hex c && negb (isspace c) && negb (Ascii.eqb c ":")
  && negb (Ascii.eqb c "#") && negb (Ascii.eqb c "/")
  && negb (Ascii.eqb c (ascii_of_nat 10)) && negb (Ascii.eqb c ",")
  && negb (Ascii.eqb c "x") && negb (Ascii.eqb c "X").

Lemma append_assoc' (a b c : string) : (a +:+ b) +:+ c = a +:+ (b +:+ c).
Proof. induction a as [|x a IH]; app_simpl; congruence. Qed.

Lemma append_nil_r (a : string) : a +:+ "" = a.
Proof. induction a as [|x a IH]; app_simpl; congruence. Qed.

Lemma length_append (a b : string) :
  String.length (a +:+ b) = (String.length a + String.length b)%nat.
Proof. induction a as [|x a IH]; app_simpl; simpl; congruence. Qed.

Lemma all_chars_app f a b :
  all_chars f (a +:+ b) = all_chars f a && all_chars f b.
Proof.
  induction a as [|x a IH]; app_simpl; simpl; [done|]. by rewrite IH, andb_assoc.
Qed.

Lemma all_chars_impl (f g : ascii -> bool) s :
  (forall c, f c = true -> g c = true) ->
  all_chars f s = true -> all_chars g s = true.
Proof.
  intros H. induction s as [|c s IH]; simpl; [done|].
  rewrite !andb_true_iff. intros [? ?]. auto.
Qed.

Lemma hex_digit_cases (P : Z -> Prop) :
  P 0 -> P 1 -> P 2 -> P 3 -> P 4 -> P 5 -> P 6 -> P 7 -> P 8 -> P 9 ->
  P 10 -> P 11 -> P 12 -> P 13 -> P 14 -> P 15 ->
  forall n, 0 <= n < 16 -> P n.
Proof.
  intros H0 H1 H2 H3 H4 H5 H6 H7 H8 H9 H10 H11 H12 H13 H14 H15 n Hn.
  assert (Z.to_nat n < 16)%nat as Hk by lia.
  rewrite <- (Z2Nat.id n) by lia. revert Hk.
  generalize (Z.to_nat n) as k. intros k Hk.
  do 16 (destruct k as [|k]; [assumption|]). lia.
Qed.

Lemma hex_digit_value n : 0 <= n < 16 -> hex_value_of (hex_digit n) = Some n.
Proof. revert n. apply hex_digit_cases; reflexivity. Qed.

Lemma hex_digit_plain n : 0 <= n < 16 -> plain_hex (hex_digit n) = true.
Proof. revert n. apply hex_digit_cases; reflexivity. Qed.

Lemma hex_fixed_plain n : forall v, 0 <= v -> all_chars plain_hex (hex_fixed n v) = true.
Proof.
  induction n as [|n IH]; intros v Hv; simpl; [done|].
  rewrite all_chars_app, IH by (apply Z.div_pos; lia). simpl.
  rewrite hex_digit_plain by (apply Z.mod_pos_bound; lia). done.
Qed.

Lemma hex_fixed_length n v : String.length (hex_fixed n v) = n.
Proof.
  revert v. induction n as [|n IH]; intros v; simpl; [done|].
  rewrite length_append, IH. simpl. lia.
Qed.

Lemma hex_value_plain bytes :
  Forall (fun b => 0 <= b) bytes -> all_chars plain_hex (hex_value bytes) = true.
Proof.
  induction 1 as [|b bs Hb _ IH]; [done|].
  change (hex_value (b :: bs)) with (hex_fixed 2 b +:+ hex_value bs).
  rewrite all_chars_app, IH, hex_fixed_plain by done. done.
Qed.

Lemma hex_value_length bytes :
  String.length (hex_value bytes) = (2 * length bytes)%nat.
Proof.
  induction bytes as [|b bs IH]; [done|].
  change (hex_value (b :: bs)) with (hex_fixed 2 b +:+ hex_value bs).
  rewrite length_append, hex_fixed_length, IH. simpl. lia.
Qed.

(** [strtoul]'s digit loop reads a fixed-width hexadecimal number back. *)
Lemma digits_hex_fixed n : forall v acc seen rest,
  0 <= v < 16 ^ Z.of_nat n ->
  digits 16 (hex_fixed n v +:+ rest) acc seen
  = digits 16 rest (acc * 16 ^ Z.of_nat n + v) (seen || (0 <? n)%nat).
Proof.
  induction n as [|n IH]; intros v acc seen rest Hv.
  - simpl in *. assert (v = 0) as -> by lia.
    rewrite orb_false_r. f_equal. lia.
  - rewrite Nat2Z.inj_succ, Z.pow_succ_r in * by lia.
    cbn [hex_fixed]. rewrite append_assoc'.
    rewrite IH by (split; [apply Z.div_pos; lia|apply Z.div_lt_upper_bound; lia]).
    app_simpl. cbn [digits]. unfold digit_value_of.
    rewrite hex_digit_value by (apply Z.mod_pos_bound; lia).
    destruct (Z.ltb_spec (v mod 16) 16) as [_|Hbad];
      [|pose proof (Z.mod_pos_bound v 16); lia].
    replace ((0 <? S n)%nat) with true by done. rewrite orb_true_r.
    f_equal. pose proof (Z.div_mod v 16). lia.
Qed.

Lemma g_strchug_plain s :
  match s with String c _ => isspace c = false | EmptyString => True end ->
  g_strchug s = s.
Proof. destruct s as [|c s]; simpl; [done|]. by intros ->. Qed.

Lemma g_strchomp_plain s :
  all_chars (fun c => negb (isspace c)) s = true -> g_strchomp s = s.
Proof.
  induction s as [|c s IH]; simpl; [done|].
  rewrite andb_true_iff, negb_true_iff. intros [Hc Hs].
  rewrite (IH Hs). destruct s; [by rewrite Hc|done].
Qed.

Lemma split_at_first a b c :
  all_chars (fun x => negb (Ascii.eqb x c)) a = true ->
  split_at (a +:+ String c b) c = Some (a, b).
Proof.
  induction a as [|x a IH]; app_simpl; simpl.
  - intros _. by rewrite Ascii.eqb_refl.
  - rewrite andb_true_iff, negb_true_iff. intros [-> Ha]. by rewrite (IH Ha).
Qed.

Lemma split_at_none s c :
  all_chars (fun x => negb (Ascii.eqb x c)) s = true -> split_at s c = None.
Proof.
  induction s as [|x s IH]; simpl; [done|].
  rewrite andb_true_iff, negb_true_iff. intros [-> Hs]. by rewrite (IH Hs).
Qed.

Lemma index_none_slash s :
  all_chars (fun x => negb (Ascii.eqb x "/")) s = true ->
  String.index 0 "//" s = None.
Proof.
  induction s as [|x s IH]; [done|]. cbn [all_chars].
  rewrite andb_true_iff, negb_true_iff. intros [Hx Hs].
  cbn [String.index String.prefix].
  destruct (ascii_dec "/" x) as [<-|_]; [done|]. by rewrite (IH Hs).
Qed.

Lemma strip_comment_plain s :
  all_chars (fun x => negb (Ascii.eqb x "#")) s = true ->
  all_chars (fun x => negb (Ascii.eqb x "/")) s = true ->
  strip_comment s = s.
Proof.
  intros Hh Hs. unfold strip_comment, strchr, strstr.
  by rewrite (split_at_none _ _ Hh), (index_none_slash _ Hs).
Qed.

Lemma substring_all s : substring 0 (String.length s) s = s.
Proof. induction s as [|c s IH]; simpl; [done|]. by rewrite IH. Qed.

Lemma substring_skip a b n :
  substring (String.length a) n (a +:+ b) = substring 0 n b.
Proof. induction a as [|c a IH]; app_simpl; simpl; [done|]. exact IH. Qed.

End HexText.


Section CanonicalLine.

Lemma plain_hex_facts c :
  plain_hex c = true ->
  is_hex c = true /\ isspace c = false /\ Ascii.eqb c ":" = false /\
  Ascii.eqb c "#" = false /\ Ascii.eqb c "/" = false /\
  Ascii.eqb c (ascii_of_nat 10) = false /\ Ascii.eqb c "," = false /\
  Ascii.eqb c "x" = false /\ Ascii.eqb c "X" = false.
Proof.
  unfold plain_hex. rewrite !andb_true_iff, !negb_true_iff. tauto.
Qed.

Lemma plain_no (f : ascii -> bool) s :
  (forall c, plain_hex c = true -> f c = true) ->
  all_chars plain_hex s = true -> all_chars f s = true.
Proof. apply all_chars_impl. Qed.

Lemma plain_no_space s :
  all_chars plain_hex s = true ->
  all_chars (fun c => negb (isspace c)) s = true.
Proof.
  apply plain_no. intros c Hc. apply plain_hex_facts in Hc.
  apply negb_true_iff. tauto.
Qed.

Lemma plain_no_char s (x : ascii) :
  plain_hex x = false ->
  all_chars plain_hex s = true ->
  all_chars (fun c => negb (Ascii.eqb c x)) s = true.
Proof.
  intros Hx. apply plain_no. intros c Hc. apply negb_true_iff.
  destruct (Ascii.eqb_spec c x) as [->|]; [congruence|done].
Qed.

(** [strtoul(.., 16)] reads ["0x%08X"] back. *)
Lemma strtoul16_hex8 a :
  0 <= a < 2 ^ 32 -> strtoul16 ("0x" +:+ hex_fixed 8 a) = (a, "").
Proof.
  intros Ha. unfold strtoul16.
  pose proof (hex_fixed_plain 8 a ltac:(lia)) as Hp.
  pose proof (hex_fixed_length 8 a) as Hl.
  pose proof (digits_hex_fixed 8 a 0 false "" ltac:(simpl; lia)) as Hd.
  rewrite append_nil_r in Hd.
  destruct (hex_fixed 8 a) as [|h r] eqn:E; [discriminate|].
  simpl in Hp. apply andb_true_iff in Hp as [Hh _].
  apply plain_hex_facts in Hh as (Hh & _). unfold is_hex in Hh.
  app_simpl. cbn [g_strchug]. change (isspace "0") with false. cbv iota.
  cbn [take_sign]. cbn [skip_0x].
  destruct (hex_value_of h) eqn:Ehv; [|discriminate].
  simpl (_ && _). cbv iota. rewrite Hd. simpl (_ || _). cbv iota.
  change (0 * 16 ^ Z.of_nat 8 + a) with (0 + a). rewrite Z.add_0_l.
  cbn [digits].
  destruct (Z.geb_spec a (2 ^ 64)); [lia|]. done.
Qed.

Definition byte_reads_back (k : nat) : bool :=
  bool_decide (strtol16 (hex_fixed 2 (Z.of_nat k)) = (Z.of_nat k, "")).

Lemma strtol16_byte b :
  0 <= b < 256 -> strtol16 (hex_fixed 2 b) = (b, "").
Proof.
  intros Hb.
  assert (forallb byte_reads_back (seq 0 256) = true) as H by (by vm_compute).
  rewrite forallb_forall in H.
  specialize (H (Z.to_nat b)). unfold byte_reads_back in H.
  rewrite Z2Nat.id in H by lia. apply bool_decide_eq_true in H; [done|].
  apply in_seq. lia.
Qed.

(** The byte loop reads ["%02X%02X.."] back. *)
Lemma hex_pairs_value bytes : forall fuel,
  Forall (fun b => 0 <= b < 256) bytes ->
  (length bytes <= fuel)%nat ->
  hex_pairs fuel (hex_value bytes) = Some bytes.
Proof.
  induction bytes as [|b bs IH]; intros fuel Hall Hf.
  - destruct fuel; done.
  - destruct fuel as [|k]; [simpl in Hf; lia|].
    apply Forall_cons in Hall as [Hb Hbs].
    change (hex_value (b :: bs)) with (hex_fixed 2 b +:+ hex_value bs).
    cbn [hex_fixed]. app_simpl. cbn [hex_pairs].
    change (String (hex_digit (b / 16 mod 16)) (String (hex_digit (b mod 16)) ""))
      with (hex_fixed 2 b).
    rewrite strtol16_byte by done. cbn [is_empty].
    rewrite IH by (done || simpl in Hf; lia).
    by rewrite Z.mod_small by lia.
Qed.

(** The text of a pair as [xemu_patches_save_database] prints it, without
    the indentation and the newline. *)
Definition pair_text (av : XemuPatchAddressValue) : string :=
  "0x" +:+ hex_fixed 8 (address av) +:+ ": 0x" +:+ hex_value (value_data av).

(** A pair as the C structure holds it: a 32-bit address, bytes. *)
Definition well_formed_pair (av : XemuPatchAddressValue) : Prop :=
  0 <= address av < 2 ^ 32 /\
  Forall (fun b => 0 <= b < 256) (value_data av).

Lemma canonical_line_text av :
  canonical_line av = "      " +:+ pair_text av +:+ nl.
Proof. unfold canonical_line, pair_text. app_simpl. by rewrite !append_assoc'. Qed.

Lemma pair_text_plain av (x : ascii) :
  well_formed_pair av -> plain_hex x = false ->
  x <> "x"%char -> x <> ":"%char -> x <> " "%char -> x <> "0"%char ->
  all_chars (fun c => negb (Ascii.eqb c x)) (pair_text av) = true.
Proof.
  intros [Ha Hb] Hx H1 H2 H3 H4. unfold pair_text.
  assert (forall y : ascii, y <> x -> negb (Ascii.eqb y x) = true) as Hne.
  { intros y Hy. apply negb_true_iff. by apply Ascii.eqb_neq. }
  app_simpl. cbn [all_chars]. rewrite !all_chars_app. cbn [all_chars].
  rewrite !Hne by done.
  assert (Forall (fun b => 0 <= b) (value_data av)) as Hb0.
  { eapply Forall_impl; [exact Hb|]. simpl. intros. lia. }
  rewrite (plain_no_char _ x Hx (hex_fixed_plain 8 (address av) ltac:(lia))).
  rewrite (plain_no_char _ x Hx (hex_value_plain _ Hb0)).
  done.
Qed.

Lemma parse_address_line_pair_text av (pad : string) :
  well_formed_pair av ->
  all_chars (fun c => Ascii.eqb c " ") pad = true ->
  parse_address_line (pad +:+ pair_text av) = Some av.
Proof.
  intros Hwf Hpad. pose proof Hwf as [Ha Hb].
  assert (Forall (fun b => 0 <= b) (value_data av)) as Hb0.
  { eapply Forall_impl; [exact Hb|]. simpl. intros. lia. }
  pose proof (hex_fixed_plain 8 (address av) ltac:(lia)) as HH.
  pose proof (hex_value_plain _ Hb0) as HV.
  unfold parse_address_line.
  assert (forall x : ascii, x <> " "%char ->
            all_chars (fun c => negb (Ascii.eqb c x)) pad = true) as Hpadx.
  { intros x Hx. eapply all_chars_impl; [|exact Hpad].
    intros c Hc. apply Ascii.eqb_eq in Hc as ->. apply negb_true_iff.
    apply Ascii.eqb_neq. congruence. }
  rewrite strip_comment_plain.
  2:{ rewrite all_chars_app, Hpadx by done. by apply pair_text_plain. }
  2:{ rewrite all_chars_app, Hpadx by done. by apply pair_text_plain. }
  unfold pair_text.
  replace (pad +:+ "0x" +:+ hex_fixed 8 (address av) +:+ ": 0x"
           +:+ hex_value (value_data av))
    with ((pad +:+ "0x" +:+ hex_fixed 8 (address av))
          +:+ String ":" (" 0x" +:+ hex_value (value_data av))).
  2:{ rewrite ?append_assoc'. app_simpl. by rewrite ?append_assoc'. }
  rewrite split_at_first.
  2:{ rewrite all_chars_app, Hpadx by done. app_simpl. cbn [all_chars].
      rewrite (plain_no_char _ ":" eq_refl HH). done. }
  assert (g_strstrip (pad +:+ "0x" +:+ hex_fixed 8 (address av))
          = "0x" +:+ hex_fixed 8 (address av)) as ->.
  { unfold g_strstrip.
    assert (g_strchug (pad +:+ "0x" +:+ hex_fixed 8 (address av))
            = "0x" +:+ hex_fixed 8 (address av)) as ->.
    { clear -Hpad. induction pad as [|c p IH]; app_simpl.
      - cbn [g_strchug]. by change (isspace "0") with false.
      - simpl in Hpad. apply andb_true_iff in Hpad as [Hc Hp].
        apply Ascii.eqb_eq in Hc as ->. cbn [g_strchug].
        change (isspace " ") with true. cbv iota. exact (IH Hp). }
    apply g_strchomp_plain. app_simpl. cbn [all_chars].
    by rewrite (plain_no_space _ HH). }
  assert (g_strstrip (" 0x" +:+ hex_value (value_data av))
          = "0x" +:+ hex_value (value_data av)) as ->.
  { unfold g_strstrip. app_simpl. cbn [g_strchug].
    change (isspace " ") with true. cbv iota. change (isspace "0") with false.
    cbv iota. apply g_strchomp_plain. cbn [all_chars].
    by rewrite (plain_no_space _ HV). }
  rewrite strtoul16_hex8 by done. cbn [is_empty negb].
  app_simpl. unfold g_str_has_prefix. cbn [String.prefix].
  destruct (ascii_dec "0" "0"); [|done]. destruct (ascii_dec "x" "x"); [|done].
  unfold drop_chars. cbn [String.length]. 
  replace (S (S (String.length (hex_value (value_data av)))) - 2)%nat
    with (String.length (hex_value (value_data av))) by lia.
  cbn [substring]. rewrite substring_all.
  assert (String.prefix "" (hex_value (value_data av)) = true) as ->
    by (by destruct (hex_value (value_data av))).
  rewrite hex_pairs_value; [|done|rewrite hex_value_length; lia].
  unfold u32. rewrite Z.mod_small by lia. by destruct av.
Qed.

End CanonicalLine.


Section AddressBlock.

Lemma no_newline_plain av :
  well_formed_pair av ->
  all_chars (fun c => negb (Ascii.eqb c (ascii_of_nat 10))) (pair_text av) = true.
Proof.
  intros H. apply pair_text_plain; try done.
Qed.

Lemma fgets_chunk_line line rest : forall room,
  all_chars (fun c => negb (Ascii.eqb c (ascii_of_nat 10))) line = true ->
  (String.length line < room)%nat ->
  fgets_chunk room (line +:+ nl +:+ rest) = (line +:+ nl, rest).
Proof.
  induction line as [|c line IH]; intros room Hl Hr.
  - destruct room; [simpl in Hr; lia|]. done.
  - destruct room as [|room]; [simpl in Hr; lia|].
    simpl in Hl. apply andb_true_iff in Hl as [Hc Hl].
    apply negb_true_iff in Hc. app_simpl. cbn [fgets_chunk]. rewrite Hc.
    rewrite IH by (done || simpl in Hr; lia). done.
Qed.

Lemma substring_take a b :
  substring 0 (String.length a) (a +:+ b) = a.
Proof.
  induction a as [|c a IH]; app_simpl; simpl; [by destruct b|]. by rewrite IH.
Qed.

Lemma chop_newline_line line : chop_newline (line +:+ nl) = line.
Proof.
  unfold chop_newline, drop_chars, take_chars.
  rewrite length_append. change (String.length nl) with 1%nat.
  replace (String.length line + 1 - 1)%nat with (String.length line) by lia.
  replace (String.length line + 1 - String.length line)%nat with 1%nat by lia.
  rewrite substring_skip. change (substring 0 1 nl) with nl.
  rewrite String.eqb_refl. apply substring_take.
Qed.

Lemma read_lines_line line rest fuel :
  all_chars (fun c => negb (Ascii.eqb c (ascii_of_nat 10))) line = true ->
  (String.length line < 1000)%nat ->
  read_lines (S fuel) (line +:+ nl +:+ rest) = line :: read_lines fuel rest.
Proof.
  intros Hl Hlen. cbn [read_lines].
  rewrite fgets_chunk_line by (done || lia).
  rewrite chop_newline_line.
  assert ((1000 <? String.length (line +:+ nl))%nat = false) as ->.
  { apply Nat.ltb_ge. rewrite length_append. change (String.length nl) with 1%nat.
    lia. }
  destruct (line +:+ nl +:+ rest) eqn:E; [|done].
  destruct line; discriminate.
Qed.

Lemma g_strchomp_app a b :
  g_strchomp b <> "" -> g_strchomp (a +:+ b) = a +:+ g_strchomp b.
Proof.
  intros Hb. induction a as [|c a IH]; app_simpl; [done|].
  cbn [g_strchomp]. rewrite IH.
  destruct (a +:+ g_strchomp b) eqn:E; [|done].
  destruct a; [exfalso; exact (Hb E)|].
  exfalso. revert E. app_simpl. discriminate.
Qed.

Lemma g_strstrip_pair_text av (pad : string) :
  well_formed_pair av ->
  all_chars (fun c => Ascii.eqb c " ") pad = true ->
  g_strstrip (pad +:+ pair_text av) = pair_text av.
Proof.
  intros [Ha Hb] Hpad. unfold g_strstrip.
  assert (g_strchug (pad +:+ pair_text av) = pair_text av) as ->.
  { clear -Hpad. induction pad as [|c p IH]; app_simpl.
    - unfold pair_text. app_simpl. cbn [g_strchug].
      by change (isspace "0") with false.
    - simpl in Hpad. apply andb_true_iff in Hpad as [Hc Hp].
      apply Ascii.eqb_eq in Hc as ->. cbn [g_strchug].
      change (isspace " ") with true. cbv iota. exact (IH Hp). }
  unfold pair_text.
  replace ("0x" +:+ hex_fixed 8 (address av) +:+ ": 0x"
           +:+ hex_value (value_data av))
    with (("0x" +:+ hex_fixed 8 (address av) +:+ ": ")
          +:+ ("0x" +:+ hex_value (value_data av))).
  2:{ rewrite ?append_assoc'. app_simpl. by rewrite ?append_assoc'. }
  assert (g_strchomp ("0x" +:+ hex_value (value_data av))
          = "0x" +:+ hex_value (value_data av)) as Hc.
  { apply g_strchomp_plain. app_simpl. cbn [all_chars].
    rewrite plain_no_space; [done|].
    apply hex_value_plain. eapply Forall_impl; [exact Hb|]. simpl. intros. lia. }
  rewrite g_strchomp_app; rewrite Hc; [done|]. by app_simpl.
Qed.

(** The line of a pair in the file, without its newline. *)
Definition pair_line (av : XemuPatchAddressValue) : string :=
  "      " +:+ pair_text av.

Lemma address_loop_pair_lines pairs : forall acc kept,
  Forall well_formed_pair pairs ->
  address_loop (map pair_line pairs) acc kept
  = (acc ++ pairs, kept ++ map pair_text pairs, []).
Proof.
  induction pairs as [|av pairs IH]; intros acc kept Hall.
  - simpl. by rewrite !app_nil_r.
  - apply Forall_cons in Hall as [Hav Hall].
    cbn [map address_loop].
    assert (is_empty (pair_line av)
            || first_char_is (pair_line av) (ascii_of_nat 10) = false) as ->.
    { unfold pair_line. by app_simpl. }
    assert (g_strstrip (pair_line av) = pair_text av) as Hs
      by exact (g_strstrip_pair_text av "      " Hav eq_refl).
    assert (parse_address_line (pair_line av) = Some av) as Hp
      by exact (parse_address_line_pair_text av "      " Hav eq_refl).
    rewrite !Hs, Hp.
    assert (exists r, pair_text av = String "0" (String "x" r)) as [r Er].
    { unfold pair_text. app_simpl. by eexists. }
    rewrite Er.
    cbn [is_empty first_char_is orb andb]. change (Ascii.eqb "0" " ") with false.
    cbn [andb orb]. unfold g_str_has_prefix. cbn [String.prefix].
    destruct (ascii_dec "P" "0"); [discriminate|].
    destruct (ascii_dec "A" "0"); [discriminate|].
    destruct (ascii_dec "C" "0"); [discriminate|].
    destruct (ascii_dec "N" "0"); [discriminate|].
    cbn [orb]. rewrite <- Er.
    rewrite IH by done. by rewrite <- !app_assoc.
Qed.

Lemma file_lines_block pairs : forall rest fuel,
  Forall well_formed_pair pairs ->
  Forall (fun av => (length (value_data av) <= 489)%nat) pairs ->
  (length pairs <= fuel)%nat ->
  read_lines (fuel + String.length rest)
             (concat_strings (map canonical_line pairs) +:+ rest)
  = map pair_line pairs ++ read_lines (fuel - length pairs + String.length rest) rest.
Proof.
  induction pairs as [|av pairs IH]; intros rest fuel Hwf Hlen Hf.
  - simpl. app_simpl. by rewrite Nat.sub_0_r.
  - apply Forall_cons in Hwf as [Hav Hwf]. apply Forall_cons in Hlen as [Hl Hlen].
    destruct fuel as [|fuel]; [simpl in Hf; lia|].
    cbn [map concat_strings foldr].
    change (foldr String.append "" (map canonical_line pairs))
      with (concat_strings (map canonical_line pairs)).
    rewrite canonical_line_text. fold (pair_line av).
    rewrite !append_assoc'.
    change (S fuel + String.length rest)%nat
      with (S (fuel + String.length rest)).
    rewrite <- (append_assoc' "      " (pair_text av)). fold (pair_line av).
    rewrite read_lines_line.
    + rewrite IH by (done || simpl in Hf; lia). done.
    + unfold pair_line. app_simpl. cbn [all_chars].
      change (negb (Ascii.eqb " " (ascii_of_nat 10))) with true. cbn [andb].
      by apply no_newline_plain.
    + unfold pair_line, pair_text. rewrite !length_append.
      rewrite hex_fixed_length, hex_value_length. simpl. lia.
Qed.

End AddressBlock.

(** X9.  The address block of a patch survives the file: the lines that
    [xemu_patches_save_database] prints for the pairs of a patch without
    preserved lines (["      0x%08X: 0x%02X%02X.."]) are split into lines
    again by the reader and parsed by the loader into the same pairs, in
    order, for 32-bit addresses and values of up to 127 bytes, the most
    whose digits the save's 256-byte buffer [hex_value] holds; the lines
    the loader preserves print as the same block the next time. *)
Theorem saved_pairs_read_back (pairs : list XemuPatchAddressValue) :
  Forall well_formed_pair pairs ->
  Forall (fun av => (length (value_data av) <= 127)%nat) pairs ->
  let block := concat_strings (map canonical_line pairs) in
  address_loop (file_lines block) [] [] = (pairs, map pair_text pairs, []) /\
  concat_strings (map preserved_line (map pair_text pairs)) = block.
Proof.
  intros Hwf Hshort block.
  assert (Forall (fun av => (length (value_data av) <= 489)%nat) pairs) as Hlen.
  { eapply Forall_impl; [exact Hshort|]. simpl. intros av Hav. lia. }
  split.
  - unfold file_lines.
    pose proof (file_lines_block pairs "" (String.length block) Hwf Hlen) as H.
    rewrite append_nil_r, Nat.add_0_r in H.
    assert (length pairs <= String.length block)%nat as Hf.
    { subst block. clear. unfold concat_strings.
      induction pairs as [|av l IH]; [simpl; lia|].
      cbn [map foldr length]. rewrite length_append, canonical_line_text.
      rewrite length_append. change (String.length "      ") with 6%nat. lia. }
    fold block in H. rewrite (H Hf).
    assert (forall n, read_lines n "" = []) as -> by (by intros []).
    rewrite app_nil_r. by apply address_loop_pair_lines.
  - subst block. clear. unfold concat_strings.
    induction pairs as [|av l IH]; [done|].
    cbn [map foldr]. rewrite IH, canonical_line_text. done.
Qed.

Lemma saved_pairs_read_back_witness :
  address_loop
    (file_lines
       (concat_strings
          (map canonical_line [MkAddressValue 0x00123456 [0xDE; 0xAD; 0xBE; 0xEF]])))
    [] []
  = ([MkAddressValue 0x00123456 [0xDE; 0xAD; 0xBE; 0xEF]],
     ["0x00123456: 0xDEADBEEF"], []).
Proof.
  refine (proj1 (saved_pairs_read_back
                   [MkAddressValue 0x00123456 [0xDE; 0xAD; 0xBE; 0xEF]] _ _)).
  - repeat constructor; simpl; lia.
  - repeat constructor; simpl; lia.
Defined.


(** ** The patch editor's parser *)

Section EditorParser.

Definition is_value_delim (c : ascii) : bool := is_blank c || Ascii.eqb c ",".

Lemma tokens_aux_one delim s : forall cur,
  all_chars (fun c => negb (delim c)) s = true ->
  tokens_aux delim s cur
  = match cur +:+ s with EmptyString => [] | t => [t] end.
Proof.
  induction s as [|c s IH]; intros cur Hs.
  - rewrite append_nil_r. by destruct cur.
  - simpl in Hs. apply andb_true_iff in Hs as [Hc Hs].
    apply negb_true_iff in Hc. cbn [tokens_aux]. rewrite Hc.
    rewrite IH by done. rewrite append_assoc'. by app_simpl.
Qed.

Lemma parse_bytes_one_token s :
  all_chars (fun c => negb (is_value_delim c)) s = true ->
  (length (parse_bytes s) <= 1)%nat.
Proof.
  intros Hs. unfold parse_bytes, strtok_all.
  fold is_value_delim.
  change (fun c : ascii => is_blank c || Ascii.eqb c ",") with is_value_delim.
  rewrite tokens_aux_one by done. app_simpl.
  destruct s; simpl; [lia|].
  destruct (sscanf_x _); simpl; [|lia]. destruct (_ <=? _); simpl; lia.
Qed.

Lemma u32_range x : 0 <= u32 x < 2 ^ 32.
Proof. unfold u32. apply Z.mod_pos_bound. lia. Qed.

Lemma sscanf_x_range s v : sscanf_x s = Some v -> 0 <= v < 2 ^ 32.
Proof.
  unfold sscanf_x. destruct (take_sign _) as [neg body].
  destruct (digits 16 _ 0 false) as [[x seen] rest].
  destruct seen; [|discriminate]. intros [= <-]. apply u32_range.
Qed.

Lemma sscanf_u_range s v : sscanf_u s = Some v -> 0 <= v < 2 ^ 32.
Proof.
  unfold sscanf_u. destruct (take_sign _) as [neg body].
  destruct (digits 10 _ 0 false) as [[x seen] rest].
  destruct seen; [|discriminate]. intros [= <-]. apply u32_range.
Qed.

(** What the parser hands out for a line. *)
Definition editor_pair_ok (av : XemuPatchAddressValue) : Prop :=
  0 <= address av < 2 ^ 32 /\ value_data av <> [] /\
  Forall (fun b => 0 <= b <= 255) (value_data av).

Lemma parse_bytes_range s : Forall (fun b => 0 <= b <= 255) (parse_bytes s).
Proof.
  unfold parse_bytes. induction (strtok_all s _) as [|t l IH]; simpl; [done|].
  destruct (sscanf_x t) as [v|] eqn:E; simpl; [|done].
  destruct (Z.leb_spec v 255); simpl; [|done].
  constructor; [|done]. apply sscanf_x_range in E. lia.
Qed.

Lemma parse_pair_line_ok line av :
  parse_pair_line line = Some av -> editor_pair_ok av.
Proof.
  unfold parse_pair_line.
  destruct (split_at line ":") as [[a b]|]; [|discriminate].
  destruct (_ && _); [|discriminate].
  destruct (parse_address (g_strstrip a)) as [addr|] eqn:Ea; [|discriminate].
  pose proof (parse_bytes_range (g_strstrip b)) as Hb.
  destruct (parse_bytes (g_strstrip b)) as [|x l] eqn:Eb; [discriminate|].
  intros [= <-]. split; [|split; [done|exact Hb]]. simpl.
  unfold parse_address in Ea.
  destruct (sscanf_x (g_strstrip a)) as [v|] eqn:Ex.
  - injection Ea as <-. by eapply sscanf_x_range.
  - by eapply sscanf_u_range.
Qed.

Lemma parse_pairs_loop_ok fuel : forall ptr pairs n,
  Forall editor_pair_ok pairs ->
  (Z.of_nat (length pairs) <= Z.max n 0) ->
  Forall editor_pair_ok (parse_pairs_loop fuel ptr pairs n) /\
  Z.of_nat (length (parse_pairs_loop fuel ptr pairs n)) <= Z.max n 0.
Proof.
  induction fuel as [|k IH]; intros ptr pairs n Hok Hn; [done|].
  cbn [parse_pairs_loop].
  destruct ptr as [|c0 r0]; [done|].
  destruct (Z.ltb_spec (Z.of_nat (length pairs)) n) as [Hlt|Hge];
    cbn [negb]; [|done].
  cbv zeta.
  destruct (skip_while is_blank (String c0 r0)) as [|c r] eqn:Ep; [done|].
  destruct (Ascii.eqb c "#" || Ascii.eqb c ";").
  - destruct (take_until is_newline (String c r)) as [x rest].
    by apply IH.
  - destruct (take_until is_newline (String c r)) as [line line_end].
    apply IH.
    + destruct line; [done|].
      destruct (parse_pair_line _) as [av|] eqn:El; [|done].
      apply Forall_app. split; [done|]. constructor; [|done].
      by eapply parse_pair_line_ok.
    + destruct line; [done|].
      destruct (parse_pair_line _) as [av|] eqn:El; [|done].
      rewrite length_app. simpl. lia.
Qed.

Lemma sscanf_x_hex8 a :
  0 <= a < 2 ^ 32 -> sscanf_x ("0x" +:+ hex_fixed 8 a) = Some a.
Proof.
  intros Ha. unfold sscanf_x.
  pose proof (hex_fixed_plain 8 a ltac:(lia)) as Hp.
  pose proof (digits_hex_fixed 8 a 0 false "" ltac:(simpl; lia)) as Hd.
  rewrite append_nil_r in Hd.
  destruct (hex_fixed 8 a) as [|h r] eqn:E.
  { pose proof (hex_fixed_length 8 a) as Hl. by rewrite E in Hl. }
  simpl in Hp. apply andb_true_iff in Hp as [Hh _].
  apply plain_hex_facts in Hh as (Hh & _). unfold is_hex in Hh.
  app_simpl. cbn [g_strchug]. change (isspace "0") with false. cbv iota.
  cbn [take_sign]. cbn [skip_0x].
  destruct (hex_value_of h) eqn:Ehv; [|discriminate].
  simpl (_ && _). cbv iota. rewrite Hd. simpl (_ || _). cbv iota.
  change (0 * 16 ^ Z.of_nat 8 + a) with (0 + a). rewrite Z.add_0_l.
  cbn [digits].
  destruct (Z.geb_spec a (2 ^ 64)); [lia|].
  unfold u32. by rewrite Z.mod_small by lia.
Qed.

Lemma is_value_delim_plain s :
  all_chars plain_hex s = true ->
  all_chars (fun c => negb (is_value_delim c)) s = true.
Proof.
  apply plain_no. intros c Hc. apply plain_hex_facts in Hc.
  destruct Hc as (_ & Hsp & _ & _ & _ & _ & Hcomma & _).
  unfold is_value_delim, is_blank. rewrite Hcomma, orb_false_r.
  apply negb_true_iff. unfold isspace in Hsp.
  apply orb_false_iff in Hsp as [H32 H9].
  rewrite H32. simpl.
  destruct (Z.eqb_spec (code c) 9) as [E|]; [|done].
  rewrite E in H9. discriminate.
Qed.

Lemma parse_pair_line_hex_text av (sep V : string) :
  0 <= address av < 2 ^ 32 ->
  all_chars (fun c => negb (Ascii.eqb c ":")) ("0x" +:+ hex_fixed 8 (address av))
    = true ->
  all_chars (fun c => negb (is_value_delim c)) (g_strstrip (sep +:+ V)) = true ->
  parse_pair_line ("0x" +:+ hex_fixed 8 (address av) +:+ String ":" (sep +:+ V))
    = None
  \/ exists b,
       parse_pair_line
         ("0x" +:+ hex_fixed 8 (address av) +:+ String ":" (sep +:+ V))
       = Some (MkAddressValue (address av) [b]).
Proof.
  intros Ha Hcol Hval. unfold parse_pair_line.
  rewrite <- append_assoc'. rewrite split_at_first by done.
  assert (g_strstrip ("0x" +:+ hex_fixed 8 (address av))
          = "0x" +:+ hex_fixed 8 (address av)) as ->.
  { unfold g_strstrip. app_simpl. cbn [g_strchug].
    change (isspace "0") with false. cbv iota.
    apply g_strchomp_plain. cbn [all_chars].
    by rewrite (plain_no_space _ (hex_fixed_plain 8 (address av) ltac:(lia))). }
  destruct (_ && _); [|by left].
  unfold parse_address. rewrite sscanf_x_hex8 by done.
  pose proof (parse_bytes_one_token _ Hval) as Hlen.
  destruct (parse_bytes _) as [|b [|b' l]]; [by left| |simpl in Hlen; lia].
  right. by exists b.
Qed.

End EditorParser.

(** X10.  The patch editor's parser does not read the format of the file.
    The line the file holds for a pair (["0x%08X: 0x%02X%02X.."], which the
    loader preserves and the Edit button shows), and the line the Edit
    button builds itself (["0x%08X:%02X%02X.."]), carry the value as one
    run of digits; the editor's parser takes a run as one byte, so for
    either line it returns no pair or a pair with a single byte.  A value of
    two or more bytes never comes back. *)
Theorem editor_reads_a_run_as_one_byte (av : XemuPatchAddressValue) (line : string) :
  well_formed_pair av ->
  line = pair_text av \/ line = edit_fallback_line av ->
  parse_pair_line line = None
  \/ exists b, 0 <= b <= 255 /\
               parse_pair_line line = Some (MkAddressValue (address av) [b]).
Proof.
  intros [Ha Hb] Hline.
  assert (Forall (fun b => 0 <= b) (value_data av)) as Hb0.
  { eapply Forall_impl; [exact Hb|]. simpl. intros. lia. }
  assert (all_chars (fun c => negb (Ascii.eqb c ":"))
            ("0x" +:+ hex_fixed 8 (address av)) = true) as Hcol.
  { app_simpl. cbn [all_chars].
    by rewrite (plain_no_char _ ":" eq_refl
                  (hex_fixed_plain 8 (address av) ltac:(lia))). }
  assert (forall V sep,
            all_chars plain_hex V = true ->
            sep = " 0x" \/ sep = "" ->
            parse_pair_line
              ("0x" +:+ hex_fixed 8 (address av) +:+ String ":" (sep +:+ V))
            = None
            \/ exists b, 0 <= b <= 255 /\
                 parse_pair_line
                   ("0x" +:+ hex_fixed 8 (address av) +:+ String ":" (sep +:+ V))
                 = Some (MkAddressValue (address av) [b])) as Hgen.
  { intros V sep HV Hsep.
    assert (all_chars (fun c => negb (is_value_delim c)) (g_strstrip (sep +:+ V))
            = true) as Hval.
    { destruct Hsep as [-> | ->]; unfold g_strstrip; app_simpl.
      - cbn [g_strchug]. change (isspace " ") with true. cbv iota.
        change (isspace "0") with false. cbv iota.
        rewrite g_strchomp_plain.
        + cbn [all_chars]. by rewrite (is_value_delim_plain _ HV).
        + cbn [all_chars]. by rewrite (plain_no_space _ HV).
      - rewrite g_strchug_plain.
        + rewrite g_strchomp_plain by (by apply plain_no_space).
          by apply is_value_delim_plain.
        + destruct V as [|c V']; [done|]. simpl in HV.
          apply andb_true_iff in HV as [Hc _].
          apply plain_hex_facts in Hc. tauto. }
    destruct (parse_pair_line_hex_text av sep V Ha Hcol Hval) as [?|[b Hp]];
      [by left|].
    right. exists b. split; [|done].
    apply parse_pair_line_ok in Hp as (_ & _ & Hr). simpl in Hr.
    by apply Forall_cons in Hr as [? _]. }
  destruct Hline as [-> | ->].
  - unfold pair_text.
    change (": 0x" +:+ hex_value (value_data av))
      with (String ":" (" 0x" +:+ hex_value (value_data av))).
    apply Hgen; [by apply hex_value_plain|by left].
  - unfold edit_fallback_line.
    change (":" +:+ hex_value (take 64 (value_data av)))
      with (String ":" ("" +:+ hex_value (take 64 (value_data av)))).
    apply Hgen; [|by right].
    apply hex_value_plain. by apply Forall_take.
Qed.

Lemma editor_reads_a_run_as_one_byte_witness :
  parse_pair_line "0x00123456: 0xDEADBEEF" = None
  \/ exists b, 0 <= b <= 255 /\
       parse_pair_line "0x00123456: 0xDEADBEEF"
       = Some (MkAddressValue 0x00123456 [b]).
Proof.
  apply (editor_reads_a_run_as_one_byte
           (MkAddressValue 0x00123456 [0xDE; 0xAD; 0xBE; 0xEF])).
  - split; [simpl; lia|]. repeat constructor; lia.
  - left. reflexivity.
Defined.

(** X11.  [xemu_patches_parse_address_value_pairs] fails for a NULL text
    only.  Every pair it returns has a 32-bit address and at least one
    byte, every byte is in 0..255, and there are at most as many pairs as
    the first pass counted lines. *)
Theorem parsed_pairs_are_well_formed (text : option string) :
  (xemu_patches_parse_address_value_pairs text = None <-> text = None) /\
  forall t pairs,
    text = Some t ->
    xemu_patches_parse_address_value_pairs text = Some pairs ->
    Forall editor_pair_ok pairs /\
    Z.of_nat (length pairs) <= count_lines (S (String.length t)) t t 0.
Proof.
  split.
  - unfold xemu_patches_parse_address_value_pairs.
    destruct text as [t|]; [|done]. by destruct (_ =? 0).
  - intros t pairs -> H. unfold xemu_patches_parse_address_value_pairs in H.
    destruct (Z.eqb_spec (count_lines (S (String.length t)) t t 0) 0) as [E|_].
    + injection H as <-. rewrite E. split; [done|]. simpl. lia.
    + injection H as <-.
      destruct (parse_pairs_loop_ok (S (String.length t)) t []
                  (count_lines (S (String.length t)) t t 0)) as [H1 H2];
        [done|simpl; lia|].
      split; [done|].
      destruct (Z.max_spec (count_lines (S (String.length t)) t t 0) 0)
        as [[? Hm]|[? Hm]]; rewrite Hm in H2; [|done].
      assert (forall fuel p ls n, 0 <= n -> 0 <= count_lines fuel p ls n) as Hc.
      { clear. induction fuel as [|k IH]; intros p ls n Hn; simpl; [done|].
        destruct p as [|c r].
        - destruct (ahead "" ls); lia.
        - destruct (is_newline c).
          + destruct (skip_while is_newline (String c r)).
            * destruct (ahead "" ls); lia.
            * apply IH. lia.
          + by apply IH. }
      pose proof (Hc (S (String.length t)) t t 0 ltac:(lia)). lia.
Qed.


(** ** The reader and the game loop of the loader *)

Section Reader.

Definition not_newline (c : ascii) : bool := negb (Ascii.eqb c (ascii_of_nat 10)).

Lemma all_chars_substring f s : forall n m,
  all_chars f s = true -> all_chars f (substring n m s) = true.
Proof.
  induction s as [|c s IH]; intros n m Hs.
  - by destruct n, m.
  - simpl in Hs. apply andb_true_iff in Hs as [Hc Hs].
    destruct n as [|n]; simpl.
    + destruct m as [|m]; simpl; [done|]. by rewrite Hc, IH.
    + by apply IH.
Qed.

Lemma substring_length_le s : forall n m,
  (String.length (substring n m s) <= String.length s)%nat.
Proof.
  induction s as [|c s IH]; intros n m.
  - by destruct n, m.
  - destruct n as [|n]; simpl.
    + destruct m as [|m]; simpl; [lia|]. specialize (IH 0%nat m). lia.
    + specialize (IH n m). lia.
Qed.

(** A chunk read by [fgets] holds a newline at its end at most. *)
Lemma fgets_chunk_shape room : forall s chunk rest,
  fgets_chunk room s = (chunk, rest) ->
  all_chars not_newline chunk = true
  \/ exists line, chunk = line +:+ nl /\ all_chars not_newline line = true.
Proof.
  induction room as [|room IH]; intros s chunk rest; simpl.
  - intros [= <- <-]. by left.
  - destruct s as [|c s]; [intros [= <- <-]; by left|].
    destruct (Ascii.eqb c (ascii_of_nat 10)) eqn:Ec.
    + intros [= <- <-]. right. exists "". apply Ascii.eqb_eq in Ec as ->.
      by app_simpl.
    + destruct (fgets_chunk room s) as [ch rs] eqn:E. intros [= <- <-].
      destruct (IH s ch rs E) as [H|(line & -> & H)].
      * left. simpl. unfold not_newline at 1. by rewrite Ec, H.
      * right. exists (String c line). split; [by app_simpl|].
        simpl. unfold not_newline at 1. by rewrite Ec, H.
Qed.

Lemma chop_newline_plain chunk :
  all_chars not_newline chunk = true -> chop_newline chunk = chunk.
Proof.
  intros H. unfold chop_newline.
  destruct (String.eqb_spec (drop_chars (String.length chunk - 1) chunk) nl)
    as [E|_]; [|done].
  unfold drop_chars in E.
  pose proof (all_chars_substring not_newline chunk
                (String.length chunk - 1)
                (String.length chunk - (String.length chunk - 1)) H) as Hs.
  rewrite E in Hs. discriminate.
Qed.

Lemma chop_newline_ok chunk rest room s :
  fgets_chunk room s = (chunk, rest) ->
  all_chars not_newline (chop_newline chunk) = true /\
  (String.length (chop_newline chunk) <= String.length chunk)%nat.
Proof.
  intros E. apply fgets_chunk_shape in E as [H|(line & -> & H)].
  - by rewrite chop_newline_plain.
  - rewrite chop_newline_line. split; [done|]. rewrite length_append. lia.
Qed.

End Reader.

(** X12.  The reader of [xemu_patches_load_database] hands the parsers
    lines of at most 1000 characters without a newline in them, whatever
    the file holds. *)
Theorem file_lines_are_bounded (content : string) :
  Forall (fun line => (String.length line <= 1000)%nat /\
                      all_chars not_newline line = true)
         (file_lines content).
Proof.
  unfold file_lines. generalize (String.length content) as fuel.
  intros fuel. revert content.
  induction fuel as [|k IH]; intros s; [done|].
  cbn [read_lines]. destruct s as [|c s]; [done|].
  destruct (fgets_chunk 1023 (String c s)) as [chunk rest] eqn:E.
  destruct (Nat.ltb_spec 1000 (String.length chunk)); [apply IH|].
  constructor; [|apply IH].
  apply chop_newline_ok in E as [? ?]. split; [lia|done].
Qed.

Section GameLoop.

(** The test that makes the outer loop gather a game at a line. *)
Definition starts_game (line : string) : bool :=
  let trimmed := g_strstrip line in
  negb (is_empty trimmed || first_char_is trimmed "#")
  && (g_str_has_prefix trimmed "Game Entry" || has_char trimmed "="
      || g_str_has_prefix trimmed "title:").

(** The test that ends the gathering at a later line. *)
Definition stops_game (line : string) : bool :=
  let game_trimmed := g_strstrip line in
  g_str_has_prefix game_trimmed "Game Entry"
  || (has_char game_trimmed "=" && g_str_has_prefix game_trimmed "game-title=").

Lemma collect_game_taken lines : forall first ips gl pl taken r1 r2 n,
  collect_game lines first ips gl pl taken = (r1, r2, n) ->
  (taken <= n <= taken + length lines)%nat.
Proof.
  induction lines as [|l lines IH]; intros first ips gl pl taken r1 r2 n; simpl.
  - intros [= _ _ <-]. lia.
  - destruct (negb first && _); [intros [= _ _ <-]; lia|].
    destruct (ips || _); intros H; apply IH in H; lia.
Qed.

Lemma collect_game_one l rest :
  match rest with [] => True | l' :: _ => stops_game l' = true end ->
  exists gl pl, collect_game (l :: rest) true false [] [] 0 = (gl, pl, 1%nat).
Proof.
  intros Hrest. cbn [collect_game negb andb].
  destruct (false || _).
  - destruct rest as [|l' rest]; [by eexists _, _|].
    cbn [collect_game negb andb]. unfold stops_game in Hrest. rewrite Hrest.
    by eexists _, _.
  - destruct rest as [|l' rest]; [by eexists _, _|].
    cbn [collect_game negb andb]. unfold stops_game in Hrest. rewrite Hrest.
    by eexists _, _.
Qed.

Lemma collect_game_two l l' rest gl pl n :
  stops_game l' = false ->
  collect_game (l :: l' :: rest) true false [] [] 0 = (gl, pl, n) ->
  (2 <= n)%nat.
Proof.
  intros Hs. cbn [collect_game negb andb]. unfold stops_game in Hs. rewrite Hs.
  repeat match goal with
         | |- (if ?c then _ else _) = _ -> _ => destruct c
         end; intros H; apply collect_game_taken in H; lia.
Qed.

Lemma starts_game_branch line :
  starts_game line = true ->
  is_empty (g_strstrip line) || first_char_is (g_strstrip line) "#" = false /\
  g_str_has_prefix (g_strstrip line) "Game Entry"
  || has_char (g_strstrip line) "=" || g_str_has_prefix (g_strstrip line) "title:"
  = true.
Proof.
  unfold starts_game. rewrite andb_true_iff, negb_true_iff. tauto.
Qed.

End GameLoop.

(** X13.  The game loop of [xemu_patches_load_database] steps back one line
    after every game it gathers.  When each line that starts a game is
    followed by a line that does not start the next game, the loop ends
    within one round per line and the load returns.  *)
Theorem loader_ends (e : env) (st : engine) (filepath : option string)
    (content : string) :
  files st !! default (default_db_path e) filepath = Some content ->
  strlen content <= 10 * 1024 * 1024 ->
  dirty (g_patches_db st) = false ->
  (forall (i : nat) l,
     file_lines content !! i = Some l -> starts_game l = true ->
     exists l', file_lines content !! S i = Some l' /\ stops_game l' = false) ->
  exists st', xemu_patches_load_database e st filepath = Some (true, st') /\
              B st' g_patches_loaded = true /\
              dirty (g_patches_db st') = false.
Proof.
  intros Hfile Hsize Hclean Hnext. unfold xemu_patches_load_database.
  rewrite Hfile. destruct (Z.gtb_spec (strlen content) (10 * 1024 * 1024)); [lia|].
  unfold xemu_patches_free_database. rewrite Hclean.
  cbn [files xemu_patches_clear_all_saved_values set_saved set_db].
  rewrite Hfile. cbn [default]. unfold id.
  set (lines := file_lines content) in *.
  assert (forall fuel current acc,
            (length lines - current < fuel)%nat ->
            exists r, games_loop fuel lines current acc = Some r) as Hloop.
  { induction fuel as [|k IH]; intros current acc Hf; [lia|].
    cbn [games_loop].
    destruct (lines !! current) as [line|] eqn:El; [|by eexists].
    pose proof (lookup_lt_Some _ _ _ El) as Hlt.
    destruct (is_empty (g_strstrip line) || first_char_is (g_strstrip line) "#")
      eqn:E1; [apply IH; lia|].
    destruct (g_str_has_prefix (g_strstrip line) "Game Entry"
              || has_char (g_strstrip line) "="
              || g_str_has_prefix (g_strstrip line) "title:") eqn:E2;
      [|apply IH; lia].
    destruct (Hnext current line El) as (l' & El' & Hs).
    { unfold starts_game. by rewrite E1, E2. }
    destruct (collect_game (drop current lines) true false [] [] 0)
      as [[gl pl] taken] eqn:Ec.
    assert (drop current lines = line :: l' :: drop (S (S current)) lines) as Ed.
    { rewrite (drop_S _ _ _ El). f_equal. by rewrite (drop_S _ _ _ El'). }
    rewrite Ed in Ec. pose proof (collect_game_two _ _ _ _ _ _ Hs Ec) as H2.
    apply collect_game_taken in Ec. simpl in Ec.
    rewrite length_drop in Ec.
    apply IH. lia. }
  destruct (Hloop (S (length lines)) 0%nat []) as [r Hr]; [lia|].
  rewrite Hr. eexists. split; [done|]. by simpl.
Qed.

Lemma loader_ends_witness :
  exists st',
    xemu_patches_load_database sample_env
      (set_files {[ "/xemu/xemu.db" := "Game Entry" +:+ nl +:+ "title: Halo" +:+ nl +:+ nl ]}
                 (initial_engine mapped_guest ∅)) None
    = Some (true, st').
Proof.
  destruct (loader_ends sample_env
              (set_files {[ "/xemu/xemu.db" := "Game Entry" +:+ nl +:+ "title: Halo" +:+ nl +:+ nl ]}
                         (initial_engine mapped_guest ∅)) None
              ("Game Entry" +:+ nl +:+ "title: Halo" +:+ nl +:+ nl))
    as (st' & H & _).
  - reflexivity.
  - by vm_compute.
  - reflexivity.
  - intros i l.
    change (file_lines ("Game Entry" +:+ nl +:+ "title: Halo" +:+ nl +:+ nl))
      with ["Game Entry"; "title: Halo"; ""].
    destruct i as [|[|[|i]]]; simpl; intros [= <-]; try discriminate.
    + intros _. eexists. split; [reflexivity|]. by vm_compute.
    + intros _. eexists. split; [reflexivity|]. by vm_compute.
  - by exists st'.
Defined.

(** X14.  When a line that starts a game is the last line of the file, or
    the next line starts another game, the loop gathers that one line, steps
    back onto it and gathers it again: from such a line on the loop never
    ends, whatever the number of rounds; a file whose first line is such a
    line makes [xemu_patches_load_database] never return. *)
Theorem loader_never_ends (lines : list string) (i : nat) (l : string) :
  lines !! i = Some l -> starts_game l = true ->
  match lines !! S i with None => True | Some l' => stops_game l' = true end ->
  (forall fuel acc, games_loop fuel lines i acc = None) /\
  (i = 0%nat ->
   forall e st filepath content,
     files st !! default (default_db_path e) filepath = Some content ->
     strlen content <= 10 * 1024 * 1024 ->
     dirty (g_patches_db st) = false ->
     file_lines content = lines ->
     xemu_patches_load_database e st filepath = None).
Proof.
  intros Hl Hs Hnext.
  assert (forall fuel acc, games_loop fuel lines i acc = None) as Hloop.
  { induction fuel as [|k IH]; intros acc; [done|].
    cbn [games_loop]. rewrite Hl.
    apply starts_game_branch in Hs as [-> ->].
    assert (exists gl pl,
              collect_game (drop i lines) true false [] [] 0 = (gl, pl, 1%nat))
      as (gl & pl & ->).
    { rewrite (drop_S _ _ _ Hl). apply collect_game_one.
      destruct (lines !! S i) as [l'|] eqn:El'.
      - by rewrite (drop_S _ _ _ El').
      - apply lookup_ge_None in El'. by rewrite drop_ge by lia. }
    replace (i + 1 - 1)%nat with i by lia. apply IH. }
  split; [exact Hloop|].
  intros -> e st filepath content Hfile Hsize Hclean Hlines.
  unfold xemu_patches_load_database.
  rewrite Hfile. destruct (Z.gtb_spec (strlen content) (10 * 1024 * 1024)); [lia|].
  unfold xemu_patches_free_database. rewrite Hclean.
  cbn [files xemu_patches_clear_all_saved_values set_saved set_db].
  rewrite Hfile. cbn [default]. unfold id. rewrite Hlines. by rewrite Hloop.
Qed.

Lemma loader_never_ends_witness :
  xemu_patches_load_database sample_env
    (set_files {[ "/xemu/xemu.db" := "game-title=Halo" ]}
               (initial_engine mapped_guest ∅)) None
  = None.
Proof.
  refine (proj2 (loader_never_ends ["game-title=Halo"] 0 "game-title=Halo"
                   _ _ _) eq_refl sample_env _ None "game-title=Halo" _ _ _ _).
  - reflexivity.
  - by vm_compute.
  - exact Logic.I.
  - reflexivity.
  - by vm_compute.
  - reflexivity.
  - reflexivity.
Defined.


(** ** What the certificate and disc tracking leave alone *)

Section FlagsOnly.

(** A step that changes flags, counters and text buffers only, and does
    not clear [g_auto_boot_processing_active]. *)
Definition flags_only (st st' : engine) : Prop :=
  g_patches_db st' = g_patches_db st /\
  g_saved_values st' = g_saved_values st /\
  g_reset_monitored_addresses st' = g_reset_monitored_addresses st /\
  the_guest st' = the_guest st /\
  notifications st' = notifications st /\
  files st' = files st /\
  (B st g_auto_boot_processing_active = true ->
   B st' g_auto_boot_processing_active = true).

Lemma flags_only_refl st : flags_only st st.
Proof. unfold flags_only. tauto. Qed.

Lemma flags_only_trans a b c :
  flags_only a b -> flags_only b c -> flags_only a c.
Proof.
  unfold flags_only. intros (?&?&?&?&?&?&?) (?&?&?&?&?&?&?).
  repeat split; try congruence. auto.
Qed.

Lemma flags_only_setI st x v : flags_only st (setI x v st).
Proof. unfold flags_only. state_simpl; intuition congruence. Qed.

Lemma flags_only_setS st x v : flags_only st (setS x v st).
Proof. unfold flags_only. state_simpl; intuition congruence. Qed.

Ltac flags_cases :=
  repeat match goal with
         | |- context [if ?c then _ else _] => destruct c eqn:?
         | |- context [match xemu_get_xbe_info ?e with _ => _ end] =>
             destruct (xemu_get_xbe_info e) eqn:?
         end.

Lemma get_cached_xbe_info_flags e st out :
  flags_only st (snd (get_cached_xbe_info e st out)).
Proof.
  unfold get_cached_xbe_info, cached_result, flags_only.
  flags_cases; state_simpl; intuition congruence.
Qed.

Lemma wrapper_flags e st out :
  flags_only st (snd (get_cached_xbe_info_with_spam_prevention e st out)).
Proof.
  unfold get_cached_xbe_info_with_spam_prevention.
  pose proof (get_cached_xbe_info_flags e st out) as H.
  destruct (get_cached_xbe_info e st out) as [[r o1] st1]. simpl in H.
  eapply flags_only_trans; [exact H|].
  unfold flags_only, note_invalid_read,
    reset_notification_tracking_for_new_game.
  flags_cases; state_simpl; intuition congruence.
Qed.

Lemma apply_patches_for_auto_boot_flags st :
  flags_only st (apply_patches_for_auto_boot st).
Proof.
  unfold apply_patches_for_auto_boot, flags_only.
  flags_cases; state_simpl; try (intuition congruence).
  all: destruct (find_title_nocase _ _); state_simpl; intuition congruence.
Qed.

Lemma auto_enable_flags st :
  flags_only st (auto_enable_patches_when_ready st).
Proof.
  unfold auto_enable_patches_when_ready.
  destruct (B st g_load_disc_in_progress); [apply flags_only_refl|].
  cbv zeta.
  match goal with
  | |- context [if ?c then ?a else st] => set (st1 := if c then a else st)
  end.
  assert (flags_only st st1) as H1.
  { subst st1. destruct (_ && _); [|apply flags_only_refl].
    destruct (negb _).
    - eapply flags_only_trans; [|apply apply_patches_for_auto_boot_flags].
      unfold flags_only. state_simpl; intuition congruence.
    - unfold flags_only. state_simpl; intuition congruence. }
  clearbody st1. destruct (_ && _); [|exact H1].
  eapply flags_only_trans; [exact H1|].
  eapply flags_only_trans; [|apply apply_patches_for_auto_boot_flags].
  unfold flags_only; state_simpl; intuition congruence.
Qed.

Lemma update_disc_presence_state_flags b st :
  flags_only st (update_disc_presence_state b st).
Proof.
  unfold update_disc_presence_state.
  destruct (b && negb (B st g_disc_present)).
  - eapply flags_only_trans; [|apply auto_enable_flags].
    destruct (_ && _); unfold flags_only, forget_certificate; state_simpl; intuition congruence.
  - destruct (_ && _); [|apply flags_only_refl].
    unfold flags_only, forget_certificate. state_simpl; intuition congruence.
Qed.

Lemma set_load_disc_completed_flags st :
  flags_only st (set_load_disc_completed st).
Proof.
  unfold set_load_disc_completed. cbv zeta.
  match goal with
  | |- context [if ?c then ?a else st] => set (st1 := if c then a else st)
  end.
  assert (flags_only st st1) as H1.
  { subst st1. destruct (_ && _); unfold flags_only, forget_certificate;
      state_simpl; intuition congruence. }
  clearbody st1.
  match goal with
  | |- context [update_disc_presence_state true ?s] => set (s2 := s)
  end.
  assert (flags_only st s2) as H2.
  { subst s2. eapply flags_only_trans; [exact H1|].
    unfold flags_only. state_simpl; intuition congruence. }
  clearbody s2.
  pose proof (update_disc_presence_state_flags true s2) as H3.
  set (st3 := update_disc_presence_state true s2) in *. clearbody st3.
  assert (flags_only st st3) as H by (by eapply flags_only_trans).
  destruct (_ && _).
  - destruct (negb _); [exact H|].
    eapply flags_only_trans; [exact H|].
    eapply flags_only_trans; [|apply auto_enable_flags].
    unfold flags_only. state_simpl; intuition congruence.
  - eapply flags_only_trans; [exact H|apply flags_only_setI].
Qed.

Lemma find_game_by_certificate_flags e st :
  flags_only st (snd (xemu_patches_find_game_by_certificate e st)).
Proof.
  unfold xemu_patches_find_game_by_certificate.
  destruct (B st g_load_disc_in_progress); [apply flags_only_refl|].
  pose proof (get_cached_xbe_info_flags e st (0, 0, 0)) as H1.
  destruct (get_cached_xbe_info e st (0, 0, 0)) as [[found o] st1].
  simpl in H1. destruct (negb found); [exact H1|].
  destruct (games (g_patches_db st1)) as [gs|]; [|exact H1].
  match goal with
  | |- context [let '(o1, st2) := ?x in _] =>
      destruct x as [o1 st2] eqn:E2
  end.
  assert (flags_only st st2) as H2.
  { eapply flags_only_trans; [exact H1|].
    destruct (_ && _).
    - destruct (xemu_get_xbe_info e); injection E2 as _ <-;
        unfold flags_only, reset_last_applied_tracking,
          invalidate_certificate_cache, xemu_clear_cert_cache,
          clear_certificate_cache_internal,
          reset_notification_tracking_for_new_game; state_simpl; intuition congruence.
    - injection E2 as _ <-. apply flags_only_refl. }
  clear E2.
  match goal with
  | |- context [auto_enable_patches_when_ready ?s] => set (s3 := s)
  end.
  assert (flags_only st s3) as H3.
  { subst s3. eapply flags_only_trans; [exact H2|].
    destruct (negb _); unfold flags_only; state_simpl; intuition congruence. }
  clearbody s3.
  pose proof (auto_enable_flags s3) as H4.
  set (st4 := auto_enable_patches_when_ready s3) in *. clearbody st4.
  assert (flags_only st st4) as H by (by eapply flags_only_trans).
  destruct (find_certificate_from _ _ _ _ _); [|exact H].
  cbv zeta.
  assert (flags_only st (enable_certificate_tracking st4)) as H5.
  { eapply flags_only_trans; [exact H|].
    unfold enable_certificate_tracking, flags_only.
    destruct (negb _); state_simpl; intuition congruence. }
  set (st5 := enable_certificate_tracking st4) in *. clearbody st5.
  unfold remember_seen.
  repeat match goal with
         | |- context [if ?c then _ else _] => destruct c
         end; simpl; (eapply flags_only_trans; [exact H5|]);
    unfold flags_only; state_simpl; intuition congruence.
Qed.

Lemma detect_manual_reset_flags e st :
  flags_only st (detect_manual_reset e st).
Proof.
  unfold detect_manual_reset.
  pose proof (wrapper_flags e st (0, 0, 0)) as H1.
  destruct (get_cached_xbe_info_with_spam_prevention e st (0, 0, 0))
    as [[avail o] st1]. simpl in H1.
  eapply flags_only_trans; [exact H1|].
  unfold flags_only, note_certificate_seen.
  flags_cases; state_simpl; intuition congruence.
Qed.

Lemma schedule_flags st :
  flags_only st (schedule_post_reset_patch_application st).
Proof.
  unfold schedule_post_reset_patch_application, flags_only,
    start_reset_memory_monitoring, stop_reset_memory_monitoring.
  destruct (B _ g_post_reset_patch_scheduled); state_simpl; intuition congruence.
Qed.

Lemma check_startup_retry_detection_flags e st :
  flags_only st (check_startup_retry_detection e st).
Proof.
  unfold check_startup_retry_detection.
  destruct (negb _); [apply flags_only_refl|].
  destruct (_ <? _); [apply flags_only_refl|].
  match goal with
  | |- context [get_cached_xbe_info_with_spam_prevention e ?s ?o] =>
      pose proof (wrapper_flags e s o) as H1;
      destruct (get_cached_xbe_info_with_spam_prevention e s o)
        as [[found o1] st2]
  end.
  simpl in H1.
  assert (flags_only st st2) as H.
  { eapply flags_only_trans; [|exact H1]. unfold flags_only. state_simpl; intuition congruence. }
  destruct (_ && _).
  - eapply flags_only_trans; [exact H|].
    eapply flags_only_trans; [|apply apply_patches_for_auto_boot_flags].
    unfold flags_only, accept_certificate. state_simpl; intuition congruence.
  - destruct (_ >=? _); [|exact H].
    eapply flags_only_trans; [exact H|unfold flags_only; state_simpl; intuition congruence].
Qed.

Lemma certificate_setters_flags st :
  flags_only st (reset_certificate_tracking st) /\
  flags_only st (force_fresh_certificate_read st).
Proof.
  unfold flags_only, reset_certificate_tracking, force_fresh_certificate_read.
  split; state_simpl; intuition congruence.
Qed.

Lemma add_game_latch e st title reg tid ver alt tdate disc :
  B st g_auto_boot_processing_active = true ->
  B (snd (xemu_patches_add_game e st title reg tid ver alt tdate disc))
    g_auto_boot_processing_active = true.
Proof.
  intros H. unfold xemu_patches_add_game, xemu_patches_save_database.
  cbv zeta.
  repeat match goal with
         | |- context [if ?c then _ else _] => destruct c
         | |- context [match ?o with Some _ => _ | None => _ end] => destruct o
         end; state_simpl; exact H.
Qed.

(** A call of one of the tracking functions, or the addition of a game. *)
Inductive tracking_call :=
| ReadCertificate (e : env) (out : outs)
| ReadCertificateGuarded (e : env) (out : outs)
| AutoBoot
| AutoEnable
| DiscPresence (present : bool)
| LoadDiscCompleted
| FindGame (e : env)
| DetectReset (e : env)
| SchedulePostReset
| StartupRetry (e : env)
| AddGame (e : env) (title reg tid ver alt tdate disc : option string).

Definition call (c : tracking_call) (st : engine) : engine :=
  match c with
  | ReadCertificate e out => snd (get_cached_xbe_info e st out)
  | ReadCertificateGuarded e out =>
      snd (get_cached_xbe_info_with_spam_prevention e st out)
  | AutoBoot => apply_patches_for_auto_boot st
  | AutoEnable => auto_enable_patches_when_ready st
  | DiscPresence present => update_disc_presence_state present st
  | LoadDiscCompleted => set_load_disc_completed st
  | FindGame e => snd (xemu_patches_find_game_by_certificate e st)
  | DetectReset e => detect_manual_reset e st
  | SchedulePostReset => schedule_post_reset_patch_application st
  | StartupRetry e => check_startup_retry_detection e st
  | AddGame e title reg tid ver alt tdate disc =>
      snd (xemu_patches_add_game e st title reg tid ver alt tdate disc)
  end.

Fixpoint calls (l : list tracking_call) (st : engine) : engine :=
  match l with
  | [] => st
  | c :: rest => calls rest (call c st)
  end.

Lemma call_latch c st :
  B st g_auto_boot_processing_active = true ->
  B (call c st) g_auto_boot_processing_active = true.
Proof.
  destruct c; simpl call;
    try (apply add_game_latch);
    first [ apply get_cached_xbe_info_flags | apply wrapper_flags
          | apply apply_patches_for_auto_boot_flags | apply auto_enable_flags
          | apply update_disc_presence_state_flags
          | apply set_load_disc_completed_flags
          | apply find_game_by_certificate_flags
          | apply detect_manual_reset_flags | apply schedule_flags
          | apply check_startup_retry_detection_flags ].
Qed.

Lemma calls_latch l : forall st,
  B st g_auto_boot_processing_active = true ->
  B (calls l st) g_auto_boot_processing_active = true.
Proof.
  induction l as [|c l IH]; intros st H; simpl; [done|].
  apply IH. by apply call_latch.
Qed.

End FlagsOnly.

(** X15.  The certificate reader and its wrapper, the disc-presence and
    Load Disc tracking, the auto-boot marker, manual-reset detection, the
    scheduling of the post-reset pass, the start-up retry, the lookup of
    the game by certificate and the two certificate setters change flags,
    counters and text buffers only: the database, the saved values, guest
    memory and its access log, the queued notifications, the files and the
    reset monitor's slots are after each of them what they were before. *)
Theorem tracking_changes_flags_only (e : env) (st : engine) (out : outs)
    (present : bool) :
  let kept (st' : engine) :=
    g_patches_db st' = g_patches_db st /\
    g_saved_values st' = g_saved_values st /\
    g_reset_monitored_addresses st' = g_reset_monitored_addresses st /\
    the_guest st' = the_guest st /\
    notifications st' = notifications st /\
    files st' = files st in
  kept (snd (get_cached_xbe_info e st out)) /\
  kept (snd (get_cached_xbe_info_with_spam_prevention e st out)) /\
  kept (apply_patches_for_auto_boot st) /\
  kept (auto_enable_patches_when_ready st) /\
  kept (update_disc_presence_state present st) /\
  kept (set_load_disc_completed st) /\
  kept (snd (xemu_patches_find_game_by_certificate e st)) /\
  kept (detect_manual_reset e st) /\
  kept (schedule_post_reset_patch_application st) /\
  kept (check_startup_retry_detection e st) /\
  kept (reset_certificate_tracking st) /\
  kept (force_fresh_certificate_read st).
Proof.
  intros kept.
  assert (forall st', flags_only st st' -> kept st') as Hk.
  { intros st' H. unfold kept. unfold flags_only in H. tauto. }
  repeat match goal with |- _ /\ _ => split end; apply Hk.
  - apply get_cached_xbe_info_flags.
  - apply wrapper_flags.
  - apply apply_patches_for_auto_boot_flags.
  - apply auto_enable_flags.
  - apply update_disc_presence_state_flags.
  - apply set_load_disc_completed_flags.
  - apply find_game_by_certificate_flags.
  - apply detect_manual_reset_flags.
  - apply schedule_flags.
  - apply check_startup_retry_detection_flags.
  - apply certificate_setters_flags.
  - apply certificate_setters_flags.
Qed.

(** X16.  [apply_patches_for_auto_boot] sets
    [g_auto_boot_processing_active] when it starts and clears it at its
    end only: when it returns early, because the patch system is off, no
    certificate is accepted, or the accepted title is not in the database,
    the flag stays set.  No later call of the tracking functions clears
    it, nor does adding the game to the database, so from then on
    [apply_patches_for_auto_boot] returns at its first test and marks
    nothing. *)
Theorem auto_boot_marker_latches (st : engine) (later : list tracking_call) :
  B st g_auto_boot_processing_active = false ->
  B st g_patches_applied_for_current_cert
    && negb (I st g_last_cert_title_id =? 0) = false ->
  B st g_patch_system_enabled = false \/ B st g_cert_data_valid = false \/
  I st g_last_cert_title_id = 0 \/
  find_title_nocase (game_list (g_patches_db st))
    (snprintf 17 (hex_fixed 8 (I st g_last_cert_title_id))) = None ->
  let st1 := apply_patches_for_auto_boot st in
  let st2 := calls later st1 in
  B st1 g_auto_boot_processing_active = true /\
  B st1 g_patches_applied_for_current_cert
    = B st g_patches_applied_for_current_cert /\
  B st2 g_auto_boot_processing_active = true /\
  apply_patches_for_auto_boot st2 = st2.
Proof.
  intros Hoff Hdup Hwhy st1 st2.
  assert (B st1 g_auto_boot_processing_active = true /\
          B st1 g_patches_applied_for_current_cert
            = B st g_patches_applied_for_current_cert) as [H1 H2].
  { subst st1. unfold apply_patches_for_auto_boot. rewrite Hoff, Hdup.
    cbv zeta. state_simpl.
    destruct (negb (bools st g_patch_system_enabled)
              || negb (bools st g_cert_data_valid)
              || (ints st g_last_cert_title_id =? 0)) eqn:Hg;
      [by state_simpl|].
    apply orb_false_iff in Hg as [Hg Ht]. apply orb_false_iff in Hg as [Hs Hc].
    apply negb_false_iff in Hs, Hc. apply Z.eqb_neq in Ht.
    unfold B, I in Hwhy.
    destruct Hwhy as [?|[?|[?|Hnone]]]; try congruence.
    unfold game_list in *. state_simpl. rewrite Hnone. by state_simpl. }
  split; [done|]. split; [done|].
  assert (B st2 g_auto_boot_processing_active = true) as H3
    by (by apply calls_latch).
  split; [done|]. unfold apply_patches_for_auto_boot. by rewrite H3.
Qed.

Lemma auto_boot_marker_latches_witness :
  let st := setB g_patch_system_enabled true
              (setB g_cert_data_valid true
                 (setI g_last_cert_title_id 0x4D530005 idle_engine)) in
  let st1 := apply_patches_for_auto_boot st in
  let st2 := calls [AddGame sample_env (Some "Other") (Some "NTSC-U")
                      (Some "4D530005") (Some "1.0.0.0") None None None;
                    AutoEnable] st1 in
  B st1 g_auto_boot_processing_active = true /\
  B st1 g_patches_applied_for_current_cert
    = B st g_patches_applied_for_current_cert /\
  B st2 g_auto_boot_processing_active = true /\
  apply_patches_for_auto_boot st2 = st2.
Proof.
  apply (auto_boot_marker_latches
           (setB g_patch_system_enabled true
              (setB g_cert_data_valid true
                 (setI g_last_cert_title_id 0x4D530005 idle_engine))));
    [reflexivity|reflexivity|].
  right. right. right. vm_compute. reflexivity.
Defined.

(** ** The manual apply paths *)

Section ManualPaths.

(** Neither the database nor the saved-values store changes. *)
Definition store_kept (st st' : engine) : Prop :=
  g_patches_db st' = g_patches_db st /\ g_saved_values st' = g_saved_values st.

Lemma store_kept_refl st : store_kept st st.
Proof. by split. Qed.

Lemma store_kept_trans a b c : store_kept a b -> store_kept b c -> store_kept a c.
Proof. intros [? ?] [? ?]. split; congruence. Qed.

Lemma apply_single_patch_bytes_kept e st a d :
  store_kept st (snd (apply_single_patch_bytes e st a d)).
Proof.
  destruct (apply_single_patch_bytes e st a d) as [ok st'] eqn:E.
  apply apply_single_patch_bytes_spec in E as [(_ & _ & Hd & Hv & _) _].
  by split.
Qed.

Lemma find_game_by_certificate_kept e st :
  store_kept st (snd (xemu_patches_find_game_by_certificate e st)).
Proof.
  destruct (find_game_by_certificate_flags e st) as (Hd & Hv & _). by split.
Qed.

(** The game handed out by the lookup is a game of the database. *)
Lemma find_certificate_from_lookup gs : forall i t r v j,
  find_certificate_from gs i t r v = Some j ->
  exists k, j = (i + k)%nat /\ (k < length gs)%nat.
Proof.
  induction gs as [|x gs IH]; intros i t r v j; simpl; [discriminate|].
  destruct (_ && _).
  - intros [= <-]. exists 0%nat. split; lia.
  - intros H. apply IH in H as (k & -> & Hk). exists (S k). split; lia.
Qed.

Definition no_pairs (patch : XemuMemoryPatch) : Prop :=
  enabled patch = true /\ address_values patch = [].

Lemma apply_first_pairs_None e ps : forall st a f,
  apply_first_pairs e st ps a f = None <-> Exists no_pairs ps.
Proof.
  induction ps as [|patch ps IH]; intros st a f; simpl.
  - split; [discriminate|]. intros H. inversion H.
  - rewrite Exists_cons. unfold no_pairs at 1.
    destruct (enabled patch); simpl.
    2:{ rewrite IH. split; [tauto|]. intros [[? _]|?]; [discriminate|done]. }
    destruct (address_values patch) as [|first_pair rest].
    { split; [intros _; by left|done]. }
    destruct (apply_single_patch_bytes e st (address first_pair)
                (value_data first_pair)) as [ok st1].
    destruct ok; rewrite IH; (split; [tauto|]);
      intros [[_ ?]|?]; try discriminate; done.
Qed.

Lemma apply_first_pairs_Some e ps : forall st a f a' f' st',
  apply_first_pairs e st ps a f = Some (a', f', st') ->
  (a' - a) + (f' - f)
    = Z.of_nat (length (filter (fun p => enabled p = true) ps)) /\
  a <= a' /\ f <= f' /\ store_kept st st'.
Proof.
  induction ps as [|patch ps IH]; intros st a f a' f' st'; simpl.
  - intros [= <- <- <-]. repeat split; try lia; done.
  - rewrite filter_cons. destruct (decide (enabled patch = true)) as [E|E].
    2:{ apply not_true_is_false in E. rewrite E. simpl. apply IH. }
    rewrite E. simpl.
    destruct (address_values patch) as [|first_pair rest]; [discriminate|].
    pose proof (apply_single_patch_bytes_kept e st (address first_pair)
                  (value_data first_pair)) as Hk.
    destruct (apply_single_patch_bytes e st (address first_pair)
                (value_data first_pair)) as [ok st1].
    simpl in Hk.
    destruct ok; intros H; apply IH in H as (Hsum & Ha & Hf & Hkept);
      (split; [simpl length; lia|]); (split; [lia|]); (split; [lia|]);
      by eapply store_kept_trans.
Qed.

Lemma apply_every_pair_kept e pairs : forall st acc,
  store_kept st (snd (apply_every_pair e st pairs acc)).
Proof.
  induction pairs as [|av rest IH]; intros st acc; simpl;
    [apply store_kept_refl|].
  pose proof (apply_single_patch_bytes_kept e st (address av) (value_data av))
    as Hk.
  destruct (apply_single_patch_bytes e st (address av) (value_data av))
    as [ok st1].
  eapply store_kept_trans; [exact Hk|apply IH].
Qed.

Lemma reapply_enabled_patches_kept e ps : forall st n,
  store_kept st (snd (reapply_enabled_patches e st ps n)).
Proof.
  induction ps as [|patch ps IH]; intros st n; simpl; [apply store_kept_refl|].
  destruct (negb (enabled patch)); [apply IH|].
  pose proof (apply_every_pair_kept e (address_values patch) st false) as Hk.
  destruct (apply_every_pair e st (address_values patch) false) as [pa st1].
  eapply store_kept_trans; [exact Hk|apply IH].
Qed.

End ManualPaths.

(** X17.  The two manual apply calls.
    [xemu_patches_apply_current_running_xbe] reads [address_values[0]] of
    every enabled patch of the game it finds: its loop is undefined
    exactly when one of the patches is enabled and has no pairs, and the
    call is defined unless the database holds such a patch; when it
    returns, and whenever
    [xemu_patches_reapply_current_game_patches] returns, the database and
    the saved-values store are what they were: what these calls overwrite
    in guest memory is recorded nowhere. *)
Theorem manual_apply_records_nothing (e : env) (st : engine) :
  match xemu_patches_apply_current_running_xbe e st with
  | None =>
      exists game patch,
        game ∈ game_list (g_patches_db st) /\ patch ∈ patches game /\
        enabled patch = true /\ address_values patch = []
  | Some st' =>
      g_patches_db st' = g_patches_db st /\
      g_saved_values st' = g_saved_values st
  end /\
  g_patches_db (xemu_patches_reapply_current_game_patches e st)
    = g_patches_db st /\
  g_saved_values (xemu_patches_reapply_current_game_patches e st)
    = g_saved_values st /\
  forall ps s a f,
    apply_first_pairs e s ps a f = None <->
    exists patch, patch ∈ ps /\ enabled patch = true /\ address_values patch = [].
Proof.
  assert (forall ps s a f,
            apply_first_pairs e s ps a f = None <->
            exists patch, patch ∈ ps /\ enabled patch = true /\
                          address_values patch = []) as Hnone.
  { intros ps s a f. rewrite apply_first_pairs_None, Exists_exists.
    unfold no_pairs. done. }
  split; [|split; [|split; [|exact Hnone]]].
  - unfold xemu_patches_apply_current_running_xbe.
    destruct (negb (B st g_patch_system_enabled)); [done|].
    destruct (_ || _); [done|].
    pose proof (find_game_by_certificate_kept e st) as Hk.
    destruct (xemu_patches_find_game_by_certificate e st) as [found st1].
    simpl in Hk. destruct Hk as [Hd Hv].
    destruct found as [j|]; [|done].
    destruct (game_list (g_patches_db st1) !! j) as [game|] eqn:Hj; [|done].
    destruct (negb (game_enabled game)); [done|].
    destruct (apply_first_pairs e st1 (patches game) 0 0)
      as [[[applied failed] st2]|] eqn:Ea.
    + apply apply_first_pairs_Some in Ea as (_ & _ & _ & Hd2 & Hv2).
      destruct (applied >? 0), (failed >? 0); simpl; split; congruence.
    + apply Hnone in Ea as (patch & Hin & Hen & Hav).
      exists game, patch. rewrite <- Hd.
      split; [by eapply list_elem_of_lookup_2|done].
  - unfold xemu_patches_reapply_current_game_patches.
    destruct (negb (B st g_patch_system_enabled)); [done|].
    pose proof (find_game_by_certificate_kept e st) as [Hd Hv].
    destruct (xemu_patches_find_game_by_certificate e st) as [found st1].
    simpl in Hd, Hv. destruct found as [j|]; [|done].
    destruct (game_list (g_patches_db st1) !! j) as [game|]; [|done].
    destruct (enabled_count game =? 0); [done|].
    destruct (negb (is_game_currently_running st1)); [done|].
    pose proof (reapply_enabled_patches_kept e (patches game) st1 0) as [Hd2 _].
    destruct (reapply_enabled_patches e st1 (patches game) 0) as [n st2].
    simpl in Hd2. destruct (n >? 0); simpl; congruence.
  - unfold xemu_patches_reapply_current_game_patches.
    destruct (negb (B st g_patch_system_enabled)); [done|].
    pose proof (find_game_by_certificate_kept e st) as [Hd Hv].
    destruct (xemu_patches_find_game_by_certificate e st) as [found st1].
    simpl in Hd, Hv. destruct found as [j|]; [|done].
    destruct (game_list (g_patches_db st1) !! j) as [game|]; [|done].
    destruct (enabled_count game =? 0); [done|].
    destruct (negb (is_game_currently_running st1)); [done|].
    pose proof (reapply_enabled_patches_kept e (patches game) st1 0) as [_ Hv2].
    destruct (reapply_enabled_patches e st1 (patches game) 0) as [n st2].
    simpl in Hv2. destruct (n >? 0); simpl; congruence.
Qed.

(** ** Start-up and saving on request *)

(** Without a games array the save writes nothing. *)
Lemma save_database_without_games e st path :
  games (g_patches_db st) = None ->
  file_path (g_patches_db st) = Some path ->
  exists st',
    xemu_patches_save_database e st = (false, st') /\
    files st' = files st /\ g_patches_db st' = g_patches_db st /\
    B st' g_patches_loaded = B st g_patches_loaded.
Proof.
  intros Hg Hp. unfold xemu_patches_save_database.
  destruct (negb (B st g_patches_loaded)); [by exists st|].
  destruct (B st g_save_in_progress) eqn:Hs; [by exists st|].
  cbv zeta. cbn [g_patches_db setB]. rewrite Hp. cbn [g_patches_db setB].
  rewrite Hg.
  eexists. split; [reflexivity|]. by cbn.
Qed.

(** X18.  Start-up without a database file: [xemu_patches_init] returns
    with the system initialised and loaded, an empty database that names
    the default path, and no file written: the save that is meant to
    create the file finds no games array and gives up.  A second call
    changes nothing. *)
Theorem init_without_file_creates_none (e : env) (st : engine) :
  B st g_patches_initialized = false ->
  files st !! default_db_path e = None ->
  exists st',
    xemu_patches_init e st = Some st' /\
    files st' = files st /\
    xemu_patches_get_games st' = None /\
    xemu_patches_get_game_count st' = 0 /\
    xemu_patches_get_database_path st' = Some (default_db_path e) /\
    dirty (g_patches_db st') = false /\
    B st' g_patches_loaded = true /\
    B st' g_patches_initialized = true /\
    xemu_patches_init e st' = Some st'.
Proof.
  intros Hinit Hfile. unfold xemu_patches_init at 1. rewrite Hinit.
  unfold xemu_patches_load_database. simpl default. rewrite Hfile.
  cbv zeta. cbn [negb].
  match goal with
  | |- context [xemu_patches_save_database e ?s] =>
      destruct (save_database_without_games e s (default_db_path e)
                  eq_refl eq_refl) as (st2 & -> & Hf & Hd & Hl)
  end.
  cbn [snd]. eexists. split; [reflexivity|].
  unfold xemu_patches_get_games, xemu_patches_get_game_count,
    xemu_patches_get_database_path, game_count, game_list.
  cbn [files g_patches_db setB setI] in *. rewrite Hf, Hd.
  repeat split. exact Hl.
Qed.

Lemma init_without_file_creates_none_witness :
  exists st',
    xemu_patches_init sample_env (initial_engine stopped_guest ∅) = Some st' /\
    files st' = files (initial_engine stopped_guest ∅) /\
    xemu_patches_get_games st' = None /\
    xemu_patches_get_game_count st' = 0 /\
    xemu_patches_get_database_path st' = Some (default_db_path sample_env) /\
    dirty (g_patches_db st') = false /\
    B st' g_patches_loaded = true /\
    B st' g_patches_initialized = true /\
    xemu_patches_init sample_env st' = Some st'.
Proof.
  apply (init_without_file_creates_none sample_env
           (initial_engine stopped_guest ∅)); reflexivity.
Defined.

(** X19.  [xemu_patches_on_ui_request_save] on a dirty database queues
    "Patches database saved" whatever the save did: when the save is
    refused or cannot open the file, no file is written and the database
    stays dirty, and the message is queued all the same. *)
Theorem save_request_reports_success_anyway (e : env) (st : engine) :
  dirty (g_patches_db st) = true ->
  B st g_patches_loaded = false \/ B st g_save_in_progress = true \/
  games (g_patches_db st) = None \/ fopen_w_ok e = false ->
  let st' := xemu_patches_on_ui_request_save e st in
  notifications st' = notifications st ++ [Notify "Patches database saved"] /\
  files st' = files st /\
  dirty (g_patches_db st') = true.
Proof.
  intros Hd Hwhy. unfold xemu_patches_on_ui_request_save. rewrite Hd.
  unfold xemu_patches_save_database.
  destruct (B st g_patches_loaded) eqn:Hl; simpl negb; cbv iota; [|done].
  destruct (B st g_save_in_progress) eqn:Hs; [done|].
  cbv zeta.
  destruct (file_path (g_patches_db (setB g_save_in_progress true st)));
    simpl games.
  - destruct (games (g_patches_db st)) eqn:Hg; [|done].
    destruct (fopen_w_ok e) eqn:Ho; [|done].
    exfalso. destruct Hwhy as [?|[?|[?|?]]]; congruence.
  - destruct (games (g_patches_db st)) eqn:Hg; [|done].
    destruct (fopen_w_ok e) eqn:Ho; [|done].
    exfalso. destruct Hwhy as [?|[?|[?|?]]]; congruence.
Qed.

Lemma save_request_reports_success_anyway_witness :
  let st := mark_dirty true (toggle_start sample_patch stopped_guest) in
  let st' := xemu_patches_on_ui_request_save sample_env st in
  notifications st' = notifications st ++ [Notify "Patches database saved"] /\
  files st' = files st /\
  dirty (g_patches_db st') = true.
Proof.
  apply (save_request_reports_success_anyway sample_env
           (mark_dirty true (toggle_start sample_patch stopped_guest)));
    [reflexivity|left; reflexivity].
Defined.

(** ** The Add Game dialog and the lookup by certificate *)

Section DialogRegion.

(** [sizeof] of the members [m_add_game_title_id], [m_add_game_region] and
    [m_add_game_version]. *)
Variables (title_id_size region_size version_size : Z).

(** The fields after the dialog has filled them from the running
    executable's certificate ([strncpy] of the locals into the members);
    the title, alternate title id, date and disc number play no part in
    the lookup. *)
Definition dialog_fields (cert : xbe_cert) (title alt date disc : string)
    : add_game_fields :=
  let '(tid, reg, ver) := certificate_texts cert in
  MkFields title (strncpy_terminated region_size reg)
           (strncpy_terminated title_id_size tid)
           (strncpy_terminated version_size ver) alt date disc.

(** The test of the loop of [xemu_patches_find_game_by_certificate]. *)
Definition certificate_matches (game : XemuGamePatches)
    (title_str region_str version_str : string) : bool :=
  game_enabled game
  && bool_decide (title_id game = Some title_str)
  && bool_decide (region game = Some region_str)
  && bool_decide (version game = Some version_str).

Lemma find_certificate_from_range gs : forall i t r v j,
  find_certificate_from gs i t r v = Some j ->
  (i <= j < i + length gs)%nat.
Proof.
  induction gs as [|g gs IH]; intros i t r v j; simpl; [discriminate|].
  destruct (_ && _).
  - intros [= <-]. lia.
  - intros H. apply IH in H. lia.
Qed.

Lemma find_certificate_from_app gs g : forall i t r v,
  find_certificate_from (gs ++ [g]) i t r v =
  match find_certificate_from gs i t r v with
  | Some j => Some j
  | None => if certificate_matches g t r v then Some (i + length gs)%nat
            else None
  end.
Proof.
  induction gs as [|x gs IH]; intros i t r v; simpl.
  - unfold certificate_matches. rewrite Nat.add_0_r. by destruct (_ && _).
  - destruct (_ && _); [done|]. rewrite IH.
    destruct (find_certificate_from gs (S i) t r v); [done|].
    replace (S i + length gs)%nat with (i + S (length gs))%nat by lia. done.
Qed.

Lemma substring_long s : forall n,
  (String.length s <= n)%nat -> substring 0 n s = s.
Proof.
  induction s as [|c s IH]; intros [|n] H; simpl in *; try done; try lia.
  by rewrite IH by lia.
Qed.

(** Whatever the size of the member, the region text of the dialog is the
    one the lookup compares with for the region codes 1 and 2 only. *)
Lemma dialog_region_differs (k : nat) (r : Z) :
  substring 0 k (strncpy_terminated 64 (dialog_region_text r)) = region_text r ->
  r = 1 \/ r = 2.
Proof.
  unfold dialog_region_text, region_text.
  destruct (Z.eqb_spec r 1); [tauto|]. destruct (Z.eqb_spec r 2); [tauto|].
  destruct (Z.eqb_spec r 4) as [->|].
  { simpl. destruct k as [|[|[|[|k]]]]; discriminate. }
  destruct (Z.eqb_spec r 5) as [->|].
  { simpl. destruct k as [|[|[|[|[|[|[|k]]]]]]]; discriminate. }
  destruct (Z.eqb_spec r 8) as [->|].
  { simpl. destruct k as [|[|[|[|[|k]]]]]; discriminate. }
  app_simpl. destruct k as [|k]; discriminate.
Qed.

Lemma dec_byte_length b :
  0 <= b < 256 -> (String.length (dec b) <= 3)%nat.
Proof.
  intros Hb.
  assert (forallb (fun n => (String.length (dec (Z.of_nat n)) <=? 3)%nat)
            (seq 0 256) = true) as Hall by (vm_compute; reflexivity).
  rewrite forallb_forall in Hall.
  specialize (Hall (Z.to_nat b)). rewrite Z2Nat.id in Hall by lia.
  apply Nat.leb_le, Hall. apply in_seq. lia.
Qed.

Lemma version_byte_range v s : 0 <= version_byte v s < 256.
Proof.
  unfold version_byte. change 255 with (Z.ones 8).
  rewrite Z.land_ones by lia. apply Z.mod_pos_bound. lia.
Qed.

Lemma version_text_length v : (String.length (version_text v) <= 15)%nat.
Proof.
  unfold version_text, snprintf.
  pose proof (dec_byte_length _ (version_byte_range v 24)).
  pose proof (dec_byte_length _ (version_byte_range v 16)).
  pose proof (dec_byte_length _ (version_byte_range v 8)).
  pose proof (dec_byte_length _ (version_byte_range v 0)).
  set (a := dec (version_byte v 24)) in *.
  set (b := dec (version_byte v 16)) in *.
  set (c := dec (version_byte v 8)) in *.
  set (d := dec (version_byte v 0)) in *.
  assert (String.length (a +:+ "." +:+ b +:+ "." +:+ c +:+ "." +:+ d)
          <= 15)%nat as Hlen.
  { rewrite !length_append. change (String.length ".") with 1%nat. lia. }
  rewrite substring_long; [exact Hlen|].
  change (Z.to_nat (32 - 1)) with 31%nat. lia.
Qed.

(** A successful press appends the game the fields describe. *)
Lemma add_game_pressed_games e st (f : add_game_fields) :
  fst (add_game_pressed e st f) = true ->
  game_list (g_patches_db (snd (add_game_pressed e st f)))
  = game_list (g_patches_db st)
    ++ [MkGame (Some (m_add_game_title f)) (Some (m_add_game_region f))
               (Some (m_add_game_title_id f)) (Some (m_add_game_version f))
               (Some (m_add_game_alternate_title_id f))
               (Some (m_add_game_time_date f))
               (Some (m_add_game_disc_number f)) [] true].
Proof.
  unfold add_game_pressed.
  destruct (_ && _); [|discriminate].
  destruct (_ >=? 0).
  { destruct (at_index _ _); discriminate. }
  pose proof (add_game_games e st (Some (m_add_game_title f))
                (Some (m_add_game_region f)) (Some (m_add_game_title_id f))
                (Some (m_add_game_version f))
                (Some (m_add_game_alternate_title_id f))
                (Some (m_add_game_time_date f))
                (Some (m_add_game_disc_number f))) as [Hok Hl].
  destruct (xemu_patches_add_game _ _ _ _ _ _ _ _ _) as [added st1].
  cbn [fst snd] in Hok, Hl. subst added. intros _. cbn [fst snd].
  rewrite <- Hl. unfold xemu_patches_on_ui_database_changed.
  destruct (negb _); [|done].
  destruct (xemu_patches_save_database e (mark_dirty true st1))
    as [saved st2] eqn:Es.
  apply save_database_bookkeeping in Es as (Hg & _).
  destruct saved; exact Hg.
Qed.

(** The tuple a certificate shows. *)
Definition certificate_tuple (cert : xbe_cert) : outs :=
  (u32 (m_titleid cert), u32 (m_game_region cert), u32 (m_version cert)).

(** The cache of [get_cached_xbe_info], when valid, is of [cert]. *)
Definition cache_of (st : engine) (cert : xbe_cert) : Prop :=
  B st g_xbe_cache_valid = true ->
  (I st g_xbe_cache_title_id, I st g_xbe_cache_region, I st g_xbe_cache_version)
  = certificate_tuple cert.

(** With the host showing [cert] and no other certificate in the cache, a
    successful read hands out the tuple of [cert]. *)
Lemma read_gives_certificate e st out o st1 cert :
  xemu_get_xbe_info e = Some cert -> cache_of st cert ->
  get_cached_xbe_info e st out = (true, o, st1) ->
  o = certificate_tuple cert /\ g_patches_db st1 = g_patches_db st.
Proof.
  intros Hc Hcache. unfold cache_of in Hcache.
  unfold get_cached_xbe_info, cached_result. rewrite Hc.
  repeat match goal with
         | |- context [if ?c then _ else _] => destruct c eqn:?
         end;
    intros [= <- <-]; state_simpl; try done; split; try done;
    try (by apply Hcache).
Qed.

(** What [xemu_patches_find_game_by_certificate] returns while the host
    shows [cert]: nothing during Load Disc or when its read fails, and
    else the first enabled game whose three texts are those of [cert]. *)
Lemma find_game_by_certificate_result e st cert :
  xemu_get_xbe_info e = Some cert -> cache_of st cert ->
  fst (xemu_patches_find_game_by_certificate e st) =
  if B st g_load_disc_in_progress then None
  else if fst (fst (get_cached_xbe_info e st (0, 0, 0))) then
    find_certificate_from (game_list (g_patches_db st)) 0
      (snprintf 16 (hex_fixed 8 (u32 (m_titleid cert))))
      (region_text (u32 (m_game_region cert)))
      (version_text (u32 (m_version cert)))
  else None.
Proof.
  intros Hc Hcache. unfold xemu_patches_find_game_by_certificate.
  destruct (B st g_load_disc_in_progress); [done|].
  destruct (get_cached_xbe_info e st (0, 0, 0)) as [[found o] st1] eqn:Er.
  destruct found; [|done]. cbn [fst snd negb].
  destruct (read_gives_certificate _ _ _ _ _ _ Hc Hcache Er) as [-> Hdb].
  rewrite Hdb. unfold game_list.
  destruct (games (g_patches_db st)) as [gs|]; [|done].
  change (default [] (Some gs)) with gs.
  rewrite Hc.
  match goal with
  | |- context [let '(o1, st2) := ?x in _] =>
      assert (fst x = certificate_tuple cert) as Ho1
        by (by destruct (_ && _)); destruct x as [o1 st2]
  end.
  simpl in Ho1. subst o1. unfold certificate_tuple, out_title, out_region,
    out_version. cbn [fst snd].
  destruct (find_certificate_from gs 0 _ _ _); [|done].
  cbv zeta.
  repeat match goal with
         | |- context [if ?c then _ else _] => destruct c
         end; done.
Qed.

End DialogRegion.

(** X20.  A game added from the Add Game dialog, its fields filled from the
    running executable's certificate, and a later call of
    [xemu_patches_find_game_by_certificate] while the host shows that same
    certificate (and the certificate cache holds no other): the call
    returns the new entry only when the region code of the certificate is
    1 or 2, because the dialog and the lookup name the other regions
    differently; for the codes 1 and 2, with members large enough for the
    three texts, no Load Disc in progress and the call's certificate read
    succeeding, the call does return an entry, the new one or an earlier
    one. *)
Theorem dialog_game_found_for_two_regions_only
    (title_id_size region_size version_size : Z) (e later : env) (st : engine)
    (cert : xbe_cert) (title alt date disc : string) :
  let f := dialog_fields title_id_size region_size version_size
                         cert title alt date disc in
  let r := add_game_pressed e st f in
  let code := u32 (m_game_region cert) in
  let found := fst (xemu_patches_find_game_by_certificate later (snd r)) in
  fst r = true ->
  xemu_get_xbe_info later = Some cert ->
  cache_of (snd r) cert ->
  (found = Some (length (game_list (g_patches_db st))) -> code = 1 \/ code = 2) /\
  (9 <= title_id_size -> 7 <= region_size -> 16 <= version_size ->
   code = 1 \/ code = 2 ->
   B (snd r) g_load_disc_in_progress = false ->
   fst (fst (get_cached_xbe_info later (snd r) (0, 0, 0))) = true ->
   exists i, found = Some i /\ (i <= length (game_list (g_patches_db st)))%nat).
Proof.
  intros f r code found Hadded Hcert Hcache.
  pose proof (add_game_pressed_games e st f Hadded) as Hgs. fold r in Hgs.
  set (new_game := MkGame _ _ _ _ _ _ _ _ _) in Hgs.
  subst found. rewrite (find_game_by_certificate_result _ _ _ Hcert Hcache).
  rewrite Hgs, find_certificate_from_app.
  destruct (find_certificate_from (game_list (g_patches_db st)) 0 _ _ _)
    as [j|] eqn:Hold.
  - apply find_certificate_from_range in Hold. split.
    + destruct (B (snd r) g_load_disc_in_progress); [discriminate|].
      destruct (fst (fst _)); [|discriminate]. intros [= ->]. lia.
    + intros _ _ _ _ -> ->. exists j. split; [done|lia].
  - unfold certificate_matches, new_game.
    cbn [game_enabled title_id region version andb].
    assert (m_add_game_region f
            = substring 0 (Z.to_nat (region_size - 1))
                (strncpy_terminated 64 (dialog_region_text code))) as Hreg
      by reflexivity.
    assert (m_add_game_title_id f
            = strncpy_terminated title_id_size
                (snprintf 32 (hex_fixed 8 (u32 (m_titleid cert))))) as Htid
      by reflexivity.
    assert (m_add_game_version f
            = strncpy_terminated version_size
                (version_text (u32 (m_version cert)))) as Hver
      by reflexivity.
    split.
    + destruct (B (snd r) g_load_disc_in_progress); [discriminate|].
      destruct (fst (fst _)); [|discriminate].
      destruct (bool_decide _ && bool_decide _ && bool_decide _) eqn:Hm;
        [|discriminate].
      intros _. apply andb_prop in Hm as [Hm _]. apply andb_prop in Hm as [_ Hm].
      apply bool_decide_eq_true in Hm. injection Hm as Hm.
      by apply (dialog_region_differs (Z.to_nat (region_size - 1))).
    + intros Ht Hr Hv Hcode -> ->.
      exists (length (game_list (g_patches_db st))).
      split; [|lia].
      rewrite Htid, Hreg, Hver.
      unfold strncpy_terminated, snprintf.
      rewrite !(substring_long (hex_fixed 8 _))
        by (rewrite hex_fixed_length; lia).
      rewrite (substring_long (version_text _))
        by (pose proof (version_text_length (u32 (m_version cert))); lia).
      assert (substring 0 (Z.to_nat (region_size - 1))
                (substring 0 (Z.to_nat (64 - 1)) (dialog_region_text code))
              = region_text code) as ->.
      { destruct Hcode as [-> | ->].
        - change (substring 0 (Z.to_nat (64 - 1)) (dialog_region_text 1))
            with "NTSC-U".
          change (region_text 1) with "NTSC-U".
          apply substring_long. change (String.length "NTSC-U") with 6%nat. lia.
        - change (substring 0 (Z.to_nat (64 - 1)) (dialog_region_text 2))
            with "NTSC-J".
          change (region_text 2) with "NTSC-J".
          apply substring_long. change (String.length "NTSC-J") with 6%nat. lia. }
      by rewrite !bool_decide_eq_true_2.
Qed.

Lemma dialog_game_found_for_two_regions_only_witness :
  let host := env_at 1000 1 (Some halo_cert) in
  let f := dialog_fields 32 64 32 halo_cert "Halo" "" "" "" in
  let r := add_game_pressed sample_env
             (setB g_patches_loaded true (initial_engine stopped_guest ∅)) f in
  fst (xemu_patches_find_game_by_certificate host (snd r)) = Some 0%nat.
Proof.
  intros host f r.
  destruct (dialog_game_found_for_two_regions_only 32 64 32 sample_env
              (env_at 1000 1 (Some halo_cert))
              (setB g_patches_loaded true (initial_engine stopped_guest ∅))
              halo_cert "Halo" "" "" "") as [_ H].
  - vm_compute. reflexivity.
  - reflexivity.
  - intros Hv. vm_compute in Hv. discriminate.
  - destruct H as (i & Hi & Hle).
    + lia.
    + lia.
    + lia.
    + left. reflexivity.
    + vm_compute. reflexivity.
    + vm_compute. reflexivity.
    + replace i with 0%nat in Hi by (simpl in Hle; lia). exact Hi.
Defined.

(** ** The patches popup: from a row to its indices *)

Section PopupIndices.

(** Slot [q] comes before slot [p] in the order of the scan. *)
Definition scanned_before (q p : patch_ref) : Prop :=
  (q.1 < p.1)%nat \/ (q.1 = p.1 /\ (q.2 < p.2)%nat).

Lemma scan_patches_Some hit ps : forall i j,
  scan_patches ps i hit = Some j ->
  exists k other,
    j = (i + k)%nat /\ ps !! k = Some other /\ hit j other = true /\
    forall k' other', (k' < k)%nat -> ps !! k' = Some other' ->
                      hit (i + k')%nat other' = false.
Proof.
  induction ps as [|x ps IH]; intros i j; simpl; [discriminate|].
  destruct (hit i x) eqn:Hx.
  - intros [= <-]. exists 0%nat, x. rewrite Nat.add_0_r.
    repeat split; try done. intros k' ? Hk'. lia.
  - intros H. apply IH in H as (k & other & -> & Hk & Hhit & Hbefore).
    exists (S k), other. split; [lia|]. split; [done|].
    split; [by replace (i + S k)%nat with (S i + k)%nat by lia|].
    intros [|k'] other' Hlt; simpl.
    + intros [= <-]. by rewrite Nat.add_0_r.
    + intros Hk'. replace (i + S k')%nat with (S i + k')%nat by lia.
      apply (Hbefore k'); [lia|done].
Qed.

Lemma scan_patches_None hit ps : forall i,
  scan_patches ps i hit = None ->
  forall k other, ps !! k = Some other -> hit (i + k)%nat other = false.
Proof.
  induction ps as [|x ps IH]; intros i; simpl.
  - intros _ k other Hk. by rewrite lookup_nil in Hk.
  - destruct (hit i x) eqn:Hx; [discriminate|].
    intros H [|k] other; simpl.
    + intros [= <-]. by rewrite Nat.add_0_r.
    + intros Hk. replace (i + S k)%nat with (S i + k)%nat by lia.
      by apply (IH (S i) H).
Qed.

Lemma scan_games_Some hit gs : forall i g j,
  scan_games gs i hit = Some (g, j) ->
  exists k game other,
    g = (i + k)%nat /\ gs !! k = Some game /\
    patches game !! j = Some other /\ hit g j other = true /\
    (forall j' other', (j' < j)%nat -> patches game !! j' = Some other' ->
                       hit g j' other' = false) /\
    (forall k' game' j' other',
       (k' < k)%nat -> gs !! k' = Some game' ->
       patches game' !! j' = Some other' -> hit (i + k')%nat j' other' = false).
Proof.
  induction gs as [|x gs IH]; intros i g j; simpl; [discriminate|].
  destruct (scan_patches (patches x) 0 (hit i)) as [pj|] eqn:Hs.
  - intros [= <- <-].
    apply scan_patches_Some in Hs as (k & other & -> & Hk & Hhit & Hbefore).
    exists 0%nat, x, other. rewrite Nat.add_0_r. simpl in *.
    split; [done|]. split; [done|]. split; [done|]. split; [done|].
    split; [exact Hbefore|]. intros k' ? ? ? Hk'. lia.
  - intros H. apply IH in H
      as (k & game & other & -> & Hk & Hj & Hhit & Hrow & Hbefore).
    exists (S k), game, other. split; [lia|]. split; [done|]. split; [done|].
    split; [by replace (i + S k)%nat with (S i + k)%nat by lia|].
    split.
    { intros j' other' Hlt Hj'.
      replace (i + S k)%nat with (S i + k)%nat by lia. by apply Hrow. }
    intros [|k'] game' j' other' Hlt; simpl.
    + intros [= <-] Hj'. rewrite Nat.add_0_r.
      by apply (scan_patches_None _ _ _ Hs j' other').
    + intros Hk' Hj'. replace (i + S k')%nat with (S i + k')%nat by lia.
      apply (Hbefore k' game' j' other'); [lia|done|done].
Qed.

Lemma scan_games_None hit gs : forall i,
  scan_games gs i hit = None ->
  forall k game j other,
    gs !! k = Some game -> patches game !! j = Some other ->
    hit (i + k)%nat j other = false.
Proof.
  induction gs as [|x gs IH]; intros i; simpl.
  - intros _ k game j other Hk. by rewrite lookup_nil in Hk.
  - destruct (scan_patches (patches x) 0 (hit i)) as [pj|] eqn:Hs;
      [discriminate|].
    intros H [|k] game j other; simpl.
    + intros [= <-] Hj. rewrite Nat.add_0_r.
      by apply (scan_patches_None _ _ _ Hs j other).
    + intros Hk Hj. replace (i + S k)%nat with (S i + k)%nat by lia.
      by apply (IH (S i) H k game j other).
Qed.

Lemma deref_Some st p patch :
  deref st p = Some patch <->
  exists game, game_list (g_patches_db st) !! p.1 = Some game /\
               patches game !! p.2 = Some patch.
Proof.
  unfold deref. destruct (game_list (g_patches_db st) !! p.1) as [game|].
  - split; [intros H; by exists game|]. by intros (g & [= <-] & H).
  - split; [discriminate|]. by intros (g & [=] & _).
Qed.

(** The slot found for a row: the first one in scan order that is the row's
    own or holds a patch of the same name. *)
Lemma GetPatchIndices_spec st p patch :
  deref st p = Some patch ->
  exists q,
    GetPatchIndices st p = Some q /\
    (q = p \/ scanned_before q p) /\
    (q <> p -> exists other,
                 deref st q = Some other /\ same_name patch other = true) /\
    (forall q' other,
       scanned_before q' q -> deref st q' = Some other ->
       same_name patch other = false).
Proof.
  intros Hd. unfold GetPatchIndices. rewrite Hd.
  apply deref_Some in Hd as (game & Hg & Hp).
  set (hit := fun game_idx patch_idx other =>
                ((game_idx =? p.1)%nat && (patch_idx =? p.2)%nat)
                || same_name patch other).
  assert (hit p.1 p.2 patch = true) as Hown.
  { unfold hit. by rewrite !Nat.eqb_refl. }
  destruct (scan_games (game_list (g_patches_db st)) 0 hit) as [[g j]|] eqn:Hs.
  2:{ pose proof (scan_games_None _ _ _ Hs p.1 game p.2 patch Hg Hp) as H.
      simpl in H. congruence. }
  apply scan_games_Some in Hs
    as (k & game' & other & -> & Hk & Hj & Hhit & Hrow & Hbefore).
  simpl in *. exists (k, j). split; [done|].
  assert ((k, j) = p \/ scanned_before (k, j) p) as Hpos.
  { destruct p as [pg pi]. simpl in *. unfold scanned_before. simpl.
    destruct (lt_eq_lt_dec k pg) as [[Hlt|Heq]|Hgt].
    - right. by left.
    - subst pg. destruct (lt_eq_lt_dec j pi) as [[Hlt|Heq]|Hgt].
      + right. right. done.
      + subst pi. by left.
      + exfalso. rewrite Hg in Hk. injection Hk as <-.
        pose proof (Hrow pi patch Hgt Hp). congruence.
    - exfalso. pose proof (Hbefore pg game pi patch Hgt Hg Hp). congruence. }
  split; [done|]. split.
  - intros Hne. exists other. split.
    { apply deref_Some. by exists game'. }
    unfold hit in Hhit. apply orb_true_iff in Hhit as [Hhit|Hhit]; [|done].
    exfalso. apply Hne. apply andb_true_iff in Hhit as [H1 H2].
    apply Nat.eqb_eq in H1, H2. destruct p. simpl in *. by subst.
  - intros [qg qj] other' Hlt Hq.
    apply deref_Some in Hq as (gq & Hgq & Hpq). simpl in *.
    assert (hit qg qj other' = false) as Hmiss.
    { destruct Hlt as [Hlt|[Heq Hlt]]; simpl in *.
      - by apply (Hbefore qg gq qj other').
      - subst qg. rewrite Hk in Hgq. injection Hgq as <-.
        by apply (Hrow qj other'). }
    unfold hit in Hmiss. by apply orb_false_iff in Hmiss as [_ ?].
Qed.

(** Two databases whose patches carry the same names, slot by slot. *)
Definition same_names (st st' : engine) : Prop :=
  Forall2 (fun g g' => Forall2 (fun a b => name a = name b)
                               (patches g) (patches g'))
          (game_list (g_patches_db st)) (game_list (g_patches_db st')).

Lemma same_names_refl st : same_names st st.
Proof.
  unfold same_names. apply Forall_Forall2_diag, Forall_forall. intros g _.
  by apply Forall_Forall2_diag, Forall_forall.
Qed.

Lemma same_names_trans a b c :
  same_names a b -> same_names b c -> same_names a c.
Proof.
  unfold same_names. intros H1 H2.
  eapply Forall2_trans; [|exact H1|exact H2].
  intros x y z Hxy Hyz. simpl in *.
  eapply Forall2_trans; [|exact Hxy|exact Hyz].
  intros ? ? ?. simpl. congruence.
Qed.

Lemma same_names_games st st' :
  game_list (g_patches_db st') = game_list (g_patches_db st) ->
  same_names st st'.
Proof. intros H. unfold same_names. rewrite H. apply same_names_refl. Qed.

Lemma scan_patches_names hit hit' ps ps' : forall i,
  Forall2 (fun a b => forall k, hit k a = hit' k b) ps ps' ->
  scan_patches ps i hit = scan_patches ps' i hit'.
Proof.
  intros i H. revert i. induction H as [|a b ps ps' Hab _ IH]; intros i; simpl;
    [done|].
  rewrite Hab. destruct (hit' i b); [done|]. apply IH.
Qed.

Lemma scan_games_names hit hit' gs gs' : forall i,
  Forall2 (fun g g' => Forall2 (fun a b => forall gi k, hit gi k a = hit' gi k b)
                               (patches g) (patches g')) gs gs' ->
  scan_games gs i hit = scan_games gs' i hit'.
Proof.
  intros i H. revert i. induction H as [|g g' gs gs' Hg _ IH]; intros i; simpl;
    [done|].
  rewrite (scan_patches_names (hit i) (hit' i) (patches g) (patches g')).
  - destruct (scan_patches (patches g') 0 (hit' i)); [done|]. apply IH.
  - eapply Forall2_impl; [exact Hg|]. intros a b Hab k. apply Hab.
Qed.

Lemma same_names_deref st st' p :
  same_names st st' ->
  match deref st p, deref st' p with
  | Some a, Some b => name a = name b
  | None, None => True
  | _, _ => False
  end.
Proof.
  intros H. unfold deref, same_names in *.
  destruct (game_list (g_patches_db st) !! p.1) as [g|] eqn:Eg.
  - destruct (Forall2_lookup_l _ _ _ p.1 g H Eg) as (g' & Eg' & Hps).
    rewrite Eg'. simpl in Hps.
    destruct (patches g !! p.2) as [a|] eqn:Ea.
    + by destruct (Forall2_lookup_l _ _ _ p.2 a Hps Ea) as (b & -> & Hn).
    + destruct (patches g' !! p.2) as [b|] eqn:Eb; [|done].
      destruct (Forall2_lookup_r _ _ _ p.2 b Hps Eb) as (a & Ha & _).
      congruence.
  - destruct (game_list (g_patches_db st') !! p.1) as [g'|] eqn:Eg'; [|done].
    destruct (Forall2_lookup_r _ _ _ p.1 g' H Eg') as (g & Hg & _). congruence.
Qed.

Lemma GetPatchIndices_same_names st st' p :
  same_names st st' -> GetPatchIndices st p = GetPatchIndices st' p.
Proof.
  intros H. pose proof (same_names_deref st st' p H) as Hd.
  unfold GetPatchIndices.
  destruct (deref st p) as [a|], (deref st' p) as [b|]; try done.
  apply scan_games_names. unfold same_names in H.
  eapply Forall2_impl; [exact H|]. intros g g' Hg. simpl in *.
  eapply Forall2_impl; [exact Hg|]. intros x y Hxy gi k. simpl in *.
  unfold same_name. by rewrite Hd, Hxy.
Qed.

End PopupIndices.

(** X21.  [GetPatchIndices] answers with the first slot, games in order and
    patches in order, that is the row's own slot or holds a patch with the
    row's name: the answer is the row's own slot or an earlier one of the
    same name, and no slot before the answer has that name.  So of two
    patches with one name the popup always acts on the first. *)
Theorem GetPatchIndices_first_of_that_name (st : engine) (p : patch_ref)
    (patch : XemuMemoryPatch) :
  deref st p = Some patch ->
  exists q,
    GetPatchIndices st p = Some q /\
    (q = p \/ scanned_before q p) /\
    (q <> p -> exists other,
                 deref st q = Some other /\ same_name patch other = true) /\
    (forall q' other,
       scanned_before q' q -> deref st q' = Some other ->
       same_name patch other = false).
Proof. apply GetPatchIndices_spec. Qed.

Lemma GetPatchIndices_first_of_that_name_witness :
  exists q,
    GetPatchIndices
      (set_db (MkDb (Some [MkGame (Some "Halo") None None None None None None
                             [sample_patch; twice_patch; sample_patch] true])
                    None false)
              (initial_engine stopped_guest ∅)) (0, 2)%nat = Some q /\
    (q = (0, 2)%nat \/ scanned_before q (0, 2)%nat) /\
    (q <> (0, 2)%nat -> exists other,
        deref (set_db (MkDb (Some [MkGame (Some "Halo") None None None None None
                                     None
                                     [sample_patch; twice_patch; sample_patch]
                                     true])
                            None false)
                      (initial_engine stopped_guest ∅)) q = Some other /\
        same_name sample_patch other = true) /\
    (forall q' other,
       scanned_before q' q ->
       deref (set_db (MkDb (Some [MkGame (Some "Halo") None None None None None
                                    None
                                    [sample_patch; twice_patch; sample_patch]
                                    true])
                           None false)
                     (initial_engine stopped_guest ∅)) q' = Some other ->
       same_name sample_patch other = false).
Proof.
  apply (GetPatchIndices_first_of_that_name
           (set_db (MkDb (Some [MkGame (Some "Halo") None None None None None None
                                  [sample_patch; twice_patch; sample_patch] true])
                         None false)
                   (initial_engine stopped_guest ∅)) (0, 2)%nat sample_patch).
  reflexivity.
Defined.

(** ** The patches popup: applying a patch that is applied already *)

Section Reapply.

Variables (gi pi : Z) (pairs : list XemuPatchAddressValue).
Variables (r0 : gmap Z Z) (cpu : bool).

Hypothesis Hsep : separate pairs.

(** Guest memory once the patch has been applied. *)
Variable r1 : gmap Z Z.
Hypothesis Hr1 : forall k, r1 !! k = overlay r0 (W r0 cpu pairs) k.

Local Abbreviation written := (W r0 cpu pairs).
Local Abbreviation saved_entry := (entry_of gi pi r0).

(** The entry a second application records: the patch's own bytes. *)
Definition patched_entry (av : XemuPatchAddressValue) : SavedValueEntry :=
  MkSaved gi pi (address av) (value_data av).

Lemma overlay_in r l av k :
  separate l -> av ∈ l -> in_span k av = true ->
  overlay r l k = value_data av !! Z.to_nat (k - address av).
Proof.
  induction 1 as [|x l Hlen Hall Hs IH]; intros Hav Hk; [inversion Hav|].
  simpl. apply elem_of_cons in Hav as [->|Hav]; [by rewrite Hk|].
  rewrite Forall_forall in Hall.
  rewrite (apart_in_span av x k (apart_sym _ _ (Hall av Hav)) Hk).
  by apply IH.
Qed.

Lemma separate_written l : separate l -> separate (W r0 cpu l).
Proof. apply separate_filter. Qed.

Lemma written_elem av : av ∈ written <-> av ∈ pairs /\ writable0 r0 cpu av = true.
Proof. unfold W. rewrite list_elem_of_filter. simpl. tauto. Qed.

Lemma r1_mapping : same_mapping r0 r1.
Proof.
  intros k. rewrite Hr1.
  generalize (W_writable r0 cpu pairs). generalize (W r0 cpu pairs).
  intros l Hl. induction Hl as [|av l Hav _ IH]; simpl; [done|].
  destruct (in_span k av) eqn:K; [|done].
  apply bool_decide_eq_true in K.
  apply writable0_true in Hav as (_ & _ & Hmp).
  rewrite mapped_lookup in Hmp. split; intros _; [by apply Hmp|].
  apply lookup_lt_is_Some. lia.
Qed.

Lemma read_span_exact r a bs :
  (forall k, (k < length bs)%nat -> r !! (a + Z.of_nat k) = bs !! k) ->
  read_span r a (length bs) = Some bs.
Proof.
  revert a. induction bs as [|b bs IH]; intros a H; simpl; [done|].
  pose proof (H 0%nat) as H0. simpl in H0. rewrite Z.add_0_r in H0.
  rewrite H0 by lia. rewrite IH; [done|].
  intros k Hk. specialize (H (S k)). simpl in H.
  rewrite <- H by lia. f_equal. lia.
Qed.

Lemma r1_read av :
  av ∈ written ->
  read_span r1 (address av) (length (value_data av)) = Some (value_data av).
Proof.
  intros Hav. apply read_span_exact. intros k Hk. rewrite Hr1.
  rewrite (overlay_in r0 written av); [f_equal; lia| |done|].
  - by apply separate_written.
  - apply bool_decide_eq_true. lia.
Qed.

Lemma writable0_r1 av : writable0 r1 cpu av = writable0 r0 cpu av.
Proof.
  unfold writable0. by rewrite (same_mapping_mapped _ _ _ _ r1_mapping).
Qed.

Lemma W_r1 : W r1 cpu pairs = written.
Proof.
  unfold W. apply list_filter_iff. intros av. by rewrite writable0_r1.
Qed.

Lemma overlay_r1 k : overlay r1 written k = r1 !! k.
Proof.
  destruct (decide (Forall (fun av => in_span k av = false) written))
    as [Hout|Hin].
  - by apply overlay_out.
  - apply not_Forall_Exists in Hin; [|apply _].
    apply Exists_exists in Hin as (av & Hav & Hk). simpl in Hk.
    apply not_false_is_true in Hk.
    rewrite (overlay_in r1 written av k (separate_written _ Hsep) Hav Hk).
    rewrite Hr1.
    by rewrite (overlay_in r0 written av k (separate_written _ Hsep) Hav Hk).
Qed.

Lemma entry_of_r1 av : av ∈ written -> entry_of gi pi r1 av = patched_entry av.
Proof.
  intros Hav. unfold entry_of, original, patched_entry.
  by rewrite (r1_read av Hav).
Qed.

Lemma insert_Permutation {A} (l : list A) i x y :
  l !! i = Some x -> <[i := y]> l ≡ₚ y :: delete i l.
Proof.
  revert i. induction l as [|z l IH]; intros [|i]; simpl; try done.
  intros H. rewrite (IH i H). apply perm_swap.
Qed.

Lemma Permutation_move {A} (y : A) l1 l2 l3 :
  y :: l1 ++ l2 ++ l3 ≡ₚ l1 ++ (l2 ++ [y]) ++ l3.
Proof.
  rewrite <- (app_assoc l2). simpl.
  rewrite (app_assoc l1 l2 (y :: l3)), <- Permutation_middle.
  by rewrite <- app_assoc.
Qed.

Lemma Permutation_take {A} (x : A) l l1 l2 l3 :
  x :: l ≡ₚ l1 ++ l2 ++ x :: l3 -> l ≡ₚ l1 ++ l2 ++ l3.
Proof.
  intros H. apply (Permutation_cons_inv (a := x)). rewrite H.
  rewrite (app_assoc l1 l2 (x :: l3)), <- Permutation_middle.
  by rewrite <- app_assoc.
Qed.

Variable S0 : list SavedValueEntry.

Hypothesis HS0nd : NoDup (entry_key <$> S0).
Hypothesis HS0free :
  forall x, x ∈ S0 -> ~ (sv_game_index x = gi /\ sv_patch_index x = pi).
Hypothesis Hroom : Z.of_nat (length S0 + length pairs) < MAX_SAVED_VALUES.

Variable e : env.

(** The apply loop on a patch that has been applied: every pair that can be
    written is read back as the patch wrote it, and that is what replaces
    the recorded original. *)
Lemma reapply_inv rest : forall done st acc ok st',
  pairs = done ++ rest ->
  (forall k, ram (the_guest st) !! k = r1 !! k) ->
  g_saved_values st ≡ₚ
    S0 ++ (patched_entry <$> W r0 cpu done) ++ (saved_entry <$> W r0 cpu rest) ->
  cpu_present (the_guest st) = cpu ->
  apply_pairs e st true gi pi rest acc = (ok, st') ->
  (forall k, ram (the_guest st') !! k = r1 !! k) /\
  g_saved_values st' ≡ₚ S0 ++ (patched_entry <$> written) /\
  g_patches_db st' = g_patches_db st /\
  guest_static (the_guest st) (the_guest st').
Proof.
  induction rest as [|av rest IH]; intros done st acc ok st' Hp Hm Hs Hc; simpl.
  - intros [= <- <-]. rewrite app_nil_r in Hp. subst done.
    unfold W in Hs |- *. rewrite ?filter_nil in Hs. simpl in Hs.
    rewrite app_nil_r in Hs. unfold guest_static. tauto.
  - destruct (apply_pair e st true gi pi av) as [ok1 st1] eqn:Ep.
    intros Hrest.
    pose proof (apply_pair_save _ _ _ _ _ _ _ Ep)
      as (_ & Hdb & _ & _ & Hgs & Hrec & Hskip & Hok & Hram).
    assert (pairs = (done ++ [av]) ++ rest) as Hp'
      by (by rewrite <- app_assoc).
    assert (av ∈ pairs) as Hin.
    { rewrite Hp. apply elem_of_app. right. by left. }
    assert (0 < length (value_data av) <= 16)%nat as Hlen
      by (by apply (separate_lengths pairs av)).
    assert (readable st av = writable0 r0 cpu av) as Hrw.
    { unfold readable, writable0. rewrite Hc. f_equal.
      transitivity (mapped r1 (address av) (length (value_data av))).
      - apply same_mapping_mapped. intros k. by rewrite Hm.
      - apply same_mapping_mapped, r1_mapping. }
    rewrite Hrw in Hrec, Hskip, Hok.
    assert (cpu_present (the_guest st1) = cpu) as Hc1.
    { destruct Hgs as (-> & _). done. }
    assert ((forall k, ram (the_guest st1) !! k = r1 !! k) /\
            g_saved_values st1 ≡ₚ
              S0 ++ (patched_entry <$> W r0 cpu (done ++ [av]))
                 ++ (saved_entry <$> W r0 cpu rest)) as [Hm1 Hs1].
    { unfold W in Hs |- *. rewrite filter_app, filter_cons, filter_nil.
      rewrite filter_cons in Hs.
      destruct (decide (writable0 r0 cpu av = true)) as [Hw|Hw].
      - assert (av ∈ written) as Hwr by (by apply written_elem).
        assert (ok1 = true) as ->.
        { apply Hok. split; [done|].
          destruct (value_data av); [simpl in Hlen; lia|done]. }
        split.
        + intros k. rewrite Hram, store_span_lookup.
          case_bool_decide as Hk; [|apply Hm].
          rewrite Hr1.
          rewrite (overlay_in r0 written av k (separate_written _ Hsep) Hwr);
            [done|by apply bool_decide_eq_true].
        + destruct (Hrec Hw) as (orig & Hread & Hsv).
          rewrite (read_span_exact _ _ (value_data av)) in Hread
            by (intros k Hk; rewrite Hm; rewrite Hr1;
                rewrite (overlay_in r0 written av _ (separate_written _ Hsep)
                           Hwr);
                [f_equal; lia|apply bool_decide_eq_true; lia]).
          injection Hread as <-.
          rewrite Hsv. clear Hsv.
          unfold add_saved_value, g_saved_values_count.
          pose proof (Permutation_length Hs) as Hlen_s.
          rewrite !length_app, !length_fmap in Hlen_s. simpl in Hlen_s.
          rewrite ?length_fmap in Hlen_s.
          pose proof (length_filter (fun x => writable0 r0 cpu x = true) done).
          pose proof (length_filter (fun x => writable0 r0 cpu x = true) rest).
          assert (length pairs = length done + S (length rest))%nat as Hpl.
          { rewrite Hp, length_app. simpl. lia. }
          destruct (Z.geb_spec (Z.of_nat (length (g_saved_values st)))
                      MAX_SAVED_VALUES) as [Hfull|_]; [lia|].
          assert (NoDup (entry_key <$> g_saved_values st)) as Hnd.
          { assert (forall l1 l2,
                      entry_key <$> S0 ++ (patched_entry <$> l1)
                                       ++ (saved_entry <$> l2)
                      = entry_key <$> S0 ++ (saved_entry <$> l1 ++ l2))
              as Hkeys.
            { intros l1 l2. rewrite !fmap_app, <- !list_fmap_compose. done. }
            rewrite Hs, Hkeys.
            assert (filter (fun x => writable0 r0 cpu x = true) done
                      ++ av :: filter (fun x => writable0 r0 cpu x = true) rest
                    = written) as ->.
            { unfold W. rewrite Hp, filter_app, filter_cons.
              by rewrite decide_True by done. }
            apply (store_keys_nodup gi pi pairs r0 S0 HS0nd HS0free
                     (Z.lt_le_incl _ _ Hroom)).
            by apply separate_written. }
          assert (saved_entry av ∈ g_saved_values st) as Hold.
          { rewrite Hs. apply elem_of_app. right. apply elem_of_app. right.
            by left. }
          unfold find_saved_value.
          destruct (find_index (g_saved_values st) gi pi (address av))
            as [i|] eqn:Hf.
          * apply find_index_Some in Hf as (x & Hi & Hk).
            assert (x = saved_entry av) as ->.
            { apply (same_key_same_entry (g_saved_values st)); try done.
              by eapply list_elem_of_lookup_2. }
            simpl. rewrite (insert_Permutation _ _ _ _ Hi).
            assert (saved_entry av :: delete i (g_saved_values st) ≡ₚ
                    S0 ++ (patched_entry <$>
                             filter (fun x => writable0 r0 cpu x = true) done)
                       ++ (saved_entry <$>
                             av :: filter (fun x => writable0 r0 cpu x = true)
                                     rest)) as Hdel
              by (by rewrite <- (delete_Permutation _ _ _ Hi)).
            rewrite (Permutation_take _ _ _ _ _ Hdel).
            rewrite fmap_app. apply Permutation_move.
          * exfalso. apply find_index_None in Hf. apply Hf.
            apply list_elem_of_fmap. by exists (saved_entry av).
      - rewrite app_nil_r. apply not_true_is_false in Hw.
        assert (ok1 = false) as ->.
        { destruct ok1; [|done]. destruct Hok as [Hok _].
          destruct (Hok eq_refl). congruence. }
        split; [intros k; rewrite Hram; apply Hm|].
        by rewrite (Hskip Hw). }
    destruct (IH (done ++ [av]) st1 _ ok st' Hp' Hm1 Hs1 Hc1 Hrest)
      as (? & ? & Hdb' & Hgs').
    split; [done|]. split; [done|]. split; [congruence|].
    destruct Hgs as (?&?&?), Hgs' as (?&?&?). repeat split; congruence.
Qed.

End Reapply.

Section PopupToggle.

Variables (g i : nat) (pairs : list XemuPatchAddressValue).

Lemma patch_at_deref st en :
  patch_at (Z.of_nat g) (Z.of_nat i) pairs st en ->
  exists game patch,
    game_list (g_patches_db st) !! g = Some game /\
    patches game !! i = Some patch /\
    deref st (g, i) = Some patch /\
    address_values patch = pairs /\ save_replaced_values patch = true /\
    enabled patch = en.
Proof.
  intros (game & patch & Hg & Hp & Hav & Hsv & Hen).
  unfold at_index in Hg, Hp. rewrite Nat2Z.id in Hg, Hp.
  exists game, patch. unfold deref. simpl. rewrite Hg. repeat split; done.
Qed.

Lemma same_names_flag st st' game patch en :
  game_list (g_patches_db st) !! g = Some game ->
  patches game !! i = Some patch ->
  game_list (g_patches_db st')
  = <[g := set_patches game (<[i := set_enabled patch en]> (patches game))]>
      (game_list (g_patches_db st)) ->
  same_names st st'.
Proof.
  intros Hg Hp Hl. unfold same_names. rewrite Hl.
  rewrite <- (list_insert_id (game_list (g_patches_db st)) g game Hg) at 1.
  apply Forall2_insert; [apply (same_names_refl st)|]. simpl.
  rewrite <- (list_insert_id (patches game) i patch Hp) at 1.
  apply Forall2_insert; [|done].
  by apply Forall_Forall2_diag, Forall_forall.
Qed.

Lemma set_patch_enabled_here e st en enable :
  patch_at (Z.of_nat g) (Z.of_nat i) pairs st en ->
  fst (xemu_patches_set_patch_enabled e st (Z.of_nat g) (Z.of_nat i) enable)
    = true /\
  same_names st
    (snd (xemu_patches_set_patch_enabled e st (Z.of_nat g) (Z.of_nat i) enable)).
Proof.
  intros Hp. apply patch_at_deref in Hp as (game & patch & Hg & Hpt & _).
  destruct (set_patch_enabled_result e st (Z.of_nat g) (Z.of_nat i) enable
              game patch) as [Hok Hl]; try lia;
    try (unfold at_index; by rewrite Nat2Z.id).
  split; [done|]. rewrite !Nat2Z.id in Hl.
  by eapply same_names_flag.
Qed.

Lemma toggle_pressed_names e st en :
  patch_at (Z.of_nat g) (Z.of_nat i) pairs st en ->
  GetPatchIndices st (g, i) = Some (g, i) ->
  same_names st (toggle_pressed e st (g, i)).
Proof.
  intros Hp Hidx.
  pose proof (set_patch_enabled_here e st en (negb en) Hp) as [Hok Hn].
  apply patch_at_deref in Hp as (game & patch & _ & _ & Hd & _ & _ & Hen).
  unfold toggle_pressed. rewrite Hd, Hidx, Hen. cbv zeta.
  destruct (xemu_patches_set_patch_enabled e st (Z.of_nat g) (Z.of_nat i)
              (negb en)) as [ok sA]. simpl in Hok, Hn. subst ok.
  eapply same_names_trans; [exact Hn|]. apply same_names_games.
  destruct (negb en).
  - destruct (deref sA (g, i)) as [patchA|]; [|done].
    destruct (xemu_patches_apply_patch_with_save_restore e sA patchA
                (Z.of_nat g) (Z.of_nat i)) as [ok s] eqn:E.
    apply apply_patch_db in E. simpl. by rewrite E.
  - destruct (xemu_patches_remove_patch_with_restore e sA
                (Z.of_nat g) (Z.of_nat i)) as [ok s] eqn:E.
    apply remove_patch_with_restore_db in E. simpl. by rewrite E.
Qed.

Variables (S0 : list SavedValueEntry) (cpu : bool).

Hypothesis Hsep : separate pairs.
Hypothesis HS0nd : NoDup (entry_key <$> S0).
Hypothesis HS0free :
  forall x, x ∈ S0 ->
            ~ (sv_game_index x = Z.of_nat g /\ sv_patch_index x = Z.of_nat i).
Hypothesis Hroom : Z.of_nat (length S0 + length pairs) < MAX_SAVED_VALUES.

(** A running guest holding the patch at slot ([g], [i]); [r0] is guest
    memory without the patch. *)
Local Abbreviation running r0 :=
  (toggled (Z.of_nat g) (Z.of_nat i) pairs r0 S0 cpu true true).

(** Restoring a patch of which the store holds nothing does nothing. *)
Lemma remove_after_restore e st r0 :
  running r0 st false ->
  xemu_patches_remove_patch_with_restore e st (Z.of_nat g) (Z.of_nat i)
  = (true, st).
Proof.
  clear Hroom. intros (Hp & _ & _ & _ & _ & Hsto). simpl in Hsto.
  pose proof Hp as (game & patch & Hg & Hpt & Hav & Hsv & _).
  unfold xemu_patches_remove_patch_with_restore.
  rewrite in_range_true
    by (apply lookup_lt_Some in Hg; unfold game_count; lia).
  simpl. rewrite Hg.
  rewrite in_range_true
    by (apply lookup_lt_Some in Hpt; unfold patch_count; lia).
  simpl. rewrite Hpt, Hsv, Hav.
  by apply (restore_pairs_clean (Z.of_nat g) (Z.of_nat i) r0 S0 HS0free).
Qed.

(** Button A on an enabled row. *)
Lemma press_disable e st r0 :
  running r0 st true ->
  GetPatchIndices st (g, i) = Some (g, i) ->
  running r0 (toggle_pressed e st (g, i)) false.
Proof.
  intros Hrun Hidx. pose proof Hrun as (Hp & _).
  pose proof (set_patch_enabled_here e st true false Hp) as [Hok _].
  apply patch_at_deref in Hp as (game & patch & _ & _ & Hd & _ & _ & Hen).
  unfold toggle_pressed. rewrite Hd, Hidx, Hen. simpl negb. cbv iota zeta.
  pose proof (toggle_step (Z.of_nat g) (Z.of_nat i) pairs
                ltac:(lia) ltac:(lia) r0 S0 cpu true true Hsep HS0nd HS0free
                (Z.lt_le_incl _ _ Hroom) e st true false Hrun) as Hoff.
  destruct (xemu_patches_set_patch_enabled e st (Z.of_nat g) (Z.of_nat i) false)
    as [ok st1]. simpl in Hok, Hoff. subst ok.
  by rewrite (remove_after_restore e st1 r0 Hoff).
Qed.

(** Button A on a disabled row: [xemu_patches_set_patch_enabled] applies
    the patch, and the popup applies it once more. *)
Lemma press_enable e st r0 :
  running r0 st false ->
  GetPatchIndices st (g, i) = Some (g, i) ->
  let st1 := toggle_pressed e st (g, i) in
  patch_at (Z.of_nat g) (Z.of_nat i) pairs st1 true /\
  cpu_present (the_guest st1) = cpu /\
  has_system_memory (the_guest st1) = true /\
  phys_readable (the_guest st1) = true /\
  (forall k, ram (the_guest st1) !! k = overlay r0 (W r0 cpu pairs) k) /\
  g_saved_values st1 ≡ₚ
    S0 ++ (patched_entry (Z.of_nat g) (Z.of_nat i) <$> W r0 cpu pairs).
Proof.
  intros Hrun Hidx st1. subst st1. pose proof Hrun as (Hp & _).
  pose proof (set_patch_enabled_here e st false true Hp) as [Hok _].
  apply patch_at_deref in Hp as (game & patch & _ & _ & Hd & _ & _ & Hen).
  unfold toggle_pressed. rewrite Hd, Hidx, Hen. simpl negb. cbv iota zeta.
  pose proof (toggle_step (Z.of_nat g) (Z.of_nat i) pairs
                ltac:(lia) ltac:(lia) r0 S0 cpu true true Hsep HS0nd HS0free
                (Z.lt_le_incl _ _ Hroom) e st false true Hrun) as Hon.
  destruct (xemu_patches_set_patch_enabled e st (Z.of_nat g) (Z.of_nat i) true)
    as [ok sA]. simpl in Hok, Hon. subst ok.
  destruct Hon as (HpA & HcA & HsA & HphA & HmA & HstA). simpl in HmA, HstA.
  pose proof HpA as HpA'.
  apply patch_at_deref in HpA' as (gameA & patchA & _ & _ & HdA & HavA & HsvA & _).
  rewrite HdA.
  unfold xemu_patches_apply_patch_with_save_restore.
  rewrite HsA, HsvA, HavA. simpl negb. cbv iota.
  destruct (apply_pairs e sA true (Z.of_nat g) (Z.of_nat i) pairs true)
    as [ok st1] eqn:Ea.
  apply (reapply_inv (Z.of_nat g) (Z.of_nat i) pairs r0 cpu Hsep
           (ram (the_guest sA)) HmA S0 HS0nd HS0free Hroom e pairs [] sA true
           ok st1) in Ea; [|done|done|exact HstA|done].
  destruct Ea as (Hm1 & Hs1 & Hd1 & Ha & Hb & Hc). simpl.
  split; [unfold patch_at; by rewrite Hd1|].
  split; [congruence|]. split; [congruence|]. split; [congruence|].
  split; [|done]. intros k. by rewrite Hm1.
Qed.

(** After the second application the state is that of a patch applied to
    a guest whose memory held the patch's bytes all along. *)
Lemma running_again st r0 :
  patch_at (Z.of_nat g) (Z.of_nat i) pairs st true ->
  cpu_present (the_guest st) = cpu ->
  has_system_memory (the_guest st) = true ->
  phys_readable (the_guest st) = true ->
  (forall k, ram (the_guest st) !! k = overlay r0 (W r0 cpu pairs) k) ->
  g_saved_values st ≡ₚ
    S0 ++ (patched_entry (Z.of_nat g) (Z.of_nat i) <$> W r0 cpu pairs) ->
  running (ram (the_guest st)) st true.
Proof.
  intros Hp Hc Hs Hph Hm Hst.
  split; [done|]. split; [done|]. split; [done|]. split; [done|]. simpl.
  rewrite (W_r1 pairs r0 cpu (ram (the_guest st)) Hm).
  split.
  - intros k. symmetry.
    apply (overlay_r1 pairs r0 cpu Hsep (ram (the_guest st)) Hm).
  - unfold store_is. rewrite Hst. f_equiv.
    apply reflexive_eq.
    apply Forall_fmap_ext_1, Forall_forall. intros av Hav. symmetry.
    by apply (entry_of_r1 (Z.of_nat g) (Z.of_nat i) pairs r0 cpu Hsep
                (ram (the_guest st)) Hm).
Qed.

End PopupToggle.

(** X22.  Button A in the patches popup on a row of a running game, pressed
    to enable a patch with [save_replaced_values] and pressed again to
    disable it.  The first press applies the patch twice, once inside
    [xemu_patches_set_patch_enabled] and once from the popup, and the
    second application records the patch's own bytes in place of the
    originals.  So after the second press the row shows the patch
    disabled, nothing of it is left in the saved-values store, and every
    pair that could be written still holds the patch's bytes: guest memory
    is what it was after the first press. *)
Theorem popup_button_leaves_patch_bytes (g i : nat) (e1 e2 : env)
    (st0 : engine) (game : XemuGamePatches) (patch : XemuMemoryPatch) :
  game_list (g_patches_db st0) !! g = Some game ->
  patches game !! i = Some patch ->
  save_replaced_values patch = true ->
  enabled patch = false ->
  separate (address_values patch) ->
  NoDup (entry_key <$> g_saved_values st0) ->
  (forall x, x ∈ g_saved_values st0 ->
             ~ (sv_game_index x = Z.of_nat g /\ sv_patch_index x = Z.of_nat i)) ->
  Z.of_nat (length (g_saved_values st0) + length (address_values patch))
    < MAX_SAVED_VALUES ->
  is_game_currently_running st0 = true ->
  GetPatchIndices st0 (g, i) = Some (g, i) ->
  let st1 := toggle_pressed e1 st0 (g, i) in
  let st2 := toggle_pressed e2 st1 (g, i) in
  (exists patch2, deref st2 (g, i) = Some patch2 /\ enabled patch2 = false) /\
  (forall av, av ∈ address_values patch -> readable st0 av = true ->
     read_span (ram (the_guest st2)) (address av) (length (value_data av))
     = Some (value_data av)) /\
  ram (the_guest st2) = ram (the_guest st1) /\
  g_saved_values st2 ≡ₚ g_saved_values st0.
Proof.
  intros Hgame Hpatch Hsv Hen Hsep Hnd Hfree Hroom Hrun Hidx st1 st2.
  set (pairs := address_values patch) in *.
  set (r0 := ram (the_guest st0)).
  set (S0 := g_saved_values st0) in *.
  set (cpu := cpu_present (the_guest st0)).
  assert (has_system_memory (the_guest st0) = true /\
          phys_readable (the_guest st0) = true) as [Hsm Hph].
  { unfold is_game_currently_running, safe_memory_read_probe in Hrun.
    destruct (has_system_memory (the_guest st0)); [|done].
    destruct (phys_readable (the_guest st0)); done. }
  assert (patch_at (Z.of_nat g) (Z.of_nat i) pairs st0 false) as Hp0.
  { exists game, patch. unfold at_index. by rewrite !Nat2Z.id. }
  assert (toggled (Z.of_nat g) (Z.of_nat i) pairs r0 S0 cpu true true st0 false)
    as Hstart.
  { split; [done|]. split; [done|]. split; [done|]. split; [done|]. simpl.
    split; [done|]. unfold store_is. simpl. by rewrite app_nil_r. }
  destruct (press_enable g i pairs S0 cpu Hsep Hnd Hfree Hroom e1 st0 r0
              Hstart Hidx) as (Hp1 & Hc1 & Hs1 & Hph1 & Hm1 & Hst1).
  fold st1 in Hp1, Hc1, Hs1, Hph1, Hm1, Hst1.
  pose proof (running_again g i pairs S0 cpu Hsep st1 r0 Hp1 Hc1 Hs1 Hph1
                Hm1 Hst1) as Hagain.
  assert (GetPatchIndices st1 (g, i) = Some (g, i)) as Hidx1.
  { rewrite <- Hidx. symmetry. apply GetPatchIndices_same_names.
    by apply (toggle_pressed_names g i pairs e1 st0 false). }
  pose proof (press_disable g i pairs S0 cpu Hsep Hnd Hfree Hroom e2 st1
                (ram (the_guest st1)) Hagain Hidx1)
    as (Hp2 & _ & _ & _ & Hm2 & Hst2).
  fold st2 in Hp2, Hm2, Hst2. simpl in Hm2, Hst2.
  assert (ram (the_guest st2) = ram (the_guest st1)) as Hram
    by (apply map_eq; intros k; apply Hm2).
  split.
  { apply patch_at_deref in Hp2 as (game2 & patch2 & _ & _ & Hd & _ & _ & He).
    by exists patch2. }
  split.
  { intros av Hav Hr. rewrite Hram.
    apply (r1_read pairs r0 cpu Hsep (ram (the_guest st1)) Hm1).
    unfold W. apply list_elem_of_filter. split; [exact Hr|exact Hav]. }
  split; [done|].
  unfold store_is in Hst2. simpl in Hst2. by rewrite app_nil_r in Hst2.
Qed.

Lemma popup_button_leaves_patch_bytes_witness :
  let st0 := toggle_start (set_enabled sample_patch false) mapped_guest in
  let st1 := toggle_pressed sample_env st0 (0, 0)%nat in
  let st2 := toggle_pressed sample_env st1 (0, 0)%nat in
  (exists patch2, deref st2 (0, 0)%nat = Some patch2 /\ enabled patch2 = false) /\
  (forall av, av ∈ address_values (set_enabled sample_patch false) ->
     readable st0 av = true ->
     read_span (ram (the_guest st2)) (address av) (length (value_data av))
     = Some (value_data av)) /\
  ram (the_guest st2) = ram (the_guest st1) /\
  g_saved_values st2 ≡ₚ g_saved_values st0.
Proof.
  apply (popup_button_leaves_patch_bytes 0 0 sample_env sample_env
           (toggle_start (set_enabled sample_patch false) mapped_guest)
           (MkGame (Some "Halo") (Some "NTSC") (Some "4D530004")
                   (Some "1.0.0.0") None None None
                   [set_enabled sample_patch false] true)
           (set_enabled sample_patch false));
    try reflexivity.
  - apply separate_cons; [simpl; lia|constructor|constructor].
  - constructor.
  - intros x Hx. inversion Hx.
Defined.

(** ** The patches popup: the checkbox of a row *)

Section PopupCheckbox.

Variables (g i : nat) (pairs : list XemuPatchAddressValue).

(** The flag written through the pointer. *)
Lemma store_enabled_here st en new_enabled :
  patch_at (Z.of_nat g) (Z.of_nat i) pairs st en ->
  let s := store_enabled st (g, i) new_enabled in
  patch_at (Z.of_nat g) (Z.of_nat i) pairs s new_enabled /\
  the_guest s = the_guest st /\ g_saved_values s = g_saved_values st /\
  same_names st s.
Proof.
  intros Hp s. subst s. pose proof Hp as (game & patch & Hg & Hpt & Hav & Hsv & _).
  apply patch_at_deref in Hp as (game' & patch' & Hg' & Hpt' & _).
  unfold at_index in Hg, Hpt. rewrite Nat2Z.id in Hg, Hpt.
  rewrite Hg in Hg'. injection Hg' as <-.
  rewrite Hpt in Hpt'. injection Hpt' as <-.
  unfold store_enabled. simpl. rewrite Hg, Hpt.
  split.
  { apply (patch_at_replace (Z.of_nat g) (Z.of_nat i) pairs st game patch
             (set_enabled patch new_enabled)); try done;
      unfold at_index; by rewrite Nat2Z.id. }
  split; [done|]. split; [done|].
  apply (same_names_flag g i st _ game patch new_enabled Hg Hpt).
  unfold replace_patch, game_list. simpl. by rewrite !Nat2Z.id.
Qed.

(** [xemu_patches_set_patch_enabled] with the flag the patch has already:
    it saves and notifies, and touches neither the guest nor the store. *)
Lemma set_patch_enabled_noop e st en :
  patch_at (Z.of_nat g) (Z.of_nat i) pairs st en ->
  fst (xemu_patches_set_patch_enabled e st (Z.of_nat g) (Z.of_nat i) en) = true /\
  bookkeeping st
    (snd (xemu_patches_set_patch_enabled e st (Z.of_nat g) (Z.of_nat i) en)).
Proof.
  intros Hp. split; [by apply (set_patch_enabled_here g i pairs e st en en)|].
  destruct Hp as (game & patch & Hg & Hpt & _ & _ & Hen).
  unfold xemu_patches_set_patch_enabled.
  rewrite in_range_true
    by (apply lookup_lt_Some in Hg; unfold game_count; lia).
  simpl. rewrite Hg.
  rewrite in_range_true
    by (apply lookup_lt_Some in Hpt; unfold patch_count; lia).
  simpl. rewrite Hpt. cbv zeta. rewrite Hen.
  assert (en && negb en = false) as -> by (by destruct en).
  assert (negb en && en = false) as -> by (by destruct en).
  set (st1 := set_db _ st).
  assert (bookkeeping st st1) as Hb.
  { subst st1. unfold bookkeeping, replace_patch, game_list. simpl.
    split; [|done].
    assert (set_enabled patch en = patch) as ->
      by (rewrite <- Hen; by destruct patch).
    unfold at_index in Hg, Hpt. rewrite (list_insert_id _ _ _ Hpt).
    assert (set_patches game (patches game) = game) as -> by (by destruct game).
    apply list_insert_id. exact Hg. }
  match goal with
  | |- context [xemu_queue_notification ?t _] =>
      pose proof (finish_bookkeeping e st1 t) as Hf
  end.
  destruct (xemu_patches_save_database e (mark_dirty true st1)) as [saved st3].
  simpl. by eapply bookkeeping_trans.
Qed.

Variables (S0 : list SavedValueEntry) (cpu : bool).

Hypothesis Hsep : separate pairs.
Hypothesis HS0nd : NoDup (entry_key <$> S0).
Hypothesis HS0free :
  forall x, x ∈ S0 ->
            ~ (sv_game_index x = Z.of_nat g /\ sv_patch_index x = Z.of_nat i).
Hypothesis Hroom : Z.of_nat (length S0 + length pairs) <= MAX_SAVED_VALUES.

Local Abbreviation running r0 :=
  (toggled (Z.of_nat g) (Z.of_nat i) pairs r0 S0 cpu true true).

(** What the two clicks share: the flag stored, the call that finds
    nothing to do, and the state handed to the apply or restore call. *)
Lemma checkbox_prepared e st r0 en :
  running r0 st en ->
  GetPatchIndices st (g, i) = Some (g, i) ->
  let s0 := store_enabled st (g, i) (negb en) in
  let r := xemu_patches_set_patch_enabled e s0 (Z.of_nat g) (Z.of_nat i)
             (negb en) in
  GetPatchIndices s0 (g, i) = Some (g, i) /\ fst r = true /\
  patch_at (Z.of_nat g) (Z.of_nat i) pairs (snd r) (negb en) /\
  the_guest (snd r) = the_guest st /\
  g_saved_values (snd r) = g_saved_values st /\
  same_names st (snd r).
Proof.
  intros (Hp & _) Hidx s0 r.
  destruct (store_enabled_here st en (negb en) Hp) as (Hp0 & Hg0 & Hv0 & Hn0).
  fold s0 in Hp0, Hg0, Hv0, Hn0.
  destruct (set_patch_enabled_noop e s0 (negb en) Hp0) as [Hok Hb].
  fold r in Hok, Hb. pose proof Hb as (Hl & Hgb & Hvb).
  split; [by rewrite <- (GetPatchIndices_same_names st s0 _ Hn0)|].
  split; [done|].
  split; [by eapply patch_at_bookkeeping|].
  split; [congruence|]. split; [congruence|].
  eapply same_names_trans; [exact Hn0|]. by apply same_names_games.
Qed.

(** A click on the checkbox of a disabled row. *)
Lemma click_enable e st r0 :
  running r0 st false ->
  GetPatchIndices st (g, i) = Some (g, i) ->
  running r0 (checkbox_clicked e st (g, i)) true.
Proof.
  intros Hrun Hidx.
  destruct (checkbox_prepared e st r0 false Hrun Hidx)
    as (Hidx0 & Hok & HpA & HgA & HvA & _).
  destruct Hrun as (Hp & Hc & Hs & Hph & Hm & Hsto). simpl in Hm, Hsto, Hok, HpA.
  apply patch_at_deref in Hp as (game & patch & _ & _ & Hd & _ & _ & Hen).
  unfold checkbox_clicked. rewrite Hd, Hen. simpl negb in *. cbv zeta.
  rewrite Hidx0.
  destruct (xemu_patches_set_patch_enabled e (store_enabled st (g, i) true)
              (Z.of_nat g) (Z.of_nat i) true) as [ok sA].
  simpl in Hok, HpA, HgA, HvA. subst ok. cbv iota.
  pose proof HpA as HpA'.
  apply patch_at_deref in HpA' as (gameA & patchA & _ & _ & HdA & HavA & HsvA & _).
  rewrite HdA. unfold xemu_patches_apply_patch_with_save_restore.
  rewrite HgA, Hs, HsvA, HavA. simpl negb. cbv iota.
  destruct (apply_pairs e sA true (Z.of_nat g) (Z.of_nat i) pairs true)
    as [ok st1] eqn:Ea.
  apply (apply_pairs_inv (Z.of_nat g) (Z.of_nat i) pairs r0 S0 cpu Hsep HS0free
           Hroom e pairs [] sA true ok st1) in Ea;
    [|done|intros k; rewrite HgA; apply Hm
     |unfold store_is; by rewrite HvA|by rewrite HgA].
  destruct Ea as (Hm1 & Hs1 & Hd1 & Ha & Hb & Hc'). simpl.
  split; [unfold patch_at; by rewrite Hd1|].
  rewrite HgA in Ha, Hb, Hc'.
  split; [congruence|]. split; [congruence|]. split; [congruence|].
  simpl. by split.
Qed.

(** A click on the checkbox of an enabled row. *)
Lemma click_disable e st r0 :
  running r0 st true ->
  GetPatchIndices st (g, i) = Some (g, i) ->
  running r0 (checkbox_clicked e st (g, i)) false.
Proof.
  intros Hrun Hidx.
  destruct (checkbox_prepared e st r0 true Hrun Hidx)
    as (Hidx0 & Hok & HpA & HgA & HvA & _).
  destruct Hrun as (Hp & Hc & Hs & Hph & Hm & Hsto). simpl in Hm, Hsto, Hok, HpA.
  apply patch_at_deref in Hp as (game & patch & _ & _ & Hd & _ & _ & Hen).
  unfold checkbox_clicked. rewrite Hd, Hen. simpl negb in *. cbv zeta.
  rewrite Hidx0.
  destruct (xemu_patches_set_patch_enabled e (store_enabled st (g, i) false)
              (Z.of_nat g) (Z.of_nat i) false) as [ok sA].
  simpl in Hok, HpA, HgA, HvA. subst ok. cbv iota.
  pose proof HpA as (gameA & patchA & HgmA & HptA & HavA & HsvA & _).
  unfold xemu_patches_remove_patch_with_restore.
  rewrite in_range_true
    by (apply lookup_lt_Some in HgmA; unfold game_count; lia).
  simpl. rewrite HgmA.
  rewrite in_range_true
    by (apply lookup_lt_Some in HptA; unfold patch_count; lia).
  simpl. rewrite HptA, HsvA, HavA.
  destruct (restore_pairs e sA (Z.of_nat g) (Z.of_nat i) pairs true)
    as [ok st1] eqn:Ea.
  apply (restore_pairs_inv (Z.of_nat g) (Z.of_nat i) pairs r0 S0 cpu Hsep HS0nd
           HS0free Hroom e pairs [] sA true ok st1) in Ea;
    [|done|intros k; rewrite HgA; apply Hm
     |unfold store_is; by rewrite HvA|by rewrite HgA].
  destruct Ea as (Hm1 & Hs1 & Hd1 & Ha & Hb & Hc'). simpl.
  split; [unfold patch_at; by rewrite Hd1|].
  rewrite HgA in Ha, Hb, Hc'.
  split; [congruence|]. split; [congruence|]. split; [congruence|].
  simpl. by split.
Qed.

Lemma checkbox_clicked_names e st r0 en :
  running r0 st en ->
  GetPatchIndices st (g, i) = Some (g, i) ->
  same_names st (checkbox_clicked e st (g, i)).
Proof.
  intros Hrun Hidx.
  destruct (checkbox_prepared e st r0 en Hrun Hidx)
    as (Hidx0 & Hok & _ & _ & _ & Hn).
  destruct Hrun as (Hp & _).
  apply patch_at_deref in Hp as (game & patch & _ & _ & Hd & _ & _ & Hen).
  unfold checkbox_clicked. rewrite Hd, Hen. cbv zeta. rewrite Hidx0.
  destruct (xemu_patches_set_patch_enabled e (store_enabled st (g, i) (negb en))
              (Z.of_nat g) (Z.of_nat i) (negb en)) as [ok sA].
  simpl in Hok, Hn. subst ok.
  eapply same_names_trans; [exact Hn|]. apply same_names_games.
  destruct (negb en).
  - destruct (deref sA (g, i)) as [patchA|]; [|done].
    destruct (xemu_patches_apply_patch_with_save_restore e sA patchA
                (Z.of_nat g) (Z.of_nat i)) as [ok s] eqn:E.
    apply apply_patch_db in E. simpl. by rewrite E.
  - destruct (xemu_patches_remove_patch_with_restore e sA
                (Z.of_nat g) (Z.of_nat i)) as [ok s] eqn:E.
    apply remove_patch_with_restore_db in E. simpl. by rewrite E.
Qed.

End PopupCheckbox.

(** X23.  The checkbox of the same row, clicked to enable the patch and
    clicked again to disable it.  The popup stores the flag before it
    calls [xemu_patches_set_patch_enabled], which then finds nothing to
    change, so the patch is applied once and restored once: after the
    first click every pair that could be written holds the patch's bytes,
    after the second guest memory and the saved-values store are what they
    were before the first. *)
Theorem popup_checkbox_restores_memory (g i : nat) (e1 e2 : env)
    (st0 : engine) (game : XemuGamePatches) (patch : XemuMemoryPatch) :
  game_list (g_patches_db st0) !! g = Some game ->
  patches game !! i = Some patch ->
  save_replaced_values patch = true ->
  enabled patch = false ->
  separate (address_values patch) ->
  NoDup (entry_key <$> g_saved_values st0) ->
  (forall x, x ∈ g_saved_values st0 ->
             ~ (sv_game_index x = Z.of_nat g /\ sv_patch_index x = Z.of_nat i)) ->
  Z.of_nat (length (g_saved_values st0) + length (address_values patch))
    <= MAX_SAVED_VALUES ->
  is_game_currently_running st0 = true ->
  GetPatchIndices st0 (g, i) = Some (g, i) ->
  let st1 := checkbox_clicked e1 st0 (g, i) in
  let st2 := checkbox_clicked e2 st1 (g, i) in
  (forall av, av ∈ address_values patch -> readable st0 av = true ->
     read_span (ram (the_guest st1)) (address av) (length (value_data av))
     = Some (value_data av)) /\
  (exists patch2, deref st2 (g, i) = Some patch2 /\ enabled patch2 = false) /\
  ram (the_guest st2) = ram (the_guest st0) /\
  g_saved_values st2 ≡ₚ g_saved_values st0.
Proof.
  intros Hgame Hpatch Hsv Hen Hsep Hnd Hfree Hroom Hrun Hidx st1 st2.
  set (pairs := address_values patch) in *.
  set (r0 := ram (the_guest st0)).
  set (S0 := g_saved_values st0) in *.
  set (cpu := cpu_present (the_guest st0)).
  assert (has_system_memory (the_guest st0) = true /\
          phys_readable (the_guest st0) = true) as [Hsm Hph].
  { unfold is_game_currently_running, safe_memory_read_probe in Hrun.
    destruct (has_system_memory (the_guest st0)); [|done].
    destruct (phys_readable (the_guest st0)); done. }
  assert (toggled (Z.of_nat g) (Z.of_nat i) pairs r0 S0 cpu true true st0 false)
    as Hstart.
  { split; [exists game, patch; unfold at_index; by rewrite !Nat2Z.id|].
    split; [done|]. split; [done|]. split; [done|]. simpl.
    split; [done|]. unfold store_is. simpl. by rewrite app_nil_r. }
  pose proof (click_enable g i pairs S0 cpu Hsep Hfree Hroom e1 st0 r0
                Hstart Hidx) as Hon.
  fold st1 in Hon.
  assert (GetPatchIndices st1 (g, i) = Some (g, i)) as Hidx1.
  { rewrite <- Hidx. symmetry. apply GetPatchIndices_same_names.
    by apply (checkbox_clicked_names g i pairs S0 cpu e1 st0 r0 false). }
  pose proof (click_disable g i pairs S0 cpu Hsep Hnd Hfree Hroom e2 st1 r0
                Hon Hidx1) as (Hp2 & _ & _ & _ & Hm2 & Hst2).
  fold st2 in Hp2, Hm2, Hst2. simpl in Hm2, Hst2.
  destruct Hon as (_ & _ & _ & _ & Hm1 & _). simpl in Hm1.
  split.
  { intros av Hav Hr.
    apply (r1_read pairs r0 cpu Hsep (ram (the_guest st1)) Hm1).
    unfold W. apply list_elem_of_filter. split; [exact Hr|exact Hav]. }
  split.
  { apply patch_at_deref in Hp2 as (game2 & patch2 & _ & _ & Hd & _ & _ & He).
    by exists patch2. }
  split; [apply map_eq; intros k; apply Hm2|].
  unfold store_is in Hst2. simpl in Hst2. by rewrite app_nil_r in Hst2.
Qed.

Lemma popup_checkbox_restores_memory_witness :
  let st0 := toggle_start (set_enabled sample_patch false) mapped_guest in
  let st1 := checkbox_clicked sample_env st0 (0, 0)%nat in
  let st2 := checkbox_clicked sample_env st1 (0, 0)%nat in
  (forall av, av ∈ address_values (set_enabled sample_patch false) ->
     readable st0 av = true ->
     read_span (ram (the_guest st1)) (address av) (length (value_data av))
     = Some (value_data av)) /\
  (exists patch2, deref st2 (0, 0)%nat = Some patch2 /\ enabled patch2 = false) /\
  ram (the_guest st2) = ram (the_guest st0) /\
  g_saved_values st2 ≡ₚ g_saved_values st0.
Proof.
  apply (popup_checkbox_restores_memory 0 0 sample_env sample_env
           (toggle_start (set_enabled sample_patch false) mapped_guest)
           (MkGame (Some "Halo") (Some "NTSC") (Some "4D530004")
                   (Some "1.0.0.0") None None None
                   [set_enabled sample_patch false] true)
           (set_enabled sample_patch false));
    try reflexivity.
  - apply separate_cons; [simpl; lia|constructor|constructor].
  - constructor.
  - intros x Hx. inversion Hx.
  - vm_compute. discriminate.
Defined.
